(** * Elephant Tracks trace replay: a shallow embedding of the replayers

    The development follows the three replayers of [gem5-simulation/src]:

    - [Oracle]   : [OracleReplayer.h] / [OracleReplayer.cpp]
                   (queue every free, drain the queue before each allocation);
    - [Enhanced] : [TraceReplayerEnhanced.cpp]
                   ([ExplicitMemoryManager], [GCSimulator], [TraceReplayer]);
    - [CReplay]  : [TraceReplayer.c] (chained hash table, [handle_alloc],
                   [handle_free]).

    Unsigned 64-bit counters ([size_t], [uint64_t]) are integers of [Z] with
    the wrap-around written out ([wrap64]).  Pointers are integers, [0] being
    the null pointer.  The allocator ([malloc]/[free], or an
    [AllocatorBackend]) is a parameter of each section: a state type and the
    two transition functions; nothing is assumed about it. *)

From Stdlib Require Import ZArith String Ascii List Lia Bool Sorted Permutation.
From stdpp Require Import gmap strings list fin_maps sorting.

Local Open Scope Z_scope.

(** ** Machine integers *)

Definition wrap64 (z : Z) : Z := z mod 2 ^ 64.
Definition wrap32 (z : Z) : Z := z mod 2 ^ 32.
Definition UINT64_MAX : Z := 2 ^ 64 - 1.

(** A pointer; [nullptr] is [0]. *)
Definition nullptr : Z := 0.

(** Sum of the sizes [f x] of the entries [x] of a table keyed by object id. *)
Definition sum_of {A} (f : A -> Z) (m : gmap Z A) : Z :=
  map_fold (fun _ x acc => f x + acc) 0 m.

(** Running maximum of a list of unsigned counters. *)
Definition max_of (l : list Z) : Z := foldr Z.max 0 l.

(** The entries of a [std::map] keyed by integers in iteration order, that
    is by ascending key. *)
Definition key_le {A} (a b : Z * A) : Prop := a.1 <= b.1.

#[global] Instance key_le_dec {A} : RelDecision (@key_le A) :=
  fun a b => decide (a.1 <= b.1).

Definition std_map_items {A} (m : gmap Z A) : list (Z * A) :=
  merge_sort key_le (map_to_list m).

(** ** The allocator, observed

    Any C library allocator together with the record of the calls made on
    it, oldest first. *)

Inductive HeapCall :=
| Malloc (size result : Z)
| Free (ptr : Z).

Definition returns_address (q : Z) (c : HeapCall) : bool :=
  match c with Malloc _ p => p =? q | Free _ => false end.

Definition frees_address (q : Z) (c : HeapCall) : bool :=
  match c with Malloc _ _ => false | Free p => p =? q end.

(** How often [malloc] has returned the address [q], how often [free] was
    called with it. *)
Definition times_allocated (q : Z) (log : list HeapCall) : Z :=
  Z.of_nat (length (List.filter (returns_address q) log)).

Definition times_freed (q : Z) (log : list HeapCall) : Z :=
  Z.of_nat (length (List.filter (frees_address q) log)).

Section Logged.

Variable Heap : Type.
Variable malloc : Z -> Heap -> Z * Heap.
Variable free : Z -> Heap -> Heap.

Definition logged_malloc (size : Z) (h : Heap * list HeapCall) : Z * (Heap * list HeapCall) :=
  let '(p, h') := malloc size h.1 in (p, (h', h.2 ++ [Malloc size p])).

Definition logged_free (p : Z) (h : Heap * list HeapCall) : Heap * list HeapCall :=
  (free p h.1, h.2 ++ [Free p]).

End Logged.

Arguments logged_malloc {Heap} malloc size h.
Arguments logged_free {Heap} free p h.

(** ** Reading numbers out of text (the C library) *)

(** [isspace] in the "C" locale. *)
Definition isspace (c : ascii) : bool :=
  let n := Z.of_nat (nat_of_ascii c) in (n =? 32) || ((9 <=? n) && (n <=? 13)).

Definition digit_value (c : ascii) : option Z :=
  let n := Z.of_nat (nat_of_ascii c) in
  if (48 <=? n) && (n <=? 57) then Some (n - 48) else None.

Fixpoint skip_space (s : string) : string :=
  match s with
  | String c rest => if isspace c then skip_space rest else s
  | EmptyString => s
  end.

(** The longest prefix of decimal digits: its value and its length. *)
Fixpoint read_digits (s : string) (acc : Z) (n : nat) : Z * nat :=
  match s with
  | String c rest =>
      match digit_value c with
      | Some d => read_digits rest (10 * acc + d) (S n)
      | None => (acc, n)
      end
  | EmptyString => (acc, n)
  end.

Definition LONG_MAX : Z := 2 ^ 63 - 1.
Definition LONG_MIN : Z := - 2 ^ 63.

(** [strtol(s, NULL, 10)]: white space, an optional sign, digits; 0 when
    there is no digit, and the nearest bound when the value does not fit. *)
Definition strtol (s : string) : Z :=
  let s := skip_space s in
  let '(negative, s) :=
    match s with
    | String c rest =>
        if Ascii.eqb c "-"%char then (true, rest)
        else if Ascii.eqb c "+"%char then (false, rest)
        else (false, s)
    | EmptyString => (false, s)
    end in
  let '(v, _) := read_digits s 0 O in
  if negative then Z.max (- v) LONG_MIN else Z.min v LONG_MAX.

(** Conversion of a [long] to [int] (two's complement, 32 bits). *)
Definition to_int (z : Z) : Z := (z + 2 ^ 31) mod 2 ^ 32 - 2 ^ 31.

(** [atoi], as the C library defines it: [(int) strtol(s, NULL, 10)]. *)
Definition atoi (s : string) : Z := to_int (strtol s).

(** [atol] *)
Definition atol (s : string) : Z := strtol s.

(** ** Oracle replayer ([OracleReplayer.h], [OracleReplayer.cpp]) *)

Module Oracle.

(** [struct Event] *)
Record Event := mkEvent {
  timestamp : Z;          (* uint64_t *)
  event_type : string;    (* "alloc" or "free" *)
  object_id : Z;          (* uint64_t *)
  size : Z;               (* size_t *)
  site_id : Z;            (* uint32_t *)
  thread_id : Z;          (* uint64_t *)
  type_id : Z             (* uint32_t *)
}.

Definition is_alloc (e : Event) : bool := String.eqb (event_type e) "alloc"%string.
Definition is_free (e : Event) : bool := String.eqb (event_type e) "free"%string.

(** [struct AllocatedObject] *)
Record AllocatedObject := mkObject {
  address : Z;            (* void* *)
  obj_size : Z;           (* size_t size *)
  alloc_time : Z;         (* uint64_t *)
  obj_site_id : Z         (* uint32_t site_id *)
}.

(** [struct Statistics] *)
Record Statistics := mkStatistics {
  total_allocations : Z;
  total_frees : Z;
  bytes_allocated : Z;
  bytes_freed : Z;
  peak_memory : Z;
  current_memory : Z;
  allocations_per_site : gmap Z Z;
  bytes_per_site : gmap Z Z;
  total_lifetime : Z;
  max_lifetime : Z;
  min_lifetime : Z
}.

Definition initial_statistics : Statistics :=
  mkStatistics 0 0 0 0 0 0 ∅ ∅ 0 0 UINT64_MAX.

(** [m[k] += d] on a [std::map<uint32_t, uint64_t>]: a missing key is
    value-initialised to 0 first. *)
Definition map_add (k d : Z) (m : gmap Z Z) : gmap Z Z :=
  <[k := wrap64 (default 0 (m !! k) + d)]> m.

(** [Statistics::record_allocation] *)
Definition record_allocation (sz site : Z) (s : Statistics) : Statistics :=
  let current := wrap64 (current_memory s + sz) in
  {| total_allocations := wrap64 (total_allocations s + 1);
     total_frees := total_frees s;
     bytes_allocated := wrap64 (bytes_allocated s + sz);
     bytes_freed := bytes_freed s;
     peak_memory := if peak_memory s <? current then current else peak_memory s;
     current_memory := current;
     allocations_per_site := map_add site 1 (allocations_per_site s);
     bytes_per_site := map_add site sz (bytes_per_site s);
     total_lifetime := total_lifetime s;
     max_lifetime := max_lifetime s;
     min_lifetime := min_lifetime s |}.

(** [Statistics::record_free] *)
Definition record_free (sz lifetime : Z) (s : Statistics) : Statistics :=
  {| total_allocations := total_allocations s;
     total_frees := wrap64 (total_frees s + 1);
     bytes_allocated := bytes_allocated s;
     bytes_freed := wrap64 (bytes_freed s + sz);
     peak_memory := peak_memory s;
     current_memory := wrap64 (current_memory s - sz);
     allocations_per_site := allocations_per_site s;
     bytes_per_site := bytes_per_site s;
     total_lifetime := wrap64 (total_lifetime s + lifetime);
     max_lifetime := if max_lifetime s <? lifetime then lifetime else max_lifetime s;
     min_lifetime := if lifetime <? min_lifetime s then lifetime else min_lifetime s |}.

(** *** Reading a row of the oracle CSV *)

(** What a call can end with besides returning: the two exceptions of
    [std::stoull] / [std::stoul].  Nothing in the program catches them. *)
Inductive Exception := invalid_argument | out_of_range.

(** [std::getline(iss, field, ',')]: [None] when the extraction fails (nothing
    is left in the stream), otherwise the field and the rest of the stream.
    The delimiter is extracted and dropped. *)
Fixpoint split_comma (s : string) : string * string :=
  match s with
  | EmptyString => (EmptyString, EmptyString)
  | String c rest =>
      if Ascii.eqb c ","%char then (EmptyString, rest)
      else let '(field, rest') := split_comma rest in (String c field, rest')
  end.

Definition getline_comma (iss : string) : option (string * string) :=
  match iss with
  | EmptyString => None
  | _ => Some (split_comma iss)
  end.

(** [std::stoull(field)] (base 10, no position argument), that is
    [strtoull]: leading white space, an optional sign, digits; whatever
    follows the digits is ignored.  No digit: [invalid_argument].  A
    magnitude above [ULLONG_MAX]: [out_of_range].  A minus sign negates in
    the unsigned type. *)
Definition stoull (field : string) : Exception + Z :=
  let s := skip_space field in
  let '(negative, s) :=
    match s with
    | String c rest =>
        if Ascii.eqb c "-"%char then (true, rest)
        else if Ascii.eqb c "+"%char then (false, rest)
        else (false, s)
    | EmptyString => (false, s)
    end in
  let '(v, n) := read_digits s 0 O in
  match n with
  | O => inl invalid_argument
  | _ => if UINT64_MAX <? v then inl out_of_range
         else inr (if negative then wrap64 (- v) else v)
  end.

(** [std::stoul]: [unsigned long] has 64 bits on the LP64 targets the
    simulator is built for. *)
Definition stoul (field : string) : Exception + Z := stoull field.

(** How [parse_event] ends. *)
Inductive ParseResult :=
| Parsed (e : Event)        (* returned true, [event] filled *)
| Rejected                  (* returned false *)
| Thrown (x : Exception).   (* left by an exception *)

(** [if (!std::getline(iss, field, ',')) return false;] then the rest. *)
Definition next_field (iss : string) (k : string -> string -> ParseResult) : ParseResult :=
  match getline_comma iss with
  | None => Rejected
  | Some (field, rest) => k field rest
  end.

(** [x = std::stoull(field);] then the rest. *)
Definition converted (r : Exception + Z) (k : Z -> ParseResult) : ParseResult :=
  match r with
  | inl x => Thrown x
  | inr v => k v
  end.

(** [OracleReplayer::parse_event] *)
Definition parse_event (line : string) : ParseResult :=
  next_field line (fun field iss =>
  converted (stoull field) (fun timestamp =>
  next_field iss (fun field iss =>
  let event_type := field in
  next_field iss (fun field iss =>
  converted (stoull field) (fun object_id =>
  next_field iss (fun field iss =>
  converted (stoull field) (fun size =>
  next_field iss (fun field iss =>
  converted (stoul field) (fun site_id =>
  next_field iss (fun field iss =>
  converted (stoull field) (fun thread_id =>
  next_field iss (fun field iss =>
  converted (stoul field) (fun type_id =>
  Parsed (mkEvent timestamp event_type object_id size (wrap32 site_id)
                  thread_id (wrap32 type_id))))))))))))))).

(** The [while (std::getline(file, line))] loop of [load_oracle] over the
    lines of the file, [events] being [events_] so far. *)
Fixpoint read_rows (lines : list string) (header_skipped : bool) (events : list Event)
  : Exception + list Event :=
  match lines with
  | [] => inr events
  | line :: rest =>
      if negb header_skipped then read_rows rest true events
      else if String.eqb line EmptyString then read_rows rest header_skipped events
      else match parse_event line with
           | Parsed event => read_rows rest header_skipped (events ++ [event])
           | Rejected => read_rows rest header_skipped events
           | Thrown x => inl x
           end
  end.

(** The comparison passed to [std::sort]. *)
Definition by_timestamp (a b : Event) : bool := timestamp a <? timestamp b.

(** The order of the timestamps. *)
Definition timestamp_le (a b : Event) : Prop := timestamp a <= timestamp b.

(** The events of the lines that [parse_event] accepts, in the order of the
    lines. *)
Definition accepted_rows (lines : list string) : list Event :=
  flat_map (fun line => match parse_event line with Parsed e => [e] | _ => [] end) lines.

(** What the C++ standard promises of [std::sort] with the comparison
    [by_timestamp]: the result is a rearrangement of the input in which no
    element is followed by one with a smaller timestamp.  The order of the
    elements with equal timestamps is unspecified. *)
Definition std_sort_contract
    (sort : (Event -> Event -> bool) -> list Event -> list Event) : Prop :=
  forall l, Permutation (sort by_timestamp l) l /\
            StronglySorted (fun a b => timestamp a <= timestamp b) (sort by_timestamp l).

(** [output] keeps the events of every timestamp in the order they have in
    [input]. *)
Definition keeps_input_order (input output : list Event) : Prop :=
  forall t, List.filter (fun e => timestamp e =? t) output
            = List.filter (fun e => timestamp e =? t) input.

(** How a call of the program ends: it returns, or an exception nobody
    catches reaches [std::terminate]. *)
Inductive Outcome (A : Type) :=
| Returns (a : A)
| Terminates (x : Exception).
Arguments Returns {A} a.
Arguments Terminates {A} x.

(** What the replayer writes: the two [std::cerr] diagnostics of the replay
    path and the [verbose_] progress lines of [std::cout]. *)
Inductive Output :=
| ErrCannotOpen                                 (* "Error: Cannot open oracle file" *)
| OutLoaded (n allocs frees : Z)                (* "Loaded n events from oracle", the two counts *)
| ErrNoEvents                                   (* "Error: No events to replay" *)
| OutStarting (total : Z)                       (* "=== Starting Oracle Replay ===" *)
| OutProgress (index total : Z)                 (* "Progress: i/n events" *)
| OutRemaining (n : Z)                          (* "Executing n remaining frees at end of trace..." *)
| OutComplete                                   (* "Replay complete!" *)
| ErrMallocFailed (id sz : Z)                   (* "Error: malloc failed for object" *)
| OutAlloc (n id sz : Z)                        (* "Alloc #n (obj id, sz bytes)" *)
| OutQueued (id n : Z)                          (* "Queued free for obj id (n pending)" *)
| OutExecuting (n next_alloc_size : Z)          (* "Executing n pending frees before allocation of k bytes" *)
| WarnUnknown (id : Z)                          (* "Warning: Attempt to free unknown object" *)
| OutFree (n id lifetime : Z).                  (* "Free #n (obj id, lifetime l)" *)

Definition is_warning (o : Output) : bool :=
  match o with WarnUnknown _ => true | _ => false end.

(** Number of "unknown object" warnings written so far. *)
Definition warnings (out : list Output) : nat := length (List.filter is_warning out).

Definition is_malloc_error (o : Output) : bool :=
  match o with ErrMallocFailed _ _ => true | _ => false end.

(** Number of "malloc failed" errors written so far. *)
Definition malloc_errors (out : list Output) : nat :=
  length (List.filter is_malloc_error out).

Section Replayer.

(** The C library allocator: its state and the two calls the replayer makes. *)
Variable Heap : Type.
Variable malloc : Z -> Heap -> Z * Heap.
Variable free : Z -> Heap -> Heap.

(** [std::sort] of the C++ library in use, for a comparison function. *)
Variable std_sort : (Event -> Event -> bool) -> list Event -> list Event.

(** [class OracleReplayer], with the allocator state and the output written
    so far (oldest first). *)
Record Replayer := mkReplayer {
  verbose_ : bool;
  current_event_index_ : Z;
  events_ : list Event;
  live_objects_ : gmap Z AllocatedObject;
  pending_frees_ : list Event;        (* std::queue: front is the head *)
  stats_ : Statistics;
  heap : Heap;
  output : list Output
}.

(** The constructor [OracleReplayer(verbose)], with [evs] in [events_]
    ([load_oracle] fills it; the constructor leaves it empty). *)
Definition new_replayer (verbose : bool) (evs : list Event) (h : Heap) : Replayer :=
  mkReplayer verbose 0 evs ∅ [] initial_statistics h [].

Definition with_index (i : Z) (r : Replayer) : Replayer :=
  mkReplayer (verbose_ r) i (events_ r) (live_objects_ r) (pending_frees_ r)
             (stats_ r) (heap r) (output r).
Definition with_events (evs : list Event) (r : Replayer) : Replayer :=
  mkReplayer (verbose_ r) (current_event_index_ r) evs (live_objects_ r) (pending_frees_ r)
             (stats_ r) (heap r) (output r).
Definition with_live (m : gmap Z AllocatedObject) (r : Replayer) : Replayer :=
  mkReplayer (verbose_ r) (current_event_index_ r) (events_ r) m (pending_frees_ r)
             (stats_ r) (heap r) (output r).
Definition with_pending (q : list Event) (r : Replayer) : Replayer :=
  mkReplayer (verbose_ r) (current_event_index_ r) (events_ r) (live_objects_ r) q
             (stats_ r) (heap r) (output r).
Definition with_stats (s : Statistics) (r : Replayer) : Replayer :=
  mkReplayer (verbose_ r) (current_event_index_ r) (events_ r) (live_objects_ r)
             (pending_frees_ r) s (heap r) (output r).
Definition with_heap (h : Heap) (r : Replayer) : Replayer :=
  mkReplayer (verbose_ r) (current_event_index_ r) (events_ r) (live_objects_ r)
             (pending_frees_ r) (stats_ r) h (output r).
Definition emit (o : Output) (r : Replayer) : Replayer :=
  mkReplayer (verbose_ r) (current_event_index_ r) (events_ r) (live_objects_ r)
             (pending_frees_ r) (stats_ r) (heap r) (output r ++ [o]).

(** [if (verbose_ && c) std::cout << o] *)
Definition emit_if (c : bool) (o : Output) (r : Replayer) : Replayer :=
  if verbose_ r && c then emit o r else r.

Definition queue_size (r : Replayer) : Z := Z.of_nat (length (pending_frees_ r)).
Definition queue_empty (r : Replayer) : bool :=
  match pending_frees_ r with [] => true | _ => false end.

(** [OracleReplayer::load_oracle]; the file is the list of its lines as
    [std::getline] delivers them, [None] when it cannot be opened. *)
Definition load_oracle (csv_file : option (list string)) (r : Replayer)
  : Outcome (bool * Replayer) :=
  match csv_file with
  | None => Returns (false, emit ErrCannotOpen r)
  | Some lines =>
      match read_rows lines false (events_ r) with
      | inl x => Terminates x
      | inr events =>
          let r := with_events (std_sort by_timestamp events) r in
          let count p := Z.of_nat (length (List.filter p (events_ r))) in
          let r := emit_if true
                     (OutLoaded (Z.of_nat (length (events_ r))) (count is_alloc)
                        (count (fun e => negb (is_alloc e) && is_free e))) r in
          Returns (match events_ r with [] => false | _ => true end, r)
      end
  end.

(** [OracleReplayer::do_malloc] *)
Definition do_malloc (sz : Z) (r : Replayer) : Z * Replayer :=
  let '(p, h) := malloc sz (heap r) in (p, with_heap h r).

(** [OracleReplayer::do_free] *)
Definition do_free (p : Z) (r : Replayer) : Replayer :=
  if p =? nullptr then r else with_heap (free p (heap r)) r.

(** One iteration of the [while] loop of [execute_pending_frees], for the
    front element [free_event]; both paths end with [pending_frees_.pop()]. *)
Definition free_front (free_event : Event) (r : Replayer) : Replayer :=
  let pop r := with_pending (tail (pending_frees_ r)) r in
  match live_objects_ r !! object_id free_event with
  | None => pop (emit (WarnUnknown (object_id free_event)) r)
  | Some obj =>
      let lifetime := wrap64 (timestamp free_event - alloc_time obj) in
      let r := do_free (address obj) r in
      let r := with_stats (record_free (obj_size obj) lifetime (stats_ r)) r in
      let r := with_live (delete (object_id free_event) (live_objects_ r)) r in
      let r := emit_if (total_frees (stats_ r) mod 100 =? 0)
                       (OutFree (total_frees (stats_ r)) (object_id free_event) lifetime) r in
      pop r
  end.

(** [while (!pending_frees_.empty()) { ... }], with the number of iterations
    bounded by [fuel]. *)
Fixpoint drain (fuel : nat) (r : Replayer) : Replayer :=
  match fuel with
  | O => r
  | S fuel' =>
      match pending_frees_ r with
      | [] => r
      | free_event :: _ => drain fuel' (free_front free_event r)
      end
  end.

(** [OracleReplayer::execute_pending_frees]; every iteration pops one
    element, so the length of the queue is enough fuel
    (see [execute_pending_frees_empties]). *)
Definition execute_pending_frees (next_alloc_size : Z) (r : Replayer) : Replayer :=
  let r := emit_if (negb (queue_empty r)) (OutExecuting (queue_size r) next_alloc_size) r in
  drain (length (pending_frees_ r)) r.

(** The state in which [process_allocation] calls [do_malloc]. *)
Definition before_malloc (event : Event) (r : Replayer) : Replayer :=
  if queue_empty r then r else execute_pending_frees (size event) r.

(** [OracleReplayer::process_allocation] *)
Definition process_allocation (event : Event) (r : Replayer) : Replayer :=
  let r := if queue_empty r then r else execute_pending_frees (size event) r in
  let '(ptr, r) := do_malloc (size event) r in
  if ptr =? nullptr then
    emit (ErrMallocFailed (object_id event) (size event)) r
  else
    let obj := mkObject ptr (size event) (timestamp event) (site_id event) in
    let r := with_live (<[object_id event := obj]> (live_objects_ r)) r in
    let r := with_stats (record_allocation (size event) (site_id event) (stats_ r)) r in
    emit_if (total_allocations (stats_ r) mod 100 =? 0)
            (OutAlloc (total_allocations (stats_ r)) (object_id event) (size event)) r.

(** [OracleReplayer::process_free] *)
Definition process_free (event : Event) (r : Replayer) : Replayer :=
  let r := with_pending (pending_frees_ r ++ [event]) r in
  emit_if (queue_size r mod 50 =? 0) (OutQueued (object_id event) (queue_size r)) r.

(** The body of the [for] loop of [replay] for [event = events_[index]],
    followed by [current_event_index_++]. *)
Definition replay_event (event : Event) (r : Replayer) : Replayer :=
  let r := emit_if (current_event_index_ r mod 100 =? 0)
                   (OutProgress (current_event_index_ r) (Z.of_nat (length (events_ r)))) r in
  let r := if is_alloc event then process_allocation event r
           else if is_free event then process_free event r
           else r in
  with_index (wrap64 (current_event_index_ r + 1)) r.

(** The [for] loop of [replay] over the events that remain. *)
Fixpoint replay_loop (evs : list Event) (r : Replayer) : Replayer :=
  match evs with
  | [] => r
  | event :: rest => replay_loop rest (replay_event event r)
  end.

(** The end of [replay]: the frees that no allocation gated. *)
Definition replay_finish (r : Replayer) : Replayer :=
  let r := if queue_empty r then r
           else execute_pending_frees 0 (emit_if true (OutRemaining (queue_size r)) r) in
  emit_if true OutComplete r.

(** The state in which the [for] loop of [replay] starts. *)
Definition replay_start (r : Replayer) : Replayer :=
  with_index 0 (emit_if true (OutStarting (Z.of_nat (length (events_ r)))) r).

(** The state of [replay] after the first [n] events. *)
Definition replay_prefix (n : nat) (r : Replayer) : Replayer :=
  replay_loop (take n (events_ r)) (replay_start r).

(** The sum of the sizes of the objects in the live table. *)
Definition live_bytes (r : Replayer) : Z := sum_of obj_size (live_objects_ r).

(** No allocation of the events [evs], replayed from [r], replaces an entry
    of the live table or wraps the byte counter: when [do_malloc] is called
    for an Alloc event, its object id is not in the table, its size is not
    negative and the live bytes plus its size fit 64 bits. *)
Fixpoint allocations_fresh (evs : list Event) (r : Replayer) : Prop :=
  match evs with
  | [] => True
  | event :: rest =>
      (is_alloc event = true ->
       let r' := before_malloc event
                   (emit_if (current_event_index_ r mod 100 =? 0)
                      (OutProgress (current_event_index_ r) (Z.of_nat (length (events_ r)))) r) in
       live_objects_ r' !! object_id event = None /\
       0 <= size event /\
       current_memory (stats_ r') + size event < 2 ^ 64) /\
      allocations_fresh rest (replay_event event r)
  end.

(** [OracleReplayer::replay] *)
Definition replay (r : Replayer) : Replayer :=
  match events_ r with
  | [] => emit ErrNoEvents r
  | _ =>
      let r := emit_if true (OutStarting (Z.of_nat (length (events_ r)))) r in
      let r := replay_loop (events_ r) (with_index 0 r) in
      replay_finish r
  end.

End Replayer.

Arguments verbose_ {Heap} r.
Arguments current_event_index_ {Heap} r.
Arguments events_ {Heap} r.
Arguments live_objects_ {Heap} r.
Arguments pending_frees_ {Heap} r.
Arguments stats_ {Heap} r.
Arguments heap {Heap} r.
Arguments output {Heap} r.
Arguments new_replayer {Heap} verbose evs h.
Arguments with_index {Heap} i r.
Arguments with_events {Heap} evs r.
Arguments with_live {Heap} m r.
Arguments with_pending {Heap} q r.
Arguments with_stats {Heap} s r.
Arguments with_heap {Heap} h r.
Arguments emit {Heap} o r.
Arguments emit_if {Heap} c o r.
Arguments queue_size {Heap} r.
Arguments queue_empty {Heap} r.
Arguments do_malloc {Heap} malloc sz r.
Arguments do_free {Heap} free p r.
Arguments free_front {Heap} free free_event r.
Arguments drain {Heap} free fuel r.
Arguments execute_pending_frees {Heap} free next_alloc_size r.
Arguments before_malloc {Heap} free event r.
Arguments process_allocation {Heap} malloc free event r.
Arguments process_free {Heap} event r.
Arguments replay_event {Heap} malloc free event r.
Arguments replay_loop {Heap} malloc free evs r.
Arguments replay_finish {Heap} free r.
Arguments replay {Heap} malloc free r.
Arguments replay_start {Heap} r.
Arguments replay_prefix {Heap} malloc free n r.
Arguments live_bytes {Heap} r.
Arguments allocations_fresh {Heap} malloc free evs r.
Arguments load_oracle {Heap} std_sort csv_file r.

(** What the counters of [Statistics] keep among themselves, whatever is
    recorded: the live bytes are the bytes allocated minus the bytes freed
    (64-bit arithmetic); the two maps by site have the same keys; the counts
    by site add up to the allocations and the bytes by site to the bytes
    allocated; the shortest lifetime recorded is not above the longest. *)
Definition coherent (s : Statistics) : Prop :=
  current_memory s = wrap64 (bytes_allocated s - bytes_freed s) /\
  (forall site, allocations_per_site s !! site = None <-> bytes_per_site s !! site = None) /\
  total_allocations s = wrap64 (sum_of id (allocations_per_site s)) /\
  bytes_allocated s = wrap64 (sum_of id (bytes_per_site s)) /\
  0 <= max_lifetime s /\
  ((max_lifetime s = 0 /\ min_lifetime s = UINT64_MAX) \/ min_lifetime s <= max_lifetime s).

(** How many entries of the live table hold the address [q]. *)
Definition live_count (q : Z) (live : gmap Z AllocatedObject) : Z :=
  sum_of (fun obj => if address obj =? q then 1 else 0) live.

(** The calls on the allocator are in order: no address was passed to
    [free] more often than [malloc] returned it, the entries of the live
    table included, and null was never passed to [free] nor put in the
    table. *)
Definition heap_calls_in_order (live : gmap Z AllocatedObject) (log : list HeapCall) : Prop :=
  (forall k obj, live !! k = Some obj -> address obj <> nullptr) /\
  (forall q, times_freed q log + live_count q live <= times_allocated q log) /\
  times_freed nullptr log = 0.

Definition in_order {Heap} (r : Replayer (Heap * list HeapCall)) : Prop :=
  heap_calls_in_order (live_objects_ r) (heap r).2.

(** Every address that [malloc] returned is either in the live table or
    was passed to [free], once for each time it was returned. *)
Definition all_accounted {Heap} (r : Replayer (Heap * list HeapCall)) : Prop :=
  (forall k obj, live_objects_ r !! k = Some obj -> address obj <> nullptr) /\
  (forall q, q <> nullptr ->
     times_freed q (heap r).2 + live_count q (live_objects_ r)
     = times_allocated q (heap r).2).

(** The clock of a replay over events in order of timestamp, all between
    [lo] and [hi], of which [rest] are still to come: no live object was
    allocated before [lo], after an event to come or after a queued free; no
    queued free is later than [hi]; no lifetime above [hi - lo] was
    recorded. *)
Definition timely {Heap} (lo hi : Z) (rest : list Event) (r : Replayer Heap) : Prop :=
  (forall k obj, live_objects_ r !! k = Some obj ->
     lo <= alloc_time obj /\
     Forall (fun e => alloc_time obj <= timestamp e) rest /\
     Forall (fun fe => alloc_time obj <= timestamp fe) (pending_frees_ r)) /\
  Forall (fun fe => timestamp fe <= hi) (pending_frees_ r) /\
  0 <= max_lifetime (stats_ r) <= hi - lo.

(** The allocations counted and the failures reported so far. *)
Definition answered {Heap} (a : Z) (m : nat) (r : Replayer Heap) : Prop :=
  total_allocations (stats_ r) = a /\ malloc_errors (output r) = m.

Section Teardown.

Variable Heap : Type.
Variable free : Z -> Heap -> Heap.

(** [OracleReplayer::cleanup], which the destructor calls: the regions of
    the live table are released in the order of the keys and the table is
    cleared.  (The line "Cleaning up n remaining objects" that it writes
    first when [verbose_] is set is [cleanup_line].) *)
Definition cleanup (r : Replayer Heap) : Replayer Heap :=
  if Nat.eqb (base.size (live_objects_ r)) 0 then r
  else
    let release h (pair : Z * AllocatedObject) :=
      if address pair.2 =? nullptr then h else free (address pair.2) h in
    with_live ∅ (with_heap (foldl release (heap r) (std_map_items (live_objects_ r))) r).

Definition cleanup_line (r : Replayer Heap) : option Z :=
  if negb (Nat.eqb (base.size (live_objects_ r)) 0) && verbose_ r
  then Some (Z.of_nat (base.size (live_objects_ r))) else None.

End Teardown.

Arguments cleanup {Heap} free r.
Arguments cleanup_line {Heap} r.

(** *** [Statistics::print] *)

(** The figures it writes, line by line (the headings and the figure in KB
    that follows a byte count are left out). *)
Inductive StatLine :=
| OutTotalAllocations (n : Z)
| OutTotalFrees (n : Z)
| OutBytesAllocated (n : Z)
| OutBytesFreed (n : Z)
| OutPeakMemory (n : Z)
| OutLiveMemory (n : Z)
| OutAverageLifetime (n : Z)
| OutMaxLifetime (n : Z)
| OutMinLifetime (n : Z)
| OutSite (site count bytes : Z).

Definition is_site_line (l : StatLine) : bool :=
  match l with OutSite _ _ _ => true | _ => false end.

(** The comparison passed to [std::sort]: larger counts first. *)
Definition by_count (a b : Z * Z) : bool := b.2 <? a.2.

(** What the C++ standard promises of [std::sort] with [by_count]. *)
Definition sort_sites_contract
    (sort : (Z * Z -> Z * Z -> bool) -> list (Z * Z) -> list (Z * Z)) : Prop :=
  forall l, Permutation (sort by_count l) l /\
            StronglySorted (fun a b : Z * Z => b.2 <= a.2) (sort by_count l).

(** The loop over the first [limit] sites; [bytes_per_site.at(site)] throws
    [std::out_of_range] for a site that is not in the map.  The result is
    the lines written and the exception, if any, that ended the loop. *)
Fixpoint site_lines (bytes_per_site : gmap Z Z) (sites : list (Z * Z))
  : list StatLine * option Exception :=
  match sites with
  | [] => ([], None)
  | (site, count) :: rest =>
      match bytes_per_site !! site with
      | None => ([], Some out_of_range)
      | Some bytes =>
          let '(lines, thrown) := site_lines bytes_per_site rest in
          (OutSite site count bytes :: lines, thrown)
      end
  end.

Definition print
    (sort : (Z * Z -> Z * Z -> bool) -> list (Z * Z) -> list (Z * Z)) (s : Statistics)
  : list StatLine * option Exception :=
  let totals :=
    [OutTotalAllocations (total_allocations s); OutTotalFrees (total_frees s);
     OutBytesAllocated (bytes_allocated s); OutBytesFreed (bytes_freed s);
     OutPeakMemory (peak_memory s); OutLiveMemory (current_memory s)] in
  let lifetimes :=
    if 0 <? total_frees s then
      [OutAverageLifetime (total_lifetime s / total_frees s);
       OutMaxLifetime (max_lifetime s);
       OutMinLifetime (if min_lifetime s =? UINT64_MAX then 0 else min_lifetime s)]
    else [] in
  let sites := sort by_count (std_map_items (allocations_per_site s)) in
  let limit := Z.min (Z.of_nat (length sites)) 10 in
  let '(lines, thrown) := site_lines (bytes_per_site s) (take (Z.to_nat limit) sites) in
  (totals ++ lifetimes ++ lines, thrown).

(** The byte counters agree with the live table: [current_memory] is the sum
    of the sizes in the table, no size is negative, and
    [0 <= current_memory <= peak_memory < 2^64]. *)
Definition bytes_consistent {Heap} (r : Replayer Heap) : Prop :=
  current_memory (stats_ r) = live_bytes r /\
  (forall k obj, live_objects_ r !! k = Some obj -> 0 <= obj_size obj) /\
  current_memory (stats_ r) <= peak_memory (stats_ r) < 2 ^ 64.

(** A state whose counter of frees is a 64-bit value. *)
Definition frees_in_range {Heap} (r : Replayer Heap) : Prop :=
  0 <= total_frees (stats_ r) < 2 ^ 64.

(** The frees accounted for between two states of a replay: [n] more were
    submitted (queued, or already in the queue), and each one is still in
    the queue, or was executed ([total_frees], modulo 2^64), or was
    discarded with a warning. *)
Definition Accounted {Heap} (n : nat) (r r' : Replayer Heap) : Prop :=
  exists executed warned : nat,
    (executed + warned + length (pending_frees_ r') = length (pending_frees_ r) + n)%nat /\
    total_frees (stats_ r') = wrap64 (total_frees (stats_ r) + Z.of_nat executed) /\
    warnings (output r') = (warnings (output r) + warned)%nat.

(** *** What a drain of the queue is to do

    The specification's reading of "executing the pending frees", against
    which the code is compared: the entries of the queue are taken front to
    back (FIFO).  An entry whose object is in the live table is executed:
    the region of the object is released, the free is recorded with the
    size of the object and its lifetime, and the object leaves the table.
    An entry whose object is not in the table is reported.  No entry is
    skipped. *)
Inductive Executed :=
| Released (id : Z) (obj : AllocatedObject) (lifetime : Z)
| Unknown (id : Z).

Fixpoint drain_spec (queue : list Event) (live : gmap Z AllocatedObject) : list Executed :=
  match queue with
  | [] => []
  | fe :: rest =>
      match live !! object_id fe with
      | Some obj =>
          Released (object_id fe) obj (wrap64 (timestamp fe - alloc_time obj))
            :: drain_spec rest (delete (object_id fe) live)
      | None => Unknown (object_id fe) :: drain_spec rest live
      end
  end.

(** The regions handed to [free], in order (a null address is not handed
    on); the ids reported; the statistics and the live table afterwards. *)
Definition released_regions (done : list Executed) : list Z :=
  flat_map (fun x => match x with
                     | Released _ obj _ => if address obj =? nullptr then [] else [address obj]
                     | Unknown _ => []
                     end) done.

Definition unknown_ids (done : list Executed) : list Z :=
  flat_map (fun x => match x with Released _ _ _ => [] | Unknown id => [id] end) done.

Definition recorded_frees (done : list Executed) (s : Statistics) : Statistics :=
  foldl (fun s x => match x with
                    | Released _ obj lifetime => record_free (obj_size obj) lifetime s
                    | Unknown _ => s
                    end) s done.

Definition live_after (done : list Executed) (live : gmap Z AllocatedObject)
  : gmap Z AllocatedObject :=
  foldl (fun m x => match x with Released id _ _ => delete id m | Unknown _ => m end)
        live done.

(** The ids of the "unknown object" warnings written so far, and the
    "Executing n pending frees before allocation of k bytes" lines. *)
Definition warned_ids (out : list Output) : list Z :=
  flat_map (fun o => match o with WarnUnknown id => [id] | _ => [] end) out.

Definition executing_lines (out : list Output) : list (Z * Z) :=
  flat_map (fun o => match o with OutExecuting n k => [(n, k)] | _ => [] end) out.

End Oracle.

(** ** Allocator backends ([AllocatorBackend.h]) *)

Module AllocatorBackend.

(** [class AllocatorBackend]: the abstract interface, over the state [B] of
    the underlying allocator.  A null result is [nullptr]. *)
Class Backend (B : Type) := {
  allocate : Z -> B -> Z * B;
  deallocate : Z -> B -> B;
  reallocate : Z -> Z -> B -> Z * B;
  name : string
}.

(** A call made on a backend. *)
Inductive Call :=
| CallAllocate (size result : Z)
| CallDeallocate (ptr : Z)
| CallReallocate (ptr new_size result : Z).

Definition is_allocate_call (c : Call) : bool :=
  match c with CallAllocate _ _ => true | _ => false end.

(** The requests for memory among the calls. *)
Definition allocate_calls (calls : list Call) : list Call :=
  List.filter is_allocate_call calls.

(** Any backend together with the record of the calls made on it
    (oldest first). *)
#[export] Instance recording (B : Type) `{Backend B} : Backend (B * list Call) := {
  allocate size '(b, calls) :=
    let '(p, b') := allocate size b in (p, (b', calls ++ [CallAllocate size p]));
  deallocate ptr '(b, calls) :=
    (deallocate ptr b, calls ++ [CallDeallocate ptr]);
  reallocate ptr size '(b, calls) :=
    let '(p, b') := reallocate ptr size b in (p, (b', calls ++ [CallReallocate ptr size p]));
  name := name (B := B)
}.

(** A backend that answers from a script: each request takes the next
    address of the script, and fails (null) once the script is used up. *)
Definition Scripted := list Z.

#[export] Instance scripted : Backend Scripted := {
  allocate _ script := match script with [] => (nullptr, []) | p :: rest => (p, rest) end;
  deallocate _ script := script;
  reallocate _ _ script := match script with [] => (nullptr, []) | p :: rest => (p, rest) end;
  name := "scripted"%string
}.

(** How often the backend has granted the address [q], how often the
    address was given back to it. *)
Definition grants (q : Z) (c : Call) : bool :=
  match c with CallAllocate _ p => p =? q | _ => false end.

Definition takes_back (q : Z) (c : Call) : bool :=
  match c with CallDeallocate p => p =? q | _ => false end.

Definition times_granted (q : Z) (calls : list Call) : Z :=
  Z.of_nat (length (List.filter (grants q) calls)).

Definition times_returned (q : Z) (calls : list Call) : Z :=
  Z.of_nat (length (List.filter (takes_back q) calls)).

End AllocatorBackend.

(** ** Explicit and GC managers, trace driver ([TraceReplayerEnhanced.cpp]) *)

Module Enhanced.

Import AllocatorBackend.

(** [struct Statistics] *)
Record Statistics := mkStatistics {
  totalAllocations : Z;
  totalDeallocations : Z;
  totalBytesAllocated : Z;
  totalBytesFreed : Z;
  peakMemoryUsage : Z;
  currentMemoryUsage : Z;
  gcCollections : Z;
  totalGCTime : Z;
  fieldUpdates : Z;
  methodCalls : Z
}.

Definition initial_statistics : Statistics := mkStatistics 0 0 0 0 0 0 0 0 0 0.

(** All the counters of [Statistics], in declaration order. *)
Definition counters (s : Statistics) : list Z :=
  [totalAllocations s; totalDeallocations s; totalBytesAllocated s; totalBytesFreed s;
   peakMemoryUsage s; currentMemoryUsage s; gcCollections s; totalGCTime s;
   fieldUpdates s; methodCalls s].

(** [Statistics::recordAllocation] *)
Definition recordAllocation (size : Z) (s : Statistics) : Statistics :=
  let current := wrap64 (currentMemoryUsage s + size) in
  {| totalAllocations := wrap64 (totalAllocations s + 1);
     totalDeallocations := totalDeallocations s;
     totalBytesAllocated := wrap64 (totalBytesAllocated s + size);
     totalBytesFreed := totalBytesFreed s;
     peakMemoryUsage := if peakMemoryUsage s <? current then current else peakMemoryUsage s;
     currentMemoryUsage := current;
     gcCollections := gcCollections s;
     totalGCTime := totalGCTime s;
     fieldUpdates := fieldUpdates s;
     methodCalls := methodCalls s |}.

(** [Statistics::recordDeallocation] *)
Definition recordDeallocation (size : Z) (s : Statistics) : Statistics :=
  {| totalAllocations := totalAllocations s;
     totalDeallocations := wrap64 (totalDeallocations s + 1);
     totalBytesAllocated := totalBytesAllocated s;
     totalBytesFreed := wrap64 (totalBytesFreed s + size);
     peakMemoryUsage := peakMemoryUsage s;
     currentMemoryUsage := wrap64 (currentMemoryUsage s - size);
     gcCollections := gcCollections s;
     totalGCTime := totalGCTime s;
     fieldUpdates := fieldUpdates s;
     methodCalls := methodCalls s |}.

(** [Statistics::recordGC] *)
Definition recordGC (gcTimeUs : Z) (s : Statistics) : Statistics :=
  {| totalAllocations := totalAllocations s;
     totalDeallocations := totalDeallocations s;
     totalBytesAllocated := totalBytesAllocated s;
     totalBytesFreed := totalBytesFreed s;
     peakMemoryUsage := peakMemoryUsage s;
     currentMemoryUsage := currentMemoryUsage s;
     gcCollections := wrap64 (gcCollections s + 1);
     totalGCTime := wrap64 (totalGCTime s + gcTimeUs);
     fieldUpdates := fieldUpdates s;
     methodCalls := methodCalls s |}.

(** [stats.fieldUpdates++] *)
Definition countFieldUpdate (s : Statistics) : Statistics :=
  {| totalAllocations := totalAllocations s;
     totalDeallocations := totalDeallocations s;
     totalBytesAllocated := totalBytesAllocated s;
     totalBytesFreed := totalBytesFreed s;
     peakMemoryUsage := peakMemoryUsage s;
     currentMemoryUsage := currentMemoryUsage s;
     gcCollections := gcCollections s;
     totalGCTime := totalGCTime s;
     fieldUpdates := wrap64 (fieldUpdates s + 1);
     methodCalls := methodCalls s |}.

(** [stats.methodCalls++] *)
Definition countMethodCall (s : Statistics) : Statistics :=
  {| totalAllocations := totalAllocations s;
     totalDeallocations := totalDeallocations s;
     totalBytesAllocated := totalBytesAllocated s;
     totalBytesFreed := totalBytesFreed s;
     peakMemoryUsage := peakMemoryUsage s;
     currentMemoryUsage := currentMemoryUsage s;
     gcCollections := gcCollections s;
     totalGCTime := totalGCTime s;
     fieldUpdates := fieldUpdates s;
     methodCalls := wrap64 (methodCalls s + 1) |}.

(** What the managers and the driver write. *)
Inductive Output :=
| ErrAllocationFailed (size : Z)            (* "ERROR: allocation failed for size" *)
| ErrAllocationFailedAfterGC (size : Z)     (* "ERROR: allocation failed even after GC for size" *)
| OutGC (freedObjects freedBytes us : Z)    (* "[GC] Collected n objects, freed b KB in t us" *)
| OutFinalGC                                (* "[GC] Performing final collection..." *)
| WarnUnknownRecord (tag : ascii) (line : Z)(* "Warning: Unknown record type" *)
| OutProcessed (lines : Z).                 (* "Processed n records..." *)

Definition is_gc_line (o : Output) : bool :=
  match o with OutGC _ _ _ => true | _ => false end.

(** [class MemorySimulator]: the virtual interface, over the state [M] of a
    manager. *)
Class MemorySimulator (M : Type) := {
  sim_allocate : Z -> Z -> bool -> M -> Z * M;
  sim_deallocate : Z -> Z -> M -> M;
  sim_updateField : Z -> Z -> M -> M;
  sim_methodEntry : M -> M;
  sim_methodExit : M -> M;
  getStatistics : M -> Statistics
}.

(** [std::chrono::high_resolution_clock]: the duration, in microseconds,
    that the clock measures for the collection that starts when
    [gcCollections] has the given value. *)
Class Clock := gcDuration : Z -> Z.

Section Managers.

Context {B : Type} `{Backend B} `{Clock}.

(** *** [class ExplicitMemoryManager]

    The contents of the allocated regions ([memset], the touch loops, the
    pointer store of [updateField]) are not part of the state. *)
Record ExplicitMemoryManager := mkExplicit {
  allocations : gmap Z Z;      (* objectId -> address *)
  sizes : gmap Z Z;            (* objectId -> size *)
  stats : Statistics;
  allocator : B;
  console : list Output
}.

Definition new_explicit (alloc : B) : ExplicitMemoryManager :=
  mkExplicit ∅ ∅ initial_statistics alloc [].

(** [ExplicitMemoryManager::allocate] *)
Definition explicit_allocate (size objectId : Z) (isArray : bool)
    (m : ExplicitMemoryManager) : Z * ExplicitMemoryManager :=
  let '(ptr, a) := allocate size (allocator m) in
  if ptr =? nullptr then
    (nullptr, mkExplicit (allocations m) (sizes m) (stats m) a
                (console m ++ [ErrAllocationFailed size]))
  else
    (ptr, mkExplicit (<[objectId := ptr]> (allocations m))
            (<[objectId := size]> (sizes m))
            (recordAllocation size (stats m)) a (console m)).

(** [ExplicitMemoryManager::deallocate]; [sizes[objectId]] reads 0 for a
    missing key. *)
Definition explicit_deallocate (objectId size : Z)
    (m : ExplicitMemoryManager) : ExplicitMemoryManager :=
  match allocations m !! objectId with
  | Some ptr =>
      mkExplicit (delete objectId (allocations m))
        (delete objectId (sizes m))
        (recordDeallocation (default 0 (sizes m !! objectId)) (stats m))
        (deallocate ptr (allocator m)) (console m)
  | None => m
  end.

(** [ExplicitMemoryManager::updateField] *)
Definition explicit_updateField (tgtObjId srcObjId : Z)
    (m : ExplicitMemoryManager) : ExplicitMemoryManager :=
  mkExplicit (allocations m) (sizes m) (countFieldUpdate (stats m)) (allocator m) (console m).

(** [ExplicitMemoryManager::methodEntry] *)
Definition explicit_methodEntry (m : ExplicitMemoryManager) : ExplicitMemoryManager :=
  mkExplicit (allocations m) (sizes m) (countMethodCall (stats m)) (allocator m) (console m).

(** [ExplicitMemoryManager::methodExit] *)
Definition explicit_methodExit (m : ExplicitMemoryManager) : ExplicitMemoryManager := m.

#[export] Instance explicit_simulator : MemorySimulator ExplicitMemoryManager := {
  sim_allocate := explicit_allocate;
  sim_deallocate := explicit_deallocate;
  sim_updateField := explicit_updateField;
  sim_methodEntry := explicit_methodEntry;
  sim_methodExit := explicit_methodExit;
  getStatistics := stats
}.

(** *** [class GCSimulator] *)
Record GCSimulator := mkGC {
  gc_allocations : gmap Z Z;       (* allocations: objectId -> address *)
  gc_sizes : gmap Z Z;             (* sizes: objectId -> size *)
  deadObjects : gset Z;
  gcThreshold : Z;
  allocationsSinceLastGC : Z;
  allocationThreshold : Z;
  gc_stats : Statistics;
  gc_allocator : B;
  gc_console : list Output
}.

Definition default_gcThreshold : Z := 10 * 1024 * 1024.
Definition default_allocationThreshold : Z := 1000.

(** The constructor [GCSimulator(alloc, threshold, allocThreshold)] *)
Definition new_gc (alloc : B) (threshold allocThreshold : Z) : GCSimulator :=
  mkGC ∅ ∅ ∅ threshold 0 allocThreshold initial_statistics alloc [].

(** The constructor with its default arguments. *)
Definition new_gc_default (alloc : B) : GCSimulator :=
  new_gc alloc default_gcThreshold default_allocationThreshold.

(** The state of a sweep in progress: the simulator, [freedBytes],
    [freedObjects]. *)
Definition Sweep : Type := GCSimulator * Z * Z.

(** The body of the sweep loop of [performGC] for [deadId]. *)
Definition sweep_one (acc : Sweep) (deadId : Z) : Sweep :=
  let '(g, freedBytes, freedObjects) := acc in
  match gc_allocations g !! deadId with
  | Some ptr =>
      let size := default 0 (gc_sizes g !! deadId) in
      (mkGC (delete deadId (gc_allocations g)) (delete deadId (gc_sizes g))
            (deadObjects g) (gcThreshold g) (allocationsSinceLastGC g)
            (allocationThreshold g) (recordDeallocation size (gc_stats g))
            (deallocate ptr (gc_allocator g)) (gc_console g),
       wrap64 (freedBytes + size), wrap64 (freedObjects + 1))
  | None => acc
  end.

(** [GCSimulator::performGC]; the dead set is visited in the order of
    [elements]. *)
Definition performGC (g : GCSimulator) : GCSimulator :=
  let started := gcCollections (gc_stats g) in
  let '(g, freedBytes, freedObjects) := foldl sweep_one (g, 0, 0) (elements (deadObjects g)) in
  let us := gcDuration started in
  mkGC (gc_allocations g) (gc_sizes g) ∅ (gcThreshold g) 0 (allocationThreshold g)
       (recordGC (wrap64 us) (gc_stats g)) (gc_allocator g)
       (gc_console g ++ [OutGC freedObjects freedBytes us]).

(** The bookkeeping of [GCSimulator::allocate] for a region [ptr] that is
    not null: the two tables, the statistics, [allocationsSinceLastGC++]. *)
Definition gc_record (ptr size objectId : Z) (g : GCSimulator) : GCSimulator :=
  mkGC (<[objectId := ptr]> (gc_allocations g)) (<[objectId := size]> (gc_sizes g))
       (deadObjects g) (gcThreshold g) (wrap64 (allocationsSinceLastGC g + 1))
       (allocationThreshold g) (recordAllocation size (gc_stats g))
       (gc_allocator g) (gc_console g).

(** The test of [GCSimulator::allocate] that triggers a collection. *)
Definition gc_due (g : GCSimulator) : bool :=
  (gcThreshold g <? currentMemoryUsage (gc_stats g))
  || (allocationThreshold g <? allocationsSinceLastGC g).

(** The tail of [GCSimulator::allocate], once [ptr] is not null. *)
Definition gc_track (ptr size objectId : Z) (g : GCSimulator) : Z * GCSimulator :=
  let g := gc_record ptr size objectId g in
  if gc_due g then (ptr, performGC g) else (ptr, g).

Definition gc_with_allocator (a : B) (g : GCSimulator) : GCSimulator :=
  mkGC (gc_allocations g) (gc_sizes g) (deadObjects g) (gcThreshold g)
       (allocationsSinceLastGC g) (allocationThreshold g) (gc_stats g) a (gc_console g).

Definition gc_print (o : Output) (g : GCSimulator) : GCSimulator :=
  mkGC (gc_allocations g) (gc_sizes g) (deadObjects g) (gcThreshold g)
       (allocationsSinceLastGC g) (allocationThreshold g) (gc_stats g) (gc_allocator g)
       (gc_console g ++ [o]).

(** [GCSimulator::allocate] *)
Definition gc_allocate (size objectId : Z) (isArray : bool)
    (g : GCSimulator) : Z * GCSimulator :=
  let '(ptr, a) := allocate size (gc_allocator g) in
  let g := gc_with_allocator a g in
  if ptr =? nullptr then
    let g := performGC g in
    let '(ptr, a) := allocate size (gc_allocator g) in
    let g := gc_with_allocator a g in
    if ptr =? nullptr then
      (nullptr, gc_print (ErrAllocationFailedAfterGC size) g)
    else gc_track ptr size objectId g
  else gc_track ptr size objectId g.

(** The state in which [GCSimulator::allocate] makes the trigger test: the
    region has just been recorded.  [None] when both requests fail. *)
Definition gc_at_trigger_test (size objectId : Z) (isArray : bool)
    (g : GCSimulator) : option GCSimulator :=
  let first := allocate size (gc_allocator g) in
  if first.1 =? nullptr then
    let g1 := performGC (gc_with_allocator first.2 g) in
    let retry := allocate size (gc_allocator g1) in
    if retry.1 =? nullptr then None
    else Some (gc_record retry.1 size objectId (gc_with_allocator retry.2 g1))
  else Some (gc_record first.1 size objectId (gc_with_allocator first.2 g)).

(** [GCSimulator::deallocate] *)
Definition gc_deallocate (objectId size : Z) (g : GCSimulator) : GCSimulator :=
  mkGC (gc_allocations g) (gc_sizes g) ({[objectId]} ∪ deadObjects g) (gcThreshold g)
       (allocationsSinceLastGC g) (allocationThreshold g) (gc_stats g) (gc_allocator g)
       (gc_console g).

Definition gc_with_stats (s : Statistics) (g : GCSimulator) : GCSimulator :=
  mkGC (gc_allocations g) (gc_sizes g) (deadObjects g) (gcThreshold g)
       (allocationsSinceLastGC g) (allocationThreshold g) s (gc_allocator g) (gc_console g).

(** [GCSimulator::updateField] *)
Definition gc_updateField (tgtObjId srcObjId : Z) (g : GCSimulator) : GCSimulator :=
  gc_with_stats (countFieldUpdate (gc_stats g)) g.

(** [GCSimulator::methodEntry] *)
Definition gc_methodEntry (g : GCSimulator) : GCSimulator :=
  gc_with_stats (countMethodCall (gc_stats g)) g.

(** [GCSimulator::methodExit] *)
Definition gc_methodExit (g : GCSimulator) : GCSimulator := g.

(** [GCSimulator::finalGC] *)
Definition finalGC (g : GCSimulator) : GCSimulator :=
  let g := gc_print OutFinalGC g in
  let g := mkGC (gc_allocations g) (gc_sizes g) (dom (gc_allocations g) ∪ deadObjects g)
                (gcThreshold g) (allocationsSinceLastGC g) (allocationThreshold g)
                (gc_stats g) (gc_allocator g) (gc_console g) in
  performGC g.

(** The number of collections that have run, as the "[GC] Collected" lines
    show it. *)
Definition gc_runs (g : GCSimulator) : nat := length (List.filter is_gc_line (gc_console g)).

(** The part of a [GCSimulator] that an [ExplicitMemoryManager] also has. *)
Definition as_explicit (g : GCSimulator) : ExplicitMemoryManager :=
  mkExplicit (gc_allocations g) (gc_sizes g) (gc_stats g) (gc_allocator g) (gc_console g).

#[export] Instance gc_simulator : MemorySimulator GCSimulator := {
  sim_allocate := gc_allocate;
  sim_deallocate := gc_deallocate;
  sim_updateField := gc_updateField;
  sim_methodEntry := gc_methodEntry;
  sim_methodExit := gc_methodExit;
  getStatistics := gc_stats
}.

End Managers.

(** *** [class TraceReplayer] *)

(** [struct AllocationRecord] (without [allocTime], which is never read). *)
Record AllocationRecord := mkRecord {
  rec_objectId : Z;       (* int *)
  rec_size : Z;           (* size_t *)
  rec_typeId : Z;         (* int *)
  rec_siteId : Z;         (* int *)
  rec_length : Z;         (* int *)
  rec_threadId : Z;       (* long *)
  rec_address : Z;        (* void* *)
  rec_isArray : bool
}.

(** A line of the structured trace, after the tag has been read and the
    numbers extracted with [iss >>]. *)
Inductive TraceLine :=
| Blank                                                     (* empty, or a '#' comment *)
| AllocLine (isArray : bool) (objectId size typeId siteId length threadId : Z)
                                                            (* 'N' and 'A' *)
| DeathLine (objectId threadId timestamp : Z)               (* 'D' *)
| UpdateLine (tgtObjId srcObjId fieldId threadId : Z)       (* 'U' *)
| EntryLine (methodId receiverObjId threadId : Z)           (* 'M' *)
| ExitLine (methodId threadId : Z)                          (* 'E' *)
| UnknownLine (recordType : ascii).

Section Driver.

Context {M : Type} `{MemorySimulator M}.

Record TraceReplayer := mkTraceReplayer {
  liveObjects : gmap Z AllocationRecord;
  memoryManager : M;
  lineNumber : Z;
  verbose : bool;
  driver_console : list Output
}.

Definition new_replayer (mm : M) (verbose : bool) : TraceReplayer :=
  mkTraceReplayer ∅ mm 0 verbose [].

(** [TraceReplayer::handleObjectAllocation]; [size] is a [long] converted to
    [size_t] at the call and in the record. *)
Definition handleObjectAllocation (isArray : bool)
    (objectId size typeId siteId length threadId : Z) (t : TraceReplayer) : TraceReplayer :=
  let '(ptr, mm) := sim_allocate (wrap64 size) objectId isArray (memoryManager t) in
  let rec := mkRecord objectId (wrap64 size) typeId siteId length threadId ptr isArray in
  mkTraceReplayer (<[objectId := rec]> (liveObjects t)) mm (lineNumber t) (verbose t)
                  (driver_console t).

(** [TraceReplayer::handleObjectDeath] *)
Definition handleObjectDeath (objectId threadId timestamp : Z) (t : TraceReplayer)
  : TraceReplayer :=
  match liveObjects t !! objectId with
  | Some rec =>
      mkTraceReplayer (delete objectId (liveObjects t))
        (sim_deallocate objectId (rec_size rec) (memoryManager t))
        (lineNumber t) (verbose t) (driver_console t)
  | None => t
  end.

Definition with_manager (mm : M) (t : TraceReplayer) : TraceReplayer :=
  mkTraceReplayer (liveObjects t) mm (lineNumber t) (verbose t) (driver_console t).

Definition driver_print (o : Output) (t : TraceReplayer) : TraceReplayer :=
  mkTraceReplayer (liveObjects t) (memoryManager t) (lineNumber t) (verbose t)
                  (driver_console t ++ [o]).

(** [TraceReplayer::handleFieldUpdate] *)
Definition handleFieldUpdate (tgtObjId srcObjId fieldId threadId : Z) (t : TraceReplayer)
  : TraceReplayer :=
  with_manager (sim_updateField tgtObjId srcObjId (memoryManager t)) t.

(** [TraceReplayer::handleMethodEntry] *)
Definition handleMethodEntry (methodId receiverObjId threadId : Z) (t : TraceReplayer)
  : TraceReplayer :=
  with_manager (sim_methodEntry (memoryManager t)) t.

(** [TraceReplayer::handleMethodExit] *)
Definition handleMethodExit (methodId threadId : Z) (t : TraceReplayer) : TraceReplayer :=
  with_manager (sim_methodExit (memoryManager t)) t.

(** [TraceReplayer::processTraceLine] *)
Definition processTraceLine (line : TraceLine) (t : TraceReplayer) : TraceReplayer :=
  let t := mkTraceReplayer (liveObjects t) (memoryManager t) (wrap64 (lineNumber t + 1))
                           (verbose t) (driver_console t) in
  match line with
  | Blank => t
  | _ =>
      let t :=
        match line with
        | Blank => t
        | AllocLine isArray objectId size typeId siteId length threadId =>
            handleObjectAllocation isArray objectId size typeId siteId length threadId t
        | DeathLine objectId threadId timestamp =>
            handleObjectDeath objectId threadId timestamp t
        | UpdateLine tgtObjId srcObjId fieldId threadId =>
            handleFieldUpdate tgtObjId srcObjId fieldId threadId t
        | EntryLine methodId receiverObjId threadId =>
            handleMethodEntry methodId receiverObjId threadId t
        | ExitLine methodId threadId => handleMethodExit methodId threadId t
        | UnknownLine recordType =>
            if verbose t then driver_print (WarnUnknownRecord recordType (lineNumber t)) t
            else t
        end in
      if lineNumber t mod 10000 =? 0 then driver_print (OutProcessed (lineNumber t)) t else t
  end.

(** The [while (std::getline(infile, line))] loop of [replayTrace]. *)
Definition replayTrace (lines : list TraceLine) (t : TraceReplayer) : TraceReplayer :=
  foldl (fun t line => processTraceLine line t) t lines.

End Driver.

(** The byte counters agree with the tables of a manager:
    [currentMemoryUsage] is the sum of the sizes in [sizes], the two tables
    have the same keys, no size is negative, and
    [currentMemoryUsage <= peakMemoryUsage < 2^64]. *)
Definition tables_consistent (allocations sizes : gmap Z Z) (s : Statistics) : Prop :=
  currentMemoryUsage s = sum_of id sizes /\
  (forall k, allocations !! k = None <-> sizes !! k = None) /\
  (forall k v, sizes !! k = Some v -> 0 <= v) /\
  currentMemoryUsage s <= peakMemoryUsage s < 2 ^ 64.

Definition explicit_consistent {B} (m : @ExplicitMemoryManager B) : Prop :=
  tables_consistent (allocations m) (sizes m) (stats m).

Definition gc_consistent {B} (g : @GCSimulator B) : Prop :=
  tables_consistent (gc_allocations g) (gc_sizes g) (gc_stats g).

(** No allocation of the lines [lines], replayed from [t], replaces an entry
    of the table [table_of] of the manager or wraps its byte counter: when
    the manager is asked to allocate, the object id is not in its table and
    the live bytes plus the size fit 64 bits. *)
Fixpoint lines_fresh {M} `{MemorySimulator M} (table_of : M -> gmap Z Z)
    (lines : list TraceLine) (t : @TraceReplayer M) : Prop :=
  match lines with
  | [] => True
  | line :: rest =>
      match line with
      | AllocLine _ objectId size _ _ _ _ =>
          table_of (memoryManager t) !! objectId = None /\
          currentMemoryUsage (getStatistics (memoryManager t)) + wrap64 size < 2 ^ 64
      | _ => True
      end /\
      lines_fresh table_of rest (processTraceLine line t)
  end.

(** The live bytes of a manager after each of the first [n] lines (and
    before the first). *)
Definition live_bytes_history {M} `{MemorySimulator M}
    (lines : list TraceLine) (t : @TraceReplayer M) (n : nat) : list Z :=
  map (fun j => currentMemoryUsage
                  (getStatistics (memoryManager (replayTrace (take j lines) t))))
      (seq 0 (S n)).

(** The live bytes that a line of the trace records in GC mode: for an
    allocation that succeeds, [currentMemoryUsage] right after the region is
    recorded, before the collection that the allocation may trigger; 0 for
    any other line. *)
Definition gc_line_mark {B} `{AllocatorBackend.Backend B} `{Clock}
    (line : TraceLine) (t : @TraceReplayer (@GCSimulator B)) : Z :=
  match line with
  | AllocLine isArray objectId size _ _ _ _ =>
      match gc_at_trigger_test (wrap64 size) objectId isArray (memoryManager t) with
      | Some g => currentMemoryUsage (gc_stats g)
      | None => 0
      end
  | _ => 0
  end.

(** The marks of the first [n] lines. *)
Definition gc_marks {B} `{AllocatorBackend.Backend B} `{Clock}
    (lines : list TraceLine) (t : @TraceReplayer (@GCSimulator B)) (n : nat) : list Z :=
  map (fun j => match lines !! j with
                | Some line => gc_line_mark line (replayTrace (take j lines) t)
                | None => 0
                end)
      (seq 0 n).

(** The live bytes are the bytes allocated minus the bytes freed, in 64-bit
    arithmetic: the "Memory Leak" line of [Statistics::print] shows the
    "Current Memory Usage". *)
Definition balanced (s : Statistics) : Prop :=
  currentMemoryUsage s = wrap64 (totalBytesAllocated s - totalBytesFreed s).

(** The two counters of events show [updates] and [entries], and the bytes
    balance. *)
Definition counted (updates entries : Z) (s : Statistics) : Prop :=
  fieldUpdates s = wrap64 updates /\ methodCalls s = wrap64 entries /\ balanced s.

Definition is_update_line (line : TraceLine) : bool :=
  match line with UpdateLine _ _ _ _ => true | _ => false end.

Definition is_entry_line (line : TraceLine) : bool :=
  match line with EntryLine _ _ _ => true | _ => false end.

Definition is_alloc_line (line : TraceLine) : bool :=
  match line with AllocLine _ _ _ _ _ _ _ => true | _ => false end.

(** The allocations that a manager reported as failed. *)
Definition is_allocation_error (o : Output) : bool :=
  match o with
  | ErrAllocationFailed _ | ErrAllocationFailedAfterGC _ => true
  | _ => false
  end.

Definition allocation_errors (console : list Output) : Z :=
  Z.of_nat (length (List.filter is_allocation_error console)).

(** Of [allocs] requests, [errors] were reported as failed and the others
    are counted in [totalAllocations]. *)
Definition answered (allocs errors : Z) (s : Statistics) : Prop :=
  0 <= errors <= allocs /\ totalAllocations s = wrap64 (allocs - errors).

(** The bytes that a sweep of every entry of [table] frees: for each id of
    the table, the size that [sizes] holds for it (0 when it holds none, as
    [sizes[deadId]] reads). *)
Definition held_bytes (table sizes : gmap Z Z) : Z :=
  sum_of id (map_imap (fun id _ => Some (default 0 (sizes !! id))) table).

(** The counters are values of [size_t]. *)
Definition in_range (s : Statistics) : Prop :=
  Forall (fun c => 0 <= c < 2 ^ 64) (counters s).

(** How many entries of a table of addresses hold the address [q]. *)
Definition table_count (q : Z) (table : gmap Z Z) : Z :=
  sum_of (fun p => if p =? q then 1 else 0) table.

(** Every address the backend granted is in the table or was given back,
    once for each time it was granted; the table holds no null. *)
Definition backend_accounted (table : gmap Z Z) (calls : list Call) : Prop :=
  (forall k p, table !! k = Some p -> p <> nullptr) /\
  (forall q, q <> nullptr ->
     times_returned q calls + table_count q table = times_granted q calls).

(** The allocations counted are the deallocations counted and the entries
    of the table (64-bit arithmetic). *)
Definition entries_counted (table : gmap Z Z) (s : Statistics) : Prop :=
  totalAllocations s = wrap64 (totalDeallocations s + Z.of_nat (base.size table)).

(** What a sweep has done when it has taken a collector over a recording
    backend from [g0] to [g] and counted [freedBytes] and [freedObjects]
    from 0: every region that has left the table went to [deallocate]
    once and was counted once, with its bytes, and nothing else happened to
    the backend, which was reached through [deallocate] only, or to the
    counters (the equations are modulo 2^64). *)
Definition swept_from {B} `{Backend B} (g0 g : @GCSimulator (B * list Call))
    (freedBytes freedObjects : Z) : Prop :=
  let objects :=
    Z.of_nat (base.size (gc_allocations g0)) - Z.of_nat (base.size (gc_allocations g)) in
  let bytes := held_bytes (gc_allocations g0) (gc_sizes g0)
               - held_bytes (gc_allocations g) (gc_sizes g) in
  (exists regions : list Z,
     gc_allocator g = foldl (fun a ptr => deallocate ptr a) (gc_allocator g0) regions) /\
  (forall q, times_granted q (gc_allocator g).2 = times_granted q (gc_allocator g0).2 /\
             times_returned q (gc_allocator g).2 + table_count q (gc_allocations g)
             = times_returned q (gc_allocator g0).2 + table_count q (gc_allocations g0)) /\
  wrap64 (totalDeallocations (gc_stats g))
    = wrap64 (totalDeallocations (gc_stats g0) + objects) /\
  wrap64 (totalBytesFreed (gc_stats g)) = wrap64 (totalBytesFreed (gc_stats g0) + bytes) /\
  wrap64 (currentMemoryUsage (gc_stats g))
    = wrap64 (currentMemoryUsage (gc_stats g0) - bytes) /\
  totalAllocations (gc_stats g) = totalAllocations (gc_stats g0) /\
  totalBytesAllocated (gc_stats g) = totalBytesAllocated (gc_stats g0) /\
  peakMemoryUsage (gc_stats g) = peakMemoryUsage (gc_stats g0) /\
  gcCollections (gc_stats g) = gcCollections (gc_stats g0) /\
  totalGCTime (gc_stats g) = totalGCTime (gc_stats g0) /\
  fieldUpdates (gc_stats g) = fieldUpdates (gc_stats g0) /\
  methodCalls (gc_stats g) = methodCalls (gc_stats g0) /\
  (in_range (gc_stats g0) -> in_range (gc_stats g)) /\
  freedBytes = wrap64 bytes /\
  freedObjects = wrap64 objects.

(** Two states of a collector with the same tables, the same backend and
    the same counters of allocations, deallocations and bytes. *)
Definition same_memory {B} (g g' : @GCSimulator B) : Prop :=
  gc_allocations g' = gc_allocations g /\ gc_sizes g' = gc_sizes g /\
  gc_allocator g' = gc_allocator g /\
  totalAllocations (gc_stats g') = totalAllocations (gc_stats g) /\
  totalDeallocations (gc_stats g') = totalDeallocations (gc_stats g) /\
  totalBytesAllocated (gc_stats g') = totalBytesAllocated (gc_stats g) /\
  totalBytesFreed (gc_stats g') = totalBytesFreed (gc_stats g) /\
  peakMemoryUsage (gc_stats g') = peakMemoryUsage (gc_stats g) /\
  currentMemoryUsage (gc_stats g') = currentMemoryUsage (gc_stats g).

Section Teardown.

Context {B : Type} `{Backend B} `{Clock}.

(** [~ExplicitMemoryManager] and [~GCSimulator]: whatever is left in
    [allocations] is given back to the backend (the entries are visited in
    the order of [map_to_list]). *)
Definition explicit_destroy (m : ExplicitMemoryManager) : B :=
  foldl (fun a pair => deallocate pair.2 a) (allocator m) (map_to_list (allocations m)).

Definition gc_destroy (g : GCSimulator) : B :=
  foldl (fun a pair => deallocate pair.2 a) (gc_allocator g) (map_to_list (gc_allocations g)).

(** [main] in explicit mode, from the replay to [delete memSim]: the backend
    as the run leaves it. *)
Definition run_explicit (lines : list TraceLine) (alloc : B) (verbose : bool) : B :=
  explicit_destroy (memoryManager (replayTrace lines (new_replayer (new_explicit alloc) verbose))).

(** [main] in GC mode: the replay, [finalGC], [delete memSim]. *)
Definition run_gc (lines : list TraceLine) (alloc : B) (threshold allocThreshold : Z)
    (verbose : bool) : B :=
  gc_destroy
    (finalGC (memoryManager
                (replayTrace lines (new_replayer (new_gc alloc threshold allocThreshold)
                                                 verbose)))).

End Teardown.

(** The count-triggered scenario: three allocations of ids 1, 2, 3, the
    first two objects dying before the third allocation. *)
Definition count_scenario (s1 s2 s3 : Z) : list TraceLine :=
  [AllocLine false 1 s1 0 0 0 0; DeathLine 1 0 0;
   AllocLine false 2 s2 0 0 0 0; DeathLine 2 0 0;
   AllocLine false 3 s3 0 0 0 0].

End Enhanced.

(** ** The C replayer ([TraceReplayer.c]) *)

Module CReplay.

Definition HASH_SIZE : Z := 65536.

(** [sizeof(Allocation)] on LP64: [int], padding, pointer, [size_t], pointer. *)
Definition sizeof_Allocation : Z := 32.

(** [struct Allocation]; [next] is the tail of the chain the node is in,
    [node] the address [malloc] gave for the node itself. *)
Record Allocation := mkAllocation {
  object_id : Z;      (* int *)
  ptr : Z;            (* void* *)
  size : Z;           (* size_t *)
  node : Z
}.

(** What the replayer writes to [stderr]. *)
Inductive Output :=
| ErrTracking                         (* "ERROR: Failed to allocate tracking structure" *)
| WarnMallocFailed (size object_id : Z). (* "WARNING: malloc(%zu) failed for object %d" *)

(** [AllocatorStats].  [table] maps a bucket index to its chain; a [NULL]
    bucket is an absent key. *)
Record AllocatorStats := mkStats {
  table : gmap Z (list Allocation);
  total_allocations : Z;
  total_frees : Z;
  total_bytes_allocated : Z;
  total_bytes_freed : Z;
  current_bytes : Z;
  peak_bytes : Z;
  live_objects : Z;
  failed_allocations : Z;
  failed_frees : Z
}.

(** [init_stats] *)
Definition init_stats : AllocatorStats := mkStats ∅ 0 0 0 0 0 0 0 0 0.

(** [hash]: the [int] is converted to [unsigned int] first. *)
Definition hash (object_id : Z) : Z := wrap32 object_id mod HASH_SIZE.

Definition bucket (t : gmap Z (list Allocation)) (idx : Z) : list Allocation :=
  default [] (t !! idx).

Definition set_bucket (idx : Z) (chain : list Allocation) (t : gmap Z (list Allocation))
  : gmap Z (list Allocation) :=
  match chain with
  | [] => delete idx t
  | _ => <[idx := chain]> t
  end.

(** The [while] loop of [find_allocation] along a chain. *)
Fixpoint find_in_chain (object_id0 : Z) (chain : list Allocation) : option Allocation :=
  match chain with
  | [] => None
  | curr :: next =>
      if object_id curr =? object_id0 then Some curr else find_in_chain object_id0 next
  end.

(** [find_allocation] *)
Definition find_allocation (stats : AllocatorStats) (object_id : Z) : option Allocation :=
  find_in_chain object_id (bucket (table stats) (hash object_id)).

(** The [while] loop of [remove_allocation]: the chain without the first
    node for the id, and that node. *)
Fixpoint remove_from_chain (object_id0 : Z) (chain : list Allocation)
  : list Allocation * option Allocation :=
  match chain with
  | [] => ([], None)
  | curr :: next =>
      if object_id curr =? object_id0 then (next, Some curr)
      else let '(next', found) := remove_from_chain object_id0 next in (curr :: next', found)
  end.

(** *** Reading a line *)

Fixpoint skip_commas (s : string) : string :=
  match s with
  | String c rest => if Ascii.eqb c ","%char then skip_commas rest else s
  | EmptyString => s
  end.

Fixpoint until_comma (s : string) : string * string :=
  match s with
  | EmptyString => (EmptyString, EmptyString)
  | String c rest =>
      if Ascii.eqb c ","%char then (EmptyString, rest)
      else let '(token, rest') := until_comma rest in (String c token, rest')
  end.

(** [strtok(..., ",")] on what is left of the line: the next token, which is
    never empty, and what is left after it; [None] for [NULL]. *)
Definition strtok (s : string) : option (string * string) :=
  match skip_commas s with
  | EmptyString => None
  | s' => Some (until_comma s')
  end.

(** [strstr(line, needle) != NULL] *)
Fixpoint strstr (line needle : string) : bool :=
  String.prefix needle line ||
  match line with
  | String _ rest => strstr rest needle
  | EmptyString => false
  end.

(** [line[strcspn(line, "\r\n")] = 0] *)
Fixpoint chomp (line : string) : string :=
  match line with
  | String c rest =>
      if Ascii.eqb c "013"%char || Ascii.eqb c "010"%char then EmptyString
      else String c (chomp rest)
  | EmptyString => EmptyString
  end.

Section Replayer.

(** The C library allocator. *)
Variable Heap : Type.
Variable malloc : Z -> Heap -> Z * Heap.
Variable free : Z -> Heap -> Heap.

(** The process: the global [g_stats], the allocator, [stderr]. *)
Record Process := mkProcess {
  g_stats : AllocatorStats;
  heap : Heap;
  stderr : list Output
}.

Definition with_table (t : gmap Z (list Allocation)) (s : AllocatorStats) : AllocatorStats :=
  mkStats t (total_allocations s) (total_frees s) (total_bytes_allocated s)
          (total_bytes_freed s) (current_bytes s) (peak_bytes s) (live_objects s)
          (failed_allocations s) (failed_frees s).

(** [insert_allocation] *)
Definition insert_allocation (object_id ptr size : Z) (p : Process) : Process :=
  let idx := hash object_id in
  let '(alloc, h) := malloc sizeof_Allocation (heap p) in
  if alloc =? nullptr then
    mkProcess (g_stats p) h (stderr p ++ [ErrTracking])
  else
    let chain := mkAllocation object_id ptr size alloc :: bucket (table (g_stats p)) idx in
    mkProcess (with_table (set_bucket idx chain (table (g_stats p))) (g_stats p)) h (stderr p).

(** [remove_allocation] *)
Definition remove_allocation (object_id : Z) (p : Process) : Process :=
  let idx := hash object_id in
  match remove_from_chain object_id (bucket (table (g_stats p)) idx) with
  | (chain, Some curr) =>
      mkProcess (with_table (set_bucket idx chain (table (g_stats p))) (g_stats p))
                (free (node curr) (heap p)) (stderr p)
  | (_, None) => p
  end.

(** [handle_alloc]; [touch_memory] and [read_random_objects] only touch the
    contents of the regions, which are not part of the state. *)
Definition handle_alloc (object_id size : Z) (p : Process) : Process :=
  let '(ptr, h) := malloc size (heap p) in
  let s := g_stats p in
  if ptr =? nullptr then
    mkProcess
      (mkStats (table s) (total_allocations s) (total_frees s) (total_bytes_allocated s)
               (total_bytes_freed s) (current_bytes s) (peak_bytes s) (live_objects s)
               (wrap64 (failed_allocations s + 1)) (failed_frees s))
      h (stderr p ++ [WarnMallocFailed size object_id])
  else
    let p := insert_allocation object_id ptr size (mkProcess s h (stderr p)) in
    let s := g_stats p in
    let current := wrap64 (current_bytes s + size) in
    mkProcess
      (mkStats (table s) (wrap64 (total_allocations s + 1)) (total_frees s)
               (wrap64 (total_bytes_allocated s + size)) (total_bytes_freed s)
               current (if peak_bytes s <? current then current else peak_bytes s)
               (wrap64 (live_objects s + 1)) (failed_allocations s) (failed_frees s))
      (heap p) (stderr p).

(** [handle_free] *)
Definition handle_free (object_id : Z) (p : Process) : Process :=
  let s := g_stats p in
  match find_allocation s object_id with
  | None =>
      mkProcess
        (mkStats (table s) (total_allocations s) (total_frees s) (total_bytes_allocated s)
                 (total_bytes_freed s) (current_bytes s) (peak_bytes s) (live_objects s)
                 (failed_allocations s) (wrap64 (failed_frees s + 1)))
        (heap p) (stderr p)
  | Some alloc =>
      let h := free (ptr alloc) (heap p) in
      let s := mkStats (table s) (total_allocations s) (wrap64 (total_frees s + 1))
                 (total_bytes_allocated s) (wrap64 (total_bytes_freed s + size alloc))
                 (wrap64 (current_bytes s - size alloc)) (peak_bytes s)
                 (wrap64 (live_objects s - 1)) (failed_allocations s) (failed_frees s) in
      remove_allocation object_id (mkProcess s h (stderr p))
  end.

(** [parse_csv_line] *)
Definition parse_csv_line (line : string) (p : Process) : Process :=
  if strstr line "timestamp" then p
  else
    match strtok line with
    | None => p
    | Some (_, line) =>                              (* timestamp *)
    match strtok line with
    | None => p
    | Some (token, line) =>
    let event_type := String.substring 0 31 token in (* strncpy, 31 characters *)
    match strtok line with
    | None => p
    | Some (token, line) =>
    let object_id := atoi token in
    match strtok line with
    | None => p
    | Some (token, line) =>
    let size := wrap64 (atol token) in               (* (size_t)atol(token) *)
    if String.eqb event_type "alloc" then handle_alloc object_id size p
    else if String.eqb event_type "free" then handle_free object_id p
    else p
    end end end end.

(** The [while (fgets(line, sizeof(line), fp))] loop of [main], for lines
    that fit the buffer. *)
Definition process_file (lines : list string) (p : Process) : Process :=
  foldl (fun p line => parse_csv_line (chomp line) p) p lines.

End Replayer.

Arguments mkProcess {Heap} g_stats heap stderr.
Arguments g_stats {Heap} p.
Arguments heap {Heap} p.
Arguments stderr {Heap} p.
Arguments insert_allocation {Heap} malloc object_id ptr size p.
Arguments remove_allocation {Heap} free object_id p.
Arguments handle_alloc {Heap} malloc object_id size p.
Arguments handle_free {Heap} free object_id p.
Arguments parse_csv_line {Heap} malloc free line p.
Arguments process_file {Heap} malloc free lines p.

(** [(long long) x] for a 64-bit unsigned [x] (two's complement). *)
Definition to_long_long (z : Z) : Z := (z + 2 ^ 63) mod 2 ^ 64 - 2 ^ 63.

(** The "Memory Leak" figure of [print_statistics]. *)
Definition memory_leak (stats : AllocatorStats) : Z :=
  to_long_long (wrap64 (total_bytes_allocated stats - total_bytes_freed stats)).

(** The bytes of the regions that the nodes of a chain track, and the bytes
    and the nodes of a whole table. *)
Definition chain_bytes (chain : list Allocation) : Z :=
  foldr (fun curr acc => size curr + acc) 0 chain.

Definition tracked_bytes (t : gmap Z (list Allocation)) : Z := sum_of chain_bytes t.

Definition tracked_nodes (t : gmap Z (list Allocation)) : Z :=
  sum_of (fun chain => Z.of_nat (length chain)) t.

(** Every chain of the table sits at an index of the array, is not empty (an
    empty bucket is [NULL]), and holds only nodes whose id hashes to its
    index. *)
Definition table_in_bounds (t : gmap Z (list Allocation)) : Prop :=
  forall idx chain, t !! idx = Some chain ->
    0 <= idx < HASH_SIZE /\ chain <> [] /\
    Forall (fun curr => hash (object_id curr) = idx) chain.

(** The tracking structure could always be allocated: the process never
    wrote "Failed to allocate tracking structure". *)
Definition tracking_complete {Heap} (p : Process Heap) : Prop :=
  ~ In ErrTracking (stderr p).

(** The counters of live bytes and live objects are the differences of the
    running totals, in 64-bit arithmetic. *)
Definition balanced (s : AllocatorStats) : Prop :=
  current_bytes s = wrap64 (total_bytes_allocated s - total_bytes_freed s) /\
  live_objects s = wrap64 (total_allocations s - total_frees s).

(** The counters of live bytes and live objects describe the table. *)
Definition tracked (s : AllocatorStats) : Prop :=
  table_in_bounds (table s) /\
  current_bytes s = wrap64 (tracked_bytes (table s)) /\
  live_objects s = wrap64 (tracked_nodes (table s)).

(** A field of a row: not empty, no comma in it. *)
Fixpoint comma_free (s : string) : bool :=
  match s with
  | String c rest => negb (Ascii.eqb c ","%char) && comma_free rest
  | EmptyString => true
  end.

Definition is_field (s : string) : Prop := s <> EmptyString /\ comma_free s = true.

(** How often the address [q] is held by the nodes of a chain, as the
    region of a node or as the node itself; and by a whole table. *)
Definition chain_holds (q : Z) (chain : list Allocation) : Z :=
  foldr (fun curr acc =>
           (if ptr curr =? q then 1 else 0) + (if node curr =? q then 1 else 0) + acc)
        0 chain.

Definition table_holds (q : Z) (t : gmap Z (list Allocation)) : Z :=
  sum_of (chain_holds q) t.

(** No node of the table has a null region or sits at the null address. *)
Definition nodes_valid (t : gmap Z (list Allocation)) : Prop :=
  forall idx chain, t !! idx = Some chain ->
    Forall (fun curr => ptr curr <> nullptr /\ node curr <> nullptr) chain.

(** The calls on the allocator and the table: [free] was never called with
    null, and every other address was freed and is held by the table at
    most as often as [malloc] returned it, exactly as often while the
    tracking structure could always be allocated. *)
Definition accounted {Heap} (p : Process (Heap * list HeapCall)) : Prop :=
  table_in_bounds (table (g_stats p)) /\ nodes_valid (table (g_stats p)) /\
  times_freed nullptr (heap p).2 = 0 /\
  forall q, q <> nullptr ->
    times_freed q (heap p).2 + table_holds q (table (g_stats p))
      <= times_allocated q (heap p).2 /\
    (tracking_complete p ->
     times_freed q (heap p).2 + table_holds q (table (g_stats p))
       = times_allocated q (heap p).2).

Section Teardown.

Context {Heap : Type}.
Variable malloc : Z -> Heap -> Z * Heap.
Variable free : Z -> Heap -> Heap.

(** The inner [while] loop of the cleanup at the end of [main]: the region
    of each node, unless it is null, then the node. *)
Definition cleanup_chain (chain : list Allocation) (h : Heap) : Heap :=
  foldl (fun h curr =>
           free (node curr) (if ptr curr =? nullptr then h else free (ptr curr) h))
        h chain.

(** The cleanup loop of [main], over the buckets 0 to [HASH_SIZE - 1]. *)
Definition cleanup (p : Process Heap) : Heap :=
  foldl (fun h i => cleanup_chain (bucket (table (g_stats p)) i) h) (heap p)
        (seqZ 0 HASH_SIZE).

(** [main] for a file that can be opened, from [init_stats] to the cleanup:
    the allocator as the run leaves it. *)
Definition main (lines : list string) (h : Heap) : Heap :=
  cleanup (process_file malloc free lines (mkProcess init_stats h [])).

End Teardown.

End CReplay.

(** ** The C++ library's [std::sort]

    [load_oracle] sorts with [std::sort], which is library code.  The
    theorems about the load take it as a parameter that meets the contract
    of the C++ standard; this is the implementation the simulator runs with
    when it is built with GCC. *)

Module Libstdcxx.

(** [std::sort] as libstdc++ implements it ([bits/stl_algo.h] and
    [bits/stl_heap.h] of GCC 12): an introsort.  A range of more than 16
    elements is partitioned around the median of three, the left part in a
    loop and the right part recursively, down to parts of at most 16
    elements (a heap sort takes over a part when the depth limit is used
    up); one insertion sort over the whole range finishes.  The range is a
    list, an iterator an index into it; a comparison that reads outside the
    list, which the C++ code never makes on a valid range and strict weak
    order, is false. *)
Section StdSort.

Context {A : Type}.
Variable comp : A -> A -> bool.

Definition S_threshold : nat := 16.

Definition comp_at (arr : list A) (i j : nat) : bool :=
  match arr !! i, arr !! j with
  | Some x, Some y => comp x y
  | _, _ => false
  end.

Definition comp_val_at (arr : list A) (val : A) (j : nat) : bool :=
  match arr !! j with Some y => comp val y | None => false end.

Definition comp_at_val (arr : list A) (i : nat) (val : A) : bool :=
  match arr !! i with Some x => comp x val | None => false end.

(** [*i = *j] *)
Definition assign (i j : nat) (arr : list A) : list A :=
  match arr !! j with Some y => <[i := y]> arr | None => arr end.

(** [std::iter_swap] *)
Definition iter_swap (i j : nat) (arr : list A) : list A :=
  match arr !! i, arr !! j with
  | Some x, Some y => <[j := x]> (<[i := y]> arr)
  | _, _ => arr
  end.

(** [__move_median_to_first] *)
Definition move_median_to_first (result a b c : nat) (arr : list A) : list A :=
  if comp_at arr a b then
    if comp_at arr b c then iter_swap result b arr
    else if comp_at arr a c then iter_swap result c arr
    else iter_swap result a arr
  else if comp_at arr a c then iter_swap result a arr
  else if comp_at arr b c then iter_swap result c arr
  else iter_swap result b arr.

(** [while (__comp(__first, __pivot)) ++__first;] *)
Fixpoint scan_forward (fuel : nat) (arr : list A) (first pivot : nat) : nat :=
  match fuel with
  | O => first
  | S fuel' =>
      if comp_at arr first pivot then scan_forward fuel' arr (S first) pivot else first
  end.

(** [while (__comp(__pivot, __last)) --__last;] *)
Fixpoint scan_backward (fuel : nat) (arr : list A) (pivot last : nat) : nat :=
  match fuel with
  | O => last
  | S fuel' =>
      if comp_at arr pivot last then scan_backward fuel' arr pivot (pred last) else last
  end.

(** [__unguarded_partition]; every round moves [first] up, so the length of
    the list is enough fuel. *)
Fixpoint unguarded_partition (fuel : nat) (first last pivot : nat) (arr : list A)
  : nat * list A :=
  match fuel with
  | O => (first, arr)
  | S fuel' =>
      let first := scan_forward (length arr) arr first pivot in
      let last := pred last in
      let last := scan_backward (length arr) arr pivot last in
      if negb (first <? last)%nat then (first, arr)
      else unguarded_partition fuel' (S first) last pivot (iter_swap first last arr)
  end.

(** [__unguarded_partition_pivot] *)
Definition unguarded_partition_pivot (first last : nat) (arr : list A) : nat * list A :=
  let mid := (first + (last - first) / 2)%nat in
  let arr := move_median_to_first first (first + 1) mid (last - 1) arr in
  unguarded_partition (length arr) (first + 1) last first arr.

(** [__push_heap] *)
Fixpoint push_heap (fuel : nat) (first holeIndex topIndex : nat) (value : A) (arr : list A)
  : list A :=
  let parent := ((holeIndex - 1) / 2)%nat in
  match fuel with
  | O => <[(first + holeIndex)%nat := value]> arr
  | S fuel' =>
      if (topIndex <? holeIndex)%nat && comp_at_val arr (first + parent) value
      then push_heap fuel' first parent topIndex value
             (assign (first + holeIndex) (first + parent) arr)
      else <[(first + holeIndex)%nat := value]> arr
  end.

(** The [while] loop of [__adjust_heap]: the hole and [secondChild] when it
    ends. *)
Fixpoint sift_down (fuel : nat) (first holeIndex secondChild len : nat) (arr : list A)
  : nat * nat * list A :=
  match fuel with
  | O => (holeIndex, secondChild, arr)
  | S fuel' =>
      if (secondChild <? (len - 1) / 2)%nat then
        let secondChild := (2 * (secondChild + 1))%nat in
        let secondChild :=
          if comp_at arr (first + secondChild) (first + (secondChild - 1))
          then (secondChild - 1)%nat else secondChild in
        sift_down fuel' first secondChild secondChild len
          (assign (first + holeIndex) (first + secondChild) arr)
      else (holeIndex, secondChild, arr)
  end.

(** [__adjust_heap] *)
Definition adjust_heap (first holeIndex len : nat) (value : A) (arr : list A) : list A :=
  let topIndex := holeIndex in
  let '(holeIndex, secondChild, arr) := sift_down len first holeIndex holeIndex len arr in
  let '(holeIndex, arr) :=
    if Nat.even len && (secondChild =? (len - 2) / 2)%nat then
      let secondChild := (2 * (secondChild + 1))%nat in
      ((secondChild - 1)%nat, assign (first + holeIndex) (first + (secondChild - 1)) arr)
    else (holeIndex, arr) in
  push_heap len first holeIndex topIndex value arr.

(** [__pop_heap] *)
Definition pop_heap (first last result : nat) (arr : list A) : list A :=
  match arr !! result with
  | Some value => adjust_heap first 0 (last - first) value (assign result first arr)
  | None => arr
  end.

(** The [while (true)] loop of [__make_heap], from [parent] down to 0. *)
Fixpoint make_heap_from (parent : nat) (first len : nat) (arr : list A) : list A :=
  let arr := match arr !! (first + parent)%nat with
             | Some value => adjust_heap first parent len value arr
             | None => arr
             end in
  match parent with
  | O => arr
  | S parent' => make_heap_from parent' first len arr
  end.

(** [__make_heap] *)
Definition make_heap (first last : nat) (arr : list A) : list A :=
  if (last - first <? 2)%nat then arr
  else make_heap_from ((last - first - 2) / 2) first (last - first) arr.

(** [__sort_heap] *)
Fixpoint sort_heap (fuel : nat) (first last : nat) (arr : list A) : list A :=
  match fuel with
  | O => arr
  | S fuel' =>
      if (1 <? last - first)%nat
      then sort_heap fuel' first (pred last) (pop_heap first (pred last) (pred last) arr)
      else arr
  end.

(** [__heap_select] *)
Definition heap_select (first middle last : nat) (arr : list A) : list A :=
  foldl (fun arr i => if comp_at arr i first then pop_heap first middle i arr else arr)
        (make_heap first middle arr) (seq middle (last - middle)).

(** [__partial_sort] *)
Definition partial_sort (first middle last : nat) (arr : list A) : list A :=
  sort_heap (middle - first) first middle (heap_select first middle last arr).

(** [__introsort_loop]; every partition leaves a shorter range on either
    side, so the length of the range is enough fuel. *)
Fixpoint introsort_loop (fuel : nat) (first last depth_limit : nat) (arr : list A)
  : list A :=
  match fuel with
  | O => arr
  | S fuel' =>
      if (S_threshold <? last - first)%nat then
        match depth_limit with
        | O => partial_sort first last last arr
        | S depth_limit =>
            let '(cut, arr) := unguarded_partition_pivot first last arr in
            let arr := introsort_loop fuel' cut last depth_limit arr in
            introsort_loop fuel' first cut depth_limit arr
        end
      else arr
  end.

(** [__unguarded_linear_insert], with [val] taken out of [*last]. *)
Fixpoint unguarded_linear_insert (fuel : nat) (last : nat) (val : A) (arr : list A)
  : list A :=
  match fuel with
  | O => <[last := val]> arr
  | S fuel' =>
      match last with
      | S next =>
          if comp_val_at arr val next
          then unguarded_linear_insert fuel' next val (assign last next arr)
          else <[last := val]> arr
      | O => <[last := val]> arr
      end
  end.

(** [std::move_backward(first, i, i + 1); *first = val] *)
Definition move_to_front (first i : nat) (val : A) (arr : list A) : list A :=
  take first arr ++ val :: take (i - first) (drop first arr) ++ drop (S i) arr.

(** The body of the [for] loop of [__insertion_sort] *)
Definition insertion_step (first : nat) (arr : list A) (i : nat) : list A :=
  match arr !! i with
  | Some val =>
      if comp_at arr i first then move_to_front first i val arr
      else unguarded_linear_insert (length arr) i val arr
  | None => arr
  end.

(** [__insertion_sort] *)
Definition insertion_sort (first last : nat) (arr : list A) : list A :=
  if (first =? last)%nat then arr
  else foldl (insertion_step first) arr (seq (first + 1) (last - (first + 1))).

(** [__unguarded_insertion_sort] *)
Definition unguarded_insertion_sort (first last : nat) (arr : list A) : list A :=
  foldl (fun arr i => match arr !! i with
                      | Some val => unguarded_linear_insert (length arr) i val arr
                      | None => arr
                      end)
        arr (seq first (last - first)).

(** [__final_insertion_sort] *)
Definition final_insertion_sort (first last : nat) (arr : list A) : list A :=
  if (S_threshold <? last - first)%nat then
    unguarded_insertion_sort (first + S_threshold) last
      (insertion_sort first (first + S_threshold) arr)
  else insertion_sort first last arr.

(** [std::__lg]: the position of the highest bit set. *)
Definition lg (n : nat) : nat := Nat.log2 n.

(** [std::sort(v.begin(), v.end(), comp)] *)
Definition std_sort (arr : list A) : list A :=
  match arr with
  | [] => arr
  | _ =>
      let n := length arr in
      final_insertion_sort 0 n (introsort_loop n 0 n (lg n * 2) arr)
  end.

End StdSort.

End Libstdcxx.

(** ** Concrete environments

    Allocators, a clock and inputs on which the definitions above are run. *)

Module Concrete.

(** A C library allocator that answers from a script: each [malloc] takes
    the next address of the script, and returns null once it is used up. *)
Definition malloc (size : Z) (script : list Z) : Z * list Z :=
  match script with
  | [] => (nullptr, [])
  | p :: rest => (p, rest)
  end.

Definition free (p : Z) (script : list Z) : list Z := script.

(** A sorting function that meets the contract of [std::sort] on every
    input: insertion, each element going behind the elements that are not
    larger, so that equal elements keep the order of the input.  It is what
    [Libstdcxx.std_sort] does on ranges of at most 16 elements. *)
Fixpoint insert_sorted (less : Oracle.Event -> Oracle.Event -> bool) (x : Oracle.Event)
    (l : list Oracle.Event) : list Oracle.Event :=
  match l with
  | [] => [x]
  | y :: rest => if less x y then x :: l else y :: insert_sorted less x rest
  end.

Definition insertion_sort (less : Oracle.Event -> Oracle.Event -> bool)
    (l : list Oracle.Event) : list Oracle.Event :=
  foldl (fun sorted x => insert_sorted less x sorted) [] l.

(** A header line and two rows with the same timestamp. *)
Definition header : string := "timestamp,event_type,object_id,size,site_id,thread_id,type_id".
Definition tied_rows : list string := [header; "5,alloc,1,8,0,0,0"; "5,free,1,0,0,0,0"]%string.

(** A header line and seventeen rows with the same timestamp, the objects
    1 to 17 in this order. *)
Definition seventeen_tied_rows : list string :=
  [header;
   "5,alloc,1,8,0,0,0"; "5,alloc,2,8,0,0,0"; "5,alloc,3,8,0,0,0"; "5,alloc,4,8,0,0,0";
   "5,alloc,5,8,0,0,0"; "5,alloc,6,8,0,0,0"; "5,alloc,7,8,0,0,0"; "5,alloc,8,8,0,0,0";
   "5,alloc,9,8,0,0,0"; "5,alloc,10,8,0,0,0"; "5,alloc,11,8,0,0,0"; "5,alloc,12,8,0,0,0";
   "5,alloc,13,8,0,0,0"; "5,alloc,14,8,0,0,0"; "5,alloc,15,8,0,0,0"; "5,alloc,16,8,0,0,0";
   "5,alloc,17,8,0,0,0"]%string.

(** A header line and a row whose timestamp is not a number. *)
Definition bad_rows : list string := [header; "abc,alloc,1,8,0,0,0"]%string.

(** Three allocations of 10, 20 and 30 bytes, then the three frees. *)
Definition three_objects : list Oracle.Event :=
  [Oracle.mkEvent 0 "alloc" 1 10 0 0 0; Oracle.mkEvent 1 "alloc" 2 20 0 0 0;
   Oracle.mkEvent 2 "alloc" 3 30 0 0 0; Oracle.mkEvent 3 "free" 1 0 0 0 0;
   Oracle.mkEvent 4 "free" 2 0 0 0 0; Oracle.mkEvent 5 "free" 3 0 0 0 0].

(** Two allocations under the same object id, with no free in between. *)
Definition same_id_twice : list Oracle.Event :=
  [Oracle.mkEvent 0 "alloc" 1 10 0 0 0; Oracle.mkEvent 1 "alloc" 1 20 0 0 0].

(** A clock for which every collection takes 7 microseconds. *)
Definition clock : Enhanced.Clock := fun _ => 7.

(** An explicit manager over a backend that has nothing left to give. *)
Definition exhausted : @Enhanced.ExplicitMemoryManager AllocatorBackend.Scripted :=
  Enhanced.new_explicit [].

(** An oracle replayer, just constructed, over the scripted allocator. *)
Definition fresh : Oracle.Replayer (list Z) := Oracle.new_replayer false [] [].

(** The events a load of [lines] leaves in [events_] of a fresh replayer
    (none if the load does not return). *)
Definition loaded_events
    (sort : (Oracle.Event -> Oracle.Event -> bool) -> list Oracle.Event -> list Oracle.Event)
    (lines : list string) : list Oracle.Event :=
  match Oracle.load_oracle sort (Some lines) fresh with
  | Oracle.Returns (_, r) => Oracle.events_ r
  | Oracle.Terminates _ => []
  end.

(** A sorting function for the sites that meets the contract of
    [std::sort]: merge sort, no element going behind one it is less than. *)
Definition not_after {A} (less : A -> A -> bool) (a b : A) : Prop := less b a = false.

#[global] Instance not_after_dec {A} (less : A -> A -> bool) : RelDecision (not_after less) :=
  fun a b => decide (less b a = false).

Definition sort_sites (less : Z * Z -> Z * Z -> bool) (l : list (Z * Z)) : list (Z * Z) :=
  merge_sort (not_after less) l.

(** Three allocations at two sites, then the free of the first object. *)
Definition two_sites : list Oracle.Event :=
  [Oracle.mkEvent 10 "alloc" 1 16 7 0 0; Oracle.mkEvent 11 "alloc" 2 32 9 0 0;
   Oracle.mkEvent 12 "alloc" 3 8 7 0 0; Oracle.mkEvent 15 "free" 1 0 0 0 0].

(** A collector over the scripted backend, with its calls recorded. *)
Definition gc (script : list Z) (threshold allocThreshold : Z)
  : @Enhanced.GCSimulator (AllocatorBackend.Scripted * list AllocatorBackend.Call) :=
  @Enhanced.new_gc _ (script, []) threshold allocThreshold.

End Concrete.

(** * Properties *)

(** ** Machine integers *)

Lemma wrap64_range z : 0 <= wrap64 z < 2 ^ 64.
Proof. unfold wrap64. apply Z.mod_pos_bound. lia. Qed.

Lemma wrap64_small z : 0 <= z < 2 ^ 64 -> wrap64 z = z.
Proof. intros Hz. unfold wrap64. apply Z.mod_small. exact Hz. Qed.

Lemma wrap64_add_l a b : wrap64 (wrap64 a + b) = wrap64 (a + b).
Proof. unfold wrap64. apply Zplus_mod_idemp_l. Qed.

Lemma wrap64_succ_neq z : 0 <= z < 2 ^ 64 -> wrap64 (z + 1) <> z.
Proof.
  intros Hz. unfold wrap64.
  destruct (Z.eq_dec z (2 ^ 64 - 1)) as [->|Hne].
  - vm_compute. discriminate.
  - rewrite Z.mod_small by lia. lia.
Qed.

(** ** Sums over tables *)

Section Sums.

Context {A : Type} (f : A -> Z).

Lemma sum_of_empty : sum_of f (∅ : gmap Z A) = 0.
Proof. unfold sum_of. apply map_fold_empty. Qed.

Lemma sum_of_insert (m : gmap Z A) k x :
  m !! k = None -> sum_of f (<[k := x]> m) = f x + sum_of f m.
Proof.
  intros Hk. unfold sum_of.
  apply (map_fold_insert_L (fun (_ : Z) (x : A) acc => f x + acc)); [|exact Hk].
  intros. lia.
Qed.

Lemma sum_of_delete (m : gmap Z A) k x :
  m !! k = Some x -> sum_of f (delete k m) = sum_of f m - f x.
Proof.
  intros Hk. unfold sum_of.
  rewrite (map_fold_delete_L (fun (_ : Z) (x : A) acc => f x + acc) 0 k x m); [lia| |exact Hk].
  intros. lia.
Qed.

Lemma sum_of_nonneg (m : gmap Z A) :
  (forall k x, m !! k = Some x -> 0 <= f x) -> 0 <= sum_of f m.
Proof.
  induction m as [|k x m Hk IH] using map_ind; intros Hpos.
  - rewrite sum_of_empty. lia.
  - rewrite sum_of_insert by exact Hk.
    assert (0 <= f x) by (apply (Hpos k); apply lookup_insert_eq).
    assert (0 <= sum_of f m).
    { apply IH. intros k' x' Hk'. apply (Hpos k').
      rewrite lookup_insert_ne; [exact Hk'|]. intros ->. congruence. }
    lia.
Qed.

Lemma sum_of_member (m : gmap Z A) k x :
  (forall k x, m !! k = Some x -> 0 <= f x) -> m !! k = Some x -> f x <= sum_of f m.
Proof.
  intros Hpos Hk.
  pose proof (sum_of_delete m k x Hk) as Hd.
  assert (0 <= sum_of f (delete k m)).
  { apply sum_of_nonneg. intros k' x' Hk'. apply (Hpos k').
    apply lookup_delete_Some in Hk'. tauto. }
  lia.
Qed.

End Sums.

(** ** The oracle replayer *)

Section OracleFacts.

Import Oracle.

Context {Heap : Type}.
Variable malloc : Z -> Heap -> Z * Heap.
Variable free : Z -> Heap -> Heap.

Abbreviation Replayer := (Replayer Heap).

Lemma is_alloc_not_free (e : Event) : is_alloc e = true -> is_free e = false.
Proof.
  unfold is_alloc, is_free. intros Ha.
  apply String.eqb_eq in Ha. rewrite Ha. reflexivity.
Qed.

Lemma pending_emit_if c o (r : Replayer) :
  pending_frees_ (emit_if c o r) = pending_frees_ r.
Proof. unfold emit_if. destruct (verbose_ r && c); reflexivity. Qed.

Lemma pending_do_free p (r : Replayer) :
  pending_frees_ (do_free free p r) = pending_frees_ r.
Proof. unfold do_free. destruct (p =? nullptr); reflexivity. Qed.

(** Every iteration of the drain loop pops exactly the front element. *)
Lemma free_front_pops fe (r : Replayer) :
  pending_frees_ (free_front free fe r) = tail (pending_frees_ r).
Proof.
  unfold free_front. destruct (live_objects_ r !! object_id fe); simpl.
  - rewrite pending_emit_if. simpl. rewrite pending_do_free. reflexivity.
  - reflexivity.
Qed.

(** With the length of the queue as fuel the loop runs to its exit test:
    it visits the queue front to back. *)
Lemma drain_foldl q : forall r : Replayer,
  pending_frees_ r = q ->
  drain free (length q) r = foldl (fun s fe => free_front free fe s) r q.
Proof.
  induction q as [|fe q IH]; intros r Hq; simpl.
  - reflexivity.
  - rewrite Hq. apply IH. rewrite free_front_pops, Hq. reflexivity.
Qed.

Lemma foldl_free_front_pending q : forall r : Replayer,
  pending_frees_ r = q ->
  pending_frees_ (foldl (fun s fe => free_front free fe s) r q) = [].
Proof.
  induction q as [|fe q IH]; intros r Hq; simpl.
  - exact Hq.
  - apply IH. rewrite free_front_pops, Hq. reflexivity.
Qed.

Lemma execute_pending_frees_foldl n (r : Replayer) :
  execute_pending_frees free n r =
  foldl (fun s fe => free_front free fe s)
        (emit_if (negb (queue_empty r)) (OutExecuting (queue_size r) n) r)
        (pending_frees_ r).
Proof.
  unfold execute_pending_frees.
  rewrite pending_emit_if. apply drain_foldl. apply pending_emit_if.
Qed.

Lemma execute_pending_frees_empties n (r : Replayer) :
  pending_frees_ (execute_pending_frees free n r) = [].
Proof.
  rewrite execute_pending_frees_foldl.
  apply foldl_free_front_pending, pending_emit_if.
Qed.

Lemma queue_empty_spec (r : Replayer) :
  queue_empty r = true <-> pending_frees_ r = [].
Proof. unfold queue_empty. destruct (pending_frees_ r); split; congruence. Qed.

Lemma before_malloc_empty event (r : Replayer) :
  pending_frees_ (before_malloc free event r) = [].
Proof.
  unfold before_malloc. destruct (queue_empty r) eqn:E.
  - apply queue_empty_spec, E.
  - apply execute_pending_frees_empties.
Qed.

Lemma process_allocation_pending event (r : Replayer) :
  pending_frees_ (process_allocation malloc free event r) = [].
Proof.
  unfold process_allocation. fold (before_malloc free event r).
  pose proof (before_malloc_empty event r) as Hq.
  destruct (before_malloc free event r) as [v i es live q st h out]. simpl in Hq. subst q.
  unfold do_malloc. simpl. destruct (malloc (size event) h) as [p h'].
  destruct (p =? nullptr); [reflexivity|].
  rewrite pending_emit_if. reflexivity.
Qed.

(** *** No queued free is lost *)

Lemma warnings_snoc out o :
  warnings (out ++ [o]) = (warnings out + (if is_warning o then 1 else 0))%nat.
Proof.
  unfold warnings. rewrite List.filter_app, length_app. simpl.
  destruct (is_warning o); reflexivity.
Qed.

Lemma accounted_same (r r' : Replayer) :
  pending_frees_ r' = pending_frees_ r ->
  total_frees (stats_ r') = total_frees (stats_ r) ->
  warnings (output r') = warnings (output r) ->
  0 <= total_frees (stats_ r) < 2 ^ 64 ->
  Accounted 0 r r'.
Proof.
  intros Hq Hs Hw Hrange. exists O, O. rewrite Hq, Hs, Hw. simpl.
  rewrite Z.add_0_r, wrap64_small by exact Hrange. repeat split; lia.
Qed.

Lemma accounted_trans n1 n2 (r1 r2 r3 : Replayer) :
  Accounted n1 r1 r2 -> Accounted n2 r2 r3 -> Accounted (n1 + n2) r1 r3.
Proof.
  intros (k1 & w1 & Hl1 & Hs1 & Hw1) (k2 & w2 & Hl2 & Hs2 & Hw2).
  exists (k1 + k2)%nat, (w1 + w2)%nat. repeat split.
  - lia.
  - rewrite Hs2, Hs1, wrap64_add_l. f_equal. lia.
  - lia.
Qed.

Lemma accounted_range n (r r' : Replayer) :
  Accounted n r r' -> 0 <= total_frees (stats_ r') < 2 ^ 64.
Proof. intros (k & w & _ & Hs & _). rewrite Hs. apply wrap64_range. Qed.

Lemma stats_emit_if c o (r : Replayer) : stats_ (emit_if c o r) = stats_ r.
Proof. unfold emit_if. destruct (verbose_ r && c); reflexivity. Qed.

Lemma stats_do_free p (r : Replayer) : stats_ (do_free free p r) = stats_ r.
Proof. unfold do_free. destruct (p =? nullptr); reflexivity. Qed.

Lemma output_do_free p (r : Replayer) : output (do_free free p r) = output r.
Proof. unfold do_free. destruct (p =? nullptr); reflexivity. Qed.

Lemma warnings_emit_if c o (r : Replayer) :
  is_warning o = false -> warnings (output (emit_if c o r)) = warnings (output r).
Proof.
  intros Ho. unfold emit_if. destruct (verbose_ r && c); [|reflexivity].
  simpl. rewrite warnings_snoc, Ho. lia.
Qed.

Lemma accounted_emit_if c o (r : Replayer) :
  is_warning o = false -> frees_in_range r -> Accounted 0 r (emit_if c o r).
Proof.
  intros Ho Hr. apply accounted_same; [apply pending_emit_if| |apply warnings_emit_if, Ho|exact Hr].
  rewrite stats_emit_if. reflexivity.
Qed.

(** One iteration of the drain loop executes the front free or discards it
    with a warning. *)
Lemma free_front_accounted fe q (r : Replayer) :
  pending_frees_ r = fe :: q -> frees_in_range r -> Accounted 0 r (free_front free fe r).
Proof.
  intros Hq Hr. unfold Accounted. rewrite free_front_pops, Hq. simpl.
  unfold free_front. destruct (live_objects_ r !! object_id fe) as [obj|].
  - exists 1%nat, O. repeat split; [lia| |].
    + simpl. rewrite stats_emit_if. simpl. rewrite stats_do_free. reflexivity.
    + simpl. rewrite warnings_emit_if by reflexivity. simpl.
      rewrite output_do_free. lia.
  - exists O, 1%nat. repeat split; [lia| |].
    + simpl. rewrite Z.add_0_r, wrap64_small by exact Hr. reflexivity.
    + simpl. rewrite warnings_snoc. reflexivity.
Qed.

Lemma foldl_free_front_accounted q : forall r : Replayer,
  pending_frees_ r = q -> frees_in_range r ->
  Accounted 0 r (foldl (fun s fe => free_front free fe s) r q).
Proof.
  induction q as [|fe q IH]; intros r Hq Hr; simpl.
  - apply accounted_same; auto.
  - change O with (0 + 0)%nat.
    pose proof (free_front_accounted fe q r Hq Hr) as H1.
    eapply accounted_trans; [exact H1|].
    apply IH; [rewrite free_front_pops, Hq; reflexivity|].
    eapply accounted_range, H1.
Qed.

Lemma execute_pending_frees_accounted n (r : Replayer) :
  frees_in_range r -> Accounted 0 r (execute_pending_frees free n r).
Proof.
  intros Hr. rewrite execute_pending_frees_foldl.
  change O with (0 + 0)%nat.
  pose proof (accounted_emit_if (negb (queue_empty r)) (OutExecuting (queue_size r) n) r
                eq_refl Hr) as H1.
  eapply accounted_trans; [exact H1|].
  pose proof (foldl_free_front_accounted (pending_frees_ r)
                (emit_if (negb (queue_empty r)) (OutExecuting (queue_size r) n) r)) as H2.
  apply H2; [apply pending_emit_if|]. eapply accounted_range, H1.
Qed.

Lemma before_malloc_accounted event (r : Replayer) :
  frees_in_range r -> Accounted 0 r (before_malloc free event r).
Proof.
  intros Hr. unfold before_malloc. destruct (queue_empty r).
  - apply accounted_same; auto.
  - apply execute_pending_frees_accounted, Hr.
Qed.

Lemma process_allocation_accounted event (r : Replayer) :
  frees_in_range r -> Accounted 0 r (process_allocation malloc free event r).
Proof.
  intros Hr. change O with (0 + 0)%nat.
  pose proof (before_malloc_accounted event r Hr) as H1.
  eapply accounted_trans; [exact H1|].
  apply accounted_range in H1.
  unfold process_allocation. fold (before_malloc free event r).
  destruct (before_malloc free event r) as [v i es live q st h out].
  unfold frees_in_range in H1. simpl in H1.
  unfold do_malloc. simpl. destruct (malloc (size event) h) as [p h'].
  destruct (p =? nullptr).
  - apply accounted_same; simpl; auto. rewrite warnings_snoc. simpl. lia.
  - apply accounted_same; simpl; auto.
    + apply pending_emit_if.
    + rewrite stats_emit_if. reflexivity.
    + apply warnings_emit_if. reflexivity.
Qed.

Lemma process_free_accounted event (r : Replayer) :
  frees_in_range r -> Accounted 1 r (process_free event r).
Proof.
  intros Hr. unfold process_free. exists O, O.
  rewrite pending_emit_if, stats_emit_if, warnings_emit_if by reflexivity. simpl.
  rewrite length_app, Z.add_0_r, wrap64_small by exact Hr. simpl. repeat split; lia.
Qed.

(** The frees that an event submits: one for a free event, none otherwise. *)
Lemma replay_event_accounted event (r : Replayer) :
  frees_in_range r ->
  Accounted (if is_free event then 1 else 0) r (replay_event malloc free event r).
Proof.
  intros Hr. unfold replay_event.
  set (r1 := emit_if _ _ r).
  assert (H1 : Accounted 0 r r1) by (apply accounted_emit_if; [reflexivity|exact Hr]).
  assert (Hr1 : frees_in_range r1) by (eapply accounted_range, H1).
  assert (H2 : Accounted (if is_free event then 1 else 0) r1
                 (if is_alloc event then process_allocation malloc free event r1
                  else if is_free event then process_free event r1 else r1)).
  { destruct (is_alloc event) eqn:Ea.
    - rewrite (is_alloc_not_free _ Ea). apply process_allocation_accounted, Hr1.
    - destruct (is_free event).
      + apply process_free_accounted, Hr1.
      + apply accounted_same; auto. }
  pose proof (accounted_trans _ _ _ _ _ H1 H2) as H3. simpl in H3.
  match goal with |- Accounted _ _ (with_index ?i ?x) =>
    assert (H4 : Accounted 0 x (with_index i x))
      by (apply accounted_same; auto; eapply accounted_range, H3)
  end.
  pose proof (accounted_trans _ _ _ _ _ H3 H4) as H5.
  rewrite Nat.add_0_r in H5. exact H5.
Qed.

Lemma replay_loop_accounted evs : forall r : Replayer,
  frees_in_range r ->
  Accounted (length (List.filter is_free evs)) r (replay_loop malloc free evs r).
Proof.
  induction evs as [|event evs IH]; intros r Hr; simpl.
  - apply accounted_same; auto.
  - pose proof (replay_event_accounted event r Hr) as H1.
    pose proof (IH _ (accounted_range _ _ _ H1)) as H2.
    pose proof (accounted_trans _ _ _ _ _ H1 H2) as H3.
    destruct (is_free event); simpl in *; exact H3.
Qed.

Lemma replay_finish_accounted (r : Replayer) :
  frees_in_range r -> Accounted 0 r (replay_finish free r).
Proof.
  intros Hr. unfold replay_finish.
  set (r1 := if queue_empty r then r else _).
  assert (H1 : Accounted 0 r r1).
  { subst r1. destruct (queue_empty r).
    - apply accounted_same; auto.
    - change O with (0 + 0)%nat.
      pose proof (accounted_emit_if true (OutRemaining (queue_size r)) r eq_refl Hr) as Ha.
      eapply accounted_trans; [exact Ha|].
      apply execute_pending_frees_accounted. eapply accounted_range, Ha. }
  change O with (0 + 0)%nat. eapply accounted_trans; [exact H1|].
  apply accounted_emit_if; [reflexivity|]. eapply accounted_range, H1.
Qed.

Lemma replay_finish_pending (r : Replayer) :
  pending_frees_ (replay_finish free r) = [].
Proof.
  unfold replay_finish. rewrite pending_emit_if.
  destruct (queue_empty r) eqn:E.
  - apply queue_empty_spec, E.
  - apply execute_pending_frees_empties.
Qed.

Lemma process_allocation_after_drain event (r : Replayer) :
  process_allocation malloc free event r =
  process_allocation malloc free event (before_malloc free event r).
Proof.
  pose proof (before_malloc_empty event r) as Hq.
  apply queue_empty_spec in Hq.
  unfold process_allocation. fold (before_malloc free event r).
  rewrite Hq. reflexivity.
Qed.

Lemma before_malloc_foldl event (r : Replayer) :
  before_malloc free event r =
  foldl (fun s fe => free_front free fe s)
        (emit_if (negb (queue_empty r)) (OutExecuting (queue_size r) (size event)) r)
        (pending_frees_ r).
Proof.
  unfold before_malloc. destruct (queue_empty r) eqn:E.
  - apply queue_empty_spec in E. rewrite E. simpl.
    unfold emit_if. rewrite andb_false_r. reflexivity.
  - rewrite execute_pending_frees_foldl, E. reflexivity.
Qed.
(** *** Live bytes *)

Lemma max_of_snoc l x : 0 <= x -> max_of (l ++ [x]) = Z.max (max_of l) x.
Proof.
  intros Hx. unfold max_of. rewrite foldr_app. simpl.
  replace (Z.max x 0) with x by lia.
  induction l as [|a l IH]; simpl; lia.
Qed.

Lemma live_emit_if c o (r : Replayer) : live_objects_ (emit_if c o r) = live_objects_ r.
Proof. unfold emit_if. destruct (verbose_ r && c); reflexivity. Qed.

Lemma live_do_free p (r : Replayer) : live_objects_ (do_free free p r) = live_objects_ r.
Proof. unfold do_free. destruct (p =? nullptr); reflexivity. Qed.

Lemma bytes_consistent_ext (r r' : Replayer) :
  live_objects_ r' = live_objects_ r -> stats_ r' = stats_ r ->
  bytes_consistent r -> bytes_consistent r'.
Proof. unfold bytes_consistent, live_bytes. intros -> ->. tauto. Qed.

Lemma bytes_consistent_nonneg (r : Replayer) :
  bytes_consistent r -> 0 <= current_memory (stats_ r).
Proof.
  intros (Hc & Hpos & _). rewrite Hc. apply sum_of_nonneg. exact Hpos.
Qed.

(** Executing a queued free keeps the counters consistent: the subtraction
    never wraps, the peak stays, the live bytes do not grow. *)
Lemma free_front_bytes fe (r : Replayer) :
  bytes_consistent r ->
  bytes_consistent (free_front free fe r) /\
  peak_memory (stats_ (free_front free fe r)) = peak_memory (stats_ r) /\
  current_memory (stats_ (free_front free fe r)) <= current_memory (stats_ r).
Proof.
  intros Hinv. pose proof (bytes_consistent_nonneg r Hinv) as Hnn.
  destruct Hinv as (Hc & Hpos & Hpk).
  unfold free_front. destruct (live_objects_ r !! object_id fe) as [obj|] eqn:Hk.
  - pose proof (Hpos _ _ Hk) as Hsz.
    pose proof (sum_of_member obj_size _ _ _ Hpos Hk) as Hle.
    fold (live_bytes r) in Hle.
    assert (Hcur : wrap64 (current_memory (stats_ r) - obj_size obj)
                   = current_memory (stats_ r) - obj_size obj)
      by (apply wrap64_small; lia).
    unfold bytes_consistent, live_bytes. simpl.
    rewrite stats_emit_if, live_emit_if. simpl.
    rewrite stats_do_free, live_do_free, Hcur.
    repeat split.
    + rewrite (sum_of_delete obj_size _ _ _ Hk). fold (live_bytes r). lia.
    + intros k' o' Hk'. apply lookup_delete_Some in Hk'. apply (Hpos k'). tauto.
    + lia.
    + lia.
    + lia.
  - simpl. repeat split; try tauto; try lia.
Qed.

Lemma foldl_free_front_bytes q : forall r : Replayer,
  bytes_consistent r ->
  bytes_consistent (foldl (fun s fe => free_front free fe s) r q) /\
  peak_memory (stats_ (foldl (fun s fe => free_front free fe s) r q)) = peak_memory (stats_ r) /\
  current_memory (stats_ (foldl (fun s fe => free_front free fe s) r q))
    <= current_memory (stats_ r).
Proof.
  induction q as [|fe q IH]; intros r Hinv; simpl.
  - split; [exact Hinv|split; lia].
  - destruct (free_front_bytes fe r Hinv) as (H1 & H2 & H3).
    destruct (IH _ H1) as (H4 & H5 & H6). split; [exact H4|split; lia].
Qed.

Lemma execute_pending_frees_bytes n (r : Replayer) :
  bytes_consistent r ->
  bytes_consistent (execute_pending_frees free n r) /\
  peak_memory (stats_ (execute_pending_frees free n r)) = peak_memory (stats_ r) /\
  current_memory (stats_ (execute_pending_frees free n r)) <= current_memory (stats_ r).
Proof.
  intros Hinv. rewrite execute_pending_frees_foldl.
  set (r1 := emit_if _ _ r).
  assert (H1 : bytes_consistent r1).
  { eapply bytes_consistent_ext; [apply live_emit_if|apply stats_emit_if|exact Hinv]. }
  destruct (foldl_free_front_bytes (pending_frees_ r) r1 H1) as (H2 & H3 & H4).
  unfold r1 in H3, H4. rewrite stats_emit_if in H3, H4.
  split; [exact H2|split; [exact H3|exact H4]].
Qed.

Lemma before_malloc_bytes event (r : Replayer) :
  bytes_consistent r ->
  bytes_consistent (before_malloc free event r) /\
  peak_memory (stats_ (before_malloc free event r)) = peak_memory (stats_ r) /\
  current_memory (stats_ (before_malloc free event r)) <= current_memory (stats_ r).
Proof.
  intros Hinv. unfold before_malloc. destruct (queue_empty r).
  - split; [exact Hinv|split; lia].
  - apply execute_pending_frees_bytes, Hinv.
Qed.
(** An allocation that replaces no entry and does not wrap the counter adds
    its size to both sides, and the peak follows. *)
Lemma process_allocation_bytes event (r : Replayer) :
  bytes_consistent r ->
  live_objects_ (before_malloc free event r) !! object_id event = None ->
  0 <= size event ->
  current_memory (stats_ (before_malloc free event r)) + size event < 2 ^ 64 ->
  bytes_consistent (process_allocation malloc free event r) /\
  peak_memory (stats_ (process_allocation malloc free event r))
    = Z.max (peak_memory (stats_ r))
            (current_memory (stats_ (process_allocation malloc free event r))).
Proof.
  intros Hinv Hfresh Hsz Hfit.
  destruct (before_malloc_bytes event r Hinv) as (H1 & Hpk & Hcur).
  pose proof (bytes_consistent_nonneg _ H1) as Hnn.
  destruct Hinv as (_ & _ & Hrange).
  unfold process_allocation. fold (before_malloc free event r).
  destruct (before_malloc free event r) as [v i es live q st h out].
  simpl in *. unfold do_malloc. simpl. destruct (malloc (size event) h) as [p h'].
  destruct H1 as (Hc & Hpos & Hpk1). unfold live_bytes in Hc. simpl in *.
  destruct (p =? nullptr).
  - unfold bytes_consistent, live_bytes. simpl. repeat split; auto; lia.
  - assert (Hw : wrap64 (current_memory st + size event) = current_memory st + size event)
      by (apply wrap64_small; lia).
    unfold bytes_consistent, live_bytes.
    rewrite stats_emit_if, live_emit_if. simpl. rewrite Hw.
    rewrite (sum_of_insert obj_size _ _ _ Hfresh). simpl.
    destruct (Z.ltb_spec (peak_memory st) (current_memory st + size event)).
    + repeat split; try lia.
      intros k o Hk. apply lookup_insert_Some in Hk.
      destruct Hk as [[_ <-]|[_ Hk]]; [simpl; lia|eauto].
    + repeat split; try lia.
      intros k o Hk. apply lookup_insert_Some in Hk.
      destruct Hk as [[_ <-]|[_ Hk]]; [simpl; lia|eauto].
Qed.

Lemma process_free_bytes event (r : Replayer) :
  live_objects_ (process_free event r) = live_objects_ r /\
  stats_ (process_free event r) = stats_ r.
Proof. unfold process_free. rewrite live_emit_if, stats_emit_if. split; reflexivity. Qed.

(** One event of the replay keeps the counters consistent and updates the
    peak to the maximum of the old peak and the new live bytes. *)
Lemma replay_event_bytes event evs (r : Replayer) :
  bytes_consistent r ->
  allocations_fresh malloc free (event :: evs) r ->
  bytes_consistent (replay_event malloc free event r) /\
  peak_memory (stats_ (replay_event malloc free event r))
    = Z.max (peak_memory (stats_ r))
            (current_memory (stats_ (replay_event malloc free event r))).
Proof.
  intros Hinv [Hfresh _]. unfold replay_event.
  set (r1 := emit_if _ _ r) in *.
  assert (H1 : bytes_consistent r1).
  { eapply bytes_consistent_ext; [apply live_emit_if|apply stats_emit_if|exact Hinv]. }
  assert (Hs1 : stats_ r1 = stats_ r) by apply stats_emit_if.
  assert (Hkeep : forall r2 : Replayer,
             live_objects_ r2 = live_objects_ r1 -> stats_ r2 = stats_ r1 ->
             bytes_consistent r2 /\
             peak_memory (stats_ r2)
               = Z.max (peak_memory (stats_ r)) (current_memory (stats_ r2))).
  { intros r2 Hl Hs. split; [eapply bytes_consistent_ext; eauto|].
    rewrite Hs, Hs1. destruct Hinv as (_ & _ & Hrange). lia. }
  match goal with |- bytes_consistent (with_index ?i ?x) /\ _ =>
    change (stats_ (with_index i x)) with (stats_ x);
    cut (bytes_consistent x /\
         peak_memory (stats_ x) = Z.max (peak_memory (stats_ r)) (current_memory (stats_ x)))
  end.
  { intros [Ha Hb]. split; [|exact Hb].
    eapply bytes_consistent_ext; [| |exact Ha]; reflexivity. }
  destruct (is_alloc event) eqn:Ea.
  - destruct (Hfresh eq_refl) as (Hf1 & Hf2 & Hf3).
    rewrite <- Hs1. apply process_allocation_bytes; assumption.
  - destruct (is_free event).
    + apply Hkeep; apply process_free_bytes.
    + apply Hkeep; reflexivity.
Qed.

Lemma replay_loop_app evs1 evs2 : forall r : Replayer,
  replay_loop malloc free (evs1 ++ evs2) r
  = replay_loop malloc free evs2 (replay_loop malloc free evs1 r).
Proof. induction evs1 as [|e evs1 IH]; intros r; simpl; [reflexivity|apply IH]. Qed.

Lemma allocations_fresh_app evs1 evs2 : forall r : Replayer,
  allocations_fresh malloc free (evs1 ++ evs2) r ->
  allocations_fresh malloc free evs2 (replay_loop malloc free evs1 r).
Proof.
  induction evs1 as [|e evs1 IH]; intros r Hf; simpl in *; [exact Hf|].
  apply IH. tauto.
Qed.

(** The invariant along a replay, prefix by prefix. *)
Lemma replay_loop_prefix_bytes evs (r : Replayer) :
  bytes_consistent r ->
  peak_memory (stats_ r) = current_memory (stats_ r) ->
  allocations_fresh malloc free evs r ->
  forall n, (n <= length evs)%nat ->
    bytes_consistent (replay_loop malloc free (take n evs) r) /\
    peak_memory (stats_ (replay_loop malloc free (take n evs) r))
      = max_of (map (fun j => current_memory (stats_ (replay_loop malloc free (take j evs) r)))
                    (seq 0 (S n))).
Proof.
  intros Hinv Hpk Hfresh n. induction n as [|n IH]; intros Hn.
  - simpl. split; [exact Hinv|]. rewrite Hpk.
    pose proof (bytes_consistent_nonneg _ Hinv). lia.
  - destruct IH as [IH1 IH2]; [lia|].
    destruct (lookup_lt_is_Some_2 evs n) as [e He]; [lia|].
    assert (Hstep : replay_loop malloc free (take (S n) evs) r
                    = replay_event malloc free e (replay_loop malloc free (take n evs) r)).
    { rewrite (take_S_r _ _ _ He), replay_loop_app. reflexivity. }
    assert (Hf : allocations_fresh malloc free (e :: drop (S n) evs)
                   (replay_loop malloc free (take n evs) r)).
    { apply allocations_fresh_app. rewrite <- (drop_S _ _ _ He), take_drop. exact Hfresh. }
    destruct (replay_event_bytes e _ _ IH1 Hf) as [H1 H2].
    rewrite <- Hstep in H1, H2.
    split; [exact H1|].
    rewrite (seq_S (S n)), map_app. cbn [map]. rewrite Nat.add_0_l, max_of_snoc.
    + rewrite <- IH2. exact H2.
    + apply bytes_consistent_nonneg, H1.
Qed.

Lemma events_emit_if c o (r : Replayer) : events_ (emit_if c o r) = events_ r.
Proof. unfold emit_if. destruct (verbose_ r && c); reflexivity. Qed.

Lemma replay_unfold (r : Replayer) :
  events_ r <> [] ->
  replay malloc free r =
  replay_finish free (replay_loop malloc free (events_ r) (replay_start r)).
Proof.
  intros Hne. unfold replay, replay_start.
  destruct (events_ r) as [|e es] eqn:E; [congruence|].
  rewrite events_emit_if, E. reflexivity.
Qed.
Lemma replay_finish_bytes (r : Replayer) :
  bytes_consistent r ->
  bytes_consistent (replay_finish free r) /\
  peak_memory (stats_ (replay_finish free r)) = peak_memory (stats_ r).
Proof.
  intros Hinv. unfold replay_finish. rewrite stats_emit_if.
  set (r1 := if queue_empty r then r else _).
  assert (H1 : bytes_consistent r1 /\ peak_memory (stats_ r1) = peak_memory (stats_ r)).
  { subst r1. destruct (queue_empty r); [split; [exact Hinv|reflexivity]|].
    set (r2 := emit_if true _ r).
    assert (H2 : bytes_consistent r2).
    { eapply bytes_consistent_ext; [apply live_emit_if|apply stats_emit_if|exact Hinv]. }
    destruct (execute_pending_frees_bytes 0 r2 H2) as (H3 & H4 & _).
    split; [exact H3|]. rewrite H4. unfold r2. rewrite stats_emit_if. reflexivity. }
  destruct H1 as [H1 H2]. split; [|exact H2].
  eapply bytes_consistent_ext; [apply live_emit_if|apply stats_emit_if|exact H1].
Qed.

Lemma replay_start_consistent verbose evs (h : Heap) :
  bytes_consistent (replay_start (new_replayer verbose evs h)) /\
  peak_memory (stats_ (replay_start (new_replayer verbose evs h)))
    = current_memory (stats_ (replay_start (new_replayer verbose evs h))).
Proof.
  unfold replay_start, bytes_consistent, live_bytes. simpl.
  rewrite stats_emit_if, live_emit_if. simpl.
  rewrite sum_of_empty. repeat split; try lia.
  intros k obj Hk. rewrite lookup_empty in Hk. discriminate.
Qed.

(** The oracle replayer, for the live-bytes claim: after every prefix of the
    events, and at the end of [replay]. *)
Lemma oracle_live_bytes verbose evs (h : Heap) :
  let r0 := new_replayer verbose evs h in
  let current n := current_memory (stats_ (replay_prefix malloc free n r0)) in
  allocations_fresh malloc free evs (replay_start r0) ->
  (forall n, (n <= length evs)%nat ->
     current n = live_bytes (replay_prefix malloc free n r0) /\
     0 <= current n /\
     peak_memory (stats_ (replay_prefix malloc free n r0))
       = max_of (map current (seq 0 (S n)))) /\
  current_memory (stats_ (replay malloc free r0)) = live_bytes (replay malloc free r0) /\
  0 <= current_memory (stats_ (replay malloc free r0)) /\
  peak_memory (stats_ (replay malloc free r0)) = max_of (map current (seq 0 (S (length evs)))).
Proof.
  intros r0 current Hfresh.
  destruct (replay_start_consistent verbose evs h) as [Hinv Hpk]. fold r0 in Hinv, Hpk.
  pose proof (replay_loop_prefix_bytes evs (replay_start r0) Hinv Hpk Hfresh) as Hall.
  assert (Hpre : forall n, (n <= length evs)%nat ->
            current n = live_bytes (replay_prefix malloc free n r0) /\
            0 <= current n /\
            peak_memory (stats_ (replay_prefix malloc free n r0))
              = max_of (map current (seq 0 (S n)))).
  { intros n Hn. destruct (Hall n Hn) as [H1 H2].
    pose proof (bytes_consistent_nonneg _ H1) as H3. destruct H1 as (H1 & _).
    repeat split; assumption. }
  split; [exact Hpre|].
  assert (Hcase : evs = [] \/ evs <> []) by (destruct evs; [left|right]; congruence).
  destruct Hcase as [Hnil|Hne].
  - destruct (Hpre O (Nat.le_0_l _)) as (H1 & H2 & H3).
    subst current r0. subst evs.
    unfold replay_prefix, replay_start, live_bytes in *. simpl in *.
    rewrite stats_emit_if in *. rewrite live_emit_if in H1. simpl in *.
    repeat split; assumption.
  - assert (Hrun : replay malloc free r0
                   = replay_finish free (replay_prefix malloc free (length evs) r0)).
    { unfold replay_prefix. change (events_ r0) with evs. rewrite firstn_all.
      apply replay_unfold. exact Hne. }
    destruct (Hall (length evs) (Nat.le_refl _)) as [H1 H2].
    change (replay_loop malloc free (take (length evs) evs) (replay_start r0))
      with (replay_prefix malloc free (length evs) r0) in H1, H2.
    destruct (replay_finish_bytes _ H1) as [H3 H4].
    rewrite Hrun.
    split; [apply H3|]. split; [apply bytes_consistent_nonneg, H3|].
    rewrite H4. exact H2.
Qed.

Lemma warned_ids_snoc out o :
  warned_ids (out ++ [o])
  = warned_ids out ++ match o with WarnUnknown id => [id] | _ => [] end.
Proof. unfold warned_ids. rewrite flat_map_app. simpl. rewrite app_nil_r. reflexivity. Qed.

Lemma executing_lines_snoc out o :
  executing_lines (out ++ [o])
  = executing_lines out ++ match o with OutExecuting n k => [(n, k)] | _ => [] end.
Proof. unfold executing_lines. rewrite flat_map_app. simpl. rewrite app_nil_r. reflexivity. Qed.

Lemma verbose_emit_if c o (r : Replayer) : verbose_ (emit_if c o r) = verbose_ r.
Proof. unfold emit_if. destruct (verbose_ r && c); reflexivity. Qed.

Lemma heap_of_emit_if c o (r : Replayer) : heap (emit_if c o r) = heap r.
Proof. unfold emit_if. destruct (verbose_ r && c); reflexivity. Qed.

Lemma warned_emit_if c o (r : Replayer) :
  is_warning o = false -> warned_ids (output (emit_if c o r)) = warned_ids (output r).
Proof.
  intros Ho. unfold emit_if. destruct (verbose_ r && c); [|reflexivity].
  cbn [emit output]. rewrite warned_ids_snoc. destruct o; try discriminate; apply app_nil_r.
Qed.

Lemma executing_emit_if c o (r : Replayer) :
  (forall n k, o <> OutExecuting n k) ->
  executing_lines (output (emit_if c o r)) = executing_lines (output r).
Proof.
  intros Ho. unfold emit_if. destruct (verbose_ r && c); [|reflexivity].
  cbn [emit output]. rewrite executing_lines_snoc.
  destruct o; try apply app_nil_r. exfalso. apply (Ho n next_alloc_size). reflexivity.
Qed.

(** One iteration of the loop, component by component. *)
Lemma free_front_effect fe (r : Replayer) :
  let r' := free_front free fe r in
  verbose_ r' = verbose_ r /\
  executing_lines (output r') = executing_lines (output r) /\
  match live_objects_ r !! object_id fe with
  | Some obj =>
      heap r' = (if address obj =? nullptr then heap r else free (address obj) (heap r)) /\
      live_objects_ r' = delete (object_id fe) (live_objects_ r) /\
      stats_ r' = record_free (obj_size obj) (wrap64 (timestamp fe - alloc_time obj))
                    (stats_ r) /\
      warned_ids (output r') = warned_ids (output r)
  | None =>
      heap r' = heap r /\ live_objects_ r' = live_objects_ r /\ stats_ r' = stats_ r /\
      warned_ids (output r') = warned_ids (output r) ++ [object_id fe]
  end.
Proof.
  intros r'. subst r'. unfold free_front.
  destruct (live_objects_ r !! object_id fe) as [obj|] eqn:Hk.
  - cbn [with_pending verbose_ output heap live_objects_ stats_].
    rewrite verbose_emit_if, heap_of_emit_if, live_emit_if, stats_emit_if.
    rewrite executing_emit_if by (intros; discriminate).
    rewrite warned_emit_if by reflexivity.
    cbn [with_live with_stats verbose_ output heap live_objects_ stats_].
    rewrite stats_do_free, live_do_free, output_do_free.
    unfold do_free. destruct (address obj =? nullptr); repeat split; reflexivity.
  - cbn [with_pending emit verbose_ output heap live_objects_ stats_].
    rewrite executing_lines_snoc, warned_ids_snoc, app_nil_r. repeat split; reflexivity.
Qed.

(** The loop does to the queue what [drain_spec] says, entry by entry. *)
Lemma foldl_free_front_effect q : forall r : Replayer,
  let done := drain_spec q (live_objects_ r) in
  let r' := foldl (fun s fe => free_front free fe s) r q in
  verbose_ r' = verbose_ r /\
  executing_lines (output r') = executing_lines (output r) /\
  heap r' = foldl (fun h p => free p h) (heap r) (released_regions done) /\
  live_objects_ r' = live_after done (live_objects_ r) /\
  stats_ r' = recorded_frees done (stats_ r) /\
  warned_ids (output r') = warned_ids (output r) ++ unknown_ids done.
Proof.
  induction q as [|fe q IH]; intros r; cbn [foldl drain_spec].
  - cbv zeta. rewrite app_nil_r. repeat split; reflexivity.
  - cbv zeta. destruct (IH (free_front free fe r)) as (I1 & I2 & I3 & I4 & I5 & I6).
    destruct (free_front_effect fe r) as (F1 & F2 & F3).
    rewrite I1, I2, I3, I4, I5, I6, F1, F2.
    destruct (live_objects_ r !! object_id fe) as [obj|] eqn:Hk.
    + destruct F3 as (F3 & F4 & F5 & F6). rewrite F3, F4, F5, F6.
      split; [reflexivity|]. split; [reflexivity|].
      unfold released_regions, unknown_ids, recorded_frees, live_after.
      cbn [flat_map foldl]. rewrite foldl_app.
      destruct (address obj =? nullptr); repeat split; reflexivity.
    + destruct F3 as (F3 & F4 & F5 & F6). rewrite F3, F4, F5, F6.
      split; [reflexivity|]. split; [reflexivity|].
      unfold released_regions, unknown_ids, recorded_frees, live_after.
      cbn [flat_map foldl app]. rewrite <- app_assoc. repeat split; reflexivity.
Qed.

Lemma execute_pending_frees_effect n (r : Replayer) :
  let done := drain_spec (pending_frees_ r) (live_objects_ r) in
  let r' := execute_pending_frees free n r in
  pending_frees_ r' = [] /\
  verbose_ r' = verbose_ r /\
  executing_lines (output r')
  = executing_lines (output r)
      ++ (if verbose_ r && negb (queue_empty r) then [(queue_size r, n)] else []) /\
  heap r' = foldl (fun h p => free p h) (heap r) (released_regions done) /\
  live_objects_ r' = live_after done (live_objects_ r) /\
  stats_ r' = recorded_frees done (stats_ r) /\
  warned_ids (output r') = warned_ids (output r) ++ unknown_ids done.
Proof.
  intros done r'. subst done r'.
  split; [apply execute_pending_frees_empties|].
  rewrite execute_pending_frees_foldl.
  destruct (foldl_free_front_effect (pending_frees_ r)
              (emit_if (negb (queue_empty r)) (OutExecuting (queue_size r) n) r))
    as (I1 & I2 & I3 & I4 & I5 & I6).
  rewrite live_emit_if in I3, I4, I5, I6.
  rewrite I1, I2, I3, I4, I5, I6.
  rewrite ?verbose_emit_if, ?heap_of_emit_if, ?live_emit_if, ?stats_emit_if.
  rewrite warned_emit_if by reflexivity.
  split; [reflexivity|]. split; [|repeat split; reflexivity].
  unfold emit_if. destruct (verbose_ r && negb (queue_empty r)).
  - cbn [emit output]. apply executing_lines_snoc.
  - symmetry. apply app_nil_r.
Qed.

Lemma drain_spec_length q : forall live, length (drain_spec q live) = length q.
Proof.
  induction q as [|fe q IH]; intros live; cbn [drain_spec]; [reflexivity|].
  destruct (live !! object_id fe); cbn [length]; rewrite IH; reflexivity.
Qed.

Lemma drain_spec_empty_queue (r : Replayer) :
  queue_empty r = true -> drain_spec (pending_frees_ r) (live_objects_ r) = [].
Proof. intros E. apply queue_empty_spec in E. rewrite E. reflexivity. Qed.

(** The state in which [process_allocation] calls [do_malloc]. *)
Lemma before_malloc_effect event (r : Replayer) :
  let done := drain_spec (pending_frees_ r) (live_objects_ r) in
  let r' := before_malloc free event r in
  pending_frees_ r' = [] /\
  verbose_ r' = verbose_ r /\
  executing_lines (output r')
  = executing_lines (output r)
      ++ (if verbose_ r && negb (queue_empty r) then [(queue_size r, size event)] else []) /\
  heap r' = foldl (fun h p => free p h) (heap r) (released_regions done) /\
  live_objects_ r' = live_after done (live_objects_ r) /\
  stats_ r' = recorded_frees done (stats_ r) /\
  warned_ids (output r') = warned_ids (output r) ++ unknown_ids done.
Proof.
  intros done r'. subst done r'. unfold before_malloc.
  destruct (queue_empty r) eqn:E.
  - rewrite (drain_spec_empty_queue r E). rewrite andb_false_r, !app_nil_r.
    split; [apply queue_empty_spec, E|]. repeat split; reflexivity.
  - pose proof (execute_pending_frees_effect (size event) r) as K. cbv zeta in K.
    rewrite E in K. exact K.
Qed.


End OracleFacts.

(** *** Loading the oracle *)

Section OracleLoad.

Import Oracle.

Context {Heap : Type}.
Variable std_sort : (Event -> Event -> bool) -> list Event -> list Event.

Lemma read_rows_accepted lines : forall evs,
  match read_rows lines true evs with
  | inl _ => True
  | inr out => out = evs ++ accepted_rows lines
  end.
Proof.
  induction lines as [|line lines IH]; intros evs; simpl.
  - symmetry. apply app_nil_r.
  - destruct (String.eqb line EmptyString) eqn:Hempty.
    + apply String.eqb_eq in Hempty. subst line. simpl. apply IH.
    + destruct (parse_event line) as [e| |x].
      * specialize (IH (evs ++ [e])). destruct (read_rows lines true (evs ++ [e])); [exact I|].
        rewrite IH, <- app_assoc. reflexivity.
      * apply IH.
      * exact I.
Qed.

(** C10. [load_oracle] drops the first line of the file before it looks at
    it: whatever the first line is, a well-formed event row included, the
    rows are read from the second line on, so the loaded events are those
    that were there before followed by the accepted rows of the other lines,
    and loading gives the same result as with an empty first line.  A file
    that consists of one line, however well-formed, yields no event. *)
Theorem load_oracle_discards_first_line (first : string) (rest : list string)
    (r : Replayer Heap) :
  read_rows (first :: rest) false (events_ r) = read_rows rest true (events_ r) /\
  match read_rows (first :: rest) false (events_ r) with
  | inl _ => True
  | inr out => out = events_ r ++ accepted_rows rest
  end /\
  load_oracle std_sort (Some (first :: rest)) r
    = load_oracle std_sort (Some (EmptyString :: rest)) r /\
  read_rows [first] false [] = inr [].
Proof.
  split; [reflexivity|]. split; [apply (read_rows_accepted rest)|].
  split; reflexivity.
Qed.

Lemma insert_sorted_permutation x l :
  Permutation (Concrete.insert_sorted by_timestamp x l) (x :: l).
Proof.
  induction l as [|y l IH]; simpl; [reflexivity|].
  destruct (by_timestamp x y); [reflexivity|].
  rewrite IH. apply perm_swap.
Qed.

Lemma insert_sorted_sorted x l :
  StronglySorted timestamp_le l ->
  StronglySorted timestamp_le (Concrete.insert_sorted by_timestamp x l).
Proof.
  induction l as [|y l IH]; intros Hs; simpl.
  - constructor; constructor.
  - apply StronglySorted_inv in Hs. destruct Hs as [Hs Hy].
    unfold by_timestamp. destruct (Z.ltb_spec (timestamp x) (timestamp y)) as [Hlt|Hge].
    + constructor; [constructor; assumption|].
      constructor; [unfold timestamp_le; lia|].
      eapply Forall_impl; [exact Hy|]. unfold timestamp_le. intros; lia.
    + constructor; [apply IH, Hs|].
      eapply Permutation_Forall; [symmetry; apply insert_sorted_permutation|].
      constructor; [exact Hge|exact Hy].
Qed.

Lemma insertion_sort_from sorted l :
  StronglySorted timestamp_le sorted ->
  Permutation (foldl (fun acc x => Concrete.insert_sorted by_timestamp x acc) sorted l)
              (l ++ sorted) /\
  StronglySorted timestamp_le
    (foldl (fun acc x => Concrete.insert_sorted by_timestamp x acc) sorted l).
Proof.
  revert sorted. induction l as [|x l IH]; intros sorted Hs; simpl.
  - split; [reflexivity|exact Hs].
  - destruct (IH _ (insert_sorted_sorted x sorted Hs)) as [Hp Hsorted].
    split; [|exact Hsorted].
    rewrite Hp, insert_sorted_permutation. symmetry. apply Permutation_middle.
Qed.

(** Insertion meets the contract of [std::sort]. *)
Lemma insertion_sort_contract : std_sort_contract Concrete.insertion_sort.
Proof.
  intros l. unfold Concrete.insertion_sort.
  destruct (insertion_sort_from [] l) as [Hp Hs]; [constructor|].
  rewrite app_nil_r in Hp. split; assumption.
Qed.

(** C7 (as amended). After [load_oracle] the events are those that were
    loaded before together with the accepted rows of the file, each exactly
    once, in ascending order of timestamp, whatever the order of the rows in
    the file; the order of events with equal timestamps is whatever
    [std::sort] makes it. *)
Theorem load_oracle_sorts_by_timestamp (lines : list string) (r : Replayer Heap) :
  std_sort_contract std_sort ->
  match load_oracle std_sort (Some lines) r with
  | Returns (loaded, r') =>
      StronglySorted (fun a b => timestamp a <= timestamp b) (events_ r') /\
      Permutation (events_ r') (events_ r ++ accepted_rows (tail lines)) /\
      loaded = match events_ r' with [] => false | _ => true end
  | Terminates _ => True
  end.
Proof.
  intros Hsort. unfold load_oracle.
  assert (Hrows : match read_rows lines false (events_ r) with
                  | inl _ => True
                  | inr out => out = events_ r ++ accepted_rows (tail lines)
                  end).
  { destruct lines as [|first rest]; [symmetry; apply app_nil_r|].
    apply (read_rows_accepted rest). }
  destruct (read_rows lines false (events_ r)) as [x|evs]; [exact I|].
  destruct (Hsort evs) as [Hp Hs].
  rewrite !events_emit_if. cbn [events_ with_events].
  split; [exact Hs|]. split; [rewrite Hp, Hrows; reflexivity|reflexivity].
Qed.

End OracleLoad.

(** ** The trace driver *)

Section DriverFacts.

Import AllocatorBackend Enhanced.

Context {M : Type} `{MemorySimulator M}.

Abbreviation Driver := (@TraceReplayer M).

Lemma driver_print_if (c : bool) (o : Output) (t : Driver) :
  memoryManager (if c then driver_print o t else t) = memoryManager t /\
  liveObjects (if c then driver_print o t else t) = liveObjects t.
Proof. destruct c; split; reflexivity. Qed.

(** An 'N' or 'A' line: the manager allocates, and the driver records the
    object under its id whatever the manager returned. *)
Lemma process_alloc_line isArray objectId size typeId siteId length threadId (t : Driver) :
  let line := AllocLine isArray objectId size typeId siteId length threadId in
  let result := sim_allocate (wrap64 size) objectId isArray (memoryManager t) in
  memoryManager (processTraceLine line t) = result.2 /\
  liveObjects (processTraceLine line t)
    = <[objectId := mkRecord objectId (wrap64 size) typeId siteId length threadId
                      result.1 isArray]> (liveObjects t).
Proof.
  intros line result. unfold line, processTraceLine.
  match goal with |- context [if ?c then driver_print ?o ?x else ?x] =>
    destruct (driver_print_if c o x) as [Hm Hl]; rewrite Hm, Hl
  end.
  unfold handleObjectAllocation. cbn [memoryManager liveObjects].
  fold result. destruct result as [ptr mm]. split; reflexivity.
Qed.

(** A 'D' line reaches the manager only for an id the driver knows. *)
Lemma process_death_line objectId threadId timestamp (t : Driver) :
  let line := DeathLine objectId threadId timestamp in
  memoryManager (processTraceLine line t)
    = match liveObjects t !! objectId with
      | Some rec => sim_deallocate objectId (rec_size rec) (memoryManager t)
      | None => memoryManager t
      end /\
  liveObjects (processTraceLine line t) = delete objectId (liveObjects t).
Proof.
  intros line. unfold line, processTraceLine.
  match goal with |- context [if ?c then driver_print ?o ?x else ?x] =>
    destruct (driver_print_if c o x) as [Hm Hl]; rewrite Hm, Hl
  end.
  unfold handleObjectDeath. cbn [memoryManager liveObjects].
  destruct (liveObjects t !! objectId) as [rec|] eqn:Hk; cbn [memoryManager liveObjects].
  - split; reflexivity.
  - split; [reflexivity|]. symmetry. apply delete_id. exact Hk.
Qed.

(** What a line does to the manager. *)
Lemma process_line_manager (line : TraceLine) (t : Driver) :
  memoryManager (processTraceLine line t) =
  match line with
  | Blank | UnknownLine _ => memoryManager t
  | AllocLine isArray objectId size _ _ _ _ =>
      (sim_allocate (wrap64 size) objectId isArray (memoryManager t)).2
  | DeathLine objectId _ _ =>
      match liveObjects t !! objectId with
      | Some rec => sim_deallocate objectId (rec_size rec) (memoryManager t)
      | None => memoryManager t
      end
  | UpdateLine tgtObjId srcObjId _ _ => sim_updateField tgtObjId srcObjId (memoryManager t)
  | EntryLine _ _ _ => sim_methodEntry (memoryManager t)
  | ExitLine _ _ => sim_methodExit (memoryManager t)
  end.
Proof.
  destruct line.
  - reflexivity.
  - apply process_alloc_line.
  - apply process_death_line.
  - unfold processTraceLine.
    match goal with |- context [if ?c then driver_print ?o ?x else ?x] =>
      destruct (driver_print_if c o x) as [Hm _]; rewrite Hm end. reflexivity.
  - unfold processTraceLine.
    match goal with |- context [if ?c then driver_print ?o ?x else ?x] =>
      destruct (driver_print_if c o x) as [Hm _]; rewrite Hm end. reflexivity.
  - unfold processTraceLine.
    match goal with |- context [if ?c then driver_print ?o ?x else ?x] =>
      destruct (driver_print_if c o x) as [Hm _]; rewrite Hm end. reflexivity.
  - unfold processTraceLine.
    match goal with |- context [if ?c then driver_print ?o ?x else ?x] =>
      destruct (driver_print_if c o x) as [Hm _]; rewrite Hm end.
    cbn [verbose]. destruct (verbose t); reflexivity.
Qed.

Lemma replayTrace_snoc (lines : list TraceLine) (line : TraceLine) (t : Driver) :
  replayTrace (lines ++ [line]) t = processTraceLine line (replayTrace lines t).
Proof. unfold replayTrace. rewrite foldl_app. reflexivity. Qed.

Lemma replayTrace_app (lines1 lines2 : list TraceLine) (t : Driver) :
  replayTrace (lines1 ++ lines2) t = replayTrace lines2 (replayTrace lines1 t).
Proof. unfold replayTrace. apply foldl_app. Qed.

Lemma lines_fresh_app (table_of : M -> gmap Z Z) lines1 lines2 : forall t : Driver,
  lines_fresh table_of (lines1 ++ lines2) t ->
  lines_fresh table_of lines2 (replayTrace lines1 t).
Proof.
  induction lines1 as [|line lines1 IH]; intros t Hf; [exact Hf|].
  simpl in Hf. destruct Hf as [_ Hf]. apply (IH _ Hf).
Qed.

End DriverFacts.

(** ** Live bytes in the explicit and GC managers *)

Section TableFacts.

Import AllocatorBackend Enhanced.

Lemma tables_consistent_nonneg allocs sizes s :
  tables_consistent allocs sizes s -> 0 <= currentMemoryUsage s.
Proof. intros (Hc & _ & Hpos & _). rewrite Hc. apply sum_of_nonneg. exact Hpos. Qed.

Lemma tables_consistent_ext allocs sizes s s' :
  currentMemoryUsage s' = currentMemoryUsage s ->
  peakMemoryUsage s' = peakMemoryUsage s ->
  tables_consistent allocs sizes s -> tables_consistent allocs sizes s'.
Proof. unfold tables_consistent. intros -> ->. tauto. Qed.

(** Recording a region under an id that is not in the tables. *)
Lemma tables_record allocs sizes s objectId ptr size :
  tables_consistent allocs sizes s ->
  allocs !! objectId = None -> 0 <= size -> currentMemoryUsage s + size < 2 ^ 64 ->
  tables_consistent (<[objectId := ptr]> allocs) (<[objectId := size]> sizes)
                    (recordAllocation size s) /\
  peakMemoryUsage (recordAllocation size s)
    = Z.max (peakMemoryUsage s) (currentMemoryUsage (recordAllocation size s)) /\
  currentMemoryUsage (recordAllocation size s) = currentMemoryUsage s + size.
Proof.
  intros Hinv Hfresh Hsz Hfit.
  pose proof (tables_consistent_nonneg _ _ _ Hinv) as Hnn.
  destruct Hinv as (Hc & Hdom & Hpos & Hpk).
  assert (Hw : wrap64 (currentMemoryUsage s + size) = currentMemoryUsage s + size)
    by (apply wrap64_small; lia).
  assert (Hs : sizes !! objectId = None) by (apply Hdom, Hfresh).
  unfold tables_consistent, recordAllocation. simpl. rewrite Hw.
  rewrite (sum_of_insert id _ _ _ Hs). unfold id at 1.
  destruct (Z.ltb_spec (peakMemoryUsage s) (currentMemoryUsage s + size)).
  - repeat split; try lia.
    + intros Hk. apply lookup_insert_None in Hk. apply lookup_insert_None.
      split; [apply Hdom|]; tauto.
    + intros Hk. apply lookup_insert_None in Hk. apply lookup_insert_None.
      split; [apply Hdom|]; tauto.
    + intros k v Hk. apply lookup_insert_Some in Hk.
      destruct Hk as [[_ <-]|[_ Hk]]; [lia|eauto].
  - repeat split; try lia.
    + intros Hk. apply lookup_insert_None in Hk. apply lookup_insert_None.
      split; [apply Hdom|]; tauto.
    + intros Hk. apply lookup_insert_None in Hk. apply lookup_insert_None.
      split; [apply Hdom|]; tauto.
    + intros k v Hk. apply lookup_insert_Some in Hk.
      destruct Hk as [[_ <-]|[_ Hk]]; [lia|eauto].
Qed.

(** Releasing the region of an id that is in the tables: the subtraction
    does not wrap. *)
Lemma tables_release allocs sizes s objectId ptr :
  tables_consistent allocs sizes s ->
  allocs !! objectId = Some ptr ->
  let s' := recordDeallocation (default 0 (sizes !! objectId)) s in
  tables_consistent (delete objectId allocs) (delete objectId sizes) s' /\
  peakMemoryUsage s' = peakMemoryUsage s /\
  currentMemoryUsage s' <= currentMemoryUsage s.
Proof.
  intros Hinv Hlive s'.
  pose proof (tables_consistent_nonneg _ _ _ Hinv) as Hnn.
  destruct Hinv as (Hc & Hdom & Hpos & Hpk).
  destruct (sizes !! objectId) as [size|] eqn:Hs;
    [|apply Hdom in Hs; congruence].
  pose proof (Hpos _ _ Hs) as Hsz.
  pose proof (sum_of_member id _ _ _ Hpos Hs) as Hle. unfold id at 1 in Hle.
  assert (Hw : wrap64 (currentMemoryUsage s - size) = currentMemoryUsage s - size)
    by (apply wrap64_small; lia).
  subst s'. unfold tables_consistent, recordDeallocation. simpl. rewrite Hw.
  rewrite (sum_of_delete id _ _ _ Hs). unfold id at 2.
  repeat split; try lia.
  - intros Hk. apply lookup_delete_None in Hk. apply lookup_delete_None.
    destruct Hk as [Hk|Hk]; [left; exact Hk|right; apply Hdom, Hk].
  - intros Hk. apply lookup_delete_None in Hk. apply lookup_delete_None.
    destruct Hk as [Hk|Hk]; [left; exact Hk|right; apply Hdom, Hk].
  - intros k v Hk. apply lookup_delete_Some in Hk. apply (Hpos k). tauto.
Qed.

End TableFacts.

Section ExplicitFacts.

Import AllocatorBackend Enhanced.

Context {B : Type} `{Backend B}.

Abbreviation Explicit := (@ExplicitMemoryManager B).

Lemma explicit_allocate_consistent size objectId isArray (m : Explicit) :
  explicit_consistent m ->
  allocations m !! objectId = None -> 0 <= size ->
  currentMemoryUsage (stats m) + size < 2 ^ 64 ->
  let m' := (explicit_allocate size objectId isArray m).2 in
  explicit_consistent m' /\
  peakMemoryUsage (stats m')
    = Z.max (peakMemoryUsage (stats m)) (currentMemoryUsage (stats m')).
Proof.
  intros Hinv Hfresh Hsz Hfit. unfold explicit_allocate.
  destruct (allocate size (allocator m)) as [ptr a].
  destruct (ptr =? nullptr); cbn [snd].
  - split; [exact Hinv|]. cbn [stats]. destruct Hinv as (_ & _ & _ & Hpk). lia.
  - destruct (tables_record _ _ _ objectId ptr size Hinv Hfresh Hsz Hfit) as (H1 & H2 & _).
    split; [exact H1|exact H2].
Qed.

Lemma explicit_deallocate_consistent objectId size (m : Explicit) :
  explicit_consistent m ->
  let m' := explicit_deallocate objectId size m in
  explicit_consistent m' /\
  peakMemoryUsage (stats m') = peakMemoryUsage (stats m) /\
  currentMemoryUsage (stats m') <= currentMemoryUsage (stats m).
Proof.
  intros Hinv. unfold explicit_deallocate.
  destruct (allocations m !! objectId) as [ptr|] eqn:Hlive.
  - apply (tables_release _ _ _ objectId ptr Hinv Hlive).
  - split; [exact Hinv|split; lia].
Qed.

(** One line of the trace, in explicit mode. *)
Lemma explicit_line_bytes (line : TraceLine) (t : @TraceReplayer Explicit) :
  explicit_consistent (memoryManager t) ->
  lines_fresh allocations [line] t ->
  let m' := memoryManager (processTraceLine line t) in
  explicit_consistent m' /\
  peakMemoryUsage (stats m')
    = Z.max (peakMemoryUsage (stats (memoryManager t))) (currentMemoryUsage (stats m')).
Proof.
  intros Hinv [Hfresh _] m'. subst m'. rewrite process_line_manager.
  pose proof Hinv as (_ & _ & _ & Hpk).
  assert (Hsame : explicit_consistent (memoryManager t) /\
                  peakMemoryUsage (stats (memoryManager t))
                  = Z.max (peakMemoryUsage (stats (memoryManager t)))
                          (currentMemoryUsage (stats (memoryManager t))))
    by (split; [exact Hinv|lia]).
  destruct line as [|isArray objectId size ? ? ? ?|objectId ? ?| | | |]; try exact Hsame.
  - destruct Hfresh as [Hf1 Hf2]. cbn [sim_allocate explicit_simulator].
    apply explicit_allocate_consistent; try assumption.
    apply wrap64_range.
  - destruct (liveObjects t !! objectId) as [rec|]; [|exact Hsame].
    cbn [sim_deallocate explicit_simulator].
    destruct (explicit_deallocate_consistent objectId (rec_size rec) _ Hinv) as (H1 & H2 & H3).
    split; [exact H1|]. rewrite H2. lia.
Qed.

(** The invariant along a trace in explicit mode, prefix by prefix. *)
Lemma explicit_prefix_bytes (lines : list TraceLine) (t : @TraceReplayer Explicit) :
  explicit_consistent (memoryManager t) ->
  peakMemoryUsage (stats (memoryManager t)) = currentMemoryUsage (stats (memoryManager t)) ->
  lines_fresh allocations lines t ->
  forall n, (n <= length lines)%nat ->
    let m := memoryManager (replayTrace (take n lines) t) in
    explicit_consistent m /\
    peakMemoryUsage (stats m) = max_of (live_bytes_history lines t n).
Proof.
  intros Hinv Hpk Hfresh n. unfold live_bytes_history.
  induction n as [|n IH]; intros Hn.
  - simpl. split; [exact Hinv|]. rewrite Hpk.
    pose proof (tables_consistent_nonneg _ _ _ Hinv). lia.
  - destruct IH as [IH1 IH2]; [lia|].
    destruct (lookup_lt_is_Some_2 lines n) as [line Hline]; [lia|].
    assert (Hstep : replayTrace (take (S n) lines) t
                    = processTraceLine line (replayTrace (take n lines) t)).
    { rewrite (take_S_r _ _ _ Hline). apply replayTrace_snoc. }
    assert (Hf : lines_fresh allocations [line] (replayTrace (take n lines) t)).
    { pose proof (lines_fresh_app allocations (take n lines) (drop n lines) t) as Hd.
      rewrite take_drop in Hd. specialize (Hd Hfresh).
      rewrite (drop_S _ _ _ Hline) in Hd. destruct Hd as [Hd _]. split; [exact Hd|exact I]. }
    destruct (explicit_line_bytes line _ IH1 Hf) as [H1 H2].
    rewrite <- Hstep in H1, H2. cbv zeta.
    split; [exact H1|].
    rewrite (seq_S (S n)), map_app. cbn [map]. rewrite Nat.add_0_l, max_of_snoc.
    + cbv zeta in IH2. rewrite <- IH2. exact H2.
    + apply (tables_consistent_nonneg _ _ _ H1).
Qed.

End ExplicitFacts.

(** ** The garbage-collection simulator *)

Section GCFacts.

Import AllocatorBackend Enhanced.

Context {B : Type} `{Backend B} `{Clock}.

Abbreviation GC := (@GCSimulator B).

(** What a sweep leaves alone. *)
Lemma sweep_one_frame (acc : Sweep) (deadId : Z) :
  deadObjects (sweep_one acc deadId).1.1 = deadObjects acc.1.1 /\
  gcThreshold (sweep_one acc deadId).1.1 = gcThreshold acc.1.1 /\
  allocationsSinceLastGC (sweep_one acc deadId).1.1 = allocationsSinceLastGC acc.1.1 /\
  allocationThreshold (sweep_one acc deadId).1.1 = allocationThreshold acc.1.1 /\
  gc_console (sweep_one acc deadId).1.1 = gc_console acc.1.1 /\
  gcCollections (gc_stats (sweep_one acc deadId).1.1) = gcCollections (gc_stats acc.1.1) /\
  totalGCTime (gc_stats (sweep_one acc deadId).1.1) = totalGCTime (gc_stats acc.1.1).
Proof.
  destruct acc as [[g fb] fo]. unfold sweep_one.
  destruct (gc_allocations g !! deadId); simpl; repeat split; reflexivity.
Qed.

Lemma sweep_frame ids : forall acc : Sweep,
  deadObjects (foldl sweep_one acc ids).1.1 = deadObjects acc.1.1 /\
  gcThreshold (foldl sweep_one acc ids).1.1 = gcThreshold acc.1.1 /\
  allocationsSinceLastGC (foldl sweep_one acc ids).1.1 = allocationsSinceLastGC acc.1.1 /\
  allocationThreshold (foldl sweep_one acc ids).1.1 = allocationThreshold acc.1.1 /\
  gc_console (foldl sweep_one acc ids).1.1 = gc_console acc.1.1 /\
  gcCollections (gc_stats (foldl sweep_one acc ids).1.1) = gcCollections (gc_stats acc.1.1) /\
  totalGCTime (gc_stats (foldl sweep_one acc ids).1.1) = totalGCTime (gc_stats acc.1.1).
Proof.
  induction ids as [|id ids IH]; intros acc; simpl.
  - repeat split; reflexivity.
  - destruct (IH (sweep_one acc id)) as (H1 & H2 & H3 & H4 & H5 & H6 & H7).
    destruct (sweep_one_frame acc id) as (K1 & K2 & K3 & K4 & K5 & K6 & K7).
    repeat split; congruence.
Qed.

(** An id that is not in the table is skipped: nothing is released for it. *)
Lemma sweep_one_absent (g : GC) (freedBytes freedObjects deadId : Z) :
  gc_allocations g !! deadId = None ->
  sweep_one (g, freedBytes, freedObjects) deadId = (g, freedBytes, freedObjects).
Proof. intros Habs. unfold sweep_one. rewrite Habs. reflexivity. Qed.

Lemma sweep_all_absent ids : forall (g : GC) (freedBytes freedObjects : Z),
  (forall id, id ∈ ids -> gc_allocations g !! id = None) ->
  foldl sweep_one (g, freedBytes, freedObjects) ids = (g, freedBytes, freedObjects).
Proof.
  induction ids as [|id ids IH]; intros g fb fo Habs; cbn [foldl]; [reflexivity|].
  rewrite sweep_one_absent by (apply Habs; left).
  apply IH. intros id' Hin. apply Habs. right. exact Hin.
Qed.

Lemma performGC_clears (g : GC) :
  deadObjects (performGC g) = ∅ /\ allocationsSinceLastGC (performGC g) = 0.
Proof.
  unfold performGC.
  destruct (foldl sweep_one (g, 0, 0) (elements (deadObjects g))) as [[g' fb] fo].
  split; reflexivity.
Qed.

Lemma performGC_counts (g : GC) :
  gc_runs (performGC g) = S (gc_runs g) /\
  gcCollections (gc_stats (performGC g)) = wrap64 (gcCollections (gc_stats g) + 1) /\
  totalGCTime (gc_stats (performGC g))
    = wrap64 (totalGCTime (gc_stats g) + wrap64 (gcDuration (gcCollections (gc_stats g)))) /\
  gcThreshold (performGC g) = gcThreshold g /\
  allocationThreshold (performGC g) = allocationThreshold g.
Proof.
  unfold performGC.
  pose proof (sweep_frame (elements (deadObjects g)) (g, 0, 0)) as Hf.
  destruct (foldl sweep_one (g, 0, 0) (elements (deadObjects g))) as [[g' fb] fo].
  simpl in Hf. destruct Hf as (H1 & H2 & H3 & H4 & H5 & H6 & H7).
  unfold gc_runs. simpl. rewrite H5, H6, H7, List.filter_app, length_app. simpl.
  repeat split; auto. lia.
Qed.

(** A collection whose dead set holds no id of the table (an empty dead set
    in particular) releases nothing: only the bookkeeping of the collection
    itself changes. *)
Lemma performGC_nothing_to_sweep (g : GC) :
  (forall id, id ∈ deadObjects g -> gc_allocations g !! id = None) ->
  performGC g =
  mkGC (gc_allocations g) (gc_sizes g) ∅ (gcThreshold g) 0 (allocationThreshold g)
       (recordGC (wrap64 (gcDuration (gcCollections (gc_stats g)))) (gc_stats g))
       (gc_allocator g)
       (gc_console g ++ [OutGC 0 0 (gcDuration (gcCollections (gc_stats g)))]).
Proof.
  intros Habs. unfold performGC.
  rewrite sweep_all_absent; [reflexivity|].
  intros id Hin. apply Habs. apply elem_of_elements. exact Hin.
Qed.

(** C5 (as amended). A collection run on an empty dead set (for instance
    right after another collection) releases nothing and leaves the live
    table, the size table, the allocator and the allocation, free and byte
    counters as they are; it is still counted: the collection count goes up
    by one, its duration is added to the GC time and a "[GC] Collected 0
    objects" line is written.  For an id of the dead set that is not in the
    live table the sweep releases nothing.  After every pass the dead set is
    empty and the since-last-collection counter is zero. *)
Theorem gc_sweep_idempotent_on_memory (g g' : GC) (deadId freedBytes freedObjects : Z) :
  deadObjects g = ∅ ->
  gc_allocations g' !! deadId = None ->
  performGC g =
    mkGC (gc_allocations g) (gc_sizes g) ∅ (gcThreshold g) 0 (allocationThreshold g)
         (recordGC (wrap64 (gcDuration (gcCollections (gc_stats g)))) (gc_stats g))
         (gc_allocator g)
         (gc_console g ++ [OutGC 0 0 (gcDuration (gcCollections (gc_stats g)))]) /\
  performGC (performGC g') =
    mkGC (gc_allocations (performGC g')) (gc_sizes (performGC g')) ∅
         (gcThreshold g') 0 (allocationThreshold g')
         (recordGC (wrap64 (gcDuration (gcCollections (gc_stats (performGC g')))))
                   (gc_stats (performGC g')))
         (gc_allocator (performGC g'))
         (gc_console (performGC g')
            ++ [OutGC 0 0 (gcDuration (gcCollections (gc_stats (performGC g'))))]) /\
  sweep_one (g', freedBytes, freedObjects) deadId = (g', freedBytes, freedObjects) /\
  deadObjects (performGC g') = ∅ /\
  allocationsSinceLastGC (performGC g') = 0.
Proof.
  intros Hempty Habs. split; [|split; [|split]].
  - apply performGC_nothing_to_sweep. intros id Hin. rewrite Hempty in Hin.
    apply not_elem_of_empty in Hin. contradiction.
  - destruct (performGC_clears g') as [Hd _].
    destruct (performGC_counts g') as (_ & _ & _ & Ht & Ha).
    rewrite <- Ht, <- Ha.
    apply performGC_nothing_to_sweep. intros id Hin. rewrite Hd in Hin.
    apply not_elem_of_empty in Hin. contradiction.
  - apply sweep_one_absent, Habs.
  - apply performGC_clears.
Qed.

(** A sweep only removes entries from the table. *)
Lemma sweep_one_shrinks (acc : Sweep) (deadId id p : Z) :
  gc_allocations (sweep_one acc deadId).1.1 !! id = Some p ->
  gc_allocations acc.1.1 !! id = Some p.
Proof.
  destruct acc as [[g fb] fo]. unfold sweep_one.
  destruct (gc_allocations g !! deadId); simpl; [|tauto].
  intros Hl. apply lookup_delete_Some in Hl. tauto.
Qed.

Lemma sweep_shrinks ids : forall (acc : Sweep) (id p : Z),
  gc_allocations (foldl sweep_one acc ids).1.1 !! id = Some p ->
  gc_allocations acc.1.1 !! id = Some p.
Proof.
  induction ids as [|d ids IH]; intros acc id p; cbn [foldl]; [tauto|].
  intros Hl. apply IH in Hl. eapply sweep_one_shrinks, Hl.
Qed.

Lemma performGC_shrinks (g : GC) (id : Z) :
  gc_allocations g !! id = None -> gc_allocations (performGC g) !! id = None.
Proof.
  intros Habs. destruct (gc_allocations (performGC g) !! id) as [p|] eqn:Hl; [|reflexivity].
  unfold performGC in Hl.
  pose proof (sweep_shrinks (elements (deadObjects g)) (g, 0, 0) id p) as Hs.
  destruct (foldl sweep_one (g, 0, 0) (elements (deadObjects g))) as [[g' fb] fo].
  simpl in *. rewrite (Hs Hl) in Habs. discriminate.
Qed.

Lemma gc_track_runs (ptr size objectId : Z) (g : GC) :
  gc_runs (gc_track ptr size objectId g).2 =
  (gc_runs g + if gc_due (gc_record ptr size objectId g) then 1 else 0)%nat.
Proof.
  unfold gc_track. destruct (gc_due (gc_record ptr size objectId g)); simpl.
  - destruct (performGC_counts (gc_record ptr size objectId g)) as [Hr _].
    rewrite Hr. unfold gc_runs, gc_record. simpl. lia.
  - unfold gc_runs, gc_record. simpl. lia.
Qed.

(** *** When a collection runs *)

Lemma gc_allocate_unfold size objectId isArray (g : GC) :
  gc_allocate size objectId isArray g =
  let first := allocate size (gc_allocator g) in
  if first.1 =? nullptr then
    let g1 := performGC (gc_with_allocator first.2 g) in
    let retry := allocate size (gc_allocator g1) in
    if retry.1 =? nullptr
    then (nullptr, gc_print (ErrAllocationFailedAfterGC size) (gc_with_allocator retry.2 g1))
    else gc_track retry.1 size objectId (gc_with_allocator retry.2 g1)
  else gc_track first.1 size objectId (gc_with_allocator first.2 g).
Proof.
  unfold gc_allocate. cbn zeta.
  destruct (allocate size (gc_allocator g)) as [p a]. cbn [fst snd].
  destruct (p =? nullptr); [|reflexivity].
  destruct (allocate size (gc_allocator (performGC (gc_with_allocator a g)))) as [p2 a2].
  reflexivity.
Qed.

Lemma gc_allocate_success size objectId isArray (g : GC) :
  (allocate size (gc_allocator g)).1 <> nullptr ->
  gc_allocate size objectId isArray g
  = gc_track (allocate size (gc_allocator g)).1 size objectId
      (gc_with_allocator (allocate size (gc_allocator g)).2 g).
Proof.
  intros Hp. apply Z.eqb_neq in Hp. rewrite gc_allocate_unfold. cbn zeta.
  rewrite Hp. reflexivity.
Qed.

Lemma gc_due_record ptr size objectId (g : GC) :
  gc_due (gc_record ptr size objectId g)
  = (gcThreshold g <? wrap64 (currentMemoryUsage (gc_stats g) + size))
    || (allocationThreshold g <? wrap64 (allocationsSinceLastGC g + 1)).
Proof. reflexivity. Qed.

Lemma sweep_one_present (g : GC) (freedBytes freedObjects deadId ptr size : Z) :
  gc_allocations g !! deadId = Some ptr ->
  gc_sizes g !! deadId = Some size ->
  sweep_one (g, freedBytes, freedObjects) deadId =
  (mkGC (delete deadId (gc_allocations g)) (delete deadId (gc_sizes g))
        (deadObjects g) (gcThreshold g) (allocationsSinceLastGC g)
        (allocationThreshold g) (recordDeallocation size (gc_stats g))
        (deallocate ptr (gc_allocator g)) (gc_console g),
   wrap64 (freedBytes + size), wrap64 (freedObjects + 1)).
Proof. intros Hp Hs. unfold sweep_one. rewrite Hp, Hs. reflexivity. Qed.

Ltac stat_fields :=
  cbn [totalAllocations totalDeallocations totalBytesAllocated totalBytesFreed
       peakMemoryUsage currentMemoryUsage gcCollections totalGCTime fieldUpdates
       methodCalls].

Ltac gc_fields :=
  cbn [gc_allocations gc_sizes deadObjects gcThreshold allocationsSinceLastGC
       allocationThreshold gc_stats gc_allocator gc_console].

(** An allocation that does not wrap the byte counter, on statistics whose
    peak is the live bytes. *)
Lemma recordAllocation_exact n d a f c g t u m size :
  0 <= size -> 0 <= c -> c + size < 2 ^ 64 -> 0 <= n -> n + 1 < 2 ^ 64 ->
  0 <= a -> a + size < 2 ^ 64 ->
  recordAllocation size (mkStatistics n d a f c c g t u m)
  = mkStatistics (n + 1) d (a + size) f (c + size) (c + size) g t u m.
Proof.
  intros. unfold recordAllocation. stat_fields.
  rewrite !wrap64_small by lia.
  destruct (Z.ltb_spec c (c + size)); f_equal; lia.
Qed.

Lemma recordDeallocation_exact n d a f p c g t u m size :
  0 <= size <= c -> c < 2 ^ 64 -> 0 <= d -> d + 1 < 2 ^ 64 ->
  0 <= f -> f + size < 2 ^ 64 ->
  recordDeallocation size (mkStatistics n d a f p c g t u m)
  = mkStatistics n (d + 1) a (f + size) p (c - size) g t u m.
Proof.
  intros. unfold recordDeallocation. stat_fields.
  rewrite !wrap64_small by lia. reflexivity.
Qed.

Lemma three_minus_two {A : Type} (x1 x2 x3 : A) :
  delete 1 (delete 2 (<[3:=x3]> (<[2:=x2]> (<[1:=x1]> (∅ : gmap Z A))))) = {[3 := x3]}.
Proof.
  apply map_eq; intros i.
  destruct (decide (i = 1)) as [->|N1]; [reflexivity|].
  destruct (decide (i = 2)) as [->|N2]; [reflexivity|].
  destruct (decide (i = 3)) as [->|N3]; [reflexivity|].
  rewrite !lookup_delete_ne, !lookup_insert_ne, lookup_singleton_ne, lookup_empty
    by congruence.
  reflexivity.
Qed.

(** The count-triggered scenario, for any backend that serves the three
    requests and sizes that stay under the byte threshold: no collection
    during the first four lines, and exactly one inside the third
    allocation, which releases the objects 1 and 2 and nothing else. *)
Lemma count_scenario_run (b0 : B) (threshold s1 s2 s3 : Z) :
  let a1 := allocate s1 b0 in
  let a2 := allocate s2 a1.2 in
  let a3 := allocate s3 a2.2 in
  a1.1 <> nullptr -> a2.1 <> nullptr -> a3.1 <> nullptr ->
  0 <= s1 -> 0 <= s2 -> 0 <= s3 -> s1 + s2 + s3 <= threshold < 2 ^ 64 ->
  let t0 := new_replayer (new_gc b0 threshold 2) false in
  let g4 := memoryManager (replayTrace (take 4 (count_scenario s1 s2 s3)) t0) in
  let g5 := memoryManager (replayTrace (count_scenario s1 s2 s3) t0) in
  gc_console g4 = [] /\
  gc_allocations g4 = <[2 := a2.1]> (<[1 := a1.1]> ∅) /\
  deadObjects g4 = {[2]} ∪ ({[1]} ∪ ∅) /\
  gc_console g5 = [OutGC 2 (s1 + s2) (gcDuration 0)] /\
  gc_allocations g5 = {[3 := a3.1]} /\
  gc_sizes g5 = {[3 := s3]} /\
  deadObjects g5 = ∅ /\
  allocationsSinceLastGC g5 = 0 /\
  gc_allocator g5 = deallocate a1.1 (deallocate a2.1 a3.2) /\
  gc_stats g5 = mkStatistics 3 2 (s1 + s2 + s3) (s1 + s2) (s1 + s2 + s3) s3
                  1 (wrap64 (gcDuration 0)) 0 0.
Proof.
  intros a1 a2 a3 H1 H2 H3 Hs1 Hs2 Hs3 Hsum t0 g4 g5.
  assert (Hw1 : wrap64 s1 = s1) by (apply wrap64_small; lia).
  assert (Hw2 : wrap64 s2 = s2) by (apply wrap64_small; lia).
  assert (Hw3 : wrap64 s3 = s3) by (apply wrap64_small; lia).
  set (g0 := new_gc b0 threshold 2).
  set (m1 := gc_record a1.1 s1 1 (gc_with_allocator a1.2 g0)).
  set (m1d := gc_deallocate 1 s1 m1).
  set (m2 := gc_record a2.1 s2 2 (gc_with_allocator a2.2 m1d)).
  set (m2d := gc_deallocate 2 s2 m2).
  set (m3 := gc_record a3.1 s3 3 (gc_with_allocator a3.2 m2d)).
  set (t1 := processTraceLine (AllocLine false 1 s1 0 0 0 0) t0).
  set (t2 := processTraceLine (DeathLine 1 0 0) t1).
  set (t3 := processTraceLine (AllocLine false 2 s2 0 0 0 0) t2).
  set (t4 := processTraceLine (DeathLine 2 0 0) t3).
  set (t5 := processTraceLine (AllocLine false 3 s3 0 0 0 0) t4).
  (* the statistics after each allocation *)
  assert (St1 : gc_stats m1 = mkStatistics 1 0 s1 0 s1 s1 0 0 0 0).
  { apply (recordAllocation_exact 0 0 0 0 0 0 0 0 0 s1); lia. }
  assert (St2 : gc_stats m2 = mkStatistics 2 0 (s1 + s2) 0 (s1 + s2) (s1 + s2) 0 0 0 0).
  { change (gc_stats m2) with (recordAllocation s2 (gc_stats m1)). rewrite St1.
    apply (recordAllocation_exact 1 0 s1 0 s1 0 0 0 0 s2); lia. }
  assert (St3 : gc_stats m3
                = mkStatistics 3 0 (s1 + s2 + s3) 0 (s1 + s2 + s3) (s1 + s2 + s3) 0 0 0 0).
  { change (gc_stats m3) with (recordAllocation s3 (gc_stats m2)). rewrite St2.
    apply (recordAllocation_exact 2 0 (s1 + s2) 0 (s1 + s2) 0 0 0 0 s3); lia. }
  (* the trigger test after each allocation *)
  assert (Hd1 : gc_due m1 = false).
  { unfold gc_due. rewrite St1. stat_fields.
    change (gcThreshold m1) with threshold.
    apply orb_false_iff. split; [apply Z.ltb_ge; lia|reflexivity]. }
  assert (Hd2 : gc_due m2 = false).
  { unfold gc_due. rewrite St2. stat_fields.
    change (gcThreshold m2) with threshold.
    apply orb_false_iff. split; [apply Z.ltb_ge; lia|reflexivity]. }
  assert (Hd3 : gc_due m3 = true).
  { unfold gc_due. apply orb_true_iff. right. reflexivity. }
  (* the five lines *)
  assert (E1 : memoryManager t1 = m1 /\
               exists r, liveObjects t1 !! 1 = Some r /\ rec_size r = s1).
  { destruct (process_alloc_line false 1 s1 0 0 0 0 t0) as [Hm Hl]. fold t1 in Hm, Hl.
    cbn [sim_allocate gc_simulator] in Hm, Hl. rewrite Hw1 in Hm, Hl.
    change (memoryManager t0) with g0 in Hm.
    assert (Hstep : gc_allocate s1 1 false g0 = (a1.1, m1)).
    { rewrite gc_allocate_success by exact H1.
      change (allocate s1 (gc_allocator g0)) with a1.
      unfold gc_track. fold m1. rewrite Hd1. reflexivity. }
    rewrite Hstep in Hm. split; [exact Hm|].
    rewrite Hl. eexists. rewrite lookup_insert_eq. split; reflexivity. }
  destruct E1 as (E1 & r1 & Hr1 & Hz1).
  assert (E2 : memoryManager t2 = m1d).
  { destruct (process_death_line 1 0 0 t1) as [Hm _]. fold t2 in Hm.
    rewrite Hr1, E1, Hz1 in Hm. exact Hm. }
  assert (E3 : memoryManager t3 = m2 /\
               exists r, liveObjects t3 !! 2 = Some r /\ rec_size r = s2).
  { destruct (process_alloc_line false 2 s2 0 0 0 0 t2) as [Hm Hl]. fold t3 in Hm, Hl.
    cbn [sim_allocate gc_simulator] in Hm, Hl. rewrite Hw2, E2 in Hm, Hl.
    assert (Hstep : gc_allocate s2 2 false m1d = (a2.1, m2)).
    { rewrite gc_allocate_success by exact H2.
      change (allocate s2 (gc_allocator m1d)) with a2.
      unfold gc_track. fold m2. rewrite Hd2. reflexivity. }
    rewrite Hstep in Hm. split; [exact Hm|].
    rewrite Hl. eexists. rewrite lookup_insert_eq. split; reflexivity. }
  destruct E3 as (E3 & r3 & Hr3 & Hz3).
  assert (E4 : memoryManager t4 = m2d).
  { destruct (process_death_line 2 0 0 t3) as [Hm _]. fold t4 in Hm.
    rewrite Hr3, E3, Hz3 in Hm. exact Hm. }
  assert (E5 : memoryManager t5 = performGC m3).
  { destruct (process_alloc_line false 3 s3 0 0 0 0 t4) as [Hm _]. fold t5 in Hm.
    cbn [sim_allocate gc_simulator] in Hm. rewrite Hw3, E4 in Hm.
    assert (Hstep : gc_allocate s3 3 false m2d = (a3.1, performGC m3)).
    { rewrite gc_allocate_success by exact H3.
      change (allocate s3 (gc_allocator m2d)) with a3.
      unfold gc_track. fold m3. rewrite Hd3. reflexivity. }
    rewrite Hstep in Hm. exact Hm. }
  change g4 with (memoryManager t4). change g5 with (memoryManager t5).
  rewrite E4, E5.
  split; [reflexivity|]. split; [reflexivity|]. split; [reflexivity|].
  (* the sweep *)
  assert (He : elements (deadObjects m3) = [2; 1]) by (vm_compute; reflexivity).
  assert (Lm3 : gc_allocations m3 = <[3:=a3.1]> (<[2:=a2.1]> (<[1:=a1.1]> ∅)))
    by reflexivity.
  assert (Zm3 : gc_sizes m3 = <[3:=s3]> (<[2:=s2]> (<[1:=s1]> ∅))) by reflexivity.
  assert (Cm3 : gc_console m3 = []) by reflexivity.
  assert (Am3 : gc_allocator m3 = a3.2) by reflexivity.
  clearbody m3.
  unfold performGC. rewrite He. cbn [foldl].
  rewrite (sweep_one_present m3 0 0 2 a2.1 s2)
    by (rewrite ?Lm3, ?Zm3, lookup_insert_ne, lookup_insert_eq by discriminate; reflexivity).
  rewrite (sweep_one_present _ _ _ 1 a1.1 s1)
    by (gc_fields; rewrite ?Lm3, ?Zm3, lookup_delete_ne, !lookup_insert_ne, lookup_insert_eq
          by discriminate; reflexivity).
  gc_fields. rewrite Lm3, Zm3, Cm3, Am3, St3, !three_minus_two. stat_fields.
  rewrite (Z.add_0_l s2), Hw2, (wrap64_small (s2 + s1)) by lia.
  rewrite (recordDeallocation_exact 3 0 (s1 + s2 + s3) 0 (s1 + s2 + s3) (s1 + s2 + s3)
             0 0 0 0 s2) by lia.
  rewrite (recordDeallocation_exact 3 (0 + 1) (s1 + s2 + s3) (0 + s2) (s1 + s2 + s3)
             (s1 + s2 + s3 - s2) 0 0 0 0 s1) by lia.
  unfold recordGC. stat_fields.
  split; [replace (s2 + s1) with (s1 + s2) by lia; reflexivity|].
  repeat split. f_equal; try reflexivity; try lia.
  rewrite Z.add_0_l. unfold wrap64. apply Zmod_mod.
Qed.

(** C3. In GC mode every successful allocation (first try or retry) ends in
    the trigger test, and nothing else starts a collection after an
    allocation: a collection runs exactly when the live bytes, counted with
    the new object, exceed [gcThreshold] or the allocations since the last
    collection, counted with this one, exceed [allocationThreshold]; either
    test suffices; an allocation that fails is not followed by the test.
    The defaults are 10 MiB and 1000.  With a count threshold of 2, in
    alloc 1, death 1, alloc 2, death 2, alloc 3 no collection runs during the
    first four events, and the third allocation runs exactly one, which
    hands the regions of the objects 1 and 2 back to the backend (in either
    order), takes them out of the tables and counts them, and leaves
    object 3, before any further event. *)
Theorem gc_collection_trigger (b0 : B) (threshold s1 s2 s3 : Z) :
  (gcThreshold (new_gc_default b0) = 10 * 1024 * 1024 /\
   allocationThreshold (new_gc_default b0) = 1000) /\
  (forall (size objectId : Z) (isArray : bool) (g : GC),
     let first := allocate size (gc_allocator g) in
     let g1 := performGC (gc_with_allocator first.2 g) in
     let retry := allocate size (gc_allocator g1) in
     let served := if first.1 =? nullptr then (retry.1, gc_with_allocator retry.2 g1)
                   else (first.1, gc_with_allocator first.2 g) in
     let tracked :=
       mkGC (<[objectId := served.1]> (gc_allocations served.2))
            (<[objectId := size]> (gc_sizes served.2))
            (deadObjects served.2) (gcThreshold g)
            (wrap64 (allocationsSinceLastGC served.2 + 1)) (allocationThreshold g)
            (recordAllocation size (gc_stats served.2))
            (gc_allocator served.2) (gc_console served.2) in
     let due := (gcThreshold g <? wrap64 (currentMemoryUsage (gc_stats served.2) + size))
                || (allocationThreshold g <? wrap64 (allocationsSinceLastGC served.2 + 1)) in
     let result := gc_allocate size objectId isArray g in
     if served.1 =? nullptr
     then result.1 = nullptr /\ gc_runs result.2 = gc_runs served.2
     else result = (served.1, if due then performGC tracked else tracked) /\
          gc_runs result.2 = (gc_runs served.2 + if due then 1 else 0)%nat) /\
  (let a1 := allocate s1 b0 in
   let a2 := allocate s2 a1.2 in
   let a3 := allocate s3 a2.2 in
   a1.1 <> nullptr -> a2.1 <> nullptr -> a3.1 <> nullptr ->
   0 <= s1 -> 0 <= s2 -> 0 <= s3 -> s1 + s2 + s3 <= threshold < 2 ^ 64 ->
   let t0 := new_replayer (new_gc b0 threshold 2) false in
   let g4 := memoryManager (replayTrace (take 4 (count_scenario s1 s2 s3)) t0) in
   let g5 := memoryManager (replayTrace (count_scenario s1 s2 s3) t0) in
   gc_runs g4 = 0%nat /\
   gc_allocations g4 = <[2 := a2.1]> (<[1 := a1.1]> ∅) /\
   deadObjects g4 = {[2]} ∪ ({[1]} ∪ ∅) /\
   gc_runs g5 = 1%nat /\
   gc_console g5 = [OutGC 2 (s1 + s2) (gcDuration 0)] /\
   gc_allocations g5 = {[3 := a3.1]} /\
   gc_sizes g5 = {[3 := s3]} /\
   deadObjects g5 = ∅ /\
   (gc_allocator g5 = deallocate a1.1 (deallocate a2.1 a3.2) \/
    gc_allocator g5 = deallocate a2.1 (deallocate a1.1 a3.2)) /\
   gc_stats g5 = mkStatistics 3 2 (s1 + s2 + s3) (s1 + s2) (s1 + s2 + s3) s3
                   1 (wrap64 (gcDuration 0)) 0 0).
Proof.
  split; [split; reflexivity|].
  split.
  - intros size objectId isArray g first g1 retry served tracked due result.
    destruct (performGC_counts (gc_with_allocator first.2 g)) as (_ & _ & _ & Ht & Hat).
    fold g1 in Ht, Hat. cbn [gc_with_allocator gcThreshold allocationThreshold] in Ht, Hat.
    assert (Htracked : served.1 <> nullptr ->
              gc_track served.1 size objectId served.2
              = (served.1, if due then performGC tracked else tracked) /\
              gc_runs (gc_track served.1 size objectId served.2).2
              = (gc_runs served.2 + if due then 1 else 0)%nat).
    { intros _.
      assert (Hrec : gc_record served.1 size objectId served.2 = tracked).
      { unfold gc_record, tracked, served.
        destruct (first.1 =? nullptr); cbn [fst snd gc_with_allocator gcThreshold
          allocationThreshold gc_allocations gc_sizes deadObjects allocationsSinceLastGC
          gc_stats gc_allocator gc_console]; rewrite ?Ht, ?Hat; reflexivity. }
      assert (Hdue : gc_due (gc_record served.1 size objectId served.2) = due).
      { rewrite gc_due_record. unfold due, served.
        destruct (first.1 =? nullptr); cbn [fst snd gc_with_allocator gcThreshold
          allocationThreshold]; rewrite ?Ht, ?Hat; reflexivity. }
      split.
      - unfold gc_track. rewrite Hdue, Hrec. destruct due; reflexivity.
      - rewrite gc_track_runs, Hdue. reflexivity. }
    unfold result. rewrite gc_allocate_unfold. cbv zeta. fold first. fold g1. fold retry.
    unfold served in *. destruct (first.1 =? nullptr) eqn:E1; cbn [fst snd] in *.
    + destruct (retry.1 =? nullptr) eqn:E2; cbn [fst snd]; rewrite ?E2.
      * split; [reflexivity|]. unfold gc_runs. cbn [gc_print gc_with_allocator gc_console].
        rewrite List.filter_app, length_app. simpl. lia.
      * apply Htracked. apply Z.eqb_neq. exact E2.
    + rewrite E1. apply Htracked. apply Z.eqb_neq. exact E1.
  - intros a1 a2 a3 H1 H2 H3 Hs1 Hs2 Hs3 Hsum t0 g4 g5.
    destruct (count_scenario_run b0 threshold s1 s2 s3 H1 H2 H3 Hs1 Hs2 Hs3 Hsum)
      as (K1 & K2 & K3 & K4 & K5 & K6 & K7 & _ & K8 & K9).
    fold a1 a2 a3 t0 g4 g5 in K1, K2, K3, K4, K5, K6, K7, K8, K9.
    unfold gc_runs. rewrite K1, K4.
    split; [reflexivity|]. split; [exact K2|]. split; [exact K3|]. split; [reflexivity|].
    split; [reflexivity|]. split; [exact K5|]. split; [exact K6|]. split; [exact K7|].
    split; [left; exact K8|exact K9].
Qed.

End GCFacts.

(** *** The calls a collector makes on its backend *)

Section GCCalls.

Import AllocatorBackend Enhanced.

Context {B : Type} `{Backend B} `{Clock}.

(** A collector over the backend [B] with its calls recorded. *)
Abbreviation RecordingGC := (@GCSimulator (B * list Call)).

Lemma allocate_calls_snoc calls c :
  allocate_calls (calls ++ [c]) = allocate_calls calls ++ (if is_allocate_call c then [c] else []).
Proof.
  unfold allocate_calls. rewrite List.filter_app. simpl.
  destruct (is_allocate_call c); reflexivity.
Qed.

(** A sweep releases regions; it never requests one. *)
Lemma sweep_one_requests_nothing (acc : @Sweep (B * list Call)) (deadId : Z) :
  allocate_calls (gc_allocator (sweep_one acc deadId).1.1).2
  = allocate_calls (gc_allocator acc.1.1).2.
Proof.
  destruct acc as [[g fb] fo]. unfold sweep_one.
  destruct (gc_allocations g !! deadId); simpl; [|reflexivity].
  destruct (gc_allocator g) as [b calls]. simpl.
  rewrite allocate_calls_snoc. simpl. apply app_nil_r.
Qed.

Lemma sweep_requests_nothing ids : forall acc : @Sweep (B * list Call),
  allocate_calls (gc_allocator (foldl sweep_one acc ids).1.1).2
  = allocate_calls (gc_allocator acc.1.1).2.
Proof.
  induction ids as [|d ids IH]; intros acc; cbn [foldl]; [reflexivity|].
  rewrite IH. apply sweep_one_requests_nothing.
Qed.

Lemma performGC_requests_nothing (g : RecordingGC) :
  allocate_calls (gc_allocator (performGC g)).2 = allocate_calls (gc_allocator g).2.
Proof.
  unfold performGC.
  pose proof (sweep_requests_nothing (elements (deadObjects g)) (g, 0, 0)) as Hs.
  destruct (foldl sweep_one (g, 0, 0) (elements (deadObjects g))) as [[g' fb] fo].
  exact Hs.
Qed.

Lemma gc_track_requests_nothing (ptr size objectId : Z) (g : RecordingGC) :
  allocate_calls (gc_allocator (gc_track ptr size objectId g).2).2
  = allocate_calls (gc_allocator g).2.
Proof.
  unfold gc_track. destruct (gc_due (gc_record ptr size objectId g)); simpl.
  - rewrite performGC_requests_nothing. reflexivity.
  - reflexivity.
Qed.

Lemma recorded_allocate size (a : B * list Call) :
  allocate_calls (allocate size a).2.2
  = allocate_calls a.2 ++ [CallAllocate size (allocate size a).1].
Proof.
  destruct a as [b calls]. simpl. destruct (allocate size b) as [p b']. simpl.
  rewrite allocate_calls_snoc. reflexivity.
Qed.

(** C4. When the first request of [GCSimulator::allocate] returns null, one
    collection runs at once and the request is made exactly once more (two
    requests in all, the sweep in between).  If the retry is null too,
    [allocate] returns null, writes its error line and leaves the tables as
    the collection left them: no entry is created.  If the retry succeeds,
    the allocation proceeds as in explicit mode: the tables, the statistics,
    the backend and the console are those that
    [ExplicitMemoryManager::allocate] produces from the state the
    collection left, and the address returned is the same; then the
    allocation is counted and the usual trigger test follows. *)
Theorem gc_allocate_retries_once (size objectId : Z) (isArray : bool) (g : RecordingGC) :
  (allocate size (gc_allocator g)).1 = nullptr ->
  let g1 := performGC (gc_with_allocator (allocate size (gc_allocator g)).2 g) in
  let retry := allocate size (gc_allocator g1) in
  let result := gc_allocate size objectId isArray g in
  gc_runs g1 = S (gc_runs g) /\
  deadObjects g1 = ∅ /\ allocationsSinceLastGC g1 = 0 /\
  allocate_calls (gc_allocator result.2).2
    = allocate_calls (gc_allocator g).2
      ++ [CallAllocate size nullptr; CallAllocate size retry.1] /\
  (if retry.1 =? nullptr
   then result
        = (nullptr,
           mkGC (gc_allocations g1) (gc_sizes g1) ∅ (gcThreshold g1) 0
                (allocationThreshold g1) (gc_stats g1) retry.2
                (gc_console g1 ++ [ErrAllocationFailedAfterGC size])) /\
        gc_runs result.2 = S (gc_runs g) /\
        (gc_allocations g !! objectId = None -> gc_allocations result.2 !! objectId = None)
   else let e := explicit_allocate size objectId isArray (as_explicit g1) in
        let tracked :=
          mkGC (allocations e.2) (sizes e.2) ∅ (gcThreshold g1) 1 (allocationThreshold g1)
               (stats e.2) (allocator e.2) (console e.2) in
        let due := (gcThreshold g1 <? currentMemoryUsage (stats e.2))
                   || (allocationThreshold g1 <? 1) in
        e.1 = retry.1 /\
        allocations e.2 = <[objectId := retry.1]> (gc_allocations g1) /\
        result = (retry.1, if due then performGC tracked else tracked)).
Proof.
  intros Hnull g1 retry result.
  set (g2 := gc_with_allocator retry.2 g1).
  assert (Hruns : gc_runs g1 = S (gc_runs g)).
  { unfold g1. destruct (performGC_counts
      (gc_with_allocator (allocate size (gc_allocator g)).2 g)) as [Hr _].
    rewrite Hr. reflexivity. }
  destruct (performGC_clears (gc_with_allocator (allocate size (gc_allocator g)).2 g))
    as [Hdead Hsince].
  fold g1 in Hdead, Hsince.
  assert (Hcalls2 : allocate_calls (gc_allocator g2).2
            = allocate_calls (gc_allocator g).2
              ++ [CallAllocate size nullptr; CallAllocate size retry.1]).
  { unfold g2. cbn [gc_with_allocator gc_allocator]. unfold retry.
    rewrite recorded_allocate.
    unfold g1. rewrite performGC_requests_nothing.
    cbn [gc_with_allocator gc_allocator].
    rewrite recorded_allocate, Hnull, <- app_assoc. reflexivity. }
  assert (Hresult : result = if retry.1 =? nullptr
                             then (nullptr, gc_print (ErrAllocationFailedAfterGC size) g2)
                             else gc_track retry.1 size objectId g2).
  { unfold result, gc_allocate.
    rewrite (surjective_pairing (allocate size (gc_allocator g))), Hnull.
    cbn beta iota zeta. change (nullptr =? nullptr) with true. cbn beta iota.
    fold g1. unfold g2, retry.
    destruct (allocate size (gc_allocator g1)) as [p2 a2]. reflexivity. }
  split; [exact Hruns|]. split; [exact Hdead|]. split; [exact Hsince|]. split.
  - rewrite Hresult. destruct (retry.1 =? nullptr).
    + simpl. exact Hcalls2.
    + rewrite gc_track_requests_nothing. exact Hcalls2.
  - destruct (retry.1 =? nullptr) eqn:Ep.
    + rewrite Hresult. split; [|split].
      * unfold gc_print, g2, gc_with_allocator. cbn [gc_allocations gc_sizes deadObjects
          gcThreshold allocationsSinceLastGC allocationThreshold gc_stats gc_allocator
          gc_console]. rewrite Hdead, Hsince. reflexivity.
      * cbn [snd]. rewrite <- Hruns. unfold gc_runs. simpl.
        rewrite List.filter_app, length_app. simpl. lia.
      * intros Habs. cbn [snd gc_print g2 gc_with_allocator gc_allocations].
        unfold g1. apply performGC_shrinks. exact Habs.
    + cbv zeta.
      assert (He : explicit_allocate size objectId isArray (as_explicit g1)
                   = (retry.1,
                      mkExplicit (<[objectId := retry.1]> (gc_allocations g1))
                                 (<[objectId := size]> (gc_sizes g1))
                                 (recordAllocation size (gc_stats g1)) retry.2
                                 (gc_console g1))).
      { unfold explicit_allocate. cbn [as_explicit allocator allocations sizes stats console].
        fold retry. rewrite (surjective_pairing retry), Ep. reflexivity. }
      rewrite He. cbn [fst snd allocations sizes stats allocator console].
      split; [reflexivity|]. split; [reflexivity|].
      rewrite Hresult. unfold gc_track, gc_due, gc_record, g2, gc_with_allocator.
      cbn [gc_allocations gc_sizes deadObjects gcThreshold allocationsSinceLastGC
           allocationThreshold gc_stats gc_allocator gc_console].
      rewrite Hdead, Hsince. change (wrap64 (0 + 1)) with 1.
      match goal with |- context [if ?c then _ else _] => destruct c end; reflexivity.
Qed.

End GCCalls.

(** *** Live bytes in GC mode *)

Section GCBytes.

Import AllocatorBackend Enhanced.

Context {B : Type} `{Backend B} `{Clock}.

Lemma sweep_one_consistent (acc : @Sweep B) (deadId : Z) :
  gc_consistent acc.1.1 ->
  gc_consistent (sweep_one acc deadId).1.1 /\
  peakMemoryUsage (gc_stats (sweep_one acc deadId).1.1) = peakMemoryUsage (gc_stats acc.1.1) /\
  currentMemoryUsage (gc_stats (sweep_one acc deadId).1.1)
    <= currentMemoryUsage (gc_stats acc.1.1).
Proof.
  destruct acc as [[g fb] fo]. cbn [fst]. intros Hinv. unfold sweep_one.
  destruct (gc_allocations g !! deadId) as [ptr|] eqn:Hlive; cbn [fst].
  - apply (tables_release _ _ _ deadId ptr Hinv Hlive).
  - split; [exact Hinv|split; lia].
Qed.

Lemma sweep_consistent ids : forall acc : @Sweep B,
  gc_consistent acc.1.1 ->
  gc_consistent (foldl sweep_one acc ids).1.1 /\
  peakMemoryUsage (gc_stats (foldl sweep_one acc ids).1.1) = peakMemoryUsage (gc_stats acc.1.1) /\
  currentMemoryUsage (gc_stats (foldl sweep_one acc ids).1.1)
    <= currentMemoryUsage (gc_stats acc.1.1).
Proof.
  induction ids as [|d ids IH]; intros acc Hinv; cbn [foldl].
  - split; [exact Hinv|split; lia].
  - destruct (sweep_one_consistent acc d Hinv) as (H1 & H2 & H3).
    destruct (IH _ H1) as (H4 & H5 & H6). split; [exact H4|split; lia].
Qed.

(** A collection keeps the counters consistent, leaves the peak and does not
    raise the live bytes. *)
Lemma performGC_consistent (g : @GCSimulator B) :
  gc_consistent g ->
  gc_consistent (performGC g) /\
  peakMemoryUsage (gc_stats (performGC g)) = peakMemoryUsage (gc_stats g) /\
  currentMemoryUsage (gc_stats (performGC g)) <= currentMemoryUsage (gc_stats g).
Proof.
  intros Hinv. unfold performGC.
  pose proof (sweep_consistent (elements (deadObjects g)) (g, 0, 0) Hinv) as Hs.
  destruct (foldl sweep_one (g, 0, 0) (elements (deadObjects g))) as [[g' fb] fo].
  cbn [fst] in Hs. destruct Hs as (H1 & H2 & H3).
  split; [|split; [exact H2|exact H3]].
  unfold gc_consistent. cbn [gc_allocations gc_sizes gc_stats].
  eapply tables_consistent_ext; [| |exact H1]; reflexivity.
Qed.

Lemma gc_with_allocator_consistent a (g : @GCSimulator B) :
  gc_consistent g -> gc_consistent (gc_with_allocator a g).
Proof. intros Hinv. exact Hinv. Qed.

(** The end of a successful allocation: the record, then the trigger test. *)
Lemma gc_track_consistent ptr size objectId (g : @GCSimulator B) :
  gc_consistent g ->
  gc_allocations g !! objectId = None -> 0 <= size ->
  currentMemoryUsage (gc_stats g) + size < 2 ^ 64 ->
  let g' := (gc_track ptr size objectId g).2 in
  gc_consistent g' /\
  peakMemoryUsage (gc_stats g')
    = Z.max (peakMemoryUsage (gc_stats g))
            (currentMemoryUsage (gc_stats (gc_record ptr size objectId g))).
Proof.
  intros Hinv Hfresh Hsz Hfit.
  destruct (tables_record _ _ _ objectId ptr size Hinv Hfresh Hsz Hfit) as (H1 & H2 & _).
  change (gc_consistent (gc_record ptr size objectId g)) in H1.
  change (recordAllocation size (gc_stats g))
    with (gc_stats (gc_record ptr size objectId g)) in H2.
  unfold gc_track. destruct (gc_due (gc_record ptr size objectId g)); cbn [snd].
  - destruct (performGC_consistent _ H1) as (H3 & H4 & _).
    split; [exact H3|]. rewrite H4. exact H2.
  - split; [exact H1|exact H2].
Qed.

Lemma gc_allocate_consistent size objectId isArray (g : @GCSimulator B) :
  gc_consistent g ->
  gc_allocations g !! objectId = None -> 0 <= size ->
  currentMemoryUsage (gc_stats g) + size < 2 ^ 64 ->
  let g' := (gc_allocate size objectId isArray g).2 in
  gc_consistent g' /\
  peakMemoryUsage (gc_stats g')
    = Z.max (peakMemoryUsage (gc_stats g))
            match gc_at_trigger_test size objectId isArray g with
            | Some tested => currentMemoryUsage (gc_stats tested)
            | None => 0
            end.
Proof.
  intros Hinv Hfresh Hsz Hfit. cbv zeta.
  rewrite gc_allocate_unfold. unfold gc_at_trigger_test. cbv zeta.
  destruct ((allocate size (gc_allocator g)).1 =? nullptr).
  - set (g1 := performGC (gc_with_allocator (allocate size (gc_allocator g)).2 g)).
    destruct (performGC_consistent (gc_with_allocator (allocate size (gc_allocator g)).2 g))
      as (H1 & H2 & H3); [exact Hinv|]. fold g1 in H1, H2, H3.
    cbn [gc_with_allocator gc_stats] in H2, H3.
    assert (Hfresh1 : gc_allocations g1 !! objectId = None).
    { unfold g1. apply performGC_shrinks. exact Hfresh. }
    destruct ((allocate size (gc_allocator g1)).1 =? nullptr).
    + cbn [snd]. split; [exact H1|]. cbn [gc_print gc_with_allocator gc_stats].
      rewrite H2. destruct Hinv as (_ & _ & _ & Hpk).
      pose proof (tables_consistent_nonneg _ _ _ H1). lia.
    + destruct (gc_track_consistent (allocate size (gc_allocator g1)).1 size objectId
                  (gc_with_allocator (allocate size (gc_allocator g1)).2 g1))
        as [K1 K2]; try assumption.
      * cbn [gc_with_allocator gc_stats]. lia.
      * split; [exact K1|]. rewrite K2. cbn [gc_with_allocator gc_stats]. rewrite H2.
        reflexivity.
  - apply (gc_track_consistent _ size objectId
             (gc_with_allocator (allocate size (gc_allocator g)).2 g)); assumption.
Qed.

Lemma gc_line_mark_nonneg (line : TraceLine) (t : @TraceReplayer (@GCSimulator B)) :
  0 <= gc_line_mark line t.
Proof.
  unfold gc_line_mark. destruct line; try lia.
  unfold gc_at_trigger_test. cbv zeta.
  repeat match goal with |- context [if ?c then _ else _] => destruct c end;
    try lia; cbn [gc_record gc_stats recordAllocation currentMemoryUsage];
    apply wrap64_range.
Qed.

(** One line of the trace, in GC mode. *)
Lemma gc_line_bytes (line : TraceLine) (t : @TraceReplayer (@GCSimulator B)) :
  gc_consistent (memoryManager t) ->
  lines_fresh gc_allocations [line] t ->
  let g' := memoryManager (processTraceLine line t) in
  gc_consistent g' /\
  peakMemoryUsage (gc_stats g')
    = Z.max (peakMemoryUsage (gc_stats (memoryManager t))) (gc_line_mark line t).
Proof.
  intros Hinv [Hfresh _] g'. subst g'. rewrite process_line_manager.
  pose proof Hinv as (_ & _ & _ & Hpk).
  pose proof (tables_consistent_nonneg _ _ _ Hinv) as Hnn.
  assert (Hsame : gc_consistent (memoryManager t) /\
                  peakMemoryUsage (gc_stats (memoryManager t))
                  = Z.max (peakMemoryUsage (gc_stats (memoryManager t))) 0)
    by (split; [exact Hinv|lia]).
  destruct line as [|isArray objectId size ? ? ? ?|objectId ? ?| | | |]; try exact Hsame.
  - destruct Hfresh as [Hf1 Hf2]. cbn [sim_allocate gc_simulator gc_line_mark].
    apply gc_allocate_consistent; try assumption. apply wrap64_range.
  - destruct (liveObjects t !! objectId) as [rec|]; exact Hsame.
Qed.

(** The invariant along a trace in GC mode, prefix by prefix. *)
Lemma gc_prefix_bytes (lines : list TraceLine) (t : @TraceReplayer (@GCSimulator B)) :
  gc_consistent (memoryManager t) ->
  peakMemoryUsage (gc_stats (memoryManager t)) = 0 ->
  lines_fresh gc_allocations lines t ->
  forall n, (n <= length lines)%nat ->
    let g := memoryManager (replayTrace (take n lines) t) in
    gc_consistent g /\
    peakMemoryUsage (gc_stats g) = max_of (gc_marks lines t n).
Proof.
  intros Hinv Hpk Hfresh n. unfold gc_marks.
  induction n as [|n IH]; intros Hn.
  - simpl. split; [exact Hinv|exact Hpk].
  - destruct IH as [IH1 IH2]; [lia|].
    destruct (lookup_lt_is_Some_2 lines n) as [line Hline]; [lia|].
    assert (Hstep : replayTrace (take (S n) lines) t
                    = processTraceLine line (replayTrace (take n lines) t)).
    { rewrite (take_S_r _ _ _ Hline). apply replayTrace_snoc. }
    assert (Hf : lines_fresh gc_allocations [line] (replayTrace (take n lines) t)).
    { pose proof (lines_fresh_app gc_allocations (take n lines) (drop n lines) t) as Hd.
      rewrite take_drop in Hd. specialize (Hd Hfresh).
      rewrite (drop_S _ _ _ Hline) in Hd. destruct Hd as [Hd _]. split; [exact Hd|exact I]. }
    destruct (gc_line_bytes line _ IH1 Hf) as [H1 H2].
    rewrite <- Hstep in H1, H2. cbv zeta.
    split; [exact H1|].
    rewrite seq_S, map_app. cbn [map]. rewrite Nat.add_0_l, Hline, max_of_snoc.
    + cbv zeta in IH2. rewrite <- IH2. exact H2.
    + apply gc_line_mark_nonneg.
Qed.

End GCBytes.

(** ** Live bytes, in the three modes *)

Section LiveBytes.

Import AllocatorBackend Enhanced.

Context {Heap : Type}.
Variable malloc : Z -> Heap -> Z * Heap.
Variable free : Z -> Heap -> Heap.
Context {B : Type} `{Backend B} `{Clock}.

Lemma new_explicit_consistent (b : B) :
  explicit_consistent (new_explicit b).
Proof.
  unfold explicit_consistent, tables_consistent. simpl. rewrite sum_of_empty.
  repeat split; try lia; intros; rewrite ?lookup_empty in *; congruence.
Qed.

Lemma new_gc_consistent (b : B) threshold allocThreshold :
  gc_consistent (new_gc b threshold allocThreshold).
Proof.
  unfold gc_consistent, tables_consistent. simpl. rewrite sum_of_empty.
  repeat split; try lia; intros; rewrite ?lookup_empty in *; congruence.
Qed.

(** C2 (as amended). For each of the three managers on its own, whatever
    its trace and its allocator: provided no Alloc event names an object id
    that is still in the live table of that manager when its allocation is
    performed, and its live bytes stay below 2^64, after every prefix of the
    replayed events
    current-live-bytes is the sum of the sizes of the objects in the live
    table, and it is not negative (no subtraction wraps).  In oracle mode
    (also after the final drain) and in explicit mode peak-live-bytes is the
    running maximum of current-live-bytes after each event of the prefix.
    In GC mode, where the sweep that an allocation triggers runs inside the
    same event, peak-live-bytes is the running maximum of the live bytes
    measured right after each allocation is recorded, and current-live-bytes
    never exceeds it. *)
Theorem live_bytes_invariant
    (verbose : bool) (evs : list Oracle.Event) (h : Heap)
    (explicit_lines gc_lines : list TraceLine) (be bg : B) (threshold allocThreshold : Z) :
  let r0 := Oracle.new_replayer verbose evs h in
  let current n :=
    Oracle.current_memory (Oracle.stats_ (Oracle.replay_prefix malloc free n r0)) in
  let te := new_replayer (new_explicit be) verbose in
  let tg := new_replayer (new_gc bg threshold allocThreshold) verbose in
  (Oracle.allocations_fresh malloc free evs (Oracle.replay_start r0) ->
   (forall n, (n <= length evs)%nat ->
      current n = Oracle.live_bytes (Oracle.replay_prefix malloc free n r0) /\
      0 <= current n /\
      Oracle.peak_memory (Oracle.stats_ (Oracle.replay_prefix malloc free n r0))
        = max_of (map current (seq 0 (S n)))) /\
   (Oracle.current_memory (Oracle.stats_ (Oracle.replay malloc free r0))
      = Oracle.live_bytes (Oracle.replay malloc free r0) /\
    0 <= Oracle.current_memory (Oracle.stats_ (Oracle.replay malloc free r0)) /\
    Oracle.peak_memory (Oracle.stats_ (Oracle.replay malloc free r0))
      = max_of (map current (seq 0 (S (length evs)))))) /\
  (lines_fresh allocations explicit_lines te ->
   forall n, (n <= length explicit_lines)%nat ->
     let m := memoryManager (replayTrace (take n explicit_lines) te) in
     currentMemoryUsage (stats m) = sum_of id (sizes m) /\
     0 <= currentMemoryUsage (stats m) /\
     peakMemoryUsage (stats m) = max_of (live_bytes_history explicit_lines te n)) /\
  (lines_fresh gc_allocations gc_lines tg ->
   forall n, (n <= length gc_lines)%nat ->
     let g := memoryManager (replayTrace (take n gc_lines) tg) in
     currentMemoryUsage (gc_stats g) = sum_of id (gc_sizes g) /\
     0 <= currentMemoryUsage (gc_stats g) <= peakMemoryUsage (gc_stats g) /\
     peakMemoryUsage (gc_stats g) = max_of (gc_marks gc_lines tg n)).
Proof.
  intros r0 current te tg.
  split; [|split].
  - intros Ho. exact (oracle_live_bytes malloc free verbose evs h Ho).
  - intros He n Hn m.
    destruct (explicit_prefix_bytes explicit_lines te (new_explicit_consistent be) eq_refl
                He n Hn) as [E1 E2].
    fold m in E1, E2. pose proof (tables_consistent_nonneg _ _ _ E1) as E3.
    destruct E1 as (E1 & _). repeat split; assumption.
  - intros Hg n Hn g.
    destruct (gc_prefix_bytes gc_lines tg (new_gc_consistent bg threshold allocThreshold)
                eq_refl Hg n Hn) as [G1 G2].
    fold g in G1, G2. pose proof (tables_consistent_nonneg _ _ _ G1) as G3.
    destruct G1 as (G1 & _ & _ & G4). repeat split; try assumption. lia.
Qed.

End LiveBytes.

(** ** Frees of unknown objects, allocations that fail *)

Section Failures.

Import AllocatorBackend Enhanced.

Context {Heap : Type}.
Variable malloc : Z -> Heap -> Z * Heap.
Variable free : Z -> Heap -> Heap.
Context {B : Type} `{Backend B} `{Clock}.
Context {M : Type} `{MemorySimulator M}.

(** C8 (as amended). A free or death event for an object id that is not in
    the live table is never fatal and touches neither the allocator nor any
    allocation, free or byte counter.  The C replayer ([handle_free]) counts
    it: [failed_frees] goes up by exactly 1 and nothing else changes.
    [ExplicitMemoryManager::deallocate] has no such counter and changes
    nothing at all; the trace driver does not even call the manager for an
    id it does not know; the oracle replayer discards the queued free with a
    warning. *)
Theorem free_of_unknown_object
    (object_id : Z) (p : CReplay.Process Heap)
    (objectId size : Z) (m : @ExplicitMemoryManager B)
    (threadId timestamp : Z) (t : @TraceReplayer M)
    (free_event : Oracle.Event) (r : Oracle.Replayer Heap) :
  CReplay.find_allocation (CReplay.g_stats p) object_id = None ->
  0 <= CReplay.failed_frees (CReplay.g_stats p) < 2 ^ 64 - 1 ->
  allocations m !! objectId = None ->
  liveObjects t !! objectId = None ->
  Oracle.live_objects_ r !! Oracle.object_id free_event = None ->
  (let s := CReplay.g_stats p in
   CReplay.handle_free free object_id p =
   CReplay.mkProcess
     (CReplay.mkStats (CReplay.table s) (CReplay.total_allocations s)
        (CReplay.total_frees s) (CReplay.total_bytes_allocated s)
        (CReplay.total_bytes_freed s) (CReplay.current_bytes s) (CReplay.peak_bytes s)
        (CReplay.live_objects s) (CReplay.failed_allocations s)
        (CReplay.failed_frees s + 1))
     (CReplay.heap p) (CReplay.stderr p)) /\
  explicit_deallocate objectId size m = m /\
  memoryManager (processTraceLine (DeathLine objectId threadId timestamp) t)
    = memoryManager t /\
  Oracle.free_front free free_event r =
    Oracle.with_pending (tail (Oracle.pending_frees_ r))
      (Oracle.emit (Oracle.WarnUnknown (Oracle.object_id free_event)) r).
Proof.
  intros Hc Hrange He Hd Ho. split; [|split; [|split]].
  - unfold CReplay.handle_free. rewrite Hc.
    rewrite (wrap64_small (CReplay.failed_frees (CReplay.g_stats p) + 1)) by lia.
    reflexivity.
  - unfold explicit_deallocate. rewrite He. reflexivity.
  - rewrite process_line_manager, Hd. reflexivity.
  - unfold Oracle.free_front. rewrite Ho. reflexivity.
Qed.

(** C9 (as amended). When the allocator returns null for a request, no
    replayer crashes and the object id does not enter the table of the
    manager: the C replayer ([handle_alloc]) counts the failure in
    [failed_allocations], writes a warning and leaves its table and its
    other counters; [ExplicitMemoryManager::allocate] returns null, writes
    an error and leaves tables and statistics (it has no failure counter);
    the oracle replayer writes an error and leaves the live table and the
    statistics as the drain left them.  In every case a table entry is
    created only with the non-null address that was returned. *)
Theorem allocation_failure_creates_no_entry
    (object_id size0 : Z) (p : CReplay.Process Heap)
    (size objectId : Z) (isArray : bool) (m : @ExplicitMemoryManager B)
    (event : Oracle.Event) (r : Oracle.Replayer Heap) :
  (malloc size0 (CReplay.heap p)).1 = nullptr ->
  0 <= CReplay.failed_allocations (CReplay.g_stats p) < 2 ^ 64 - 1 ->
  (allocate size (allocator m)).1 = nullptr ->
  (malloc (Oracle.size event) (Oracle.heap (Oracle.before_malloc free event r))).1 = nullptr ->
  (let s := CReplay.g_stats p in
   CReplay.handle_alloc malloc object_id size0 p =
   CReplay.mkProcess
     (CReplay.mkStats (CReplay.table s) (CReplay.total_allocations s)
        (CReplay.total_frees s) (CReplay.total_bytes_allocated s)
        (CReplay.total_bytes_freed s) (CReplay.current_bytes s) (CReplay.peak_bytes s)
        (CReplay.live_objects s) (CReplay.failed_allocations s + 1)
        (CReplay.failed_frees s))
     (malloc size0 (CReplay.heap p)).2
     (CReplay.stderr p ++ [CReplay.WarnMallocFailed size0 object_id])) /\
  explicit_allocate size objectId isArray m =
    (nullptr, mkExplicit (allocations m) (sizes m) (stats m)
                (allocate size (allocator m)).2
                (console m ++ [ErrAllocationFailed size])) /\
  (let drained := Oracle.before_malloc free event r in
   Oracle.process_allocation malloc free event r =
   Oracle.emit (Oracle.ErrMallocFailed (Oracle.object_id event) (Oracle.size event))
     (Oracle.with_heap (malloc (Oracle.size event) (Oracle.heap drained)).2 drained)) /\
  (forall (size' objectId' : Z) (isArray' : bool) (m' : @ExplicitMemoryManager B),
     let result := explicit_allocate size' objectId' isArray' m' in
     allocations result.2 = if result.1 =? nullptr then allocations m'
                            else <[objectId' := result.1]> (allocations m')).
Proof.
  intros Hc Hrange He Ho. split; [|split; [|split]].
  - unfold CReplay.handle_alloc.
    destruct (malloc size0 (CReplay.heap p)) as [ptr h]. cbn [fst snd] in *. subst ptr.
    change (nullptr =? nullptr) with true. cbv iota.
    rewrite (wrap64_small (CReplay.failed_allocations (CReplay.g_stats p) + 1)) by lia.
    reflexivity.
  - unfold explicit_allocate.
    destruct (allocate size (allocator m)) as [ptr a]. cbn [fst snd] in *. subst ptr.
    reflexivity.
  - cbv zeta. unfold Oracle.process_allocation.
    fold (Oracle.before_malloc free event r). unfold Oracle.do_malloc.
    destruct (malloc (Oracle.size event) (Oracle.heap (Oracle.before_malloc free event r)))
      as [ptr h]. cbn [fst snd] in *. subst ptr. reflexivity.
  - intros size' objectId' isArray' m' result. subst result. unfold explicit_allocate.
    destruct (allocate size' (allocator m')) as [ptr a].
    destruct (ptr =? nullptr) eqn:E; cbn [fst snd allocations].
    + reflexivity.
    + rewrite E. reflexivity.
Qed.

End Failures.

Section FailureExamples.

Import AllocatorBackend Enhanced.

#[local] Existing Instance Concrete.clock.

(** C8, witness: a free of object 999 against empty tables. *)
Lemma free_of_unknown_object_witness :
  let p := CReplay.mkProcess CReplay.init_stats ([] : list Z) [] in
  let p' := CReplay.handle_free Concrete.free 999 p in
  CReplay.find_allocation (CReplay.g_stats p) 999 = None /\
  CReplay.failed_frees (CReplay.g_stats p') = 1 /\
  CReplay.total_bytes_allocated (CReplay.g_stats p') = 0 /\
  CReplay.total_bytes_freed (CReplay.g_stats p') = 0 /\
  CReplay.current_bytes (CReplay.g_stats p') = 0 /\
  explicit_deallocate 999 0 Concrete.exhausted = Concrete.exhausted.
Proof.
  intros p p'.
  destruct (free_of_unknown_object Concrete.free (B := Scripted)
              (M := @ExplicitMemoryManager Scripted)
              999 p 999 0 Concrete.exhausted 0 0 (new_replayer Concrete.exhausted false)
              (Oracle.mkEvent 0 "free" 999 0 0 0 0) (Oracle.new_replayer false [] []))
    as (K1 & K2 & _ & _); [reflexivity|split; [discriminate|reflexivity]
                          |reflexivity|reflexivity|reflexivity|].
  cbv zeta in K1. fold p' in K1.
  split; [reflexivity|]. rewrite K1. repeat split; try reflexivity.
Defined.

(** C8, as stated, fails for [ExplicitMemoryManager::deallocate] and for the
    trace driver: for a free of object 999 against empty tables they change
    no counter at all, so no counter goes up by 1. *)
Lemma explicit_free_of_unknown_object_not_counted :
  let t := new_replayer Concrete.exhausted false in
  allocations Concrete.exhausted !! 999 = None /\
  explicit_deallocate 999 0 Concrete.exhausted = Concrete.exhausted /\
  memoryManager (processTraceLine (DeathLine 999 0 0) t) = Concrete.exhausted /\
  ~ (exists (i : nat) (c : Z),
       counters (stats Concrete.exhausted) !! i = Some c /\
       counters (stats (explicit_deallocate 999 0 Concrete.exhausted)) !! i = Some (c + 1)).
Proof.
  intros t. repeat split; try reflexivity.
  intros (i & c & H1 & H2).
  change (explicit_deallocate 999 0 Concrete.exhausted) with Concrete.exhausted in H2.
  rewrite H1 in H2. injection H2. lia.
Qed.

(** C9, witness: an allocator that returns null at once. *)
Lemma allocation_failure_creates_no_entry_witness :
  let p := CReplay.mkProcess CReplay.init_stats ([] : list Z) [] in
  let p' := CReplay.handle_alloc Concrete.malloc 1 16 p in
  (Concrete.malloc 16 (CReplay.heap p)).1 = nullptr /\
  (allocate 16 (allocator Concrete.exhausted)).1 = nullptr /\
  CReplay.failed_allocations (CReplay.g_stats p') = 1 /\
  CReplay.find_allocation (CReplay.g_stats p') 1 = None /\
  (explicit_allocate 16 1 false Concrete.exhausted).1 = nullptr /\
  allocations (explicit_allocate 16 1 false Concrete.exhausted).2 !! 1 = None.
Proof.
  intros p p'.
  destruct (allocation_failure_creates_no_entry Concrete.malloc Concrete.free
              (B := Scripted) 1 16 p 16 1 false Concrete.exhausted
              (Oracle.mkEvent 0 "alloc" 1 16 0 0 0) (Oracle.new_replayer false [] []))
    as (K1 & K2 & _ & _); [reflexivity|split; [discriminate|reflexivity]
                          |reflexivity|reflexivity|].
  cbv zeta in K1. fold p' in K1.
  split; [reflexivity|]. split; [reflexivity|].
  rewrite K1, K2. repeat split; reflexivity.
Defined.

(** C9, as stated, fails in [TraceReplayerEnhanced.cpp]: when the backend
    returns null for the allocation of object 1, no counter of the
    statistics changes, and [handleObjectAllocation] still stores a record
    for the id, with a null address, in the live objects of the driver. *)
Lemma failed_allocation_recorded_with_null_address :
  let t := processTraceLine (AllocLine false 1 16 0 0 0 0) (new_replayer Concrete.exhausted false) in
  (allocate 16 (allocator Concrete.exhausted)).1 = nullptr /\
  counters (getStatistics (memoryManager t)) = counters (stats Concrete.exhausted) /\
  liveObjects t !! 1 = Some (mkRecord 1 16 0 0 0 0 nullptr false) /\
  allocations (memoryManager t) !! 1 = None.
Proof. intros t. repeat split; reflexivity. Qed.

End FailureExamples.

Section LiveBytesExamples.

Import AllocatorBackend Enhanced.

#[local] Existing Instance Concrete.clock.

(** C2, as stated, fails in two ways.  In every mode an allocation under an
    id that is still live replaces the entry and counts both sizes: after
    the two events of [same_id_twice] the oracle replayer has 30 live bytes
    for a table that holds 20.  In GC mode the sweep that the third
    allocation of the count scenario triggers runs inside that event: the
    peak is 60, and the live bytes after each event never exceed 30. *)
Lemma live_bytes_differ_from_table :
  let r := Oracle.replay_prefix Concrete.malloc Concrete.free 2
             (Oracle.new_replayer false Concrete.same_id_twice [4096; 8192]) in
  let tg := new_replayer (Concrete.gc [4096; 8192; 12288] default_gcThreshold 2) false in
  let g := memoryManager (replayTrace (count_scenario 10 20 30) tg) in
  Oracle.current_memory (Oracle.stats_ r) = 30 /\
  Oracle.live_bytes r = 20 /\
  Oracle.current_memory (Oracle.stats_ r) <> Oracle.live_bytes r /\
  peakMemoryUsage (gc_stats g) = 60 /\
  max_of (live_bytes_history (count_scenario 10 20 30) tg 5) = 30 /\
  peakMemoryUsage (gc_stats g) <> max_of (live_bytes_history (count_scenario 10 20 30) tg 5).
Proof.
  intros r tg g.
  assert (H1 : Oracle.current_memory (Oracle.stats_ r) = 30) by (vm_compute; reflexivity).
  assert (H2 : Oracle.live_bytes r = 20) by (vm_compute; reflexivity).
  assert (H3 : peakMemoryUsage (gc_stats g) = 60) by (vm_compute; reflexivity).
  assert (H4 : max_of (live_bytes_history (count_scenario 10 20 30) tg 5) = 30)
    by (vm_compute; reflexivity).
  repeat split; try assumption.
  - rewrite H1, H2. discriminate.
  - rewrite H3, H4. discriminate.
Qed.

(** C2, witness: three objects of 10, 20 and 30 bytes allocated and then
    freed in oracle mode (peak 60, nothing live at the end); in explicit
    mode an id that is allocated again after its death (which the explicit
    manager has released by then, while a collector would still hold it);
    the count scenario in GC mode. *)
Lemma live_bytes_invariant_witness :
  let r := Oracle.replay Concrete.malloc Concrete.free
             (Oracle.new_replayer false Concrete.three_objects [4096; 8192; 12288]) in
  let reuse := [AllocLine false 1 10 0 0 0 0; DeathLine 1 0 0; AllocLine false 1 20 0 0 0 0] in
  let te := new_replayer (new_explicit (B := Scripted) [4096; 8192]) false in
  let m := memoryManager (replayTrace reuse te) in
  let tg := new_replayer (new_gc (B := Scripted) [4096; 8192; 12288] default_gcThreshold 2)
              false in
  let g := memoryManager (replayTrace (count_scenario 10 20 30) tg) in
  Oracle.current_memory (Oracle.stats_ r) = Oracle.live_bytes r /\
  Oracle.current_memory (Oracle.stats_ r) = 0 /\
  Oracle.peak_memory (Oracle.stats_ r) = 60 /\
  currentMemoryUsage (stats m) = sum_of id (sizes m) /\
  peakMemoryUsage (stats m) = max_of (live_bytes_history reuse te 3) /\
  peakMemoryUsage (stats m) = 20 /\
  currentMemoryUsage (gc_stats g) = sum_of id (gc_sizes g) /\
  peakMemoryUsage (gc_stats g) = max_of (gc_marks (count_scenario 10 20 30) tg 5).
Proof.
  intros r reuse te m tg g.
  destruct (live_bytes_invariant Concrete.malloc Concrete.free (B := Scripted)
              false Concrete.three_objects [4096; 8192; 12288]
              reuse (count_scenario 10 20 30) [4096; 8192] [4096; 8192; 12288]
              default_gcThreshold 2)
    as (O & E & G).
  destruct O as (_ & O1 & _ & _).
  { vm_compute. repeat split; intros; try reflexivity; try discriminate. }
  assert (He : lines_fresh allocations reuse te).
  { vm_compute. repeat split; intros; try reflexivity; try discriminate. }
  assert (Hg : lines_fresh gc_allocations (count_scenario 10 20 30) tg).
  { vm_compute. repeat split; intros; try reflexivity; try discriminate. }
  destruct (E He 3%nat (Nat.le_refl _)) as (E1 & _ & E3).
  destruct (G Hg 5%nat (Nat.le_refl _)) as (G1 & _ & G3).
  split; [exact O1|]. split; [reflexivity|]. split; [reflexivity|].
  split; [exact E1|]. split; [exact E3|]. split; [reflexivity|].
  split; [exact G1|exact G3].
Defined.

End LiveBytesExamples.

Section GCExamples.

Import AllocatorBackend Enhanced.

#[local] Existing Instance Concrete.clock.

(** C3, witness: the scenario on the scripted backend with its calls
    recorded, sizes 10, 20, 30 and the default byte threshold. *)
Lemma gc_collection_trigger_witness :
  let g := Concrete.gc [4096; 8192; 12288] default_gcThreshold 2 in
  let t5 := replayTrace (count_scenario 10 20 30) (new_replayer g false) in
  (allocate 10 (gc_allocator g)).1 <> nullptr /\
  10 + 20 + 30 <= default_gcThreshold < 2 ^ 64 /\
  gc_console (memoryManager t5) = [OutGC 2 30 7] /\
  gc_allocations (memoryManager t5) = {[3 := 12288]} /\
  totalDeallocations (gc_stats (memoryManager t5)) = 2 /\
  (gc_allocator (memoryManager t5)).2
  = [CallAllocate 10 4096; CallAllocate 20 8192; CallAllocate 30 12288;
     CallDeallocate 8192; CallDeallocate 4096].
Proof.
  intros g t5.
  assert (Hsum : 10 + 20 + 30 <= default_gcThreshold < 2 ^ 64) by (vm_compute; split; congruence).
  assert (Hp : forall p : Z, (0 < p) -> p <> nullptr) by (unfold nullptr; lia).
  destruct (gc_collection_trigger (gc_allocator g) default_gcThreshold 10 20 30)
    as (_ & _ & K).
  specialize (K (Hp 4096 eq_refl) (Hp 8192 eq_refl) (Hp 12288 eq_refl)).
  destruct K as (_ & _ & _ & _ & K5 & K6 & _ & _ & K8 & K9); [lia|lia|lia|exact Hsum|].
  split; [apply Hp; reflexivity|]. split; [exact Hsum|].
  split; [exact K5|]. split; [exact K6|].
  split; [exact (f_equal totalDeallocations K9)|].
  destruct K8 as [K8|K8]; [|discriminate K8].
  change (gc_allocator (memoryManager t5)) with
    (gc_allocator (memoryManager (replayTrace (count_scenario 10 20 30)
                                    (new_replayer (new_gc (gc_allocator g)
                                                     default_gcThreshold 2) false)))).
  rewrite K8. reflexivity.
Defined.

(** C4, witness: a backend that refuses the first request and serves the
    second one. *)
Lemma gc_allocate_retries_once_witness :
  let g := @new_gc (Scripted * list Call) ([0; 4096], []) 1024 2 in
  (allocate 16 (gc_allocator g)).1 = nullptr /\
  (gc_allocate 16 1 false g).1 = 4096 /\
  allocate_calls (gc_allocator (gc_allocate 16 1 false g).2).2
    = [CallAllocate 16 0; CallAllocate 16 4096] /\
  gc_runs (gc_allocate 16 1 false g).2 = 1%nat.
Proof.
  intros g.
  destruct (gc_allocate_retries_once (B := Scripted) 16 1 false g)
    as (K1 & _ & _ & K2 & K3); [reflexivity|].
  split; [reflexivity|].
  split; [|split; [exact K2|reflexivity]].
  change ((4096 =? nullptr)) with false in K3.
  destruct K3 as (_ & _ & K4). rewrite K4. reflexivity.
Defined.

(** C5, witness: a fresh collector (empty dead set), and a collector whose
    dead set holds the id 5, which was never allocated. *)
Lemma gc_sweep_idempotent_on_memory_witness :
  let g := Concrete.gc [] 1024 2 in
  let g' := gc_deallocate 5 0 (Concrete.gc [] 1024 2) in
  deadObjects g = ∅ /\
  gc_allocations g' !! 5 = None /\
  gc_runs (performGC g) = 1%nat /\
  gc_allocations (performGC g) = gc_allocations g /\
  sweep_one (g', 0, 0) 5 = (g', 0, 0) /\
  deadObjects (performGC g') = ∅.
Proof.
  intros g g'.
  destruct (gc_sweep_idempotent_on_memory g g' 5 0 0)
    as (H1 & _ & H3 & H4 & _); [reflexivity|reflexivity|].
  split; [reflexivity|]. split; [reflexivity|].
  split; [rewrite H1; reflexivity|].
  split; [rewrite H1; reflexivity|].
  split; [exact H3|exact H4].
Defined.

(** C5, as stated: a collection on an empty dead set does change the state:
    it is counted in [gcCollections] (0 before, 1 after), it adds to the GC
    time and it writes a line. *)
Lemma gc_empty_sweep_changes_statistics :
  let g := Concrete.gc [] 1024 2 in
  deadObjects g = ∅ /\
  performGC g <> g /\
  gcCollections (gc_stats g) = 0 /\
  gcCollections (gc_stats (performGC g)) = 1 /\
  totalGCTime (gc_stats (performGC g)) = 7 /\
  gc_console (performGC g) = [OutGC 0 0 7].
Proof.
  intros g. split; [reflexivity|]. split; [|repeat split; reflexivity].
  intros Heq.
  apply (f_equal (fun x => gcCollections (gc_stats x))) in Heq.
  vm_compute in Heq. discriminate.
Qed.

End GCExamples.

Section OracleExamples.

Import Oracle.

(** C7, as stated: seventeen rows with the same timestamp, the objects 1 to
    17 in this order.  [std::sort] as libstdc++ implements it partitions a
    range of more than 16 elements around a median, which moves equal
    elements past each other: the events come out in the order 9, 17, 16,
    ..., 10, 1, 8, 7, ..., 2.  (Up to 16 rows the sort is one insertion sort
    and the ties keep their order.) *)
Lemma load_oracle_tie_order_not_kept :
  map object_id (accepted_rows (tail Concrete.seventeen_tied_rows))
    = [1; 2; 3; 4; 5; 6; 7; 8; 9; 10; 11; 12; 13; 14; 15; 16; 17] /\
  Forall (fun e => timestamp e = 5) (accepted_rows (tail Concrete.seventeen_tied_rows)) /\
  map object_id
      (Concrete.loaded_events (@Libstdcxx.std_sort Event) Concrete.seventeen_tied_rows)
    = [9; 17; 16; 15; 14; 13; 12; 11; 10; 1; 8; 7; 6; 5; 4; 3; 2] /\
  ~ keeps_input_order (accepted_rows (tail Concrete.seventeen_tied_rows))
      (Concrete.loaded_events (@Libstdcxx.std_sort Event) Concrete.seventeen_tied_rows).
Proof.
  split; [vm_compute; reflexivity|].
  split; [vm_compute; repeat constructor|].
  split; [vm_compute; reflexivity|].
  intros Hkeep. specialize (Hkeep 5). vm_compute in Hkeep. discriminate.
Qed.

(** C7, witness: two rows with the same timestamp, sorted by insertion; on
    this file the sort of libstdc++ gives the same events. *)
Lemma load_oracle_sorts_by_timestamp_witness :
  std_sort_contract Concrete.insertion_sort /\
  StronglySorted (fun a b => timestamp a <= timestamp b)
    (Concrete.loaded_events Concrete.insertion_sort Concrete.tied_rows) /\
  Permutation (Concrete.loaded_events Concrete.insertion_sort Concrete.tied_rows)
    (accepted_rows (tail Concrete.tied_rows)) /\
  Concrete.loaded_events Concrete.insertion_sort Concrete.tied_rows
    = [mkEvent 5 "alloc" 1 8 0 0 0; mkEvent 5 "free" 1 0 0 0 0] /\
  Concrete.loaded_events (@Libstdcxx.std_sort Event) Concrete.tied_rows
    = Concrete.loaded_events Concrete.insertion_sort Concrete.tied_rows.
Proof.
  split; [apply insertion_sort_contract|].
  pose proof (load_oracle_sorts_by_timestamp Concrete.insertion_sort Concrete.tied_rows
                Concrete.fresh insertion_sort_contract) as Hload.
  assert (E : load_oracle Concrete.insertion_sort (Some Concrete.tied_rows) Concrete.fresh
              = Returns (true, with_events [mkEvent 5 "alloc" 1 8 0 0 0;
                                            mkEvent 5 "free" 1 0 0 0 0] Concrete.fresh))
    by reflexivity.
  rewrite E in *. destruct Hload as (Hs & Hp & _).
  split; [exact Hs|]. split; [exact Hp|]. split; reflexivity.
Defined.

(** C6, the failing input: a row whose timestamp is not a number.
    [std::stoull] throws [std::invalid_argument], nothing catches it, and the
    load (with it the process) is terminated instead of dropping the row;
    this whatever the sorting function and the state of the replayer.  A row
    that is only too short is dropped, and the C replayer reads a field that
    is not a number as 0 and goes on. *)
Theorem load_oracle_terminates_on_bad_number
    (sort : (Event -> Event -> bool) -> list Event -> list Event)
    (r : Replayer (list Z)) :
  parse_event "abc,alloc,1,8,0,0,0" = Thrown invalid_argument /\
  load_oracle sort (Some Concrete.bad_rows) r = Terminates invalid_argument /\
  parse_event "5,alloc,1,8" = Rejected /\
  read_rows [Concrete.header; "5,alloc,1,8"; "6,alloc,2,8,0,0,0"]%string false []
    = inr [mkEvent 6 "alloc" 2 8 0 0 0] /\
  CReplay.parse_csv_line Concrete.malloc Concrete.free "5,alloc,abc,8"
    (CReplay.mkProcess CReplay.init_stats [4096; 8192] [])
  = CReplay.handle_alloc Concrete.malloc 0 8
      (CReplay.mkProcess CReplay.init_stats [4096; 8192] []).
Proof. repeat split; reflexivity. Qed.

End OracleExamples.

(** * Further properties of the replayers *)

(** ** The C replayer: the hash table and the counters *)

Section SumsMore.

Context {A : Type} (f : A -> Z).

Lemma sum_of_update (m : gmap Z A) k x :
  sum_of f (<[k := x]> m) = f x + sum_of f m - from_option f 0 (m !! k).
Proof.
  rewrite <- insert_delete_eq.
  rewrite sum_of_insert by apply lookup_delete_eq.
  destruct (m !! k) as [y|] eqn:E; simpl.
  - rewrite (sum_of_delete f m k y E). lia.
  - rewrite delete_id by exact E. lia.
Qed.

Lemma sum_of_remove (m : gmap Z A) k :
  sum_of f (delete k m) = sum_of f m - from_option f 0 (m !! k).
Proof.
  destruct (m !! k) as [y|] eqn:E; simpl.
  - apply sum_of_delete, E.
  - rewrite delete_id by exact E. lia.
Qed.

End SumsMore.

Section CTable.

Import CReplay.

Context {Heap : Type}.
Variable malloc : Z -> Heap -> Z * Heap.
Variable free : Z -> Heap -> Heap.

Lemma wrap64_idem z : wrap64 (wrap64 z) = wrap64 z.
Proof. unfold wrap64. apply Z.mod_mod. lia. Qed.

Lemma wrap64_sub_l a b : wrap64 (wrap64 a - b) = wrap64 (a - b).
Proof. unfold wrap64. apply Zminus_mod_idemp_l. Qed.

Lemma wrap64_add_sub a b : wrap64 (wrap64 (a + b) - b) = wrap64 a.
Proof. rewrite wrap64_sub_l. f_equal. lia. Qed.

Lemma hash_range object_id : 0 <= hash object_id < HASH_SIZE.
Proof. unfold hash. apply Z.mod_pos_bound. reflexivity. Qed.

Lemma bucket_set_bucket idx chain (t : gmap Z (list Allocation)) idx' :
  bucket (set_bucket idx chain t) idx' = if decide (idx' = idx) then chain else bucket t idx'.
Proof.
  unfold bucket, set_bucket.
  destruct chain; destruct (decide (idx' = idx)) as [->|Hne].
  - rewrite lookup_delete_eq. reflexivity.
  - rewrite lookup_delete_ne by congruence. reflexivity.
  - rewrite lookup_insert_eq. reflexivity.
  - rewrite lookup_insert_ne by congruence. reflexivity.
Qed.

(** The two loops agree: the node [find_allocation] returns is the one
    [remove_allocation] unlinks, and the rest of the chain keeps its order. *)
Lemma remove_from_chain_found object_id0 chain :
  match find_in_chain object_id0 chain with
  | Some curr =>
      exists before after,
        chain = before ++ curr :: after /\
        remove_from_chain object_id0 chain = (before ++ after, Some curr) /\
        object_id curr = object_id0 /\
        Forall (fun a => object_id a <> object_id0) before
  | None =>
      remove_from_chain object_id0 chain = (chain, None) /\
      Forall (fun a => object_id a <> object_id0) chain
  end.
Proof.
  induction chain as [|a chain IH]; simpl.
  - split; [reflexivity|constructor].
  - destruct (object_id a =? object_id0) eqn:E.
    + exists [], chain. apply Z.eqb_eq in E. repeat split; auto.
    + apply Z.eqb_neq in E.
      destruct (find_in_chain object_id0 chain) as [curr|].
      * destruct IH as (before & after & -> & Hr & Hid & Hb).
        exists (a :: before), after. rewrite Hr. repeat split; auto.
      * destruct IH as [Hr Hall]. rewrite Hr. split; [reflexivity|]. constructor; auto.
Qed.

Lemma chain_bytes_app c1 c2 : chain_bytes (c1 ++ c2) = chain_bytes c1 + chain_bytes c2.
Proof. unfold chain_bytes. induction c1 as [|a c1 IH]; simpl; lia. Qed.

Lemma tracked_bytes_set_bucket idx chain t :
  tracked_bytes (set_bucket idx chain t)
  = tracked_bytes t - chain_bytes (bucket t idx) + chain_bytes chain.
Proof.
  unfold tracked_bytes, set_bucket, bucket. destruct chain as [|a chain].
  - rewrite sum_of_remove. destruct (t !! idx); simpl; lia.
  - rewrite sum_of_update. destruct (t !! idx); simpl; lia.
Qed.

Lemma tracked_nodes_set_bucket idx chain t :
  tracked_nodes (set_bucket idx chain t)
  = tracked_nodes t - Z.of_nat (length (bucket t idx)) + Z.of_nat (length chain).
Proof.
  unfold tracked_nodes, set_bucket, bucket. destruct chain as [|a chain].
  - rewrite sum_of_remove. destruct (t !! idx); simpl; lia.
  - rewrite sum_of_update. destruct (t !! idx); simpl; lia.
Qed.

Lemma table_in_bounds_bucket t idx :
  table_in_bounds t -> Forall (fun curr => hash (object_id curr) = idx) (bucket t idx).
Proof.
  intros Hb. unfold bucket. destruct (t !! idx) as [chain|] eqn:E; simpl.
  - apply (Hb _ _ E).
  - constructor.
Qed.

Lemma table_in_bounds_set_bucket idx chain t :
  table_in_bounds t -> 0 <= idx < HASH_SIZE ->
  Forall (fun curr => hash (object_id curr) = idx) chain ->
  table_in_bounds (set_bucket idx chain t).
Proof.
  intros Hb Hidx Hall idx' chain'. unfold set_bucket. destruct chain as [|a chain].
  - intros Hl. apply lookup_delete_Some in Hl. apply Hb, Hl.
  - destruct (decide (idx' = idx)) as [->|Hne].
    + rewrite lookup_insert_eq. intros [= <-]. split; [exact Hidx|]. split; [discriminate|exact Hall].
    + rewrite lookup_insert_ne by congruence. apply Hb.
Qed.


(** *** The steps of the replay *)

Lemma handle_alloc_failed object_id size (p : Process Heap) :
  (malloc size (heap p)).1 = nullptr ->
  let s := g_stats p in
  handle_alloc malloc object_id size p =
  mkProcess
    (mkStats (table s) (total_allocations s) (total_frees s) (total_bytes_allocated s)
             (total_bytes_freed s) (current_bytes s) (peak_bytes s) (live_objects s)
             (wrap64 (failed_allocations s + 1)) (failed_frees s))
    (malloc size (heap p)).2 (stderr p ++ [WarnMallocFailed size object_id]).
Proof.
  intros Hnull s. unfold handle_alloc.
  destruct (malloc size (heap p)) as [ptr h]. cbn [fst snd] in *. subst ptr.
  reflexivity.
Qed.

Lemma handle_alloc_untracked object_id size (p : Process Heap) :
  let region := malloc size (heap p) in
  let tracking := malloc sizeof_Allocation region.2 in
  region.1 <> nullptr -> tracking.1 = nullptr ->
  stderr (handle_alloc malloc object_id size p) = stderr p ++ [ErrTracking].
Proof.
  intros region tracking Hr Ht. subst region tracking. unfold handle_alloc.
  destruct (malloc size (heap p)) as [ptr h]. cbn [fst snd] in *.
  apply Z.eqb_neq in Hr. rewrite Hr.
  unfold insert_allocation. cbn [heap g_stats stderr].
  destruct (malloc sizeof_Allocation h) as [alloc h']. cbn [fst snd] in *. subst alloc.
  reflexivity.
Qed.

Lemma handle_alloc_tracked object_id size (p : Process Heap) :
  let region := malloc size (heap p) in
  let tracking := malloc sizeof_Allocation region.2 in
  region.1 <> nullptr -> tracking.1 <> nullptr ->
  let s := g_stats p in
  let current := wrap64 (current_bytes s + size) in
  handle_alloc malloc object_id size p =
  mkProcess
    (mkStats (set_bucket (hash object_id)
                (mkAllocation object_id region.1 size tracking.1
                   :: bucket (table s) (hash object_id)) (table s))
             (wrap64 (total_allocations s + 1)) (total_frees s)
             (wrap64 (total_bytes_allocated s + size)) (total_bytes_freed s)
             current (if peak_bytes s <? current then current else peak_bytes s)
             (wrap64 (live_objects s + 1)) (failed_allocations s) (failed_frees s))
    tracking.2 (stderr p).
Proof.
  intros region tracking Hr Ht s current. subst region tracking. unfold handle_alloc.
  destruct (malloc size (heap p)) as [ptr h]. cbn [fst snd] in *.
  apply Z.eqb_neq in Hr. rewrite Hr.
  unfold insert_allocation. cbn [heap g_stats stderr].
  destruct (malloc sizeof_Allocation h) as [alloc h']. cbn [fst snd] in *.
  apply Z.eqb_neq in Ht. rewrite Ht. reflexivity.
Qed.

Lemma handle_free_found object_id curr (p : Process Heap) :
  find_allocation (g_stats p) object_id = Some curr ->
  let s := g_stats p in
  let idx := hash object_id in
  exists before after,
    bucket (table s) idx = before ++ curr :: after /\
    Forall (fun a => CReplay.object_id a <> object_id) before /\
    CReplay.object_id curr = object_id /\
    handle_free free object_id p =
    mkProcess
      (mkStats (set_bucket idx (before ++ after) (table s))
               (total_allocations s) (wrap64 (total_frees s + 1))
               (total_bytes_allocated s) (wrap64 (total_bytes_freed s + CReplay.size curr))
               (wrap64 (current_bytes s - CReplay.size curr)) (peak_bytes s)
               (wrap64 (live_objects s - 1)) (failed_allocations s) (failed_frees s))
      (free (node curr) (free (ptr curr) (heap p))) (stderr p).
Proof.
  intros Hfind s idx. unfold find_allocation in Hfind.
  pose proof (remove_from_chain_found object_id (bucket (table (g_stats p)) (hash object_id)))
    as Hrem.
  rewrite Hfind in Hrem. destruct Hrem as (before & after & Hb & Hr & Hid & Hall).
  exists before, after. split; [exact Hb|]. split; [exact Hall|]. split; [exact Hid|].
  unfold handle_free, find_allocation. rewrite Hfind.
  unfold remove_allocation. cbn [g_stats table heap stderr]. rewrite Hr. reflexivity.
Qed.

Lemma handle_free_missing object_id (p : Process Heap) :
  find_allocation (g_stats p) object_id = None ->
  let s := g_stats p in
  handle_free free object_id p =
  mkProcess
    (mkStats (table s) (total_allocations s) (total_frees s) (total_bytes_allocated s)
             (total_bytes_freed s) (current_bytes s) (peak_bytes s) (live_objects s)
             (failed_allocations s) (wrap64 (failed_frees s + 1)))
    (heap p) (stderr p).
Proof. intros Hfind s. unfold handle_free. rewrite Hfind. reflexivity. Qed.

(** What a line can do to the process. *)
Lemma parse_csv_line_cases line (p : Process Heap) :
  parse_csv_line malloc free line p = p \/
  (exists object_id size, parse_csv_line malloc free line p = handle_alloc malloc object_id size p) \/
  (exists object_id, parse_csv_line malloc free line p = handle_free free object_id p).
Proof.
  unfold parse_csv_line.
  destruct (strstr line "timestamp"); [left; reflexivity|].
  destruct (strtok line) as [[t1 l1]|]; [|left; reflexivity].
  destruct (strtok l1) as [[t2 l2]|]; [|left; reflexivity].
  destruct (strtok l2) as [[t3 l3]|]; [|left; reflexivity].
  destruct (strtok l3) as [[t4 l4]|]; [|left; reflexivity].
  destruct (String.eqb _ "alloc"); [right; left; eauto|].
  destruct (String.eqb _ "free"); [right; right; eauto|left; reflexivity].
Qed.

(** A property of the process that [handle_alloc] and [handle_free] keep
    holds after every line of a file. *)
Lemma process_file_invariant (P : Process Heap -> Prop) :
  (forall object_id size p, P p -> P (handle_alloc malloc object_id size p)) ->
  (forall object_id p, P p -> P (handle_free free object_id p)) ->
  forall lines p, P p -> P (process_file malloc free lines p).
Proof.
  intros Ha Hf lines. unfold process_file.
  induction lines as [|line lines IH]; intros p Hp; simpl; [exact Hp|].
  apply IH.
  destruct (parse_csv_line_cases (chomp line) p) as [->|[(i & sz & ->)|(i & ->)]]; auto.
Qed.


Lemma handle_alloc_counters object_id size (p : Process Heap) :
  (malloc size (heap p)).1 <> nullptr ->
  let s := g_stats p in
  let s' := g_stats (handle_alloc malloc object_id size p) in
  total_allocations s' = wrap64 (total_allocations s + 1) /\
  total_frees s' = total_frees s /\
  total_bytes_allocated s' = wrap64 (total_bytes_allocated s + size) /\
  total_bytes_freed s' = total_bytes_freed s /\
  current_bytes s' = wrap64 (current_bytes s + size) /\
  live_objects s' = wrap64 (live_objects s + 1).
Proof.
  intros Hr s s'. subst s'. unfold handle_alloc.
  destruct (malloc size (heap p)) as [ptr h]. cbn [fst snd] in *.
  apply Z.eqb_neq in Hr. rewrite Hr.
  unfold insert_allocation. cbn [heap g_stats stderr].
  destruct (malloc sizeof_Allocation h) as [alloc h'].
  destruct (alloc =? nullptr); cbn; repeat split; reflexivity.
Qed.

Lemma handle_alloc_balanced object_id size (p : Process Heap) :
  balanced (g_stats p) -> balanced (g_stats (handle_alloc malloc object_id size p)).
Proof.
  intros [Hb Hl].
  destruct (Z.eq_dec (malloc size (heap p)).1 nullptr) as [Hnull|Hok].
  - rewrite (handle_alloc_failed _ _ _ Hnull). split; assumption.
  - destruct (handle_alloc_counters object_id size p Hok) as (E1 & E2 & E3 & E4 & E5 & E6).
    unfold balanced. rewrite E1, E2, E3, E4, E5, E6, Hb, Hl.
    rewrite !wrap64_add_l, !wrap64_sub_l. split; f_equal; lia.
Qed.

Lemma handle_free_balanced object_id (p : Process Heap) :
  balanced (g_stats p) -> balanced (g_stats (handle_free free object_id p)).
Proof.
  intros [Hb Hl].
  destruct (find_allocation (g_stats p) object_id) as [curr|] eqn:Hfind.
  - destruct (handle_free_found object_id curr p Hfind) as (before & after & _ & _ & _ & ->).
    unfold balanced. cbn [g_stats current_bytes total_bytes_allocated total_bytes_freed
                          live_objects total_allocations total_frees].
    rewrite Hb, Hl, !wrap64_sub_l.
    unfold wrap64. split.
    + rewrite <- (Zminus_mod_idemp_r _ ((total_bytes_freed (g_stats p) + size curr) mod 2 ^ 64)).
      rewrite Z.mod_mod by lia. rewrite Zminus_mod_idemp_r. f_equal. lia.
    + rewrite <- (Zminus_mod_idemp_r _ ((total_frees (g_stats p) + 1) mod 2 ^ 64)).
      rewrite Z.mod_mod by lia. rewrite Zminus_mod_idemp_r. f_equal. lia.
  - rewrite (handle_free_missing _ _ Hfind). split; assumption.
Qed.

Lemma handle_alloc_tracked_table object_id size (p : Process Heap) :
  tracking_complete (handle_alloc malloc object_id size p) ->
  tracking_complete p /\ (tracked (g_stats p) -> tracked (g_stats (handle_alloc malloc object_id size p))).
Proof.
  intros Hc.
  destruct (Z.eq_dec (malloc size (heap p)).1 nullptr) as [Hnull|Hok].
  - rewrite (handle_alloc_failed _ _ _ Hnull) in *. unfold tracking_complete in *.
    cbn [stderr g_stats] in *. split.
    + intros Hin. apply Hc, in_or_app. left. exact Hin.
    + intros Ht. exact Ht.
  - destruct (Z.eq_dec (malloc sizeof_Allocation (malloc size (heap p)).2).1 nullptr) as [Hn2|Hok2].
    + exfalso. apply Hc. rewrite (handle_alloc_untracked _ _ _ Hok Hn2).
      apply in_or_app. right. left. reflexivity.
    + rewrite (handle_alloc_tracked _ _ _ Hok Hok2) in *. unfold tracking_complete in *.
      cbn [stderr g_stats] in *. split; [exact Hc|].
      intros (Hb & Hbytes & Hnodes). unfold tracked.
      cbn [table current_bytes live_objects].
      rewrite tracked_bytes_set_bucket, tracked_nodes_set_bucket.
      split; [|split].
      * apply table_in_bounds_set_bucket; [exact Hb|apply hash_range|].
        constructor; [reflexivity|]. apply table_in_bounds_bucket, Hb.
      * rewrite Hbytes, wrap64_add_l. f_equal. unfold chain_bytes. simpl. lia.
      * rewrite Hnodes, wrap64_add_l. f_equal. simpl length. lia.
Qed.

Lemma handle_free_tracked_table object_id (p : Process Heap) :
  stderr (handle_free free object_id p) = stderr p /\
  (tracked (g_stats p) -> tracked (g_stats (handle_free free object_id p))).
Proof.
  destruct (find_allocation (g_stats p) object_id) as [curr|] eqn:Hfind.
  - destruct (handle_free_found object_id curr p Hfind) as (before & after & Hbk & _ & _ & ->).
    split; [reflexivity|].
    intros (Hb & Hbytes & Hnodes). unfold tracked.
    cbn [g_stats table current_bytes live_objects].
    rewrite tracked_bytes_set_bucket, tracked_nodes_set_bucket, Hbk.
    split; [|split].
    + apply table_in_bounds_set_bucket; [exact Hb|apply hash_range|].
      pose proof (table_in_bounds_bucket _ (hash object_id) Hb) as Hall.
      rewrite Hbk in Hall. apply Forall_app in Hall. destruct Hall as [H1 H2].
      apply Forall_app. split; [exact H1|]. inversion H2; assumption.
    + rewrite Hbytes, wrap64_sub_l. f_equal. rewrite !chain_bytes_app.
      unfold chain_bytes at 2. simpl. fold (chain_bytes after). lia.
    + rewrite Hnodes, wrap64_sub_l. f_equal. rewrite !length_app. simpl length. lia.
  - rewrite (handle_free_missing _ _ Hfind). split; [reflexivity|]. intros Ht. exact Ht.
Qed.

Lemma init_stats_tracked : tracked init_stats.
Proof.
  unfold tracked, init_stats, tracked_bytes, tracked_nodes. cbn [table current_bytes live_objects].
  rewrite !sum_of_empty. split; [|split; reflexivity].
  intros idx chain Hl. rewrite lookup_empty in Hl. discriminate.
Qed.

(** After any file, the counter of live bytes is the difference of the
    bytes allocated and the bytes freed and the counter of live objects the
    difference of the allocations and the frees (64-bit arithmetic), so the
    "Memory Leak" line shows the live bytes. *)
Theorem creplay_counters_balance (lines : list string) (h : Heap) :
  let s := g_stats (process_file malloc free lines (mkProcess init_stats h [])) in
  current_bytes s = wrap64 (total_bytes_allocated s - total_bytes_freed s) /\
  live_objects s = wrap64 (total_allocations s - total_frees s) /\
  memory_leak s = to_long_long (current_bytes s).
Proof.
  intros s.
  assert (Hb : balanced s).
  { apply (process_file_invariant (fun p => balanced (g_stats p))).
    - intros. apply handle_alloc_balanced. assumption.
    - intros. apply handle_free_balanced. assumption.
    - split; reflexivity. }
  destruct Hb as [Hb Hl]. split; [exact Hb|]. split; [exact Hl|].
  unfold memory_leak. rewrite <- Hb. reflexivity.
Qed.

(** After any file, provided the tracking structure could always be
    allocated: the counter of live bytes is the sum of the sizes of the
    nodes of the table and the counter of live objects their number
    (64-bit arithmetic), whatever ids the rows reuse; every chain sits at an
    index of the array and holds only ids that hash to it. *)
Theorem creplay_counters_describe_table (lines : list string) (h : Heap) :
  let p := process_file malloc free lines (mkProcess init_stats h []) in
  tracking_complete p ->
  table_in_bounds (table (g_stats p)) /\
  current_bytes (g_stats p) = wrap64 (tracked_bytes (table (g_stats p))) /\
  live_objects (g_stats p) = wrap64 (tracked_nodes (table (g_stats p))).
Proof.
  intros p. subst p.
  apply (process_file_invariant (fun p => tracking_complete p -> tracked (g_stats p))).
  - intros object_id size p IH Hc.
    destruct (handle_alloc_tracked_table object_id size p Hc) as [Hc' Hstep]. auto.
  - intros object_id p IH Hc.
    destruct (handle_free_tracked_table object_id p) as [Herr Hstep].
    apply Hstep, IH. unfold tracking_complete in *. rewrite <- Herr. exact Hc.
  - intros _. apply init_stats_tracked.
Qed.


Lemma find_allocation_set_bucket (s : AllocatorStats) idx chain other :
  find_allocation (with_table (set_bucket idx chain (table s)) s) other
  = if decide (hash other = idx) then find_in_chain other chain
    else find_allocation s other.
Proof.
  unfold find_allocation. cbn [with_table table]. rewrite bucket_set_bucket.
  destruct (decide (hash other = idx)); reflexivity.
Qed.

Lemma find_in_chain_skip other before after :
  Forall (fun a => object_id a <> other) before ->
  find_in_chain other (before ++ after) = find_in_chain other after.
Proof.
  induction 1 as [|a before Ha _ IH]; simpl; [reflexivity|].
  apply Z.eqb_neq in Ha. rewrite Ha. exact IH.
Qed.

(** Insert and look up: an allocation that succeeds is found under its id,
    with the address and the size it was made with, in front of any older
    node of the same id; the other ids are found as before. *)
Theorem handle_alloc_then_find (object_id size : Z) (p : Process Heap) :
  let region := malloc size (heap p) in
  let tracking := malloc sizeof_Allocation region.2 in
  let p' := handle_alloc malloc object_id size p in
  region.1 <> nullptr -> tracking.1 <> nullptr ->
  find_allocation (g_stats p') object_id
    = Some (mkAllocation object_id region.1 size tracking.1) /\
  (forall other, other <> object_id ->
     find_allocation (g_stats p') other = find_allocation (g_stats p) other) /\
  failed_allocations (g_stats p') = failed_allocations (g_stats p) /\
  stderr p' = stderr p.
Proof.
  intros region tracking p' Hr Ht. subst p'.
  rewrite (handle_alloc_tracked object_id size p Hr Ht).
  cbn [g_stats stderr failed_allocations].
  unfold find_allocation. cbn [table]. split; [|split; [|split; reflexivity]].
  - rewrite bucket_set_bucket. rewrite decide_True by reflexivity.
    simpl. rewrite Z.eqb_refl. reflexivity.
  - intros other Hne. rewrite bucket_set_bucket.
    destruct (decide (hash other = hash object_id)) as [E|E]; [|reflexivity].
    simpl. apply Z.eqb_neq in Hne. rewrite Z.eqb_sym, Hne, E. reflexivity.
Qed.

(** An allocation followed by the free of the same id: the free releases
    the region that was just allocated (and then the node that tracked it);
    every bucket of the table, the live bytes and the live objects are as
    before the allocation, also when the id was already in the table; the
    four totals have each advanced by the allocation. *)
Theorem handle_free_undoes_handle_alloc (object_id size : Z) (p : Process Heap) :
  let region := malloc size (heap p) in
  let tracking := malloc sizeof_Allocation region.2 in
  let s := g_stats p in
  let p'' := handle_free free object_id (handle_alloc malloc object_id size p) in
  region.1 <> nullptr -> tracking.1 <> nullptr ->
  0 <= current_bytes s < 2 ^ 64 -> 0 <= live_objects s < 2 ^ 64 ->
  (forall idx, bucket (table (g_stats p'')) idx = bucket (table s) idx) /\
  (forall other, find_allocation (g_stats p'') other = find_allocation s other) /\
  current_bytes (g_stats p'') = current_bytes s /\
  live_objects (g_stats p'') = live_objects s /\
  total_allocations (g_stats p'') = wrap64 (total_allocations s + 1) /\
  total_frees (g_stats p'') = wrap64 (total_frees s + 1) /\
  total_bytes_allocated (g_stats p'') = wrap64 (total_bytes_allocated s + size) /\
  total_bytes_freed (g_stats p'') = wrap64 (total_bytes_freed s + size) /\
  failed_allocations (g_stats p'') = failed_allocations s /\
  failed_frees (g_stats p'') = failed_frees s /\
  heap p'' = free tracking.1 (free region.1 tracking.2).
Proof.
  intros region tracking s p'' Hr Ht Hcur Hlive. subst p''.
  set (p' := handle_alloc malloc object_id size p).
  assert (Hp' : p' = handle_alloc malloc object_id size p) by reflexivity.
  rewrite (handle_alloc_tracked object_id size p Hr Ht) in Hp'.
  fold region tracking s in Hp'.
  set (new := mkAllocation object_id region.1 size tracking.1) in Hp'.
  assert (Hfind : find_allocation (g_stats p') object_id = Some new).
  { rewrite Hp'. unfold find_allocation. cbn [g_stats table].
    rewrite bucket_set_bucket, decide_True by reflexivity.
    simpl. rewrite Z.eqb_refl. reflexivity. }
  destruct (handle_free_found object_id new p' Hfind)
    as (before & after & Hbk & Hall & _ & ->).
  assert (Hchain : before = [] /\ after = bucket (table s) (hash object_id)).
  { rewrite Hp' in Hbk. cbn [g_stats table] in Hbk.
    rewrite bucket_set_bucket, decide_True in Hbk by reflexivity.
    destruct before as [|a before].
    - simpl in Hbk. injection Hbk as <-. split; reflexivity.
    - exfalso. simpl in Hbk. injection Hbk as <- _.
      inversion Hall as [|? ? Hne _]. apply Hne. reflexivity. }
  destruct Hchain as [-> ->]. rewrite app_nil_l.
  assert (Htable : forall idx,
            bucket (set_bucket (hash object_id) (bucket (table s) (hash object_id))
                      (table (g_stats p'))) idx = bucket (table s) idx).
  { intros idx. rewrite bucket_set_bucket.
    destruct (decide (idx = hash object_id)) as [->|Hne]; [reflexivity|].
    rewrite Hp'. cbn [g_stats table]. rewrite bucket_set_bucket, decide_False by exact Hne.
    reflexivity. }
  cbn [g_stats table current_bytes live_objects total_allocations total_frees
       total_bytes_allocated total_bytes_freed failed_allocations failed_frees heap].
  split; [exact Htable|].
  split; [intros other; unfold find_allocation; cbn [table]; rewrite Htable; reflexivity|].
  rewrite Hp'.
  cbn [g_stats table current_bytes live_objects total_allocations total_frees
       total_bytes_allocated total_bytes_freed failed_allocations failed_frees heap
       new CReplay.size ptr node].
  rewrite !wrap64_add_sub, (wrap64_small (current_bytes s)), (wrap64_small (live_objects s))
    by assumption.
  repeat split; reflexivity.
Qed.


(** *** Rows *)

Lemma skip_commas_field tok rest :
  is_field tok -> skip_commas (tok +:+ rest) = tok +:+ rest.
Proof.
  intros [Hne Hcf]. destruct tok as [|c tok]; [congruence|].
  simpl in *. apply andb_prop in Hcf. destruct Hcf as [Hc _].
  apply negb_true_iff in Hc. rewrite Hc. reflexivity.
Qed.

Lemma until_comma_field tok rest :
  comma_free tok = true -> until_comma (tok +:+ String "," rest) = (tok, rest).
Proof.
  induction tok as [|c tok IH]; simpl; intros Hcf.
  - reflexivity.
  - apply andb_prop in Hcf. destruct Hcf as [Hc Hcf].
    apply negb_true_iff in Hc. rewrite Hc, (IH Hcf). reflexivity.
Qed.

Lemma until_comma_last tok :
  comma_free tok = true -> until_comma tok = (tok, EmptyString).
Proof.
  induction tok as [|c tok IH]; simpl; intros Hcf.
  - reflexivity.
  - apply andb_prop in Hcf. destruct Hcf as [Hc Hcf].
    apply negb_true_iff in Hc. rewrite Hc, (IH Hcf). reflexivity.
Qed.

Lemma strtok_field tok rest :
  is_field tok -> strtok (tok +:+ String "," rest) = Some (tok, rest).
Proof.
  intros Hf. unfold strtok. rewrite (skip_commas_field _ _ Hf).
  destruct Hf as [Hne Hcf]. pose proof (until_comma_field _ rest Hcf) as Hu.
  destruct tok as [|c tok]; [congruence|].
  change (String c tok +:+ String "," rest) with (String c (tok +:+ String "," rest)) in *.
  cbv iota. rewrite Hu. reflexivity.
Qed.

Lemma append_empty (s : string) : s +:+ EmptyString = s.
Proof.
  induction s as [|c s IH]; [reflexivity|].
  change (String c s +:+ EmptyString) with (String c (s +:+ EmptyString)).
  rewrite IH. reflexivity.
Qed.

Lemma strtok_last tok :
  is_field tok -> strtok tok = Some (tok, EmptyString).
Proof.
  intros Hf. unfold strtok.
  pose proof (skip_commas_field tok EmptyString Hf) as Hs.
  rewrite append_empty in Hs. rewrite Hs.
  destruct Hf as [Hne Hcf]. pose proof (until_comma_last _ Hcf) as Hu.
  destruct tok as [|c tok]; [congruence|].
  cbv iota. rewrite Hu. reflexivity.
Qed.

Lemma strtok_empty : strtok EmptyString = None.
Proof. reflexivity. Qed.

(** [strncpy] of at most 31 characters does not change the comparison with
    a shorter word. *)
Lemma substring_eqb n : forall s k : string,
  (String.length k < n)%nat ->
  String.eqb (String.substring 0 n s) k = String.eqb s k.
Proof.
  induction n as [|n IH]; intros s k Hk; [lia|].
  destruct s as [|c s]; [reflexivity|].
  destruct k as [|c' k]; [reflexivity|].
  simpl in *. destruct (Ascii.eqb c c'); [|reflexivity].
  apply IH. lia.
Qed.

(** A row of at least four fields, none of them empty, that does not hold
    the word "timestamp": the second field selects the handler, the third is
    read by [atoi] as the object id, the fourth by [atol] as the size; the
    first field and whatever follows the fourth are not looked at.  A row of
    fewer than four fields changes nothing, a free row included. *)
Theorem parse_csv_line_row (ts ty id sz more : string) (p : Process Heap) :
  let row := ts +:+ String "," (ty +:+ String "," (id +:+ String "," (sz +:+ more))) in
  is_field ts -> is_field ty -> is_field id -> is_field sz ->
  more = EmptyString \/ (exists extra, more = String "," extra) ->
  strstr row "timestamp" = false ->
  parse_csv_line malloc free row p
    = (if String.eqb ty "alloc" then handle_alloc malloc (atoi id) (wrap64 (atol sz)) p
       else if String.eqb ty "free" then handle_free free (atoi id) p
       else p) /\
  parse_csv_line malloc free (ts +:+ String "," (ty +:+ String "," id)) p = p /\
  parse_csv_line malloc free (ts +:+ String "," ty) p = p /\
  parse_csv_line malloc free ts p = p /\
  parse_csv_line malloc free EmptyString p = p.
Proof.
  intros row Hts Hty Hid Hsz Hmore Hhdr. split; [|split; [|split; [|split]]].
  - unfold parse_csv_line. rewrite Hhdr. subst row.
    rewrite (strtok_field _ _ Hts), (strtok_field _ _ Hty), (strtok_field _ _ Hid).
    assert (Hlast : strtok (sz +:+ more) = Some (sz, match more with
                                                      | EmptyString => EmptyString
                                                      | String _ extra => extra
                                                      end)).
    { destruct Hmore as [->|(extra & ->)].
      - rewrite append_empty. apply strtok_last, Hsz.
      - apply strtok_field, Hsz. }
    rewrite Hlast. rewrite !substring_eqb by (simpl; lia). reflexivity.
  - unfold parse_csv_line.
    match goal with |- (if ?c then _ else _) = _ => destruct c end; [reflexivity|].
    rewrite (strtok_field _ _ Hts), (strtok_field _ _ Hty), (strtok_last _ Hid), strtok_empty.
    reflexivity.
  - unfold parse_csv_line.
    match goal with |- (if ?c then _ else _) = _ => destruct c end; [reflexivity|].
    rewrite (strtok_field _ _ Hts), (strtok_last _ Hty), strtok_empty.
    reflexivity.
  - unfold parse_csv_line.
    match goal with |- (if ?c then _ else _) = _ => destruct c end; [reflexivity|].
    rewrite (strtok_last _ Hts), strtok_empty. reflexivity.
  - reflexivity.
Qed.

End CTable.

Section CTableExamples.

Import CReplay.

(** A file of four rows: two allocations under the same id, then one free. *)
Lemma creplay_counters_describe_table_witness :
  let lines := [Concrete.header; "1,alloc,7,16"; "2,alloc,7,8"; "3,free,7,0"]%string in
  let p := process_file Concrete.malloc Concrete.free lines
             (mkProcess init_stats [4096; 4128; 8192; 8224] []) in
  tracking_complete p /\
  current_bytes (g_stats p) = 16 /\
  tracked_bytes (table (g_stats p)) = 16 /\
  live_objects (g_stats p) = 1.
Proof.
  intros lines p.
  assert (Hc : tracking_complete p) by (vm_compute; intros []).
  destruct (creplay_counters_describe_table Concrete.malloc Concrete.free lines
              [4096; 4128; 8192; 8224] Hc) as (_ & H2 & H3).
  split; [exact Hc|]. split; [reflexivity|]. split; [reflexivity|reflexivity].
Defined.

Lemma handle_alloc_then_find_witness :
  let p := mkProcess init_stats [4096; 4128] [] in
  find_allocation (g_stats (handle_alloc Concrete.malloc 7 16 p)) 7
    = Some (mkAllocation 7 4096 16 4128) /\
  find_allocation (g_stats (handle_alloc Concrete.malloc 7 16 p)) 65543 = None.
Proof.
  intros p.
  destruct (handle_alloc_then_find Concrete.malloc 7 16 p) as (H1 & H2 & _);
    [discriminate|discriminate|].
  split; [exact H1|]. rewrite H2 by discriminate. reflexivity.
Defined.

(** Object 7 is allocated twice; the free releases the second region and
    the first one is tracked again. *)
Lemma handle_free_undoes_handle_alloc_witness :
  let p := handle_alloc Concrete.malloc 7 16 (mkProcess init_stats [4096; 4128; 8192; 8224] []) in
  let p'' := handle_free Concrete.free 7 (handle_alloc Concrete.malloc 7 8 p) in
  find_allocation (g_stats p'') 7 = Some (mkAllocation 7 4096 16 4128) /\
  current_bytes (g_stats p'') = 16 /\
  live_objects (g_stats p'') = 1 /\
  total_frees (g_stats p'') = 1.
Proof.
  intros p p''.
  destruct (handle_free_undoes_handle_alloc Concrete.malloc Concrete.free 7 8 p)
    as (_ & H2 & H3 & H4 & _ & H6 & _);
    [discriminate|discriminate|split; [discriminate|reflexivity]
    |split; [discriminate|reflexivity]|].
  fold p'' in H2, H3, H4, H6.
  split; [rewrite H2; reflexivity|]. split; [rewrite H3; reflexivity|].
  split; [rewrite H4; reflexivity|rewrite H6; reflexivity].
Defined.

Lemma parse_csv_line_row_witness :
  let p := mkProcess init_stats [4096; 4128] [] in
  parse_csv_line Concrete.malloc Concrete.free "12,alloc,7,16,3,1,9" p
    = handle_alloc Concrete.malloc 7 16 p /\
  parse_csv_line Concrete.malloc Concrete.free "12,free,7" p = p.
Proof.
  intros p.
  destruct (parse_csv_line_row Concrete.malloc Concrete.free "12" "alloc" "7" "16" ",3,1,9" p)
    as (H1 & H2 & _).
  - split; [discriminate|reflexivity].
  - split; [discriminate|reflexivity].
  - split; [discriminate|reflexivity].
  - split; [discriminate|reflexivity].
  - right. exists "3,1,9"%string. reflexivity.
  - reflexivity.
  - split; [exact H1|].
    destruct (parse_csv_line_row Concrete.malloc Concrete.free "12" "free" "7" "16" "" p)
      as (_ & H3 & _).
    + split; [discriminate|reflexivity].
    + split; [discriminate|reflexivity].
    + split; [discriminate|reflexivity].
    + split; [discriminate|reflexivity].
    + left. reflexivity.
    + reflexivity.
    + exact H3.
Defined.

End CTableExamples.

(** ** The oracle replayer: what every replay keeps *)

Section OracleInvariants.

Import Oracle.

Context {Heap : Type}.
Variable malloc : Z -> Heap -> Z * Heap.
Variable free : Z -> Heap -> Heap.

Lemma emit_if_cases c o (r : Replayer Heap) : emit_if c o r = r \/ emit_if c o r = emit o r.
Proof. unfold emit_if. destruct (verbose_ r && c); [right|left]; reflexivity. Qed.

(** A property of the replayer that is kept by the lines of progress, by
    one iteration of the drain loop, by an allocation on an empty queue and
    by queueing a free, is kept by [replay]. *)
Section Invariant.

Variable I : Replayer Heap -> Prop.

Hypothesis I_emit : forall o r,
  is_warning o = false -> is_malloc_error o = false -> I r -> I (emit o r).
Hypothesis I_index : forall i r, I r -> I (with_index i r).
Hypothesis I_front : forall fe q r,
  pending_frees_ r = fe :: q -> I r -> I (free_front free fe r).
Hypothesis I_alloc : forall e r,
  pending_frees_ r = [] -> I r -> I (process_allocation malloc free e r).
Hypothesis I_queue : forall e r, I r -> I (with_pending (pending_frees_ r ++ [e]) r).

Lemma invariant_emit_if c o r :
  is_warning o = false -> is_malloc_error o = false -> I r -> I (emit_if c o r).
Proof. intros Hw He Hr. destruct (emit_if_cases c o r) as [->| ->]; auto. Qed.

Lemma invariant_drain q : forall r,
  pending_frees_ r = q -> I r -> I (foldl (fun s fe => free_front free fe s) r q).
Proof.
  induction q as [|fe q IH]; intros r Hq Hr; simpl; [exact Hr|].
  apply IH; [rewrite free_front_pops, Hq; reflexivity|].
  eapply I_front; eauto.
Qed.

Lemma invariant_execute_pending_frees n r : I r -> I (execute_pending_frees free n r).
Proof.
  intros Hr. rewrite execute_pending_frees_foldl.
  apply invariant_drain; [apply pending_emit_if|].
  apply invariant_emit_if; auto.
Qed.

Lemma invariant_before_malloc e r : I r -> I (before_malloc free e r).
Proof.
  intros Hr. unfold before_malloc. destruct (queue_empty r); [exact Hr|].
  apply invariant_execute_pending_frees, Hr.
Qed.

Lemma invariant_process_allocation e r : I r -> I (process_allocation malloc free e r).
Proof.
  intros Hr. rewrite process_allocation_after_drain.
  apply I_alloc; [apply before_malloc_empty|apply invariant_before_malloc, Hr].
Qed.

Lemma invariant_process_free e r : I r -> I (process_free e r).
Proof.
  intros Hr. unfold process_free. apply invariant_emit_if; auto.
Qed.

Lemma invariant_replay_event e r : I r -> I (replay_event malloc free e r).
Proof.
  intros Hr. unfold replay_event. apply I_index.
  set (r1 := emit_if _ _ r).
  assert (H1 : I r1) by (apply invariant_emit_if; auto).
  destruct (is_alloc e); [apply invariant_process_allocation, H1|].
  destruct (is_free e); [apply invariant_process_free, H1|exact H1].
Qed.

Lemma invariant_replay_loop evs : forall r, I r -> I (replay_loop malloc free evs r).
Proof.
  induction evs as [|e evs IH]; intros r Hr; simpl; [exact Hr|].
  apply IH, invariant_replay_event, Hr.
Qed.

Lemma invariant_replay_finish r : I r -> I (replay_finish free r).
Proof.
  intros Hr. unfold replay_finish. apply invariant_emit_if; auto.
  destruct (queue_empty r); [exact Hr|].
  apply invariant_execute_pending_frees, invariant_emit_if; auto.
Qed.

Lemma invariant_replay_start r : I r -> I (replay_start r).
Proof. intros Hr. unfold replay_start. apply I_index, invariant_emit_if; auto. Qed.

Lemma invariant_replay_prefix n r : I r -> I (replay_prefix malloc free n r).
Proof.
  intros Hr. unfold replay_prefix. apply invariant_replay_loop, invariant_replay_start, Hr.
Qed.

Lemma invariant_replay r : I r -> I (replay malloc free r).
Proof.
  intros Hr. destruct (events_ r) as [|e es] eqn:E.
  - unfold replay. rewrite E. apply I_emit; auto.
  - rewrite replay_unfold by (rewrite E; discriminate).
    apply invariant_replay_finish, invariant_replay_loop, invariant_replay_start, Hr.
Qed.

End Invariant.


(** *** The statistics *)

Lemma process_allocation_empty_queue e (r : Replayer Heap) :
  pending_frees_ r = [] ->
  process_allocation malloc free e r =
  let ptr := (malloc (size e) (heap r)).1 in
  let r1 := with_heap (malloc (size e) (heap r)).2 r in
  if ptr =? nullptr then emit (ErrMallocFailed (object_id e) (size e)) r1
  else
    let obj := mkObject ptr (size e) (timestamp e) (site_id e) in
    let r2 := with_stats (record_allocation (size e) (site_id e) (stats_ r1))
                (with_live (<[object_id e := obj]> (live_objects_ r1)) r1) in
    emit_if (total_allocations (stats_ r2) mod 100 =? 0)
            (OutAlloc (total_allocations (stats_ r2)) (object_id e) (size e)) r2.
Proof.
  intros Hq. unfold process_allocation.
  apply queue_empty_spec in Hq. rewrite Hq. unfold do_malloc.
  destruct (malloc (size e) (heap r)) as [ptr h]. cbn [fst snd]. reflexivity.
Qed.

Lemma free_front_cases fe (r : Replayer Heap) :
  match live_objects_ r !! object_id fe with
  | None =>
      free_front free fe r
      = with_pending (tail (pending_frees_ r)) (emit (WarnUnknown (object_id fe)) r)
  | Some obj =>
      let lifetime := wrap64 (timestamp fe - alloc_time obj) in
      let r1 := with_live (delete (object_id fe) (live_objects_ r))
                  (with_stats (record_free (obj_size obj) lifetime (stats_ r))
                     (do_free free (address obj) r)) in
      stats_ r1 = record_free (obj_size obj) lifetime (stats_ r) /\
      free_front free fe r
      = with_pending (tail (pending_frees_ r))
          (emit_if (total_frees (stats_ r1) mod 100 =? 0)
                   (OutFree (total_frees (stats_ r1)) (object_id fe) lifetime) r1)
  end.
Proof.
  unfold free_front. destruct (live_objects_ r !! object_id fe) as [obj|]; [|reflexivity].
  cbv zeta. split.
  - reflexivity.
  - rewrite pending_emit_if. cbn [pending_frees_ with_live with_stats].
    rewrite pending_do_free, stats_do_free.
    replace (live_objects_ (with_stats (record_free (obj_size obj)
               (wrap64 (timestamp fe - alloc_time obj)) (stats_ r))
               (do_free free (address obj) r)))
      with (live_objects_ r) by (cbn [live_objects_ with_stats]; rewrite live_do_free; reflexivity).
    reflexivity.
Qed.

(** A property of the statistics that [record_allocation] and
    [record_free] keep holds after every replay. *)
Lemma statistics_invariant (P : Statistics -> Prop) :
  (forall sz site s, P s -> P (record_allocation sz site s)) ->
  (forall sz lifetime s, P s -> P (record_free sz lifetime s)) ->
  forall r : Replayer Heap, P (stats_ r) ->
    P (stats_ (replay malloc free r)) /\
    forall n, P (stats_ (replay_prefix malloc free n r)).
Proof.
  intros Ha Hf r Hr.
  assert (Hemit : forall o (r : Replayer Heap), P (stats_ r) -> P (stats_ (emit o r)))
    by (intros; assumption).
  assert (Hfront : forall fe q (r : Replayer Heap), pending_frees_ r = fe :: q ->
            P (stats_ r) -> P (stats_ (free_front free fe r))).
  { intros fe q r' _ Hp. pose proof (free_front_cases fe r') as Hc.
    destruct (live_objects_ r' !! object_id fe) as [obj|].
    - cbv zeta in Hc. destruct Hc as [Hs ->]. cbn [stats_ with_pending].
      rewrite stats_emit_if, Hs. apply Hf, Hp.
    - rewrite Hc. exact Hp. }
  assert (Halloc : forall e (r : Replayer Heap), pending_frees_ r = [] ->
            P (stats_ r) -> P (stats_ (process_allocation malloc free e r))).
  { intros e r' Hq Hp. rewrite (process_allocation_empty_queue e r' Hq). cbv zeta.
    destruct (_ =? nullptr); [exact Hp|].
    rewrite stats_emit_if. cbn [stats_ with_stats with_live with_heap]. apply Ha, Hp. }
  split.
  - apply (invariant_replay (fun r => P (stats_ r))); auto.
  - intros n. apply (invariant_replay_prefix (fun r => P (stats_ r))); auto.
Qed.

Lemma wrap64_add_r a b : wrap64 (a + wrap64 b) = wrap64 (a + b).
Proof. unfold wrap64. apply Zplus_mod_idemp_r. Qed.

Lemma wrap64_sub_r a b : wrap64 (a - wrap64 b) = wrap64 (a - b).
Proof. unfold wrap64. apply Zminus_mod_idemp_r. Qed.

Lemma sum_of_map_add k d (m : gmap Z Z) :
  wrap64 (sum_of id (map_add k d m)) = wrap64 (sum_of id m + d).
Proof.
  unfold map_add. rewrite sum_of_update. unfold id at 1.
  replace (wrap64 (default 0 (m !! k) + d) + sum_of id m - from_option id 0 (m !! k))
    with ((sum_of id m - from_option id 0 (m !! k)) + wrap64 (default 0 (m !! k) + d)) by lia.
  rewrite wrap64_add_r. f_equal.
  destruct (m !! k); simpl; unfold id; lia.
Qed.

Lemma map_add_lookup_None k d (m : gmap Z Z) site :
  map_add k d m !! site = None <-> site <> k /\ m !! site = None.
Proof.
  unfold map_add. destruct (decide (site = k)) as [->|Hne].
  - rewrite lookup_insert_eq. split; [discriminate|tauto].
  - rewrite lookup_insert_ne by congruence. tauto.
Qed.

Lemma record_allocation_coherent sz site s :
  coherent s -> coherent (record_allocation sz site s).
Proof.
  intros (Hb & Hdom & Hn & Hbytes & Hmax & Hlife). unfold coherent.
  cbn [record_allocation current_memory bytes_allocated bytes_freed allocations_per_site
       bytes_per_site total_allocations max_lifetime min_lifetime].
  split; [|split; [|split; [|split; [|split]]]].
  - rewrite Hb, wrap64_add_l, wrap64_sub_l. f_equal. lia.
  - intros site'. rewrite !map_add_lookup_None, Hdom. tauto.
  - rewrite sum_of_map_add, Hn, wrap64_add_l. reflexivity.
  - rewrite sum_of_map_add, Hbytes, wrap64_add_l. reflexivity.
  - exact Hmax.
  - exact Hlife.
Qed.

Lemma record_free_coherent sz lifetime s :
  coherent s -> coherent (record_free sz lifetime s).
Proof.
  intros (Hb & Hdom & Hn & Hbytes & Hmax & Hlife). unfold coherent.
  cbn [record_free current_memory bytes_allocated bytes_freed allocations_per_site
       bytes_per_site total_allocations max_lifetime min_lifetime].
  split; [|split; [|split; [|split; [|split]]]]; try assumption.
  - rewrite Hb, wrap64_sub_l, wrap64_sub_r. f_equal. lia.
  - destruct (max_lifetime s <? lifetime) eqn:E; [apply Z.ltb_lt in E; lia|exact Hmax].
  - right.
    destruct (max_lifetime s <? lifetime) eqn:E1; destruct (lifetime <? min_lifetime s) eqn:E2;
      try apply Z.ltb_lt in E1; try apply Z.ltb_ge in E1;
      try apply Z.ltb_lt in E2; try apply Z.ltb_ge in E2; lia.
Qed.

Lemma initial_statistics_coherent : coherent initial_statistics.
Proof.
  unfold coherent, initial_statistics. simpl. rewrite sum_of_empty.
  split; [reflexivity|]. split; [tauto|]. split; [reflexivity|]. split; [reflexivity|].
  split; [lia|]. left. split; reflexivity.
Qed.

(** After every replay, and after every prefix of one: the live bytes are
    the bytes allocated minus the bytes freed (64-bit arithmetic), the maps
    of allocations and of bytes by site have the same sites, the counts by
    site add up to the allocations and the bytes by site to the bytes
    allocated, and the shortest lifetime is not above the longest unless no
    free was recorded.  Nothing is assumed of the events, the object ids or
    the allocator. *)
Theorem oracle_statistics_coherent (verbose : bool) (evs : list Event) (h : Heap) :
  let r0 := new_replayer verbose evs h in
  coherent (stats_ (replay malloc free r0)) /\
  forall n, coherent (stats_ (replay_prefix malloc free n r0)).
Proof.
  intros r0. apply statistics_invariant.
  - intros. apply record_allocation_coherent. assumption.
  - intros. apply record_free_coherent. assumption.
  - apply initial_statistics_coherent.
Qed.


(** *** Every allocation event is counted or reported *)

Lemma malloc_errors_snoc out o :
  malloc_errors (out ++ [o]) = (malloc_errors out + (if is_malloc_error o then 1 else 0))%nat.
Proof.
  unfold malloc_errors. rewrite List.filter_app, length_app. simpl.
  destruct (is_malloc_error o); reflexivity.
Qed.

Lemma malloc_errors_emit_if c o (r : Replayer Heap) :
  is_malloc_error o = false ->
  malloc_errors (output (emit_if c o r)) = malloc_errors (output r).
Proof.
  intros Ho. destruct (emit_if_cases c o r) as [->| ->]; [reflexivity|].
  cbn [emit output]. rewrite malloc_errors_snoc, Ho. lia.
Qed.

Lemma free_front_answered a m fe (r : Replayer Heap) :
  answered a m r -> answered a m (free_front free fe r).
Proof.
  intros [Ha Hm]. unfold answered, free_front.
  destruct (live_objects_ r !! object_id fe) as [obj|]; simpl.
  - rewrite stats_emit_if, malloc_errors_emit_if by reflexivity. simpl.
    rewrite stats_do_free, output_do_free. split; assumption.
  - rewrite malloc_errors_snoc. simpl. split; [assumption|lia].
Qed.

Lemma before_malloc_answered a m e (r : Replayer Heap) :
  answered a m r -> answered a m (before_malloc free e r).
Proof.
  apply (invariant_before_malloc (answered a m)).
  - intros o r' _ He [Ha Hm]. unfold answered. cbn [emit stats_ output].
    rewrite malloc_errors_snoc, He. split; [assumption|lia].
  - intros fe q r' _. apply free_front_answered.
Qed.

Lemma emit_if_answered a m c o (r : Replayer Heap) :
  is_malloc_error o = false -> answered a m r -> answered a m (emit_if c o r).
Proof.
  intros Ho [Ha Hm]. unfold answered.
  rewrite stats_emit_if, malloc_errors_emit_if by exact Ho. split; assumption.
Qed.

(** An allocation event is answered once: it is counted, or its failure is
    reported. *)
Lemma process_allocation_answered a m e (r : Replayer Heap) :
  answered a m r ->
  answered (wrap64 (a + 1)) m (process_allocation malloc free e r) \/
  answered a (S m) (process_allocation malloc free e r).
Proof.
  intros Hr. rewrite process_allocation_after_drain.
  pose proof (before_malloc_answered a m e r Hr) as [Ha Hm].
  rewrite (process_allocation_empty_queue e _ (before_malloc_empty free e r)). cbv zeta.
  destruct (_ =? nullptr).
  - right. unfold answered. cbn [emit stats_ output with_heap].
    rewrite malloc_errors_snoc. simpl. split; [assumption|lia].
  - left. apply emit_if_answered; [reflexivity|].
    unfold answered. cbn [stats_ output with_stats with_live with_heap record_allocation
                          total_allocations].
    rewrite Ha. split; [reflexivity|assumption].
Qed.

Lemma replay_event_answered a m e (r : Replayer Heap) :
  answered a m r ->
  exists a' m',
    answered a' m' (replay_event malloc free e r) /\
    wrap64 (a' + Z.of_nat m') = wrap64 (a + Z.of_nat m + (if is_alloc e then 1 else 0)) /\
    (m' <= m + (if is_alloc e then 1 else 0))%nat /\
    (0 <= a < 2 ^ 64 -> 0 <= a' < 2 ^ 64).
Proof.
  intros Hr. unfold replay_event.
  set (r1 := emit_if _ _ r).
  assert (H1 : answered a m r1) by (apply emit_if_answered; [reflexivity|exact Hr]).
  destruct (is_alloc e).
  - destruct (process_allocation_answered a m e r1 H1) as [H2|H2].
    + exists (wrap64 (a + 1)), m. split; [exact H2|]. split; [|split; [lia|]].
      * rewrite wrap64_add_l. f_equal. lia.
      * intros _. apply wrap64_range.
    + exists a, (S m). split; [exact H2|]. split; [|split; [lia|tauto]]. f_equal. lia.
  - exists a, m. split; [|split; [f_equal; lia|split; [lia|tauto]]].
    destruct (is_free e); [|exact H1].
    unfold process_free. apply emit_if_answered; [reflexivity|exact H1].
Qed.

Lemma replay_loop_answered evs : forall a m (r : Replayer Heap),
  answered a m r ->
  exists a' m',
    answered a' m' (replay_loop malloc free evs r) /\
    wrap64 (a' + Z.of_nat m')
      = wrap64 (a + Z.of_nat m + Z.of_nat (length (List.filter is_alloc evs))) /\
    (m' <= m + length (List.filter is_alloc evs))%nat /\
    (0 <= a < 2 ^ 64 -> 0 <= a' < 2 ^ 64).
Proof.
  induction evs as [|e evs IH]; intros a m r Hr; simpl.
  - exists a, m. split; [exact Hr|]. split; [f_equal; lia|split; [lia|tauto]].
  - destruct (replay_event_answered a m e r Hr) as (a1 & m1 & H1 & E1 & L1 & R1).
    destruct (IH a1 m1 _ H1) as (a2 & m2 & H2 & E2 & L2 & R2).
    exists a2, m2. split; [exact H2|]. split; [|split; [|tauto]].
    + rewrite E2. rewrite <- wrap64_add_l, E1, wrap64_add_l. f_equal.
      destruct (is_alloc e); simpl length; lia.
    + destruct (is_alloc e); simpl length; lia.
Qed.

Lemma replay_finish_answered a m (r : Replayer Heap) :
  answered a m r -> answered a m (replay_finish free r).
Proof.
  apply (invariant_replay_finish (answered a m)).
  - intros o r' _ He [Ha Hm]. unfold answered. cbn [emit stats_ output].
    rewrite malloc_errors_snoc, He. split; [assumption|lia].
  - intros fe q r' _. apply free_front_answered.
Qed.

(** Every allocation event of a replay is answered exactly once: it is
    counted in [total_allocations], or "malloc failed" is written for it.
    The count is what is left of the allocation events after the failures
    (64-bit arithmetic), and there are no more failures than allocation
    events. *)
Theorem oracle_allocations_answered (verbose : bool) (evs : list Event) (h : Heap) :
  let r := replay malloc free (new_replayer verbose evs h) in
  let requested := Z.of_nat (length (List.filter is_alloc evs)) in
  let failed := Z.of_nat (malloc_errors (output r)) in
  failed <= requested /\
  total_allocations (stats_ r) = wrap64 (requested - failed).
Proof.
  intros r requested failed. subst r requested failed.
  destruct evs as [|e evs].
  - vm_compute. split; [discriminate|reflexivity].
  - rewrite replay_unfold by discriminate.
    set (r0 := new_replayer verbose (e :: evs) h).
    assert (H0 : answered 0 O (replay_start r0)).
    { unfold replay_start. split.
      - cbn [stats_ with_index]. rewrite stats_emit_if. reflexivity.
      - cbn [output with_index]. rewrite malloc_errors_emit_if by reflexivity. reflexivity. }
    destruct (replay_loop_answered (e :: evs) 0 O _ H0) as (a & m & H1 & E & L & R).
    apply replay_finish_answered in H1. destruct H1 as [Ha Hm].
    cbn [events_ r0 new_replayer]. rewrite Ha, Hm.
    assert (Hrange : 0 <= a < 2 ^ 64) by (apply R; lia).
    split; [lia|].
    rewrite <- (wrap64_small a Hrange).
    replace a with ((a + Z.of_nat m) - Z.of_nat m) at 1 by lia.
    rewrite <- wrap64_sub_l, E, wrap64_sub_l. f_equal; lia.
Qed.


(** *** [Statistics::print] *)

Lemma std_map_items_spec {A} (m : gmap Z A) k v :
  In (k, v) (std_map_items m) <-> m !! k = Some v.
Proof.
  unfold std_map_items. rewrite <- list_elem_of_In.
  rewrite (merge_sort_Permutation key_le (map_to_list m)).
  apply elem_of_map_to_list.
Qed.

Lemma std_map_items_length {A} (m : gmap Z A) :
  length (std_map_items m) = base.size m.
Proof.
  unfold std_map_items. rewrite (merge_sort_Permutation key_le (map_to_list m)).
  apply length_map_to_list.
Qed.

Lemma site_lines_complete (bytes : gmap Z Z) sites :
  (forall site count, In (site, count) sites -> bytes !! site <> None) ->
  exists lines,
    site_lines bytes sites = (lines, None) /\
    List.filter is_site_line lines = lines /\
    length lines = length sites /\
    (forall site count b, In (OutSite site count b) lines <->
       In (site, count) sites /\ bytes !! site = Some b) /\
    (forall l, In l lines -> is_site_line l = true).
Proof.
  induction sites as [|[site count] sites IH]; intros Hin; simpl.
  - exists []. repeat split; try tauto; intros; simpl in *; tauto.
  - destruct (bytes !! site) as [b|] eqn:Hb.
    2:{ exfalso. apply (Hin site count); [left; reflexivity|exact Hb]. }
    destruct IH as (lines & -> & Hf & Hlen & Hspec & Hall).
    { intros s' c' H'. apply (Hin s' c'). right. exact H'. }
    exists (OutSite site count b :: lines). simpl. rewrite Hf, Hlen.
    split; [reflexivity|]. split; [reflexivity|]. split; [reflexivity|]. split.
    + intros s' c' b'. rewrite Hspec. split.
      * intros [E|[H1 H2]]; [injection E as <- <- <-; split; [left; reflexivity|exact Hb]|].
        split; [right; exact H1|exact H2].
      * intros [[E|H1] H2].
        -- injection E as <- <-. left. congruence.
        -- right. split; assumption.
    + intros l [<-|Hl]; [reflexivity|apply Hall, Hl].
Qed.

Lemma filter_site_lines_none (l : list StatLine) :
  Forall (fun x => is_site_line x = false) l -> List.filter is_site_line l = [].
Proof.
  induction 1 as [|x l Hx _ IH]; simpl; [reflexivity|]. rewrite Hx. exact IH.
Qed.

Lemma sorted_take_drop {A} (R : A -> A -> Prop) n (l : list A) x y :
  StronglySorted R l -> In x (take n l) -> In y (drop n l) -> R x y.
Proof.
  revert l. induction n as [|n IH]; intros l Hs Hx Hy.
  - simpl in Hx. tauto.
  - destruct l as [|a l]; [simpl in Hx; tauto|].
    simpl in Hx, Hy. apply StronglySorted_inv in Hs. destruct Hs as [Hs Ha].
    destruct Hx as [<-|Hx].
    + rewrite List.Forall_forall in Ha. apply Ha.
      apply list_elem_of_In. apply list_elem_of_In in Hy.
      eapply list_elem_of_lookup in Hy. destruct Hy as [i Hi].
      rewrite lookup_drop in Hi. eapply list_elem_of_lookup. eauto.
    + apply (IH l); assumption.
Qed.

(** The statistics of a replay can always be printed: no lookup of
    [bytes_per_site] fails.  At most ten sites are listed, each with its
    count and its bytes, and no site that is left out has more allocations
    than a site that is listed; the shortest lifetime shown is not above the
    longest. *)
Theorem oracle_print_complete
    (sort : (Z * Z -> Z * Z -> bool) -> list (Z * Z) -> list (Z * Z))
    (verbose : bool) (evs : list Event) (h : Heap) :
  sort_sites_contract sort ->
  let s := stats_ (replay malloc free (new_replayer verbose evs h)) in
  exists lines,
    print sort s = (lines, None) /\
    length (List.filter is_site_line lines)
      = Nat.min 10 (base.size (allocations_per_site s)) /\
    (forall site count bytes, In (OutSite site count bytes) lines ->
       allocations_per_site s !! site = Some count /\ bytes_per_site s !! site = Some bytes) /\
    (forall site count, allocations_per_site s !! site = Some count ->
       (exists bytes, In (OutSite site count bytes) lines) \/
       (forall site' count' bytes', In (OutSite site' count' bytes') lines -> count <= count')) /\
    (forall shortest longest,
       In (OutMinLifetime shortest) lines -> In (OutMaxLifetime longest) lines ->
       shortest <= longest).
Proof.
  intros Hsort s.
  destruct (oracle_statistics_coherent verbose evs h) as [Hco _]. fold s in Hco.
  destruct Hco as (_ & Hdom & _ & _ & Hmax & Hlife).
  unfold print.
  set (sorted := sort by_count (std_map_items (allocations_per_site s))).
  destruct (Hsort (std_map_items (allocations_per_site s))) as [Hperm Hdesc].
  fold sorted in Hperm, Hdesc.
  assert (Hmem : forall site count,
            In (site, count) sorted <-> allocations_per_site s !! site = Some count).
  { intros site count. rewrite <- std_map_items_spec, <- !list_elem_of_In.
    rewrite Hperm. reflexivity. }
  assert (Hlen : length sorted = base.size (allocations_per_site s)).
  { rewrite <- std_map_items_length. apply Permutation_length, Hperm. }
  set (limit := Z.to_nat (Z.min (Z.of_nat (length sorted)) 10)).
  assert (Hlimit : limit = Nat.min 10 (length sorted)) by (subst limit; lia).
  destruct (site_lines_complete (bytes_per_site s) (take limit sorted))
    as (lines & Hlines & Hfilter & Hcount & Hspec & Hall).
  { intros site count Hin Hnone.
    apply list_elem_of_In, elem_of_take in Hin. destruct Hin as (i & Hi & _).
    assert (Hs : In (site, count) sorted)
      by (apply list_elem_of_In; eapply list_elem_of_lookup_2; exact Hi).
    apply Hmem in Hs. apply Hdom in Hnone. congruence. }
  rewrite Hlines.
  eexists. split; [reflexivity|].
  assert (Hsites : forall x, is_site_line x = true ->
            (In x ([OutTotalAllocations (total_allocations s); OutTotalFrees (total_frees s);
                    OutBytesAllocated (bytes_allocated s); OutBytesFreed (bytes_freed s);
                    OutPeakMemory (peak_memory s); OutLiveMemory (current_memory s)] ++
                   (if 0 <? total_frees s
                    then [OutAverageLifetime (total_lifetime s / total_frees s);
                          OutMaxLifetime (max_lifetime s);
                          OutMinLifetime (if min_lifetime s =? UINT64_MAX then 0
                                          else min_lifetime s)]
                    else []) ++ lines) <-> In x lines)).
  { intros x Hx. rewrite !in_app_iff. split; [|tauto].
    intros [H1|[H2|H3]]; [| |exact H3].
    - simpl in H1. repeat (destruct H1 as [<-|H1]; [discriminate|]). tauto.
    - destruct (0 <? total_frees s); simpl in H2;
        repeat (destruct H2 as [<-|H2]; [discriminate|]); tauto. }
  split; [|split; [|split]].
  - rewrite !List.filter_app, Hfilter.
    rewrite (filter_site_lines_none (if 0 <? total_frees s then _ else _)).
    2:{ destruct (0 <? total_frees s); repeat constructor. }
    rewrite (filter_site_lines_none [_; _; _; _; _; _]) by (repeat constructor).
    rewrite !app_nil_l, Hcount, length_take, <- Hlen. lia.
  - intros site count bytes Hin. apply Hsites in Hin; [|reflexivity].
    apply Hspec in Hin. destruct Hin as [Hin Hb]. split; [|exact Hb].
    apply Hmem. apply list_elem_of_In. apply list_elem_of_In in Hin.
    apply elem_of_take in Hin. destruct Hin as (i & Hi & _).
    eapply list_elem_of_lookup_2; exact Hi.
  - intros site count Hs. apply Hmem in Hs.
    rewrite <- (take_drop limit sorted) in Hs. apply in_app_or in Hs.
    destruct Hs as [Ht|Hd].
    + left. destruct (bytes_per_site s !! site) as [b|] eqn:Hb.
      * exists b. apply Hsites; [reflexivity|]. apply Hspec. split; assumption.
      * exfalso. apply Hdom in Hb.
        assert (Hs : In (site, count) sorted).
        { rewrite <- (take_drop limit sorted). apply in_or_app. left. exact Ht. }
        apply Hmem in Hs. congruence.
    + right. intros site' count' bytes' Hin. apply Hsites in Hin; [|reflexivity].
      apply Hspec in Hin. destruct Hin as [Hin _].
      apply (sorted_take_drop _ limit sorted (site', count') (site, count) Hdesc Hin Hd).
  - intros shortest longest Hmin Hmx.
    rewrite !in_app_iff in Hmin, Hmx.
    destruct Hmin as [Hmin|[Hmin|Hmin]].
    + simpl in Hmin. repeat (destruct Hmin as [Hmin|Hmin]; [discriminate|]). tauto.
    + destruct Hmx as [Hmx|[Hmx|Hmx]].
      * simpl in Hmx. repeat (destruct Hmx as [Hmx|Hmx]; [discriminate|]). tauto.
      * destruct (0 <? total_frees s); [|simpl in Hmin; tauto].
        simpl in Hmin, Hmx.
        repeat (destruct Hmin as [Hmin|Hmin]; [try discriminate|]); [|tauto].
        repeat (destruct Hmx as [Hmx|Hmx]; [try discriminate|]); [|tauto].
        injection Hmin as <-. injection Hmx as <-.
        destruct (min_lifetime s =? UINT64_MAX) eqn:E; [lia|].
        apply Z.eqb_neq in E. destruct Hlife as [[_ Hm]|Hle]; [congruence|exact Hle].
      * apply Hall in Hmx. discriminate.
    + apply Hall in Hmin. discriminate.
Qed.


(** *** Lifetimes on a trace in order of timestamp *)

Section Timely.

Variables lo hi : Z.
Hypothesis lo_nonneg : 0 <= lo.
Hypothesis hi_small : hi < 2 ^ 64.

Lemma timely_frame rest (r r' : Replayer Heap) :
  live_objects_ r' = live_objects_ r -> pending_frees_ r' = pending_frees_ r ->
  stats_ r' = stats_ r -> timely lo hi rest r -> timely lo hi rest r'.
Proof. unfold timely. intros -> -> ->. tauto. Qed.

Lemma timely_emit_if rest c o (r : Replayer Heap) :
  timely lo hi rest r -> timely lo hi rest (emit_if c o r).
Proof.
  apply timely_frame; [apply live_emit_if|apply pending_emit_if|apply stats_emit_if].
Qed.

Lemma timely_free_front rest fe q (r : Replayer Heap) :
  pending_frees_ r = fe :: q -> timely lo hi rest r ->
  timely lo hi rest (free_front free fe r).
Proof.
  intros Hq (Hlive & Hpend & Hmax). rewrite Hq in Hpend.
  apply Forall_cons in Hpend. destruct Hpend as [Hfe Hpend].
  unfold timely. rewrite free_front_pops, Hq. cbn [tail].
  unfold free_front. destruct (live_objects_ r !! object_id fe) as [obj|] eqn:Hk.
  - cbn [with_pending live_objects_ stats_].
    rewrite live_emit_if, stats_emit_if.
    cbn [with_live with_stats live_objects_ stats_ record_free max_lifetime].
    rewrite stats_do_free, live_do_free.
    destruct (Hlive _ _ Hk) as (Hlo & _ & Hq').
    rewrite Hq in Hq'. apply Forall_cons in Hq'. destruct Hq' as [Hle _].
    rewrite (wrap64_small (timestamp fe - alloc_time obj)) by lia.
    split; [|split; [exact Hpend|]].
    + intros k' obj' Hk'. apply lookup_delete_Some in Hk'. destruct Hk' as [_ Hk'].
      destruct (Hlive _ _ Hk') as (H1 & H2 & H3). rewrite Hq in H3.
      apply Forall_cons in H3. tauto.
    + destruct (max_lifetime (stats_ r) <? timestamp fe - alloc_time obj); lia.
  - cbn [with_pending emit live_objects_ stats_].
    split; [|split; [exact Hpend|exact Hmax]].
    intros k' obj' Hk'. destruct (Hlive _ _ Hk') as (H1 & H2 & H3). rewrite Hq in H3.
    apply Forall_cons in H3. tauto.
Qed.

Lemma timely_before_malloc rest e (r : Replayer Heap) :
  timely lo hi rest r -> timely lo hi rest (before_malloc free e r).
Proof.
  apply (invariant_before_malloc (timely lo hi rest)).
  - intros o r' _ _. apply timely_frame; reflexivity.
  - intros fe q r'. apply timely_free_front.
Qed.

Lemma timely_process_allocation rest e (r : Replayer Heap) :
  lo <= timestamp e -> Forall (fun e' => timestamp e <= timestamp e') rest ->
  timely lo hi (e :: rest) r ->
  timely lo hi rest (process_allocation malloc free e r).
Proof.
  intros Hlo Hrest Hr. rewrite process_allocation_after_drain.
  pose proof (timely_before_malloc _ e r Hr) as (Hlive & Hpend & Hmax).
  pose proof (before_malloc_empty free e r) as Hq.
  rewrite (process_allocation_empty_queue e _ Hq). cbv zeta.
  rewrite Hq in *.
  destruct (_ =? nullptr).
  - unfold timely. cbn [emit with_heap live_objects_ pending_frees_ stats_].
    rewrite Hq. split; [|split; [constructor|exact Hmax]].
    intros k obj Hk. destruct (Hlive _ _ Hk) as (H1 & H2 & _).
    apply Forall_cons in H2. split; [exact H1|]. split; [tauto|constructor].
  - unfold timely. rewrite live_emit_if, pending_emit_if, stats_emit_if.
    cbn [with_stats with_live with_heap live_objects_ pending_frees_ stats_
         record_allocation max_lifetime].
    rewrite Hq. split; [|split; [constructor|exact Hmax]].
    intros k obj. destruct (decide (k = object_id e)) as [->|Hne].
    + rewrite lookup_insert_eq. intros [= <-]. cbn [alloc_time].
      split; [exact Hlo|]. split; [exact Hrest|constructor].
    + rewrite lookup_insert_ne by congruence. intros Hk.
      destruct (Hlive _ _ Hk) as (H1 & H2 & _).
      apply Forall_cons in H2. split; [exact H1|]. split; [tauto|constructor].
Qed.

Lemma timely_process_free rest e (r : Replayer Heap) :
  timestamp e <= hi ->
  timely lo hi (e :: rest) r -> timely lo hi rest (process_free e r).
Proof.
  intros Hhi (Hlive & Hpend & Hmax). unfold process_free.
  apply timely_emit_if. unfold timely. cbn [with_pending live_objects_ pending_frees_ stats_].
  split; [|split; [|exact Hmax]].
  - intros k obj Hk. destruct (Hlive _ _ Hk) as (H1 & H2 & H3).
    apply Forall_cons in H2. destruct H2 as [He H2].
    split; [exact H1|]. split; [exact H2|].
    apply Forall_app. split; [exact H3|]. constructor; [exact He|constructor].
  - apply Forall_app. split; [exact Hpend|]. constructor; [exact Hhi|constructor].
Qed.

Lemma timely_skip rest e (r : Replayer Heap) :
  timely lo hi (e :: rest) r -> timely lo hi rest r.
Proof.
  intros (Hlive & Hpend & Hmax). split; [|split; assumption].
  intros k obj Hk. destruct (Hlive _ _ Hk) as (H1 & H2 & H3).
  apply Forall_cons in H2. tauto.
Qed.

Lemma timely_replay_event rest e (r : Replayer Heap) :
  lo <= timestamp e <= hi -> Forall (fun e' => timestamp e <= timestamp e') rest ->
  timely lo hi (e :: rest) r -> timely lo hi rest (replay_event malloc free e r).
Proof.
  intros He Hrest Hr. unfold replay_event.
  set (r1 := emit_if _ _ r).
  assert (H1 : timely lo hi (e :: rest) r1) by (apply timely_emit_if, Hr).
  match goal with |- timely _ _ _ (with_index _ ?x) =>
    assert (H2 : timely lo hi rest x); [|revert H2; apply timely_frame; reflexivity]
  end.
  destruct (is_alloc e); [apply timely_process_allocation; tauto|].
  destruct (is_free e); [apply timely_process_free; tauto|].
  apply timely_skip with e, H1.
Qed.

Lemma timely_replay_loop evs : forall r : Replayer Heap,
  StronglySorted timestamp_le evs ->
  Forall (fun e => lo <= timestamp e <= hi) evs ->
  timely lo hi evs r -> timely lo hi [] (replay_loop malloc free evs r).
Proof.
  induction evs as [|e evs IH]; intros r Hs Hb Hr; simpl; [exact Hr|].
  apply StronglySorted_inv in Hs. destruct Hs as [Hs He].
  apply Forall_cons in Hb. destruct Hb as [Hbe Hb].
  apply IH; [exact Hs|exact Hb|].
  apply timely_replay_event; [exact Hbe|exact He|exact Hr].
Qed.

Lemma timely_replay_finish (r : Replayer Heap) :
  timely lo hi [] r -> timely lo hi [] (replay_finish free r).
Proof.
  apply (invariant_replay_finish (timely lo hi [])).
  - intros o r' _ _. apply timely_frame; reflexivity.
  - intros fe q r'. apply timely_free_front.
Qed.

End Timely.

(** On a trace in order of timestamp, as [load_oracle] leaves it, no
    lifetime wraps around: the longest lifetime recorded is at most the span
    of the timestamps of the trace. *)
Theorem sorted_replay_lifetimes (verbose : bool) (evs : list Event) (h : Heap) (lo hi : Z) :
  StronglySorted timestamp_le evs ->
  Forall (fun e => lo <= timestamp e <= hi) evs ->
  0 <= lo -> lo <= hi -> hi < 2 ^ 64 ->
  let s := stats_ (replay malloc free (new_replayer verbose evs h)) in
  0 <= max_lifetime s <= hi - lo.
Proof.
  intros Hs Hb Hlo Hle Hhi s. subst s.
  assert (H0 : timely lo hi evs (new_replayer verbose evs h)).
  { unfold timely. cbn [new_replayer live_objects_ pending_frees_ stats_].
    split; [|split; [constructor|cbn; lia]].
    intros k obj Hk. rewrite lookup_empty in Hk. discriminate. }
  destruct evs as [|e evs].
  - unfold replay. cbn [events_ new_replayer emit stats_ initial_statistics max_lifetime]. lia.
  - rewrite replay_unfold by discriminate.
    cbn [events_ new_replayer].
    fold (new_replayer (Heap := Heap) verbose (e :: evs) h).
    assert (H1 : timely lo hi (e :: evs) (replay_start (new_replayer verbose (e :: evs) h))).
    { unfold replay_start.
      match goal with |- timely _ _ _ (with_index _ ?x) =>
        assert (H2 : timely lo hi (e :: evs) x);
          [apply timely_emit_if, H0|revert H2; apply timely_frame; reflexivity]
      end. }
    apply (timely_replay_loop lo hi Hlo Hhi (e :: evs) _ Hs Hb) in H1.
    apply (timely_replay_finish lo hi Hlo Hhi) in H1.
    destruct H1 as (_ & _ & H1). exact H1.
Qed.

End OracleInvariants.

(** ** The oracle replayer and the allocator *)

Section OracleHeap.

Import Oracle.

Context {Heap : Type}.
Variable malloc : Z -> Heap -> Z * Heap.
Variable free : Z -> Heap -> Heap.

Abbreviation Logged := (Heap * list HeapCall)%type.

Lemma times_allocated_snoc q log c :
  times_allocated q (log ++ [c])
  = times_allocated q log + (if returns_address q c then 1 else 0).
Proof.
  unfold times_allocated. rewrite List.filter_app, length_app. simpl.
  destruct (returns_address q c); simpl; lia.
Qed.

Lemma times_freed_snoc q log c :
  times_freed q (log ++ [c]) = times_freed q log + (if frees_address q c then 1 else 0).
Proof.
  unfold times_freed. rewrite List.filter_app, length_app. simpl.
  destruct (frees_address q c); simpl; lia.
Qed.

Lemma live_count_nonneg q live : 0 <= live_count q live.
Proof.
  unfold live_count. apply sum_of_nonneg. intros k obj _.
  destruct (address obj =? q); lia.
Qed.

Lemma live_count_insert q k obj live :
  live_count q (<[k := obj]> live)
  <= live_count q live + (if address obj =? q then 1 else 0).
Proof.
  unfold live_count. rewrite sum_of_update.
  destruct (live !! k) as [old|]; simpl; [|lia].
  destruct (address old =? q); lia.
Qed.

Lemma live_count_delete q k obj live :
  live !! k = Some obj ->
  live_count q (delete k live) = live_count q live - (if address obj =? q then 1 else 0).
Proof.
  intros Hk. unfold live_count.
  apply (sum_of_delete (fun obj => if address obj =? q then 1 else 0) live k obj Hk).
Qed.

Lemma heap_emit_if c o (r : Replayer Logged) : heap (emit_if c o r) = heap r.
Proof. unfold emit_if. destruct (verbose_ r && c); reflexivity. Qed.

Lemma free_front_in_order fe (r : Replayer Logged) :
  in_order r -> in_order (free_front (logged_free free) fe r).
Proof.
  intros (Hnn & Hle & Hnull). unfold in_order, free_front.
  destruct (live_objects_ r !! object_id fe) as [obj|] eqn:Hk.
  - cbn [with_pending live_objects_ heap].
    rewrite live_emit_if, heap_emit_if. cbn [with_live with_stats live_objects_ heap].
    pose proof (Hnn _ _ Hk) as Haddr.
    unfold do_free. apply Z.eqb_neq in Haddr. rewrite Haddr. apply Z.eqb_neq in Haddr.
    cbn [with_heap heap live_objects_ logged_free snd].
    split; [|split].
    + intros k' obj' Hk'. apply lookup_delete_Some in Hk'. apply (Hnn k'). tauto.
    + intros q.
      rewrite times_freed_snoc, times_allocated_snoc, (live_count_delete q _ _ _ Hk). simpl.
      specialize (Hle q). lia.
    + rewrite times_freed_snoc. simpl. apply Z.eqb_neq in Haddr. rewrite Haddr. lia.
  - cbn [with_pending emit live_objects_ heap]. split; [|split]; assumption.
Qed.

Lemma process_allocation_in_order e (r : Replayer Logged) :
  pending_frees_ r = [] -> in_order r ->
  in_order (process_allocation (logged_malloc malloc) (logged_free free) e r).
Proof.
  intros Hq (Hnn & Hle & Hnull). unfold in_order.
  rewrite (process_allocation_empty_queue _ _ e r Hq). cbv zeta.
  destruct (malloc (size e) (heap r).1) as [ptr h'] eqn:Em.
  assert (Hm : logged_malloc malloc (size e) (heap r)
               = (ptr, (h', (heap r).2 ++ [Malloc (size e) ptr])))
    by (unfold logged_malloc; rewrite Em; reflexivity).
  rewrite Hm. cbn [fst snd].
  destruct (ptr =? nullptr) eqn:E.
  - cbn [emit with_heap live_objects_ heap snd]. split; [exact Hnn|]. split.
    + intros q. rewrite times_allocated_snoc, times_freed_snoc. simpl.
      specialize (Hle q). destruct (ptr =? q); lia.
    + rewrite times_freed_snoc. simpl. lia.
  - rewrite live_emit_if, heap_emit_if.
    cbn [with_stats with_live with_heap live_objects_ heap snd].
    split; [|split].
    + intros k obj. destruct (decide (k = object_id e)) as [->|Hne].
      * rewrite lookup_insert_eq. intros [= <-]. simpl. apply Z.eqb_neq, E.
      * rewrite lookup_insert_ne by congruence. apply Hnn.
    + intros q. rewrite times_allocated_snoc, times_freed_snoc. simpl.
      pose proof (live_count_insert q (object_id e)
                    (mkObject ptr (size e) (timestamp e) (site_id e)) (live_objects_ r)) as Hi.
      simpl in Hi. specialize (Hle q). lia.
    + rewrite times_freed_snoc. simpl. lia.
Qed.

Lemma replay_in_order (r : Replayer Logged) :
  in_order r -> in_order (replay (logged_malloc malloc) (logged_free free) r).
Proof.
  apply (invariant_replay (logged_malloc malloc) (logged_free free) in_order).
  - intros o r' _ _ Hr'. exact Hr'.
  - intros i r' Hr'. exact Hr'.
  - intros fe q r' _. apply free_front_in_order.
  - apply process_allocation_in_order.
  - intros e r' Hr'. exact Hr'.
Qed.

(** The releases of [cleanup], for entries that all hold an address. *)
Lemma cleanup_releases q (items : list (Z * AllocatedObject)) : forall h : Logged,
  Forall (fun pair => address pair.2 <> nullptr) items ->
  let release (h : Logged) (pair : Z * AllocatedObject) :=
    if address pair.2 =? nullptr then h else logged_free free (address pair.2) h in
  times_freed q (foldl release h items).2
  = times_freed q h.2
    + foldr (fun pair acc => (if address pair.2 =? q then 1 else 0) + acc) 0 items /\
  forall q', times_allocated q' (foldl release h items).2 = times_allocated q' h.2.
Proof.
  induction items as [|pair items IH]; intros h Hall release; simpl.
  - split; [lia|reflexivity].
  - apply Forall_cons in Hall. destruct Hall as [Hp Hall].
    destruct (IH (release h pair) Hall) as [IH1 IH2]. fold release in IH1, IH2.
    rewrite IH1. split.
    + subst release. cbv beta. apply Z.eqb_neq in Hp. rewrite Hp.
      cbn [logged_free snd]. rewrite times_freed_snoc. simpl. lia.
    + intros q'. rewrite IH2. subst release. cbv beta. apply Z.eqb_neq in Hp. rewrite Hp.
      cbn [logged_free snd]. rewrite times_allocated_snoc. simpl. lia.
Qed.

Lemma live_count_items q (live : gmap Z AllocatedObject) :
  live_count q live
  = foldr (fun pair acc => (if address pair.2 =? q then 1 else 0) + acc) 0
      (std_map_items live).
Proof.
  unfold live_count, sum_of. rewrite map_fold_foldr.
  unfold std_map_items.
  set (g := fun (pair : Z * AllocatedObject) (acc : Z) =>
              (if address pair.2 =? q then 1 else 0) + acc).
  transitivity (foldr g 0 (map_to_list live)).
  - generalize (map_to_list live). intros l.
    induction l as [|[k obj] l IH]; simpl; [reflexivity|]. rewrite IH. reflexivity.
  - assert (Hperm : Permutation (map_to_list live) (merge_sort key_le (map_to_list live)))
      by (symmetry; apply merge_sort_Permutation).
    induction Hperm as [|x l l' _ IH|x y l|l l' l'' _ IH1 _ IH2]; simpl.
    + reflexivity.
    + rewrite IH. reflexivity.
    + unfold g. lia.
    + rewrite IH1. exact IH2.
Qed.

Lemma cleanup_effect (r : Replayer Logged) :
  (forall k obj, live_objects_ r !! k = Some obj -> address obj <> nullptr) ->
  let r' := cleanup (logged_free free) r in
  live_objects_ r' = ∅ /\
  (forall q, times_freed q (heap r').2
             = times_freed q (heap r).2 + live_count q (live_objects_ r)) /\
  (forall q, times_allocated q (heap r').2 = times_allocated q (heap r).2) /\
  stats_ r' = stats_ r.
Proof.
  intros Hnn r'. subst r'. unfold cleanup.
  destruct (Nat.eqb (base.size (live_objects_ r)) 0) eqn:E.
  - apply Nat.eqb_eq, map_size_empty_inv in E.
    split; [exact E|]. split; [|split; reflexivity].
    intros q. rewrite E. unfold live_count. rewrite sum_of_empty. lia.
  - cbn [with_live with_heap heap live_objects_ stats_].
    assert (Hall : Forall (fun pair : Z * AllocatedObject => address pair.2 <> nullptr)
                     (std_map_items (live_objects_ r))).
    { apply List.Forall_forall. intros [k obj] Hin. apply std_map_items_spec in Hin.
      apply (Hnn _ _ Hin). }
    split; [reflexivity|]. split; [|split; [|reflexivity]].
    + intros q. rewrite live_count_items. apply (cleanup_releases q _ (heap r) Hall).
    + intros q. apply (cleanup_releases q _ (heap r) Hall).
Qed.

Lemma live_count_null (live : gmap Z AllocatedObject) :
  (forall k obj, live !! k = Some obj -> address obj <> nullptr) ->
  live_count nullptr live = 0.
Proof.
  intros Hnn. rewrite live_count_items.
  assert (Hall : Forall (fun pair : Z * AllocatedObject => address pair.2 <> nullptr)
                   (std_map_items live)).
  { apply List.Forall_forall. intros [k obj] Hin. apply std_map_items_spec in Hin.
    apply (Hnn _ _ Hin). }
  induction Hall as [|pair items Hp _ IH]; simpl; [reflexivity|].
  apply Z.eqb_neq in Hp. rewrite Hp, IH. reflexivity.
Qed.

(** Whatever the events and the allocator: during a replay and the cleanup
    that follows, no address is passed to [free] more often than [malloc]
    returned it, and null is never passed to [free]; [cleanup] releases
    exactly the regions that the live table still holds, empties the table
    and leaves the statistics. *)
Theorem oracle_frees_what_it_allocated (verbose : bool) (evs : list Event) (h : Heap) :
  let r := replay (logged_malloc malloc) (logged_free free)
             (new_replayer verbose evs (h, [])) in
  let r' := cleanup (logged_free free) r in
  (forall q, times_freed q (heap r').2 <= times_allocated q (heap r').2) /\
  times_freed nullptr (heap r').2 = 0 /\
  live_objects_ r' = ∅ /\
  (forall q, times_freed q (heap r').2
             = times_freed q (heap r).2 + live_count q (live_objects_ r)) /\
  (forall q, times_allocated q (heap r').2 = times_allocated q (heap r).2) /\
  stats_ r' = stats_ r.
Proof.
  intros r r'.
  assert (Hr : in_order r).
  { apply replay_in_order. unfold in_order, heap_calls_in_order.
    cbn [new_replayer live_objects_ heap snd].
    split; [|split; [|reflexivity]].
    - intros k obj Hk. rewrite lookup_empty in Hk. discriminate.
    - intros q. unfold live_count. rewrite sum_of_empty. reflexivity. }
  destruct Hr as (Hnn & Hle & Hnull).
  destruct (cleanup_effect r Hnn) as (H1 & H2 & H3 & H4). fold r' in H1, H2, H3, H4.
  split; [|split; [|split; [|split; [|split]]]]; try assumption.
  - intros q. rewrite H2, H3. apply Hle.
  - rewrite H2, Hnull, live_count_null by exact Hnn. reflexivity.
Qed.

(** *** No region is lost when no live id is allocated again *)

Lemma live_count_insert_fresh q k obj (live : gmap Z AllocatedObject) :
  live !! k = None ->
  live_count q (<[k := obj]> live)
  = live_count q live + (if address obj =? q then 1 else 0).
Proof.
  intros Hk. unfold live_count.
  rewrite (sum_of_insert (fun obj => if address obj =? q then 1 else 0) live k obj Hk). lia.
Qed.

Lemma free_front_all_accounted fe (r : Replayer Logged) :
  all_accounted r -> all_accounted (free_front (logged_free free) fe r).
Proof.
  intros (Hnn & Heq). unfold all_accounted, free_front.
  destruct (live_objects_ r !! object_id fe) as [obj|] eqn:Hk.
  - cbn [with_pending live_objects_ heap].
    rewrite live_emit_if, heap_emit_if. cbn [with_live with_stats live_objects_ heap].
    pose proof (Hnn _ _ Hk) as Haddr.
    unfold do_free. apply Z.eqb_neq in Haddr. rewrite Haddr. apply Z.eqb_neq in Haddr.
    cbn [with_heap heap live_objects_ logged_free snd].
    split.
    + intros k' obj' Hk'. apply lookup_delete_Some in Hk'. apply (Hnn k'). tauto.
    + intros q Hq.
      rewrite times_freed_snoc, times_allocated_snoc, (live_count_delete q _ _ _ Hk). simpl.
      specialize (Heq q Hq). lia.
  - cbn [with_pending emit live_objects_ heap]. split; assumption.
Qed.

Lemma process_allocation_all_accounted e (r : Replayer Logged) :
  pending_frees_ r = [] -> live_objects_ r !! object_id e = None ->
  all_accounted r ->
  all_accounted (process_allocation (logged_malloc malloc) (logged_free free) e r).
Proof.
  intros Hq Hfresh (Hnn & Heq). unfold all_accounted.
  rewrite (process_allocation_empty_queue _ _ e r Hq). cbv zeta.
  destruct (malloc (size e) (heap r).1) as [ptr h'] eqn:Em.
  assert (Hm : logged_malloc malloc (size e) (heap r)
               = (ptr, (h', (heap r).2 ++ [Malloc (size e) ptr])))
    by (unfold logged_malloc; rewrite Em; reflexivity).
  rewrite Hm. cbn [fst snd].
  destruct (ptr =? nullptr) eqn:E.
  - cbn [emit with_heap live_objects_ heap snd]. split; [exact Hnn|].
    intros q Hne. rewrite times_allocated_snoc, times_freed_snoc. simpl.
    apply Z.eqb_eq in E. subst ptr.
    assert (Hq' : (nullptr =? q) = false) by (apply Z.eqb_neq; congruence).
    rewrite Hq'. specialize (Heq q Hne). lia.
  - rewrite live_emit_if, heap_emit_if.
    cbn [with_stats with_live with_heap live_objects_ heap snd].
    split.
    + intros k obj. destruct (decide (k = object_id e)) as [->|Hne].
      * rewrite lookup_insert_eq. intros [= <-]. simpl. apply Z.eqb_neq, E.
      * rewrite lookup_insert_ne by congruence. apply Hnn.
    + intros q Hne. rewrite times_allocated_snoc, times_freed_snoc. simpl.
      rewrite (live_count_insert_fresh q _ _ _ Hfresh). simpl.
      specialize (Heq q Hne). lia.
Qed.

Lemma all_accounted_frame (r r' : Replayer Logged) :
  live_objects_ r' = live_objects_ r -> heap r' = heap r ->
  all_accounted r -> all_accounted r'.
Proof. unfold all_accounted. intros -> ->. tauto. Qed.

Lemma before_malloc_all_accounted e (r : Replayer Logged) :
  all_accounted r -> all_accounted (before_malloc (logged_free free) e r).
Proof.
  apply (invariant_before_malloc (logged_free free) all_accounted).
  - intros o r' _ _. apply all_accounted_frame; reflexivity.
  - intros fe q r' _. apply free_front_all_accounted.
Qed.

Lemma replay_loop_all_accounted evs : forall r : Replayer Logged,
  allocations_fresh (logged_malloc malloc) (logged_free free) evs r ->
  all_accounted r ->
  all_accounted (replay_loop (logged_malloc malloc) (logged_free free) evs r).
Proof.
  induction evs as [|e evs IH]; intros r Hfresh Hr; simpl; [exact Hr|].
  destruct Hfresh as [Hnow Hlater]. apply IH; [exact Hlater|].
  unfold replay_event. set (r1 := emit_if _ _ r) in *.
  assert (H1 : all_accounted r1)
    by (revert Hr; apply all_accounted_frame; [apply live_emit_if|apply heap_emit_if]).
  match goal with |- all_accounted (with_index _ ?x) =>
    assert (H2 : all_accounted x); [|revert H2; apply all_accounted_frame; reflexivity]
  end.
  destruct (is_alloc e) eqn:Ea.
  - destruct (Hnow eq_refl) as (Hid & _).
    rewrite process_allocation_after_drain.
    apply process_allocation_all_accounted;
      [apply before_malloc_empty|exact Hid|apply before_malloc_all_accounted, H1].
  - destruct (is_free e); [|exact H1].
    unfold process_free. revert H1. apply all_accounted_frame.
    + rewrite live_emit_if. reflexivity.
    + rewrite heap_emit_if. reflexivity.
Qed.

(** Provided no allocation event names an id that is still in the live
    table: after a replay and the cleanup that follows, every region that
    [malloc] returned has been passed to [free] exactly as often as it was
    returned; nothing is leaked and nothing is released twice. *)
Theorem oracle_releases_every_region (verbose : bool) (evs : list Event) (h : Heap) :
  let r0 := new_replayer verbose evs (h, []) in
  let r' := cleanup (logged_free free)
              (replay (logged_malloc malloc) (logged_free free) r0) in
  allocations_fresh (logged_malloc malloc) (logged_free free) evs (replay_start r0) ->
  forall q, q <> nullptr -> times_freed q (heap r').2 = times_allocated q (heap r').2.
Proof.
  intros r0 r' Hfresh q Hq. subst r'.
  assert (H0 : all_accounted r0).
  { split.
    - intros k obj Hk. cbn in Hk. rewrite lookup_empty in Hk. discriminate.
    - intros q' _. cbn [r0 new_replayer live_objects_ heap snd].
      unfold live_count. rewrite sum_of_empty. reflexivity. }
  assert (Hr : all_accounted (replay (logged_malloc malloc) (logged_free free) r0)).
  { destruct evs as [|e evs].
    - unfold replay. cbn [r0 new_replayer events_].
      revert H0. apply all_accounted_frame; reflexivity.
    - rewrite replay_unfold by discriminate.
      apply (invariant_replay_finish (logged_free free) all_accounted).
      + intros o r' _ _. apply all_accounted_frame; reflexivity.
      + intros fe q' r' _. apply free_front_all_accounted.
      + apply replay_loop_all_accounted; [exact Hfresh|].
        unfold replay_start.
        match goal with |- all_accounted (with_index _ ?x) =>
          assert (H2 : all_accounted x); [|revert H2; apply all_accounted_frame; reflexivity]
        end.
        revert H0. apply all_accounted_frame; [apply live_emit_if|apply heap_emit_if]. }
  destruct Hr as (Hnn & Heq).
  destruct (cleanup_effect _ Hnn) as (_ & H2 & H3 & _).
  rewrite H2, H3. apply Heq, Hq.
Qed.

End OracleHeap.

(** ** The rows of the oracle file *)

Section OracleRows.

Import Oracle.

Lemma digit_value_range c d : digit_value c = Some d -> 0 <= d <= 9.
Proof.
  unfold digit_value. destruct (_ && _) eqn:E; [|discriminate].
  intros [= <-]. apply andb_prop in E. destruct E as [E1 E2].
  apply Z.leb_le in E1, E2. lia.
Qed.

Lemma read_digits_nonneg s : forall acc n, 0 <= acc -> 0 <= (read_digits s acc n).1.
Proof.
  induction s as [|c s IH]; intros acc n Hacc; simpl; [exact Hacc|].
  destruct (digit_value c) as [d|] eqn:E; [|exact Hacc].
  apply IH. apply digit_value_range in E. lia.
Qed.

(** [std::stoull] returns a value of its type or throws. *)
Lemma stoull_range field v : stoull field = inr v -> 0 <= v < 2 ^ 64.
Proof.
  unfold stoull.
  set (s := skip_space field).
  set (signed := match s with
                 | String c rest => _
                 | EmptyString => _
                 end).
  destruct signed as [negative s'].
  pose proof (read_digits_nonneg s' 0 O (Z.le_refl 0)) as Hnn.
  destruct (read_digits s' 0 O) as [digits n]. simpl in Hnn.
  destruct n; [discriminate|].
  destruct (UINT64_MAX <? digits) eqn:E; [discriminate|].
  apply Z.ltb_ge in E. unfold UINT64_MAX in E.
  intros [= <-]. destruct negative; [apply wrap64_range|lia].
Qed.

Lemma wrap32_range z : 0 <= wrap32 z < 2 ^ 32.
Proof. unfold wrap32. apply Z.mod_pos_bound. lia. Qed.

Lemma split_comma_extra s x :
  split_comma (s +:+ String "," x)
  = if CReplay.comma_free s then (s, x)
    else ((split_comma s).1, (split_comma s).2 +:+ String "," x).
Proof.
  induction s as [|c s IH].
  - reflexivity.
  - change (String c s +:+ String "," x) with (String c (s +:+ String "," x)).
    cbn [split_comma CReplay.comma_free].
    destruct (Ascii.eqb c ",") eqn:E; cbn [negb andb]; [reflexivity|].
    rewrite IH. destruct (CReplay.comma_free s); [reflexivity|].
    destruct (split_comma s) as [f rest]. reflexivity.
Qed.

Lemma split_comma_comma_free s :
  CReplay.comma_free s = true -> split_comma s = (s, EmptyString).
Proof.
  induction s as [|c s IH]; simpl; [reflexivity|].
  intros H. apply andb_prop in H. destruct H as [Hc Hs].
  apply negb_true_iff in Hc. rewrite Hc, (IH Hs). reflexivity.
Qed.

(** A field is read the same when a column is appended to the row; what is
    left of the row is extended by the column unless it was the last
    field. *)
Lemma getline_comma_extra iss x field rest :
  getline_comma iss = Some (field, rest) ->
  (rest <> EmptyString ->
   getline_comma (iss +:+ String "," x) = Some (field, rest +:+ String "," x)) /\
  exists rest', getline_comma (iss +:+ String "," x) = Some (field, rest').
Proof.
  unfold getline_comma. destruct iss as [|c iss]; [discriminate|].
  intros H0.
  assert (H : split_comma (String c iss) = (field, rest)) by congruence. clear H0.
  change (String c iss +:+ String "," x) with (String c (iss +:+ String "," x)).
  change (String c (iss +:+ String "," x)) with (String c iss +:+ String "," x).
  rewrite split_comma_extra.
  destruct (CReplay.comma_free (String c iss)) eqn:E.
  - rewrite (split_comma_comma_free _ E) in H. injection H as <- <-.
    destruct (String c iss +:+ String "," x) eqn:E'; [discriminate|].
    split; [congruence|eauto].
  - rewrite H. cbn [fst snd].
    destruct (String c iss +:+ String "," x) eqn:E'; [discriminate|].
    split; [reflexivity|eauto].
Qed.

Lemma getline_comma_nonempty iss field rest :
  getline_comma iss = Some (field, rest) -> iss <> EmptyString.
Proof. destruct iss; [discriminate|discriminate]. Qed.

(** A row that [parse_event] accepts gives an event whose fields are values
    of their C++ types, and it gives the same event when more columns
    follow the seventh. *)
Theorem parse_event_fields (line : string) (e : Event) :
  parse_event line = Parsed e ->
  (0 <= timestamp e < 2 ^ 64 /\ 0 <= object_id e < 2 ^ 64 /\ 0 <= size e < 2 ^ 64 /\
   0 <= site_id e < 2 ^ 32 /\ 0 <= thread_id e < 2 ^ 64 /\ 0 <= type_id e < 2 ^ 32) /\
  forall extra, parse_event (line +:+ String "," extra) = Parsed e.
Proof.
  unfold parse_event, next_field, converted, stoul. intros H.
  destruct (getline_comma line) as [[f1 r1]|] eqn:G1; [|discriminate].
  destruct (stoull f1) as [?|v1] eqn:C1; [discriminate|].
  destruct (getline_comma r1) as [[f2 r2]|] eqn:G2; [|discriminate].
  destruct (getline_comma r2) as [[f3 r3]|] eqn:G3; [|discriminate].
  destruct (stoull f3) as [?|v3] eqn:C3; [discriminate|].
  destruct (getline_comma r3) as [[f4 r4]|] eqn:G4; [|discriminate].
  destruct (stoull f4) as [?|v4] eqn:C4; [discriminate|].
  destruct (getline_comma r4) as [[f5 r5]|] eqn:G5; [|discriminate].
  destruct (stoull f5) as [?|v5] eqn:C5; [discriminate|].
  destruct (getline_comma r5) as [[f6 r6]|] eqn:G6; [|discriminate].
  destruct (stoull f6) as [?|v6] eqn:C6; [discriminate|].
  destruct (getline_comma r6) as [[f7 r7]|] eqn:G7; [|discriminate].
  destruct (stoull f7) as [?|v7] eqn:C7; [discriminate|].
  injection H as <-. split.
  - cbn [timestamp object_id size site_id thread_id type_id].
    pose proof (stoull_range _ _ C1). pose proof (stoull_range _ _ C3).
    pose proof (stoull_range _ _ C4). pose proof (stoull_range _ _ C6).
    pose proof (wrap32_range v5). pose proof (wrap32_range v7). tauto.
  - intros extra.
    destruct (getline_comma_extra _ extra _ _ G1) as [E1 _].
    rewrite (E1 (getline_comma_nonempty _ _ _ G2)), C1.
    destruct (getline_comma_extra _ extra _ _ G2) as [E2 _].
    rewrite (E2 (getline_comma_nonempty _ _ _ G3)).
    destruct (getline_comma_extra _ extra _ _ G3) as [E3 _].
    rewrite (E3 (getline_comma_nonempty _ _ _ G4)), C3.
    destruct (getline_comma_extra _ extra _ _ G4) as [E4 _].
    rewrite (E4 (getline_comma_nonempty _ _ _ G5)), C4.
    destruct (getline_comma_extra _ extra _ _ G5) as [E5 _].
    rewrite (E5 (getline_comma_nonempty _ _ _ G6)), C5.
    destruct (getline_comma_extra _ extra _ _ G6) as [E6 _].
    rewrite (E6 (getline_comma_nonempty _ _ _ G7)), C6.
    destruct (getline_comma_extra _ extra _ _ G7) as [_ (rest' & E7)].
    rewrite E7, C7. reflexivity.
Qed.

End OracleRows.

Section OracleMoreExamples.

Import Oracle.

Lemma sort_sites_meets_contract : sort_sites_contract Concrete.sort_sites.
Proof.
  intros l. unfold Concrete.sort_sites. split; [apply merge_sort_Permutation|].
  assert (Htrans : Transitive (Concrete.not_after by_count)).
  { intros a b c. unfold Concrete.not_after, by_count. rewrite !Z.ltb_ge. lia. }
  assert (Htotal : Total (Concrete.not_after by_count)).
  { intros a b. unfold Concrete.not_after, by_count. rewrite !Z.ltb_ge. lia. }
  pose proof (StronglySorted_merge_sort (Concrete.not_after by_count) l) as Hs.
  induction Hs as [|a l' _ IH Ha]; constructor; [exact IH|].
  eapply Forall_impl; [exact Ha|].
  intros b. unfold Concrete.not_after, by_count. rewrite Z.ltb_ge. tauto.
Qed.

(** The statistics of [two_sites]: site 7 with two allocations comes before
    site 9 with one. *)
Lemma oracle_print_complete_witness :
  let s := stats_ (replay Concrete.malloc Concrete.free
                     (new_replayer false Concrete.two_sites [4096; 8192; 12288])) in
  sort_sites_contract Concrete.sort_sites /\
  (print Concrete.sort_sites s).2 = None /\
  List.filter is_site_line (print Concrete.sort_sites s).1 = [OutSite 7 2 24; OutSite 9 1 32].
Proof.
  intros s. split; [apply sort_sites_meets_contract|].
  destruct (oracle_print_complete Concrete.malloc Concrete.free Concrete.sort_sites
              false Concrete.two_sites [4096; 8192; 12288] sort_sites_meets_contract)
    as (lines & Hprint & _).
  fold s in Hprint. rewrite Hprint. split; [reflexivity|].
  assert (E : lines = (print Concrete.sort_sites s).1) by (rewrite Hprint; reflexivity).
  rewrite E. vm_compute. reflexivity.
Defined.

Lemma sorted_replay_lifetimes_witness :
  let s := stats_ (replay Concrete.malloc Concrete.free
                     (new_replayer false Concrete.two_sites [4096; 8192; 12288])) in
  StronglySorted timestamp_le Concrete.two_sites /\
  max_lifetime s = 5 /\
  0 <= max_lifetime s <= 15 - 10.
Proof.
  intros s.
  assert (Hs : StronglySorted timestamp_le Concrete.two_sites).
  { unfold Concrete.two_sites, timestamp_le.
    repeat (constructor; [|repeat (constructor; [simpl; lia|])]); constructor. }
  assert (Hb : Forall (fun e => 10 <= timestamp e <= 15) Concrete.two_sites).
  { unfold Concrete.two_sites. repeat (constructor; [simpl; lia|]). constructor. }
  split; [exact Hs|]. split; [reflexivity|].
  apply (sorted_replay_lifetimes Concrete.malloc Concrete.free false Concrete.two_sites
           [4096; 8192; 12288] 10 15 Hs Hb); lia.
Defined.

(** The three regions of [two_sites]: the first is released by the replay,
    the other two by the cleanup. *)
Lemma oracle_releases_every_region_witness :
  let r0 := new_replayer false Concrete.two_sites ([4096; 8192; 12288], []) in
  let r' := cleanup (logged_free Concrete.free)
              (replay (logged_malloc Concrete.malloc) (logged_free Concrete.free) r0) in
  allocations_fresh (logged_malloc Concrete.malloc) (logged_free Concrete.free)
    Concrete.two_sites (replay_start r0) /\
  times_freed 8192 (heap r').2 = 1 /\
  times_allocated 8192 (heap r').2 = 1 /\
  (heap r').2 = [Malloc 16 4096; Malloc 32 8192; Malloc 8 12288;
                 Free 4096; Free 8192; Free 12288].
Proof.
  intros r0 r'.
  assert (Hfresh : allocations_fresh (logged_malloc Concrete.malloc) (logged_free Concrete.free)
                     Concrete.two_sites (replay_start r0)).
  { vm_compute. repeat split; intros; try reflexivity; try discriminate. }
  split; [exact Hfresh|].
  pose proof (oracle_releases_every_region Concrete.malloc Concrete.free false
                Concrete.two_sites [4096; 8192; 12288] Hfresh 8192) as H.
  fold r0 r' in H. split; [reflexivity|]. split; [|reflexivity].
  rewrite <- H by discriminate. reflexivity.
Defined.

Lemma parse_event_fields_witness :
  parse_event "5,alloc,1,8,0,0,0" = Parsed (mkEvent 5 "alloc" 1 8 0 0 0) /\
  parse_event "5,alloc,1,8,0,0,0,extra,columns" = Parsed (mkEvent 5 "alloc" 1 8 0 0 0).
Proof.
  split; [reflexivity|].
  destruct (parse_event_fields "5,alloc,1,8,0,0,0" (mkEvent 5 "alloc" 1 8 0 0 0) eq_refl)
    as [_ H].
  exact (H "extra,columns"%string).
Defined.

End OracleMoreExamples.

(** ** The managers: what the statistics keep *)

Section ManagerStatistics.

Import AllocatorBackend Enhanced.

Context {B : Type} `{Backend B} `{Clock}.

(** A property of the statistics that the recording functions of the
    allocation path keep. *)
Section Closed.

Variable P : Statistics -> Prop.
Hypothesis P_allocation : forall size s, P s -> P (recordAllocation size s).
Hypothesis P_deallocation : forall size s, P s -> P (recordDeallocation size s).
Hypothesis P_gc : forall us s, P s -> P (recordGC us s).

Lemma closed_explicit_allocate size objectId isArray (m : @ExplicitMemoryManager B) :
  P (stats m) -> P (stats (explicit_allocate size objectId isArray m).2).
Proof.
  intros Hm. unfold explicit_allocate.
  destruct (allocate size (allocator m)) as [ptr a].
  destruct (ptr =? nullptr); cbn [snd stats]; auto.
Qed.

Lemma closed_explicit_deallocate objectId size (m : @ExplicitMemoryManager B) :
  P (stats m) -> P (stats (explicit_deallocate objectId size m)).
Proof.
  intros Hm. unfold explicit_deallocate.
  destruct (allocations m !! objectId); cbn [stats]; auto.
Qed.

Lemma closed_sweep_one (acc : @Sweep B) deadId :
  P (gc_stats acc.1.1) -> P (gc_stats (sweep_one acc deadId).1.1).
Proof.
  destruct acc as [[g fb] fo]. unfold sweep_one. cbn [fst].
  destruct (gc_allocations g !! deadId); cbn [fst gc_stats]; auto.
Qed.

Lemma closed_sweep ids : forall acc : @Sweep B,
  P (gc_stats acc.1.1) -> P (gc_stats (foldl sweep_one acc ids).1.1).
Proof.
  induction ids as [|id ids IH]; intros acc Hacc; simpl; [exact Hacc|].
  apply IH, closed_sweep_one, Hacc.
Qed.

Lemma closed_performGC (g : @GCSimulator B) :
  P (gc_stats g) -> P (gc_stats (performGC g)).
Proof.
  intros Hg. unfold performGC.
  pose proof (closed_sweep (elements (deadObjects g)) (g, 0, 0) Hg) as Hs.
  destruct (foldl sweep_one (g, 0, 0) (elements (deadObjects g))) as [[g' fb] fo].
  cbn [fst gc_stats] in *. auto.
Qed.

Lemma closed_finalGC (g : @GCSimulator B) :
  P (gc_stats g) -> P (gc_stats (finalGC g)).
Proof. intros Hg. unfold finalGC. apply closed_performGC. exact Hg. Qed.

Lemma closed_gc_track ptr size objectId (g : @GCSimulator B) :
  P (gc_stats g) -> P (gc_stats (gc_track ptr size objectId g).2).
Proof.
  intros Hg. unfold gc_track.
  assert (Hr : P (gc_stats (gc_record ptr size objectId g))) by (cbn [gc_record gc_stats]; auto).
  destruct (gc_due _); cbn [snd]; [apply closed_performGC, Hr|exact Hr].
Qed.

Lemma closed_gc_allocate size objectId isArray (g : @GCSimulator B) :
  P (gc_stats g) -> P (gc_stats (gc_allocate size objectId isArray g).2).
Proof.
  intros Hg. rewrite gc_allocate_unfold. cbv zeta.
  destruct (_ =? nullptr).
  - assert (H1 : P (gc_stats (performGC (gc_with_allocator
                                (allocate size (gc_allocator g)).2 g))))
      by (apply closed_performGC; exact Hg).
    destruct (_ =? nullptr); [exact H1|].
    apply closed_gc_track. exact H1.
  - apply closed_gc_track. exact Hg.
Qed.

End Closed.

Lemma wrap64_sub_sub a b c : wrap64 (wrap64 (a - b) - c) = wrap64 (a - wrap64 (b + c)).
Proof. rewrite wrap64_sub_l, wrap64_sub_r. f_equal. lia. Qed.

Lemma recordAllocation_balanced size s : balanced s -> balanced (recordAllocation size s).
Proof.
  unfold balanced. cbn [recordAllocation currentMemoryUsage totalBytesAllocated totalBytesFreed].
  intros ->. rewrite wrap64_add_l, wrap64_sub_l. f_equal. lia.
Qed.

Lemma recordDeallocation_balanced size s : balanced s -> balanced (recordDeallocation size s).
Proof.
  unfold balanced.
  cbn [recordDeallocation currentMemoryUsage totalBytesAllocated totalBytesFreed].
  intros ->. apply wrap64_sub_sub.
Qed.

Lemma recordGC_balanced us s : balanced s -> balanced (recordGC us s).
Proof. intros Hs. exact Hs. Qed.


(** *** The counters after a trace *)

(** What a line adds to the two counters of events. *)
Lemma explicit_line_events (line : TraceLine) (t : @TraceReplayer (@ExplicitMemoryManager B)) :
  let s := stats (memoryManager t) in
  let s' := stats (memoryManager (processTraceLine line t)) in
  fieldUpdates s' = (if is_update_line line then wrap64 (fieldUpdates s + 1) else fieldUpdates s) /\
  methodCalls s' = (if is_entry_line line then wrap64 (methodCalls s + 1) else methodCalls s) /\
  gcCollections s' = gcCollections s /\
  (balanced s -> balanced s').
Proof.
  intros s s'. subst s s'. rewrite process_line_manager.
  set (P := fun s0 : Statistics =>
              fieldUpdates s0 = fieldUpdates (stats (memoryManager t)) /\
              methodCalls s0 = methodCalls (stats (memoryManager t)) /\
              gcCollections s0 = gcCollections (stats (memoryManager t)) /\
              (balanced (stats (memoryManager t)) -> balanced s0)).
  assert (Pa : forall size s0, P s0 -> P (recordAllocation size s0)).
  { intros size s0 (H1 & H2 & H3 & H4). repeat split; auto.
    intros Hb. apply recordAllocation_balanced, H4, Hb. }
  assert (Pd : forall size s0, P s0 -> P (recordDeallocation size s0)).
  { intros size s0 (H1 & H2 & H3 & H4). repeat split; auto.
    intros Hb. apply recordDeallocation_balanced, H4, Hb. }
  assert (P0 : P (stats (memoryManager t))) by (repeat split; auto).
  destruct line; cbn [is_update_line is_entry_line sim_allocate sim_deallocate sim_updateField
                      sim_methodEntry sim_methodExit explicit_simulator].
  - repeat split; auto.
  - apply (closed_explicit_allocate P Pa). exact P0.
  - destruct (liveObjects t !! objectId); [|repeat split; auto].
    apply (closed_explicit_deallocate P Pd). exact P0.
  - repeat split; auto.
  - repeat split; auto.
  - repeat split; auto.
  - repeat split; auto.
Qed.

Lemma gc_line_events (line : TraceLine) (t : @TraceReplayer (@GCSimulator B)) :
  let s := gc_stats (memoryManager t) in
  let s' := gc_stats (memoryManager (processTraceLine line t)) in
  fieldUpdates s' = (if is_update_line line then wrap64 (fieldUpdates s + 1) else fieldUpdates s) /\
  methodCalls s' = (if is_entry_line line then wrap64 (methodCalls s + 1) else methodCalls s) /\
  (balanced s -> balanced s').
Proof.
  intros s s'. subst s s'. rewrite process_line_manager.
  set (P := fun s0 : Statistics =>
              fieldUpdates s0 = fieldUpdates (gc_stats (memoryManager t)) /\
              methodCalls s0 = methodCalls (gc_stats (memoryManager t)) /\
              (balanced (gc_stats (memoryManager t)) -> balanced s0)).
  assert (Pa : forall size s0, P s0 -> P (recordAllocation size s0)).
  { intros size s0 (H1 & H2 & H4). repeat split; auto.
    intros Hb. apply recordAllocation_balanced, H4, Hb. }
  assert (Pd : forall size s0, P s0 -> P (recordDeallocation size s0)).
  { intros size s0 (H1 & H2 & H4). repeat split; auto.
    intros Hb. apply recordDeallocation_balanced, H4, Hb. }
  assert (Pg : forall us s0, P s0 -> P (recordGC us s0)).
  { intros us s0 (H1 & H2 & H4). repeat split; auto. }
  assert (P0 : P (gc_stats (memoryManager t))) by (repeat split; auto).
  destruct line; cbn [is_update_line is_entry_line sim_allocate sim_deallocate sim_updateField
                      sim_methodEntry sim_methodExit gc_simulator].
  - repeat split; auto.
  - apply (closed_gc_allocate P Pa Pd Pg). exact P0.
  - destruct (liveObjects t !! objectId); repeat split; auto.
  - repeat split; auto.
  - repeat split; auto.
  - repeat split; auto.
  - repeat split; auto.
Qed.

Lemma filter_snoc_length {A} (f : A -> bool) l x :
  Z.of_nat (length (List.filter f (l ++ [x])))
  = Z.of_nat (length (List.filter f l)) + (if f x then 1 else 0).
Proof. rewrite List.filter_app, length_app. simpl. destruct (f x); simpl; lia. Qed.

Lemma lineNumber_line {M} `{MemorySimulator M} (line : TraceLine) (t : @TraceReplayer M) :
  lineNumber (processTraceLine line t) = wrap64 (lineNumber t + 1).
Proof.
  unfold processTraceLine.
  destruct line; try reflexivity;
    match goal with |- lineNumber (if ?c then driver_print ?o ?x else ?x) = _ =>
      transitivity (lineNumber x); [destruct c; reflexivity|]
    end.
  - unfold handleObjectAllocation; cbn [memoryManager];
      destruct (sim_allocate _ _ _ _); reflexivity.
  - unfold handleObjectDeath. cbn [liveObjects].
    destruct (liveObjects t !! objectId); reflexivity.
  - reflexivity.
  - reflexivity.
  - reflexivity.
  - cbn [verbose]. destruct (verbose t); reflexivity.
Qed.

(** After any trace, in explicit mode and in GC mode (also after the final
    collection): "Field Updates" is the number of 'U' lines and "Method
    Calls" the number of 'M' lines; the live bytes are the bytes allocated
    minus the bytes freed, so "Memory Leak" shows the "Current Memory
    Usage"; explicit mode counts no collection; and the driver has counted
    every line, blank lines and comments included (all in 64-bit
    arithmetic). *)
Theorem enhanced_counters (lines : list TraceLine) (b : B) (threshold allocThreshold : Z)
    (verbose : bool) :
  let te := replayTrace lines (new_replayer (new_explicit b) verbose) in
  let tg := replayTrace lines (new_replayer (new_gc b threshold allocThreshold) verbose) in
  let updates := Z.of_nat (length (List.filter is_update_line lines)) in
  let entries := Z.of_nat (length (List.filter is_entry_line lines)) in
  counted updates entries (stats (memoryManager te)) /\
  counted updates entries (gc_stats (memoryManager tg)) /\
  counted updates entries (gc_stats (finalGC (memoryManager tg))) /\
  gcCollections (stats (memoryManager te)) = 0 /\
  lineNumber te = wrap64 (Z.of_nat (length lines)) /\
  lineNumber tg = wrap64 (Z.of_nat (length lines)).
Proof.
  intros te tg updates entries. subst te tg updates entries.
  assert (Hfinal : forall u m (g : @GCSimulator B),
            counted u m (gc_stats g) -> counted u m (gc_stats (finalGC g))).
  { intros u m g Hg. apply (closed_finalGC (counted u m)).
    - intros size s (H1 & H2 & H3). repeat split; auto.
      apply recordDeallocation_balanced, H3.
    - intros us s Hs. exact Hs.
    - exact Hg. }
  cut (let te := replayTrace lines (new_replayer (new_explicit b) verbose) in
       let tg := replayTrace lines (new_replayer (new_gc b threshold allocThreshold) verbose) in
       counted (Z.of_nat (length (List.filter is_update_line lines)))
               (Z.of_nat (length (List.filter is_entry_line lines))) (stats (memoryManager te)) /\
       counted (Z.of_nat (length (List.filter is_update_line lines)))
               (Z.of_nat (length (List.filter is_entry_line lines)))
               (gc_stats (memoryManager tg)) /\
       gcCollections (stats (memoryManager te)) = 0 /\
       lineNumber te = wrap64 (Z.of_nat (length lines)) /\
       lineNumber tg = wrap64 (Z.of_nat (length lines))).
  { cbv zeta. intros (K1 & K2 & K3 & K4 & K5).
    split; [exact K1|]. split; [exact K2|]. split; [apply Hfinal, K2|].
    split; [exact K3|]. split; [exact K4|exact K5]. }
  clear Hfinal.
  induction lines as [|line lines IH] using rev_ind.
  - cbv zeta. repeat split; reflexivity.
  - cbv zeta in *. destruct IH as ((E1 & E2 & E3) & (G1 & G2 & G3) & IH2 & IH3 & IH4).
    rewrite !replayTrace_snoc, !filter_snoc_length, length_app. simpl length.
    set (te := replayTrace lines (new_replayer (new_explicit b) verbose)) in *.
    set (tg := replayTrace lines (new_replayer (new_gc b threshold allocThreshold) verbose)) in *.
    destruct (explicit_line_events line te) as (X1 & X2 & X3 & X4).
    destruct (gc_line_events line tg) as (Y1 & Y2 & Y4).
    split; [|split; [|split; [|split]]].
    + unfold counted. rewrite X1, X2, E1, E2. split; [|split; [|apply X4, E3]].
      * destruct (is_update_line line); [apply wrap64_add_l|f_equal; lia].
      * destruct (is_entry_line line); [apply wrap64_add_l|f_equal; lia].
    + unfold counted. rewrite Y1, Y2, G1, G2. split; [|split; [|apply Y4, G3]].
      * destruct (is_update_line line); [apply wrap64_add_l|f_equal; lia].
      * destruct (is_entry_line line); [apply wrap64_add_l|f_equal; lia].
    + rewrite X3. exact IH2.
    + rewrite lineNumber_line, IH3, wrap64_add_l. f_equal. lia.
    + rewrite lineNumber_line, IH4, wrap64_add_l. f_equal. lia.
Qed.

End ManagerStatistics.

(** ** The collector: what a sweep releases *)

Section SweepFacts.

Import AllocatorBackend Enhanced.

Context {B : Type} `{Backend B} `{Clock}.

Lemma sweep_one_tables (g : @GCSimulator B) (fb fo deadId : Z) :
  gc_allocations (sweep_one (g, fb, fo) deadId).1.1 = delete deadId (gc_allocations g) /\
  (forall id, id <> deadId ->
     gc_sizes (sweep_one (g, fb, fo) deadId).1.1 !! id = gc_sizes g !! id).
Proof.
  unfold sweep_one. destruct (gc_allocations g !! deadId) as [ptr|] eqn:E; cbn [fst gc_allocations gc_sizes].
  - split; [reflexivity|]. intros id Hne. apply lookup_delete_ne. congruence.
  - split; [|reflexivity]. symmetry. apply delete_id, E.
Qed.

Lemma sweep_tables ids : forall acc : @Sweep B,
  (forall id, gc_allocations (foldl sweep_one acc ids).1.1 !! id
              = if decide (id ∈ ids) then None else gc_allocations acc.1.1 !! id) /\
  (forall id, id ∉ ids -> gc_sizes (foldl sweep_one acc ids).1.1 !! id = gc_sizes acc.1.1 !! id).
Proof.
  induction ids as [|deadId ids IH]; intros acc.
  - split; [|reflexivity]. intros id. rewrite decide_False by apply not_elem_of_nil. reflexivity.
  - cbn [foldl]. destruct (IH (sweep_one acc deadId)) as [IH1 IH2].
    destruct acc as [[g fb] fo]. destruct (sweep_one_tables g fb fo deadId) as [H1 H2].
    split.
    + intros id. rewrite IH1, H1. cbn [fst].
      destruct (decide (id ∈ ids)) as [Hin|Hnin].
      * rewrite decide_True by (right; exact Hin). reflexivity.
      * destruct (decide (id = deadId)) as [->|Hne].
        -- rewrite decide_True by left. apply lookup_delete_eq.
        -- rewrite decide_False by (rewrite elem_of_cons; tauto).
           apply lookup_delete_ne. congruence.
    + intros id Hnin. rewrite elem_of_cons in Hnin.
      rewrite IH2 by tauto. apply H2. tauto.
Qed.

Lemma performGC_tables (g : @GCSimulator B) :
  (forall id, gc_allocations (performGC g) !! id
              = if decide (id ∈ deadObjects g) then None else gc_allocations g !! id) /\
  (forall id, id ∉ deadObjects g -> gc_sizes (performGC g) !! id = gc_sizes g !! id).
Proof.
  unfold performGC.
  destruct (sweep_tables (elements (deadObjects g)) (g, 0, 0)) as [H1 H2].
  destruct (foldl sweep_one (g, 0, 0) (elements (deadObjects g))) as [[g' fb] fo].
  cbn [fst gc_allocations gc_sizes] in *. split.
  - intros id. rewrite H1.
    destruct (decide (id ∈ deadObjects g)) as [Hin|Hnin].
    + rewrite decide_True by (apply elem_of_elements; exact Hin). reflexivity.
    + rewrite decide_False by (rewrite elem_of_elements; exact Hnin). reflexivity.
  - intros id Hnin. apply H2. rewrite elem_of_elements. exact Hnin.
Qed.

(** An allocation leaves the entries of every other id that is not marked
    dead as they are, in both tables, whether or not it collects. *)
Lemma gc_allocate_keeps_live
    (g : @GCSimulator B) (id size objectId : Z) (isArray : bool) :
  id ∉ deadObjects g -> id <> objectId ->
  gc_allocations (gc_allocate size objectId isArray g).2 !! id = gc_allocations g !! id /\
  gc_sizes (gc_allocate size objectId isArray g).2 !! id = gc_sizes g !! id.
Proof.
  intros Hid Hne. rewrite gc_allocate_unfold. cbv zeta.
  assert (Htrack : forall ptr (g' : @GCSimulator B),
            id ∉ deadObjects g' ->
            gc_allocations (gc_track ptr size objectId g').2 !! id = gc_allocations g' !! id /\
            gc_sizes (gc_track ptr size objectId g').2 !! id = gc_sizes g' !! id).
  { intros ptr g' Hd. unfold gc_track. destruct (gc_due _); cbn [snd].
    - destruct (performGC_tables (gc_record ptr size objectId g')) as [K1 K2].
      rewrite K1, K2 by exact Hd. cbn [gc_record deadObjects gc_allocations gc_sizes].
      rewrite decide_False by exact Hd.
      split; apply lookup_insert_ne; congruence.
    - cbn [gc_record gc_allocations gc_sizes].
      split; apply lookup_insert_ne; congruence. }
  destruct (_ =? nullptr).
  - destruct (performGC_clears (gc_with_allocator (allocate size (gc_allocator g)).2 g))
      as [Hclear _].
    destruct (performGC_tables (gc_with_allocator (allocate size (gc_allocator g)).2 g))
      as [K1 K2].
    assert (Hg1 : gc_allocations
                    (performGC (gc_with_allocator (allocate size (gc_allocator g)).2 g)) !! id
                  = gc_allocations g !! id).
    { rewrite K1. cbn [gc_with_allocator deadObjects gc_allocations].
      rewrite decide_False by exact Hid. reflexivity. }
    assert (Hs1 : gc_sizes
                    (performGC (gc_with_allocator (allocate size (gc_allocator g)).2 g)) !! id
                  = gc_sizes g !! id).
    { rewrite K2 by exact Hid. reflexivity. }
    destruct (_ =? nullptr); cbn [snd].
    + cbn [gc_print gc_with_allocator gc_allocations gc_sizes]. split; assumption.
    + destruct (Htrack
                  (allocate size
                     (gc_allocator
                        (performGC (gc_with_allocator (allocate size (gc_allocator g)).2 g)))).1
                  (gc_with_allocator
                     (allocate size
                        (gc_allocator
                           (performGC (gc_with_allocator (allocate size (gc_allocator g)).2 g)))).2
                     (performGC (gc_with_allocator (allocate size (gc_allocator g)).2 g))))
        as [E1 E2].
      { cbn [gc_with_allocator deadObjects]. rewrite Hclear. apply not_elem_of_empty. }
      rewrite E1, E2. cbn [gc_with_allocator gc_allocations gc_sizes]. split; assumption.
  - destruct (Htrack (allocate size (gc_allocator g)).1
                (gc_with_allocator (allocate size (gc_allocator g)).2 g) Hid) as [E1 E2].
    rewrite E1, E2. split; reflexivity.
Qed.

Lemma finalGC_tables (g : @GCSimulator B) :
  gc_allocations (finalGC g) = ∅ /\
  (forall id, gc_allocations g !! id = None -> id ∉ deadObjects g ->
     gc_sizes (finalGC g) !! id = gc_sizes g !! id).
Proof.
  unfold finalGC.
  match goal with |- context [performGC ?x] => set (g' := x) end.
  destruct (performGC_tables g') as [H1 H2]. split.
  - apply map_empty. intros id. rewrite H1.
    destruct (decide (id ∈ deadObjects g')) as [Hin|Hnin]; [reflexivity|].
    subst g'. cbn [deadObjects gc_print gc_allocations] in *.
    apply not_elem_of_dom. intros Hdom. apply Hnin. apply elem_of_union. left. exact Hdom.
  - intros id Hnone Hdead. rewrite H2; [reflexivity|].
    subst g'. cbn [deadObjects gc_print gc_allocations].
    rewrite elem_of_union. intros [Hdom|Hd]; [|tauto].
    apply elem_of_dom in Hdom. rewrite Hnone in Hdom. destruct Hdom as [x Hx]. discriminate.
Qed.

Lemma finalGC_clears_dead (g : @GCSimulator B) : deadObjects (finalGC g) = ∅.
Proof. unfold finalGC. apply performGC_clears. Qed.

End SweepFacts.

(** ** Replays that never allocate under a live id *)

Section GCFresh.

Import AllocatorBackend Enhanced.

Context {B : Type} `{Backend B} `{Clock}.

(** A property of the memory of a collector that is kept when the backend
    refuses a request, when a granted region is recorded under an id that
    is not in the table, and when the sweep releases an entry. *)
Variable Inv : @GCSimulator B -> Prop.

Hypothesis Inv_frame : forall g g', same_memory g g' -> Inv g -> Inv g'.
Hypothesis Inv_refused : forall size g,
  (allocate size (gc_allocator g)).1 = nullptr ->
  Inv g -> Inv (gc_with_allocator (allocate size (gc_allocator g)).2 g).
Hypothesis Inv_granted : forall size objectId g,
  (allocate size (gc_allocator g)).1 <> nullptr ->
  gc_allocations g !! objectId = None ->
  Inv g ->
  Inv (gc_record (allocate size (gc_allocator g)).1 size objectId
         (gc_with_allocator (allocate size (gc_allocator g)).2 g)).
Hypothesis Inv_sweep : forall g fb fo deadId ptr,
  gc_allocations g !! deadId = Some ptr ->
  Inv g -> Inv (sweep_one (g, fb, fo) deadId).1.1.

Lemma fresh_sweep ids : forall acc : @Sweep B,
  Inv acc.1.1 -> Inv (foldl sweep_one acc ids).1.1.
Proof.
  induction ids as [|deadId ids IH]; intros acc Hacc; [exact Hacc|].
  cbn [foldl]. apply IH. destruct acc as [[g fb] fo]. cbn [fst] in Hacc.
  destruct (gc_allocations g !! deadId) as [ptr|] eqn:E.
  - apply (Inv_sweep _ _ _ _ ptr E Hacc).
  - rewrite sweep_one_absent by exact E. exact Hacc.
Qed.

Lemma fresh_performGC (g : @GCSimulator B) : Inv g -> Inv (performGC g).
Proof.
  intros Hg. unfold performGC.
  pose proof (fresh_sweep (elements (deadObjects g)) (g, 0, 0) Hg) as Hs.
  destruct (foldl sweep_one (g, 0, 0) (elements (deadObjects g))) as [[g' fb] fo].
  cbn [fst] in Hs. revert Hs. apply Inv_frame. repeat split; reflexivity.
Qed.

Lemma fresh_finalGC (g : @GCSimulator B) : Inv g -> Inv (finalGC g).
Proof.
  intros Hg. unfold finalGC. apply fresh_performGC.
  revert Hg. apply Inv_frame. repeat split; reflexivity.
Qed.

Lemma fresh_gc_allocate size objectId isArray (g : @GCSimulator B) :
  gc_allocations g !! objectId = None ->
  Inv g -> Inv (gc_allocate size objectId isArray g).2.
Proof.
  intros Hfresh Hg. rewrite gc_allocate_unfold. cbv zeta.
  assert (Htail : forall g0 : @GCSimulator B,
            (allocate size (gc_allocator g0)).1 <> nullptr ->
            gc_allocations g0 !! objectId = None -> Inv g0 ->
            Inv (gc_track (allocate size (gc_allocator g0)).1 size objectId
                   (gc_with_allocator (allocate size (gc_allocator g0)).2 g0)).2).
  { intros g0 Hok Hf Hg0. unfold gc_track.
    pose proof (Inv_granted size objectId g0 Hok Hf Hg0) as Hrec.
    destruct (gc_due _); cbn [snd]; [apply fresh_performGC, Hrec|exact Hrec]. }
  destruct ((allocate size (gc_allocator g)).1 =? nullptr) eqn:E1.
  - apply Z.eqb_eq in E1. pose proof (Inv_refused size g E1 Hg) as H1.
    apply fresh_performGC in H1.
    set (g1 := performGC (gc_with_allocator (allocate size (gc_allocator g)).2 g)) in *.
    assert (Hf1 : gc_allocations g1 !! objectId = None).
    { subst g1. apply performGC_shrinks. exact Hfresh. }
    destruct ((allocate size (gc_allocator g1)).1 =? nullptr) eqn:E2.
    + apply Z.eqb_eq in E2. cbn [snd]. pose proof (Inv_refused size g1 E2 H1) as H2.
      revert H2. apply Inv_frame. repeat split; reflexivity.
    + apply Z.eqb_neq in E2. apply Htail; assumption.
  - apply Z.eqb_neq in E1. apply Htail; assumption.
Qed.

Lemma fresh_gc_line (line : TraceLine) (t : @TraceReplayer (@GCSimulator B)) :
  lines_fresh gc_allocations [line] t ->
  Inv (memoryManager t) -> Inv (memoryManager (processTraceLine line t)).
Proof.
  intros Hfresh Hg. rewrite process_line_manager.
  destruct line; cbn [sim_allocate sim_deallocate sim_updateField sim_methodEntry
                      sim_methodExit gc_simulator].
  - exact Hg.
  - destruct Hfresh as [[Hid _] _]. apply fresh_gc_allocate; assumption.
  - destruct (liveObjects t !! objectId); [|exact Hg].
    revert Hg. apply Inv_frame. repeat split; reflexivity.
  - revert Hg. apply Inv_frame. repeat split; reflexivity.
  - revert Hg. apply Inv_frame. repeat split; reflexivity.
  - exact Hg.
  - exact Hg.
Qed.

Lemma fresh_gc_trace lines : forall t : @TraceReplayer (@GCSimulator B),
  lines_fresh gc_allocations lines t ->
  Inv (memoryManager t) -> Inv (memoryManager (replayTrace lines t)).
Proof.
  induction lines as [|line lines IH]; intros t Hfresh Hg; [exact Hg|].
  change (replayTrace (line :: lines) t) with (replayTrace lines (processTraceLine line t)).
  destruct Hfresh as [Hnow Hlater].
  apply IH; [exact Hlater|]. apply fresh_gc_line; [|exact Hg].
  split; [exact Hnow|exact I].
Qed.

End GCFresh.

Section ExplicitFresh.

Import AllocatorBackend Enhanced.

Context {B : Type} `{Backend B}.

Variable Inv : @ExplicitMemoryManager B -> Prop.

Hypothesis Inv_events : forall m s,
  totalAllocations s = totalAllocations (stats m) ->
  totalDeallocations s = totalDeallocations (stats m) ->
  Inv m -> Inv (mkExplicit (allocations m) (sizes m) s (allocator m) (console m)).
Hypothesis Inv_allocate : forall size objectId isArray m,
  allocations m !! objectId = None ->
  Inv m -> Inv (explicit_allocate size objectId isArray m).2.
Hypothesis Inv_deallocate : forall objectId size m,
  Inv m -> Inv (explicit_deallocate objectId size m).

Lemma fresh_explicit_trace lines : forall t : @TraceReplayer (@ExplicitMemoryManager B),
  lines_fresh allocations lines t ->
  Inv (memoryManager t) -> Inv (memoryManager (replayTrace lines t)).
Proof.
  induction lines as [|line lines IH]; intros t Hfresh Hm; [exact Hm|].
  change (replayTrace (line :: lines) t) with (replayTrace lines (processTraceLine line t)).
  destruct Hfresh as [Hnow Hlater].
  apply IH; [exact Hlater|]. rewrite process_line_manager.
  destruct line; cbn [sim_allocate sim_deallocate sim_updateField sim_methodEntry
                      sim_methodExit explicit_simulator].
  - exact Hm.
  - destruct Hnow as [Hid _]. apply Inv_allocate; assumption.
  - destruct (liveObjects t !! objectId); [|exact Hm]. apply Inv_deallocate, Hm.
  - unfold explicit_updateField. apply Inv_events; [reflexivity|reflexivity|exact Hm].
  - unfold explicit_methodEntry. apply Inv_events; [reflexivity|reflexivity|exact Hm].
  - exact Hm.
  - exact Hm.
Qed.

End ExplicitFresh.

(** ** What a run leaves behind *)

Section Runs.

Import AllocatorBackend Enhanced.

Context {B : Type} `{Backend B} `{Clock}.

Lemma size_delete_present {A} (m : gmap Z A) k x :
  m !! k = Some x -> Z.of_nat (base.size (delete k m)) = Z.of_nat (base.size m) - 1.
Proof.
  intros Hk. rewrite map_size_delete, Hk.
  assert (base.size m <> 0)%nat.
  { intros E. apply map_size_empty_inv in E. rewrite E, lookup_empty in Hk. discriminate. }
  lia.
Qed.

Lemma size_insert_fresh {A} (m : gmap Z A) k x :
  m !! k = None -> Z.of_nat (base.size (<[k := x]> m)) = Z.of_nat (base.size m) + 1.
Proof. intros Hk. rewrite map_size_insert_None by exact Hk. lia. Qed.

(** *** The entries and the counters *)

Lemma entries_counted_record size objectId ptr (table : gmap Z Z) s :
  table !! objectId = None -> entries_counted table s ->
  entries_counted (<[objectId := ptr]> table) (recordAllocation size s).
Proof.
  unfold entries_counted. intros Hk Hs.
  cbn [recordAllocation totalAllocations totalDeallocations].
  rewrite Hs, wrap64_add_l, (size_insert_fresh _ _ _ Hk). f_equal. lia.
Qed.

Lemma entries_counted_release size objectId ptr (table : gmap Z Z) s :
  table !! objectId = Some ptr -> entries_counted table s ->
  entries_counted (delete objectId table) (recordDeallocation size s).
Proof.
  unfold entries_counted. intros Hk Hs.
  cbn [recordDeallocation totalAllocations totalDeallocations].
  rewrite Hs, wrap64_add_l, (size_delete_present _ _ _ Hk). f_equal. lia.
Qed.

Lemma gc_entries_counted lines (t : @TraceReplayer (@GCSimulator B)) :
  lines_fresh gc_allocations lines t ->
  entries_counted (gc_allocations (memoryManager t)) (gc_stats (memoryManager t)) ->
  let g := finalGC (memoryManager (replayTrace lines t)) in
  entries_counted (gc_allocations g) (gc_stats g).
Proof.
  intros Hfresh Hinit g. subst g.
  set (Inv := fun g : @GCSimulator B => entries_counted (gc_allocations g) (gc_stats g)).
  assert (Hframe : forall g g', same_memory g g' -> Inv g -> Inv g').
  { intros g g' (E1 & _ & _ & E4 & E5 & _). unfold Inv, entries_counted.
    rewrite E1, E4, E5. tauto. }
  assert (Hsweep : forall (g : @GCSimulator B) fb fo deadId ptr,
            gc_allocations g !! deadId = Some ptr -> Inv g -> Inv (sweep_one (g, fb, fo) deadId).1.1).
  { intros g fb fo deadId ptr Hk Hg. unfold Inv, sweep_one. rewrite Hk.
    cbn [fst gc_allocations gc_stats]. apply (entries_counted_release _ _ ptr); assumption. }
  apply (fresh_finalGC Inv Hframe Hsweep).
  apply (fresh_gc_trace Inv Hframe); try assumption.
  - intros size g _ Hg. exact Hg.
  - intros size objectId g _ Hk Hg. unfold Inv.
    cbn [gc_record gc_with_allocator gc_allocations gc_stats].
    apply entries_counted_record; assumption.
Qed.

(** *** Counters in range *)

Lemma closed_gc_replay (P : Statistics -> Prop) :
  (forall size s, P s -> P (recordAllocation size s)) ->
  (forall size s, P s -> P (recordDeallocation size s)) ->
  (forall us s, P s -> P (recordGC us s)) ->
  (forall s, P s -> P (countFieldUpdate s)) ->
  (forall s, P s -> P (countMethodCall s)) ->
  forall lines (t : @TraceReplayer (@GCSimulator B)),
    P (gc_stats (memoryManager t)) -> P (gc_stats (memoryManager (replayTrace lines t))).
Proof.
  intros Pa Pd Pg Pu Pm lines.
  induction lines as [|line lines IH]; intros t Ht; [exact Ht|].
  change (replayTrace (line :: lines) t) with (replayTrace lines (processTraceLine line t)).
  apply IH. rewrite process_line_manager.
  destruct line; cbn [sim_allocate sim_deallocate sim_updateField sim_methodEntry
                      sim_methodExit gc_simulator]; auto.
  - apply (closed_gc_allocate P Pa Pd Pg). exact Ht.
  - destruct (liveObjects t !! objectId); exact Ht.
  - apply Pu, Ht.
  - apply Pm, Ht.
Qed.

(** In GC mode, provided no allocation names an id that is still in the
    table of the collector: after the trace and the final collection the
    tables are empty, no byte is live, as many bytes were freed as were
    allocated and as many objects deallocated as allocated; "Memory Leak"
    shows 0. *)
Theorem gc_run_ends_empty (lines : list TraceLine) (b : B) (threshold allocThreshold : Z)
    (verbose : bool) :
  let t := new_replayer (new_gc b threshold allocThreshold) verbose in
  let g := finalGC (memoryManager (replayTrace lines t)) in
  lines_fresh gc_allocations lines t ->
  gc_allocations g = ∅ /\ gc_sizes g = ∅ /\ deadObjects g = ∅ /\
  currentMemoryUsage (gc_stats g) = 0 /\
  totalBytesFreed (gc_stats g) = totalBytesAllocated (gc_stats g) /\
  totalDeallocations (gc_stats g) = totalAllocations (gc_stats g).
Proof.
  intros t g Hfresh.
  destruct (finalGC_tables (memoryManager (replayTrace lines t))) as [Htable _].
  fold g in Htable.
  (* the byte counters agree with the tables *)
  assert (Hcons : gc_consistent g).
  { subst g.
    assert (Hframe : forall g g' : @GCSimulator B,
              same_memory g g' -> gc_consistent g -> gc_consistent g').
    { intros g g' (E1 & E2 & _ & _ & _ & _ & _ & E8 & E9).
      unfold gc_consistent, tables_consistent. rewrite E1, E2, E8, E9. tauto. }
    apply (fresh_finalGC gc_consistent Hframe).
    - intros g0 fb fo deadId ptr _ Hg0.
      apply (sweep_one_consistent (g0, fb, fo) deadId Hg0).
    - destruct (gc_prefix_bytes lines t (new_gc_consistent b threshold allocThreshold)
                  eq_refl Hfresh (length lines) (Nat.le_refl _)) as [Hc _].
      rewrite firstn_all in Hc. exact Hc. }
  destruct Hcons as (Hcur & Hkeys & _ & _).
  assert (Hsizes : gc_sizes g = ∅).
  { apply map_empty. intros id. apply Hkeys. rewrite Htable. apply lookup_empty. }
  rewrite Hsizes, sum_of_empty in Hcur.
  (* the counters are 64-bit values, and they balance *)
  set (P := fun s : Statistics =>
              (0 <= totalBytesAllocated s < 2 ^ 64 /\ 0 <= totalBytesFreed s < 2 ^ 64 /\
               0 <= totalDeallocations s < 2 ^ 64) /\ balanced s).
  assert (HP : P (gc_stats g)).
  { subst g. apply (closed_finalGC P).
    - intros size s ((R1 & R2 & R3) & Hb).
      split; [|apply recordDeallocation_balanced, Hb].
      cbn [recordDeallocation totalBytesAllocated totalBytesFreed totalDeallocations].
      repeat split; try apply wrap64_range; tauto.
    - intros us s Hs. exact Hs.
    - apply (closed_gc_replay P); try (intros; assumption).
      + intros size s ((R1 & R2 & R3) & Hb).
        split; [|apply recordAllocation_balanced, Hb].
        cbn [recordAllocation totalBytesAllocated totalBytesFreed totalDeallocations].
        repeat split; try apply wrap64_range; tauto.
      + intros size s ((R1 & R2 & R3) & Hb).
        split; [|apply recordDeallocation_balanced, Hb].
        cbn [recordDeallocation totalBytesAllocated totalBytesFreed totalDeallocations].
        repeat split; try apply wrap64_range; tauto.
      + split; [cbn; lia|reflexivity]. }
  destruct HP as ((R1 & R2 & R3) & Hb).
  pose proof (gc_entries_counted lines t Hfresh) as Hn. fold g in Hn.
  assert (Hentries : entries_counted (gc_allocations g) (gc_stats g)).
  { apply Hn. unfold entries_counted. reflexivity. }
  unfold entries_counted in Hentries. rewrite Htable, map_size_empty in Hentries.
  pose proof (finalGC_clears_dead (memoryManager (replayTrace lines t))) as Hdead.
  fold g in Hdead.
  split; [exact Htable|]. split; [exact Hsizes|]. split; [exact Hdead|].
  split; [exact Hcur|]. split.
  - unfold balanced in Hb. rewrite Hcur in Hb. unfold wrap64 in Hb.
    symmetry in Hb. apply Z.mod_divide in Hb; [|lia]. destruct Hb as [k Hk].
    assert (k = 0) by nia. lia.
  - rewrite Hentries. change (Z.of_nat 0) with 0. rewrite Z.add_0_r.
    symmetry. unfold wrap64. apply Z.mod_small. lia.
Qed.


(** *** The calls on the backend *)

Lemma table_count_insert q k p (table : gmap Z Z) :
  table !! k = None ->
  table_count q (<[k := p]> table) = (if p =? q then 1 else 0) + table_count q table.
Proof. intros Hk. unfold table_count. apply sum_of_insert, Hk. Qed.

Lemma table_count_delete q k p (table : gmap Z Z) :
  table !! k = Some p ->
  table_count q (delete k table) = table_count q table - (if p =? q then 1 else 0).
Proof.
  intros Hk. unfold table_count.
  apply (sum_of_delete (fun p => if p =? q then 1 else 0) table k p Hk).
Qed.

Lemma times_granted_snoc q calls c :
  times_granted q (calls ++ [c]) = times_granted q calls + (if grants q c then 1 else 0).
Proof.
  unfold times_granted. rewrite List.filter_app, length_app. simpl.
  destruct (grants q c); simpl; lia.
Qed.

Lemma times_returned_snoc q calls c :
  times_returned q (calls ++ [c]) = times_returned q calls + (if takes_back q c then 1 else 0).
Proof.
  unfold times_returned. rewrite List.filter_app, length_app. simpl.
  destruct (takes_back q c); simpl; lia.
Qed.

Lemma accounted_refused (table : gmap Z Z) calls size :
  backend_accounted table calls ->
  backend_accounted table (calls ++ [CallAllocate size nullptr]).
Proof.
  intros [Hnull Hacc]. split; [exact Hnull|]. intros q Hq.
  rewrite times_granted_snoc, times_returned_snoc. cbn [grants takes_back].
  destruct (nullptr =? q) eqn:E; [apply Z.eqb_eq in E; congruence|].
  pose proof (Hacc q Hq). lia.
Qed.

Lemma accounted_granted (table : gmap Z Z) calls size k p :
  p <> nullptr -> table !! k = None ->
  backend_accounted table calls ->
  backend_accounted (<[k := p]> table) (calls ++ [CallAllocate size p]).
Proof.
  intros Hp Hk [Hnull Hacc]. split.
  - intros k' p'. destruct (decide (k' = k)) as [->|Hne].
    + rewrite lookup_insert_eq. intros [= <-]. exact Hp.
    + rewrite lookup_insert_ne by congruence. apply Hnull.
  - intros q Hq. rewrite times_granted_snoc, times_returned_snoc, (table_count_insert _ _ _ _ Hk).
    cbn [grants takes_back]. rewrite <- (Hacc q Hq). lia.
Qed.

Lemma accounted_released (table : gmap Z Z) calls k p :
  table !! k = Some p ->
  backend_accounted table calls ->
  backend_accounted (delete k table) (calls ++ [CallDeallocate p]).
Proof.
  intros Hk [Hnull Hacc]. split.
  - intros k' p' Hl. apply lookup_delete_Some in Hl. apply (Hnull k' p'), Hl.
  - intros q Hq. rewrite times_granted_snoc, times_returned_snoc, (table_count_delete _ _ _ _ Hk).
    cbn [grants takes_back]. rewrite <- (Hacc q Hq). lia.
Qed.

Lemma recording_allocate size (a : B * list Call) :
  allocate size a
  = ((allocate size a.1).1, ((allocate size a.1).2, a.2 ++ [CallAllocate size (allocate size a.1).1])).
Proof. destruct a as [b calls]. cbn. destruct (allocate size b). reflexivity. Qed.

Lemma recording_deallocate ptr (a : B * list Call) :
  deallocate ptr a = (deallocate ptr a.1, a.2 ++ [CallDeallocate ptr]).
Proof. destruct a as [b calls]. reflexivity. Qed.

(** Giving back the entries of a table, one call each. *)
Lemma accounted_destroy (items : list (Z * Z)) : forall (a : B * list Call) q,
  times_granted q (foldl (fun a pair => deallocate pair.2 a) a items).2
  = times_granted q a.2 /\
  times_returned q (foldl (fun a pair => deallocate pair.2 a) a items).2
  = times_returned q a.2
    + foldr (fun pair n => (if pair.2 =? q then 1 else 0) + n) 0 items.
Proof.
  induction items as [|[k p] items IH]; intros a q; cbn [foldl foldr].
  - split; [reflexivity|lia].
  - change ((k, p).2) with p.
    destruct (IH (deallocate p a) q) as [IHg IHr]. rewrite IHg, IHr.
    rewrite recording_deallocate. cbn [snd].
    rewrite times_granted_snoc, times_returned_snoc. cbn [grants takes_back]. split; lia.
Qed.

Lemma table_count_items q (table : gmap Z Z) :
  table_count q table
  = foldr (fun pair n => (if pair.2 =? q then 1 else 0) + n) 0 (map_to_list table).
Proof.
  unfold table_count, sum_of. rewrite map_fold_foldr.
  induction (map_to_list table) as [|[k p] l IH]; cbn [foldr uncurry]; [reflexivity|].
  cbn. rewrite IH. reflexivity.
Qed.

(** In GC mode over a backend whose calls are recorded, provided no
    allocation names an id that is still in the table of the collector:
    when the collector has been destroyed, every address other than null
    was given back to the backend as often as the backend granted it. *)
Theorem gc_run_returns_every_region (lines : list TraceLine) (b : B)
    (threshold allocThreshold : Z) (verbose : bool) (q : Z) :
  lines_fresh gc_allocations lines
    (new_replayer (new_gc (b, []) threshold allocThreshold) verbose) ->
  q <> nullptr ->
  times_returned q (run_gc lines (b, []) threshold allocThreshold verbose).2
  = times_granted q (run_gc lines (b, []) threshold allocThreshold verbose).2.
Proof.
  intros Hfresh Hq. unfold run_gc, gc_destroy.
  set (t := new_replayer (new_gc (b, []) threshold allocThreshold) verbose) in *.
  set (g := finalGC (memoryManager (replayTrace lines t))).
  set (Inv := fun g : @GCSimulator (B * list Call) =>
                backend_accounted (gc_allocations g) (gc_allocator g).2).
  assert (Hg : Inv g).
  { subst g.
    assert (Hframe : forall g g', same_memory g g' -> Inv g -> Inv g').
    { intros g g' (E1 & _ & E3 & _). unfold Inv. rewrite E1, E3. tauto. }
    apply (fresh_finalGC Inv Hframe).
    - intros g fb fo deadId ptr Hk Hg. unfold Inv, sweep_one. rewrite Hk.
      cbn [fst gc_allocations gc_allocator]. rewrite recording_deallocate. cbn [snd].
      apply accounted_released; assumption.
    - apply (fresh_gc_trace Inv Hframe); try assumption.
      + intros size g E Hg. unfold Inv. cbn [gc_with_allocator gc_allocations gc_allocator].
        rewrite recording_allocate in E |- *. cbn [fst snd] in E |- *. rewrite E.
        apply accounted_refused, Hg.
      + intros size objectId g E Hk Hg. unfold Inv.
        cbn [gc_record gc_with_allocator gc_allocations gc_allocator].
        rewrite recording_allocate in E |- *. cbn [fst snd] in E |- *.
        apply accounted_granted; assumption.
      + intros fg fb fo deadId ptr Hk Hg. unfold Inv, sweep_one. rewrite Hk.
        cbn [fst gc_allocations gc_allocator]. rewrite recording_deallocate. cbn [snd].
        apply accounted_released; assumption.
      + split; [intros k p; cbn; rewrite lookup_empty; discriminate|].
        intros q0 _. reflexivity. }
  destruct (finalGC_tables (memoryManager (replayTrace lines t))) as [Htable _].
  fold g in Htable. rewrite Htable, map_to_list_empty. cbn [foldl].
  destruct Hg as [_ Hacc]. rewrite <- (Hacc q Hq), Htable.
  unfold table_count. rewrite sum_of_empty. lia.
Qed.

(** In explicit mode over a backend whose calls are recorded, provided no
    allocation names an id that is still in the table of the manager: when
    the manager has been destroyed, every address other than null was given
    back to the backend as often as the backend granted it, whether the
    trace freed the object or not. *)
Theorem explicit_run_returns_every_region (lines : list TraceLine) (b : B)
    (verbose : bool) (q : Z) :
  lines_fresh allocations lines (new_replayer (new_explicit (b, [])) verbose) ->
  q <> nullptr ->
  times_returned q (run_explicit lines (b, []) verbose).2
  = times_granted q (run_explicit lines (b, []) verbose).2.
Proof.
  intros Hfresh Hq. unfold run_explicit, explicit_destroy.
  set (t := new_replayer (new_explicit (b, [])) verbose) in *.
  set (m := memoryManager (replayTrace lines t)).
  set (Inv := fun m : @ExplicitMemoryManager (B * list Call) =>
                backend_accounted (allocations m) (allocator m).2).
  assert (Hm : Inv m).
  { subst m. apply (fresh_explicit_trace Inv); try assumption.
    - intros m0 s _ _ Hm0. exact Hm0.
    - intros size objectId isArray m0 Hk Hm0. unfold Inv, explicit_allocate.
      rewrite recording_allocate.
      destruct ((allocate size (allocator m0).1).1 =? nullptr) eqn:E;
        cbn [snd allocations allocator].
      + apply Z.eqb_eq in E. rewrite E. apply accounted_refused, Hm0.
      + apply Z.eqb_neq in E. apply accounted_granted; assumption.
    - intros objectId size m0 Hm0. unfold Inv, explicit_deallocate.
      destruct (allocations m0 !! objectId) as [ptr|] eqn:Hk; [|exact Hm0].
      cbn [allocations allocator]. rewrite recording_deallocate. cbn [snd].
      apply accounted_released; assumption.
    - split; [intros k p; cbn; rewrite lookup_empty; discriminate|].
      intros q0 _. reflexivity. }
  destruct Hm as [_ Hacc].
  destruct (accounted_destroy (map_to_list (allocations m)) (allocator m) q) as [Eg Er].
  rewrite Eg, Er, <- table_count_items. apply Hacc, Hq.
Qed.

End Runs.

(** ** What a sweep releases *)

Section SweepSizes.

Import AllocatorBackend Enhanced.

Context {B : Type} `{Backend B} `{Clock}.

(** The sizes after a sweep, id by id. *)
Lemma sweep_sizes ids : forall (acc : @Sweep B) k,
  gc_sizes (foldl sweep_one acc ids).1.1 !! k
  = if decide (k ∈ ids)
    then match gc_allocations acc.1.1 !! k with
         | Some _ => None
         | None => gc_sizes acc.1.1 !! k
         end
    else gc_sizes acc.1.1 !! k.
Proof.
  induction ids as [|d ids IH]; intros acc k.
  - rewrite decide_False by apply not_elem_of_nil. reflexivity.
  - cbn [foldl]. rewrite IH. destruct acc as [[g fb] fo]. cbn [fst].
    destruct (decide (k = d)) as [->|Hne].
    + rewrite (decide_True (P := d ∈ d :: ids)) by left.
      unfold sweep_one. destruct (gc_allocations g !! d) as [ptr|] eqn:Hk;
        cbn [fst gc_allocations gc_sizes].
      * rewrite !lookup_delete_eq. destruct (decide (d ∈ ids)); reflexivity.
      * rewrite Hk. destruct (decide (d ∈ ids)); reflexivity.
    + assert (Hin : k ∈ d :: ids <-> k ∈ ids) by (rewrite elem_of_cons; tauto).
      assert (Ht : gc_allocations (sweep_one (g, fb, fo) d).1.1 !! k = gc_allocations g !! k).
      { destruct (sweep_one_tables g fb fo d) as [-> _]. apply lookup_delete_ne. congruence. }
      assert (Hz : gc_sizes (sweep_one (g, fb, fo) d).1.1 !! k = gc_sizes g !! k).
      { destruct (sweep_one_tables g fb fo d) as [_ Hs]. apply Hs. exact Hne. }
      rewrite Ht, Hz.
      destruct (decide (k ∈ ids)) as [Hi|Hi].
      * rewrite decide_True by (apply Hin; exact Hi). reflexivity.
      * rewrite decide_False by (rewrite Hin; exact Hi). reflexivity.
Qed.

End SweepSizes.

Section SweepEffect.

Import AllocatorBackend Enhanced.

Context {B : Type} `{Backend B} `{Clock}.

Lemma held_bytes_delete (table sizes : gmap Z Z) d p :
  table !! d = Some p ->
  held_bytes (delete d table) (delete d sizes)
  = held_bytes table sizes - default 0 (sizes !! d).
Proof.
  intros Hd. unfold held_bytes.
  assert (E : map_imap (fun id (_ : Z) => Some (default 0 (delete d sizes !! id)))
                (delete d table)
              = delete d (map_imap (fun id (_ : Z) => Some (default 0 (sizes !! id))) table)).
  { apply map_eq. intros k. rewrite map_lookup_imap.
    destruct (decide (k = d)) as [->|Hne].
    - rewrite !lookup_delete_eq. reflexivity.
    - rewrite !lookup_delete_ne by congruence. rewrite map_lookup_imap.
      destruct (table !! k); reflexivity. }
  rewrite E. rewrite (sum_of_delete id _ d (default 0 (sizes !! d))); [reflexivity|].
  rewrite map_lookup_imap, Hd. reflexivity.
Qed.

Lemma held_bytes_empty (sizes : gmap Z Z) : held_bytes ∅ sizes = 0.
Proof. unfold held_bytes. rewrite map_imap_empty. apply sum_of_empty. Qed.

Lemma in_range_recordDeallocation size s :
  in_range s -> in_range (recordDeallocation size s).
Proof.
  unfold in_range, counters. intros Hs.
  repeat match goal with H : Forall _ (_ :: _) |- _ =>
    apply Forall_cons in H; destruct H as [? H] end.
  cbn [recordDeallocation totalAllocations totalDeallocations totalBytesAllocated
       totalBytesFreed peakMemoryUsage currentMemoryUsage gcCollections totalGCTime
       fieldUpdates methodCalls].
  repeat (apply Forall_cons; split; [first [assumption | apply wrap64_range]|]).
  apply Forall_nil. exact I.
Qed.

Lemma in_range_recordGC us s : in_range s -> in_range (recordGC us s).
Proof.
  unfold in_range, counters. intros Hs.
  repeat match goal with H : Forall _ (_ :: _) |- _ =>
    apply Forall_cons in H; destruct H as [? H] end.
  cbn [recordGC totalAllocations totalDeallocations totalBytesAllocated
       totalBytesFreed peakMemoryUsage currentMemoryUsage gcCollections totalGCTime
       fieldUpdates methodCalls].
  repeat (apply Forall_cons; split; [first [assumption | apply wrap64_range]|]).
  apply Forall_nil. exact I.
Qed.

Lemma swept_from_start (g : @GCSimulator (B * list Call)) : swept_from g g 0 0.
Proof.
  unfold swept_from. cbv zeta. rewrite !Z.sub_diag, !Z.add_0_r, Z.sub_0_r.
  split; [exists []; reflexivity|].
  repeat split; try reflexivity. tauto.
Qed.

Lemma swept_from_step (g0 g : @GCSimulator (B * list Call)) fb fo deadId :
  swept_from g0 g fb fo ->
  swept_from g0 (sweep_one (g, fb, fo) deadId).1.1
             (sweep_one (g, fb, fo) deadId).1.2 (sweep_one (g, fb, fo) deadId).2.
Proof.
  intros Hs. destruct (gc_allocations g !! deadId) as [ptr|] eqn:Hk.
  - unfold sweep_one. rewrite Hk. cbn [fst snd].
    destruct Hs as ([regions Hvia] & Hq & Hd & Hf & Hc & Ha & Hba & Hp & Hgc & Ht & Hu & Hm
                    & Hr & Hfb & Hfo).
    unfold swept_from.
    cbn [gc_allocations gc_sizes gc_stats gc_allocator recordDeallocation totalAllocations
         totalDeallocations totalBytesAllocated totalBytesFreed peakMemoryUsage
         currentMemoryUsage gcCollections totalGCTime fieldUpdates methodCalls].
    rewrite (size_delete_present _ _ _ Hk), (held_bytes_delete _ _ _ _ Hk).
    split; [exists (regions ++ [ptr]); rewrite foldl_app, <- Hvia; reflexivity|].
    rewrite recording_deallocate. cbn [snd].
    split; [|split; [|split; [|split]]].
    + intros q. destruct (Hq q) as [Hg Hrt].
      rewrite times_granted_snoc, times_returned_snoc, (table_count_delete _ _ _ _ Hk).
      cbn [grants takes_back]. split; lia.
    + rewrite wrap64_idem. rewrite <- (wrap64_add_l (totalDeallocations (gc_stats g))), Hd.
      rewrite wrap64_add_l. f_equal. lia.
    + rewrite wrap64_idem. rewrite <- (wrap64_add_l (totalBytesFreed (gc_stats g))), Hf.
      rewrite wrap64_add_l. f_equal. lia.
    + rewrite wrap64_idem. rewrite <- (wrap64_sub_l (currentMemoryUsage (gc_stats g))), Hc.
      rewrite wrap64_sub_l. f_equal. lia.
    + repeat split; try assumption.
      * intros H0r. apply in_range_recordDeallocation, Hr, H0r.
      * rewrite Hfb, wrap64_add_l. f_equal. lia.
      * rewrite Hfo, wrap64_add_l. f_equal. lia.
  - rewrite sweep_one_absent by exact Hk. exact Hs.
Qed.

Lemma swept_from_sweep ids : forall (g0 g : @GCSimulator (B * list Call)) fb fo,
  swept_from g0 g fb fo ->
  swept_from g0 (foldl sweep_one (g, fb, fo) ids).1.1
             (foldl sweep_one (g, fb, fo) ids).1.2 (foldl sweep_one (g, fb, fo) ids).2.
Proof.
  induction ids as [|deadId ids IH]; intros g0 g fb fo Hs; [exact Hs|].
  cbn [foldl]. pose proof (swept_from_step g0 g fb fo deadId Hs) as Hstep.
  destruct (sweep_one (g, fb, fo) deadId) as [[g1 fb1] fo1]. apply IH. exact Hstep.
Qed.

(** [performGC], component by component. *)
Lemma performGC_effect (g : @GCSimulator (B * list Call)) :
  exists (g' : @GCSimulator (B * list Call)) fb fo,
    swept_from g g' fb fo /\
    (forall k, gc_sizes g' !! k
               = if decide (k ∈ deadObjects g)
                 then match gc_allocations g !! k with
                      | Some _ => None
                      | None => gc_sizes g !! k
                      end
                 else gc_sizes g !! k) /\
    performGC g
    = mkGC (gc_allocations g') (gc_sizes g') ∅ (gcThreshold g) 0 (allocationThreshold g)
           (recordGC (wrap64 (gcDuration (gcCollections (gc_stats g)))) (gc_stats g'))
           (gc_allocator g')
           (gc_console g ++ [OutGC fo fb (gcDuration (gcCollections (gc_stats g)))]).
Proof.
  pose proof (swept_from_sweep (elements (deadObjects g)) g g 0 0 (swept_from_start g)) as Hs.
  pose proof (sweep_sizes (elements (deadObjects g)) (g, 0, 0)) as Hz.
  pose proof (sweep_frame (elements (deadObjects g)) (g, 0, 0)) as Hf.
  unfold performGC.
  destruct (foldl sweep_one (g, 0, 0) (elements (deadObjects g))) as [[g' fb] fo].
  cbn [fst snd] in Hs, Hz, Hf. destruct Hf as (_ & F2 & _ & F4 & F5 & _).
  exists g', fb, fo. split; [exact Hs|]. split.
  - intros k. rewrite Hz.
    destruct (decide (k ∈ deadObjects g)) as [Hin|Hnin].
    + rewrite decide_True by (apply elem_of_elements; exact Hin). reflexivity.
    + rewrite decide_False by (rewrite elem_of_elements; exact Hnin). reflexivity.
  - rewrite F2, F4, F5. reflexivity.
Qed.


Lemma in_range_bounds s :
  in_range s ->
  0 <= totalDeallocations s < 2 ^ 64 /\ 0 <= totalBytesFreed s < 2 ^ 64 /\
  0 <= currentMemoryUsage s < 2 ^ 64.
Proof.
  unfold in_range, counters. intros Hs.
  repeat match goal with H : Forall _ (_ :: _) |- _ =>
    apply Forall_cons in H; destruct H as [? H] end.
  repeat split; lia.
Qed.

(** What a collection releases, on a backend whose calls are recorded. *)
Lemma performGC_released (g : @GCSimulator (B * list Call)) :
  let objects := Z.of_nat (base.size (gc_allocations g))
                 - Z.of_nat (base.size (gc_allocations (performGC g))) in
  let bytes := held_bytes (gc_allocations g) (gc_sizes g)
               - held_bytes (gc_allocations (performGC g)) (gc_sizes (performGC g)) in
  (forall k, gc_sizes (performGC g) !! k
             = if decide (k ∈ deadObjects g)
               then match gc_allocations g !! k with
                    | Some _ => None
                    | None => gc_sizes g !! k
                    end
               else gc_sizes g !! k) /\
  (exists regions : list Z,
     gc_allocator (performGC g)
     = foldl (fun a ptr => deallocate ptr a) (gc_allocator g) regions) /\
  (forall q,
     times_granted q (gc_allocator (performGC g)).2 = times_granted q (gc_allocator g).2 /\
     times_returned q (gc_allocator (performGC g)).2
       + table_count q (gc_allocations (performGC g))
     = times_returned q (gc_allocator g).2 + table_count q (gc_allocations g)) /\
  gc_console (performGC g)
  = gc_console g
    ++ [OutGC (wrap64 objects) (wrap64 bytes) (gcDuration (gcCollections (gc_stats g)))] /\
  totalAllocations (gc_stats (performGC g)) = totalAllocations (gc_stats g) /\
  totalBytesAllocated (gc_stats (performGC g)) = totalBytesAllocated (gc_stats g) /\
  peakMemoryUsage (gc_stats (performGC g)) = peakMemoryUsage (gc_stats g) /\
  (in_range (gc_stats g) ->
   totalDeallocations (gc_stats (performGC g))
   = wrap64 (totalDeallocations (gc_stats g) + objects) /\
   totalBytesFreed (gc_stats (performGC g)) = wrap64 (totalBytesFreed (gc_stats g) + bytes) /\
   currentMemoryUsage (gc_stats (performGC g))
   = wrap64 (currentMemoryUsage (gc_stats g) - bytes)).
Proof.
  destruct (performGC_effect g) as (g' & fb & fo & Hs & Hz & ->).
  cbn [gc_allocations gc_sizes gc_allocator gc_console gc_stats recordGC totalAllocations
       totalDeallocations totalBytesAllocated totalBytesFreed peakMemoryUsage
       currentMemoryUsage].
  destruct Hs as (Hvia & Hq & Hd & Hf & Hc & Ha & Hba & Hp & _ & _ & _ & _ & Hr & Hfb & Hfo).
  cbv zeta. split; [exact Hz|]. split; [exact Hvia|]. split; [exact Hq|].
  split; [rewrite Hfb, Hfo; reflexivity|].
  split; [exact Ha|]. split; [exact Hba|]. split; [exact Hp|].
  intros Hin. destruct (in_range_bounds _ (Hr Hin)) as (B1 & B2 & B3).
  rewrite <- Hd, <- Hf, <- Hc, !wrap64_small by assumption. repeat split; reflexivity.
Qed.

(** A collection releases the objects that are marked dead and no other.
    On a backend whose calls are recorded, [performGC] takes out of both
    tables the ids that are marked dead and in the table of allocations, and
    leaves every other entry of either table; the backend is reached
    through [deallocate] only, once for each region that left the table; the
    counters of deallocations, of bytes freed and of bytes in use move by
    the objects and bytes that left, the line printed shows them.  An id
    that is not marked dead keeps its address and its size through an
    allocation under another id, whether or not the allocation collects;
    [deallocate] itself only marks. *)
Theorem gc_releases_only_dead_objects
    (g : @GCSimulator (B * list Call)) (size objectId : Z) (isArray : bool) :
  let objects := Z.of_nat (base.size (gc_allocations g))
                 - Z.of_nat (base.size (gc_allocations (performGC g))) in
  let bytes := held_bytes (gc_allocations g) (gc_sizes g)
               - held_bytes (gc_allocations (performGC g)) (gc_sizes (performGC g)) in
  (forall k, gc_allocations (performGC g) !! k
             = if decide (k ∈ deadObjects g) then None else gc_allocations g !! k) /\
  (forall k, gc_sizes (performGC g) !! k
             = if decide (k ∈ deadObjects g)
               then match gc_allocations g !! k with
                    | Some _ => None
                    | None => gc_sizes g !! k
                    end
               else gc_sizes g !! k) /\
  (exists regions : list Z,
     gc_allocator (performGC g)
     = foldl (fun a ptr => deallocate ptr a) (gc_allocator g) regions) /\
  (forall q,
     times_granted q (gc_allocator (performGC g)).2 = times_granted q (gc_allocator g).2 /\
     times_returned q (gc_allocator (performGC g)).2
     = times_returned q (gc_allocator g).2
       + (table_count q (gc_allocations g) - table_count q (gc_allocations (performGC g)))) /\
  (in_range (gc_stats g) ->
   totalDeallocations (gc_stats (performGC g))
   = wrap64 (totalDeallocations (gc_stats g) + objects) /\
   totalBytesFreed (gc_stats (performGC g)) = wrap64 (totalBytesFreed (gc_stats g) + bytes) /\
   currentMemoryUsage (gc_stats (performGC g))
   = wrap64 (currentMemoryUsage (gc_stats g) - bytes)) /\
  totalAllocations (gc_stats (performGC g)) = totalAllocations (gc_stats g) /\
  totalBytesAllocated (gc_stats (performGC g)) = totalBytesAllocated (gc_stats g) /\
  gc_console (performGC g)
  = gc_console g
    ++ [OutGC (wrap64 objects) (wrap64 bytes) (gcDuration (gcCollections (gc_stats g)))] /\
  (forall id, id ∉ deadObjects g -> id <> objectId ->
     gc_allocations (gc_allocate size objectId isArray g).2 !! id = gc_allocations g !! id /\
     gc_sizes (gc_allocate size objectId isArray g).2 !! id = gc_sizes g !! id) /\
  (forall other sz,
     gc_deallocate other sz g
     = mkGC (gc_allocations g) (gc_sizes g) ({[other]} ∪ deadObjects g) (gcThreshold g)
            (allocationsSinceLastGC g) (allocationThreshold g) (gc_stats g)
            (gc_allocator g) (gc_console g)).
Proof.
  cbv zeta. destruct (performGC_tables g) as [Ht _].
  destruct (performGC_released g) as (Hz & Hvia & Hq & Hc & Ha & Hba & _ & Hr).
  split; [exact Ht|]. split; [exact Hz|]. split; [exact Hvia|]. split.
  { intros q. destruct (Hq q) as [Hg Hrt]. split; [exact Hg|]. lia. }
  split; [exact Hr|]. split; [exact Ha|]. split; [exact Hba|]. split; [exact Hc|]. split.
  - intros id Hid Hne. apply gc_allocate_keeps_live; assumption.
  - intros other sz. reflexivity.
Qed.

(** The final collection releases every object, dead or not.  On a backend
    whose calls are recorded: afterwards the table of allocations and the
    dead set are empty; the table of sizes has lost the ids that were in
    the table of allocations and no other; the backend is reached through
    [deallocate] only, once for every region of the table; the objects
    and their bytes are counted as freed and shown in the line printed
    after the announcement; one more collection is counted, and one more
    after it finds nothing to release. *)
Theorem finalGC_releases_everything (g : @GCSimulator (B * list Call)) :
  let objects := Z.of_nat (base.size (gc_allocations g)) in
  let bytes := held_bytes (gc_allocations g) (gc_sizes g) in
  gc_allocations (finalGC g) = ∅ /\
  (forall k, gc_sizes (finalGC g) !! k
             = match gc_allocations g !! k with
               | Some _ => None
               | None => gc_sizes g !! k
               end) /\
  deadObjects (finalGC g) = ∅ /\
  allocationsSinceLastGC (finalGC g) = 0 /\
  (exists regions : list Z,
     gc_allocator (finalGC g)
     = foldl (fun a ptr => deallocate ptr a) (gc_allocator g) regions) /\
  (forall q,
     times_granted q (gc_allocator (finalGC g)).2 = times_granted q (gc_allocator g).2 /\
     times_returned q (gc_allocator (finalGC g)).2
     = times_returned q (gc_allocator g).2 + table_count q (gc_allocations g)) /\
  (in_range (gc_stats g) ->
   totalDeallocations (gc_stats (finalGC g))
   = wrap64 (totalDeallocations (gc_stats g) + objects) /\
   totalBytesFreed (gc_stats (finalGC g)) = wrap64 (totalBytesFreed (gc_stats g) + bytes) /\
   currentMemoryUsage (gc_stats (finalGC g))
   = wrap64 (currentMemoryUsage (gc_stats g) - bytes)) /\
  totalAllocations (gc_stats (finalGC g)) = totalAllocations (gc_stats g) /\
  totalBytesAllocated (gc_stats (finalGC g)) = totalBytesAllocated (gc_stats g) /\
  gc_console (finalGC g)
  = gc_console g
    ++ [OutFinalGC;
        OutGC (wrap64 objects) (wrap64 bytes) (gcDuration (gcCollections (gc_stats g)))] /\
  gc_runs (finalGC g) = S (gc_runs g) /\
  gcCollections (gc_stats (finalGC g)) = wrap64 (gcCollections (gc_stats g) + 1) /\
  performGC (finalGC g)
  = mkGC ∅ (gc_sizes (finalGC g)) ∅ (gcThreshold g) 0 (allocationThreshold g)
         (recordGC (wrap64 (gcDuration (gcCollections (gc_stats (finalGC g)))))
                   (gc_stats (finalGC g)))
         (gc_allocator (finalGC g))
         (gc_console (finalGC g)
            ++ [OutGC 0 0 (gcDuration (gcCollections (gc_stats (finalGC g))))]).
Proof.
  cbv zeta. destruct (finalGC_tables g) as [Ht _].
  assert (Hfinal : finalGC g = performGC
            (mkGC (gc_allocations g) (gc_sizes g) (dom (gc_allocations g) ∪ deadObjects g)
                  (gcThreshold g) (allocationsSinceLastGC g) (allocationThreshold g)
                  (gc_stats g) (gc_allocator g) (gc_console g ++ [OutFinalGC])))
    by reflexivity.
  set (g' := mkGC _ _ _ _ _ _ _ _ _) in Hfinal.
  destruct (performGC_clears g') as [Hd Hn].
  destruct (performGC_counts g') as (Hr & Hc & _ & Hth & Hat).
  destruct (performGC_released g') as (Hz & Hvia & Hq & Hco & Ha & Hba & _ & Hrg).
  rewrite <- Hfinal in Hd, Hn, Hr, Hc, Hth, Hat, Hz, Hvia, Hq, Hco, Ha, Hba, Hrg.
  subst g'. cbn [gc_allocations gc_sizes gc_stats gc_allocator gc_console deadObjects]
    in Hz, Hvia, Hq, Hco, Ha, Hba, Hrg, Hr, Hc, Hth, Hat.
  rewrite Ht in Hq, Hco, Hrg.
  rewrite held_bytes_empty, map_size_empty in Hco, Hrg.
  change (Z.of_nat 0) with 0 in Hco, Hrg. rewrite !Z.sub_0_r in Hco, Hrg.
  split; [exact Ht|]. split.
  { intros k. rewrite Hz. destruct (decide _) as [Hin|Hnin]; [reflexivity|].
    destruct (gc_allocations g !! k) eqn:Hk; [|reflexivity].
    exfalso. apply Hnin. apply elem_of_union. left. apply elem_of_dom. eauto. }
  split; [exact Hd|]. split; [exact Hn|]. split; [exact Hvia|]. split.
  { intros q. destruct (Hq q) as [Hg Hrt]. split; [exact Hg|].
    unfold table_count at 1 in Hrt. rewrite sum_of_empty in Hrt. lia. }
  split; [exact Hrg|]. split; [exact Ha|]. split; [exact Hba|]. split.
  { rewrite Hco, <- app_assoc. reflexivity. }
  split.
  { rewrite Hr. unfold gc_runs. cbn [gc_console].
    rewrite List.filter_app, length_app. simpl. lia. }
  split; [exact Hc|].
  rewrite performGC_nothing_to_sweep.
  - rewrite Ht, Hth, Hat. reflexivity.
  - intros id _. rewrite Ht. apply lookup_empty.
Qed.

End SweepEffect.

(** ** The driver and the explicit manager *)

Section ExplicitDriver.

Import AllocatorBackend Enhanced.

Context {B : Type} `{Backend B}.

Lemma process_line_live {M : Type} `{MemorySimulator M} (line : TraceLine)
    (t : @TraceReplayer M) :
  liveObjects (processTraceLine line t) =
  match line with
  | AllocLine isArray objectId size typeId siteId length threadId =>
      <[objectId := mkRecord objectId (wrap64 size) typeId siteId length threadId
                      (sim_allocate (wrap64 size) objectId isArray (memoryManager t)).1
                      isArray]> (liveObjects t)
  | DeathLine objectId _ _ => delete objectId (liveObjects t)
  | _ => liveObjects t
  end.
Proof.
  destruct line.
  - reflexivity.
  - apply process_alloc_line.
  - apply process_death_line.
  - unfold processTraceLine.
    match goal with |- context [if ?c then driver_print ?o ?x else ?x] =>
      destruct (driver_print_if c o x) as [_ Hl]; rewrite Hl end. reflexivity.
  - unfold processTraceLine.
    match goal with |- context [if ?c then driver_print ?o ?x else ?x] =>
      destruct (driver_print_if c o x) as [_ Hl]; rewrite Hl end. reflexivity.
  - unfold processTraceLine.
    match goal with |- context [if ?c then driver_print ?o ?x else ?x] =>
      destruct (driver_print_if c o x) as [_ Hl]; rewrite Hl end. reflexivity.
  - unfold processTraceLine.
    match goal with |- context [if ?c then driver_print ?o ?x else ?x] =>
      destruct (driver_print_if c o x) as [_ Hl]; rewrite Hl end.
    cbn [verbose]. destruct (verbose t); reflexivity.
Qed.

(** An id the driver does not list has no region in the manager. *)
Lemma explicit_line_known (line : TraceLine) (t : @TraceReplayer (@ExplicitMemoryManager B)) :
  (forall id, liveObjects t !! id = None -> allocations (memoryManager t) !! id = None) ->
  forall id, liveObjects (processTraceLine line t) !! id = None ->
             allocations (memoryManager (processTraceLine line t)) !! id = None.
Proof.
  intros Hknown id. rewrite process_line_live, process_line_manager.
  destruct line; cbn [sim_allocate sim_deallocate sim_updateField sim_methodEntry
                      sim_methodExit explicit_simulator]; try apply Hknown.
  - unfold explicit_allocate.
    destruct (allocate (wrap64 size) (allocator (memoryManager t))) as [ptr a].
    destruct (decide (id = objectId)) as [->|Hne].
    + rewrite lookup_insert_eq. discriminate.
    + rewrite lookup_insert_ne by congruence. intros Hl.
      destruct (ptr =? nullptr); cbn [snd allocations].
      * apply Hknown, Hl.
      * rewrite lookup_insert_ne by congruence. apply Hknown, Hl.
  - destruct (decide (id = objectId)) as [->|Hne].
    + intros _. destruct (liveObjects t !! objectId) as [rec|] eqn:Hk.
      * unfold explicit_deallocate.
        destruct (allocations (memoryManager t) !! objectId) eqn:Ha; [|exact Ha].
        cbn [allocations]. apply lookup_delete_eq.
      * apply Hknown, Hk.
    + rewrite lookup_delete_ne by congruence. intros Hl.
      destruct (liveObjects t !! objectId) as [rec|]; [|apply Hknown, Hl].
      unfold explicit_deallocate.
      destruct (allocations (memoryManager t) !! objectId); [|apply Hknown, Hl].
      cbn [allocations]. rewrite lookup_delete_ne by congruence. apply Hknown, Hl.
Qed.

Lemma explicit_trace_known lines : forall t : @TraceReplayer (@ExplicitMemoryManager B),
  (forall id, liveObjects t !! id = None -> allocations (memoryManager t) !! id = None) ->
  forall id, liveObjects (replayTrace lines t) !! id = None ->
             allocations (memoryManager (replayTrace lines t)) !! id = None.
Proof.
  induction lines as [|line lines IH]; intros t Hknown; [exact Hknown|].
  change (replayTrace (line :: lines) t) with (replayTrace lines (processTraceLine line t)).
  apply IH, explicit_line_known, Hknown.
Qed.

(** In explicit mode the manager holds regions only for ids that the driver
    lists in [liveObjects], whatever the trace. *)
Theorem explicit_manager_holds_only_live (lines : list TraceLine) (b : B) (verbose : bool) :
  let t := replayTrace lines (new_replayer (new_explicit b) verbose) in
  dom (allocations (memoryManager t)) ⊆ dom (liveObjects t).
Proof.
  intros t id Hin. destruct (decide (id ∈ dom (liveObjects t))) as [Hl|Hl]; [exact Hl|].
  apply not_elem_of_dom in Hl.
  apply (explicit_trace_known lines (new_replayer (new_explicit b) verbose)) in Hl.
  - apply not_elem_of_dom in Hl. contradiction.
  - intros id0 _. apply lookup_empty.
Qed.

(** In explicit mode a 'D' line always leaves its object without a region:
    after any trace that ends with the death of [objectId], neither the
    driver nor the manager has an entry for it. *)
Theorem explicit_death_frees (lines : list TraceLine) (objectId threadId timestamp : Z)
    (b : B) (verbose : bool) :
  let t := replayTrace (lines ++ [DeathLine objectId threadId timestamp])
             (new_replayer (new_explicit b) verbose) in
  liveObjects t !! objectId = None /\ allocations (memoryManager t) !! objectId = None.
Proof.
  intros t.
  assert (Hl : liveObjects t !! objectId = None).
  { subst t. rewrite replayTrace_snoc, process_line_live. apply lookup_delete_eq. }
  split; [exact Hl|].
  revert Hl. apply (explicit_trace_known _ (new_replayer (new_explicit b) verbose)).
  intros id0 _. apply lookup_empty.
Qed.

(** [deallocate] undoes [allocate] in the explicit manager: for an id that
    is in neither table and a request that the backend grants, the tables
    and the live bytes are as before, whatever size the caller passes to
    [deallocate]; the region went back to the backend, and the bytes freed
    grew by the size that was allocated. *)
Theorem explicit_deallocate_undoes_allocate (size objectId passed : Z) (isArray : bool)
    (m : @ExplicitMemoryManager B) :
  allocations m !! objectId = None ->
  sizes m !! objectId = None ->
  (explicit_allocate size objectId isArray m).1 <> nullptr ->
  0 <= currentMemoryUsage (stats m) < 2 ^ 64 ->
  let m' := explicit_deallocate objectId passed (explicit_allocate size objectId isArray m).2 in
  allocations m' = allocations m /\ sizes m' = sizes m /\
  currentMemoryUsage (stats m') = currentMemoryUsage (stats m) /\
  totalBytesFreed (stats m') = wrap64 (totalBytesFreed (stats m) + size) /\
  allocator m'
  = deallocate (allocate size (allocator m)).1 (allocate size (allocator m)).2.
Proof.
  intros Ha Hs Hok Hrange. revert Hok. unfold explicit_allocate.
  destruct (allocate size (allocator m)) as [ptr a]. cbn [fst snd].
  destruct (ptr =? nullptr) eqn:E; cbn [fst snd]; [congruence|]. intros _.
  unfold explicit_deallocate. cbn [allocations sizes stats allocator].
  rewrite lookup_insert_eq. cbn [allocations sizes stats allocator].
  rewrite lookup_insert_eq. cbn [default from_option].
  rewrite !delete_insert_eq.
  rewrite (delete_id _ _ Ha), (delete_id _ _ Hs).
  repeat split.
  cbn [recordDeallocation recordAllocation currentMemoryUsage].
  rewrite wrap64_add_sub. unfold wrap64. apply Z.mod_small. exact Hrange.
Qed.

End ExplicitDriver.

Section ManagerExamples.

Import AllocatorBackend Enhanced.

#[local] Existing Instance Concrete.clock.

(** Two objects, the first one dead: the collection hands the region of
    the first to the backend and counts its 10 bytes, and keeps the second;
    so does an allocation under a third id. *)
Lemma gc_releases_only_dead_objects_witness :
  let g := memoryManager
             (replayTrace [AllocLine false 1 10 0 0 0 0; AllocLine false 2 20 0 0 0 0;
                           DeathLine 1 0 0]
                (new_replayer (Concrete.gc [4096; 8192] default_gcThreshold 5) false)) in
  in_range (gc_stats g) /\ (2 ∉ deadObjects g) /\
  gc_allocations (performGC g) !! 1 = None /\
  gc_sizes (performGC g) !! 1 = None /\
  gc_allocations (performGC g) !! 2 = Some 8192 /\
  gc_sizes (performGC g) !! 2 = Some 20 /\
  times_returned 4096 (gc_allocator (performGC g)).2 = 1 /\
  times_returned 8192 (gc_allocator (performGC g)).2 = 0 /\
  totalDeallocations (gc_stats (performGC g)) = 1 /\
  totalBytesFreed (gc_stats (performGC g)) = 10 /\
  currentMemoryUsage (gc_stats (performGC g)) = 20 /\
  gc_allocations (gc_allocate 30 3 false g).2 !! 2 = Some 8192 /\
  gc_sizes (gc_allocate 30 3 false g).2 !! 2 = Some 20.
Proof.
  intros g.
  assert (Hrange : in_range (gc_stats g)).
  { apply (bool_decide_unpack _). vm_compute. exact I. }
  assert (Hlive : 2 ∉ deadObjects g).
  { apply (bool_decide_unpack _). vm_compute. exact I. }
  destruct (gc_releases_only_dead_objects (B := Scripted) g 30 3 false)
    as (E1 & E2 & _ & E3 & E4 & _ & _ & _ & E5 & _).
  destruct (E4 Hrange) as (D1 & D2 & D3).
  destruct (E5 2 Hlive) as [A1 A2]; [discriminate|].
  split; [exact Hrange|]. split; [exact Hlive|].
  split; [rewrite E1; vm_compute; reflexivity|].
  split; [rewrite E2; vm_compute; reflexivity|].
  split; [rewrite E1; vm_compute; reflexivity|].
  split; [rewrite E2; vm_compute; reflexivity|].
  split; [rewrite (proj2 (E3 4096)); vm_compute; reflexivity|].
  split; [rewrite (proj2 (E3 8192)); vm_compute; reflexivity|].
  split; [rewrite D1; vm_compute; reflexivity|].
  split; [rewrite D2; vm_compute; reflexivity|].
  split; [rewrite D3; vm_compute; reflexivity|].
  split; [rewrite A1; vm_compute; reflexivity|].
  rewrite A2. vm_compute. reflexivity.
Defined.

(** The same two objects at the end of the run: the final collection hands
    both regions to the backend, the one that never died too, and counts
    the 30 bytes. *)
Lemma finalGC_releases_everything_witness :
  let g := memoryManager
             (replayTrace [AllocLine false 1 10 0 0 0 0; AllocLine false 2 20 0 0 0 0;
                           DeathLine 1 0 0]
                (new_replayer (Concrete.gc [4096; 8192] default_gcThreshold 5) false)) in
  in_range (gc_stats g) /\
  gc_allocations (finalGC g) = ∅ /\
  gc_sizes (finalGC g) !! 2 = None /\
  times_returned 4096 (gc_allocator (finalGC g)).2 = 1 /\
  times_returned 8192 (gc_allocator (finalGC g)).2 = 1 /\
  totalDeallocations (gc_stats (finalGC g)) = 2 /\
  totalBytesFreed (gc_stats (finalGC g)) = 30 /\
  currentMemoryUsage (gc_stats (finalGC g)) = 0 /\
  gc_console (finalGC g) = [OutFinalGC; OutGC 2 30 (gcDuration 0)].
Proof.
  intros g.
  assert (Hrange : in_range (gc_stats g)).
  { apply (bool_decide_unpack _). vm_compute. exact I. }
  destruct (finalGC_releases_everything (B := Scripted) g)
    as (E1 & E2 & _ & _ & _ & E3 & E4 & _ & _ & E5 & _).
  destruct (E4 Hrange) as (D1 & D2 & D3).
  split; [exact Hrange|]. split; [exact E1|].
  split; [rewrite E2; vm_compute; reflexivity|].
  split; [rewrite (proj2 (E3 4096)); vm_compute; reflexivity|].
  split; [rewrite (proj2 (E3 8192)); vm_compute; reflexivity|].
  split; [rewrite D1; vm_compute; reflexivity|].
  split; [rewrite D2; vm_compute; reflexivity|].
  split; [rewrite D3; vm_compute; reflexivity|].
  rewrite E5. vm_compute. reflexivity.
Defined.

(** The count scenario in GC mode: at the end nothing is left. *)
Lemma gc_run_ends_empty_witness :
  let t := new_replayer (new_gc (B := Scripted) [4096; 8192; 12288] default_gcThreshold 2)
             false in
  let g := finalGC (memoryManager (replayTrace (count_scenario 10 20 30) t)) in
  lines_fresh gc_allocations (count_scenario 10 20 30) t /\
  gc_allocations g = ∅ /\ currentMemoryUsage (gc_stats g) = 0 /\
  totalBytesFreed (gc_stats g) = totalBytesAllocated (gc_stats g) /\
  totalDeallocations (gc_stats g) = totalAllocations (gc_stats g).
Proof.
  intros t g.
  assert (Hfresh : lines_fresh gc_allocations (count_scenario 10 20 30) t).
  { vm_compute. repeat split; intros; try reflexivity; try discriminate. }
  destruct (gc_run_ends_empty (count_scenario 10 20 30) [4096; 8192; 12288]
              default_gcThreshold 2 false Hfresh) as (E1 & _ & _ & E4 & E5 & E6).
  split; [exact Hfresh|]. split; [exact E1|]. split; [exact E4|]. split; [exact E5|exact E6].
Defined.

(** The count scenario in GC mode, with the calls recorded: the first
    region is granted once and given back once. *)
Lemma gc_run_returns_every_region_witness :
  let calls := (run_gc (B := Scripted * list Call) (count_scenario 10 20 30)
                  ([4096; 8192; 12288], []) default_gcThreshold 2 false).2 in
  times_granted 4096 calls = 1 /\ times_returned 4096 calls = times_granted 4096 calls.
Proof.
  intros calls. split; [vm_compute; reflexivity|].
  apply (gc_run_returns_every_region (B := Scripted) (count_scenario 10 20 30)
           [4096; 8192; 12288] default_gcThreshold 2 false 4096).
  - vm_compute. repeat split; intros; try reflexivity; try discriminate.
  - discriminate.
Defined.

(** The count scenario in explicit mode: the third object never dies, and
    its region goes back to the backend when the manager is destroyed. *)
Lemma explicit_run_returns_every_region_witness :
  let calls := (run_explicit (B := Scripted * list Call) (count_scenario 10 20 30)
                  ([4096; 8192; 12288], []) false).2 in
  times_granted 12288 calls = 1 /\ times_returned 12288 calls = times_granted 12288 calls.
Proof.
  intros calls. split; [vm_compute; reflexivity|].
  apply (explicit_run_returns_every_region (B := Scripted) (count_scenario 10 20 30)
           [4096; 8192; 12288] false 12288).
  - vm_compute. repeat split; intros; try reflexivity; try discriminate.
  - discriminate.
Defined.

(** An allocation of 16 bytes under id 1 in a fresh explicit manager, then
    the deallocation with a size of 99: the tables are empty again. *)
Lemma explicit_deallocate_undoes_allocate_witness :
  let m := new_explicit (B := Scripted) [4096] in
  let m' := explicit_deallocate 1 99 (explicit_allocate 16 1 false m).2 in
  allocations m' = ∅ /\ currentMemoryUsage (stats m') = 0 /\
  totalBytesFreed (stats m') = 16.
Proof.
  intros m m'.
  destruct (explicit_deallocate_undoes_allocate (B := Scripted) 16 1 99 false m)
    as (E1 & _ & E3 & E4 & _).
  - reflexivity.
  - reflexivity.
  - vm_compute. discriminate.
  - vm_compute. split; [discriminate|reflexivity].
  - split; [exact E1|]. split; [exact E3|]. exact E4.
Defined.

End ManagerExamples.

(** ** The C replayer and the allocator *)

Section CHolds.

Import CReplay.

Context {Heap : Type}.
Variable malloc : Z -> Heap -> Z * Heap.

Lemma logged_malloc_log size (h : Heap * list HeapCall) :
  (logged_malloc malloc size h).2.2 = h.2 ++ [Malloc size (logged_malloc malloc size h).1].
Proof. unfold logged_malloc. destruct (malloc size h.1). reflexivity. Qed.

Lemma chain_holds_app q c1 c2 : chain_holds q (c1 ++ c2) = chain_holds q c1 + chain_holds q c2.
Proof. unfold chain_holds. induction c1 as [|a c1 IH]; simpl; lia. Qed.

Lemma chain_holds_cons q a chain :
  chain_holds q (a :: chain)
  = (if ptr a =? q then 1 else 0) + (if node a =? q then 1 else 0) + chain_holds q chain.
Proof. reflexivity. Qed.

Lemma table_holds_set_bucket q idx chain t :
  table_holds q (set_bucket idx chain t)
  = table_holds q t - chain_holds q (bucket t idx) + chain_holds q chain.
Proof.
  unfold table_holds, set_bucket, bucket. destruct chain as [|a chain].
  - rewrite sum_of_remove. destruct (t !! idx); simpl; lia.
  - rewrite sum_of_update. destruct (t !! idx); simpl; lia.
Qed.

Lemma nodes_valid_bucket t idx :
  nodes_valid t -> Forall (fun curr => ptr curr <> nullptr /\ node curr <> nullptr) (bucket t idx).
Proof.
  intros Hv. unfold bucket. destruct (t !! idx) as [chain|] eqn:E; simpl.
  - apply (Hv _ _ E).
  - constructor.
Qed.

Lemma nodes_valid_set_bucket idx chain t :
  nodes_valid t ->
  Forall (fun curr => ptr curr <> nullptr /\ node curr <> nullptr) chain ->
  nodes_valid (set_bucket idx chain t).
Proof.
  intros Hv Hall idx' chain'. unfold set_bucket. destruct chain as [|a chain].
  - intros Hl. apply lookup_delete_Some in Hl. apply (Hv idx'), Hl.
  - destruct (decide (idx' = idx)) as [->|Hne].
    + rewrite lookup_insert_eq. intros [= <-]. exact Hall.
    + rewrite lookup_insert_ne by congruence. apply Hv.
Qed.

Lemma handle_alloc_untracked_state object_id size (p : Process Heap) :
  let region := malloc size (heap p) in
  let tracking := malloc sizeof_Allocation region.2 in
  region.1 <> nullptr -> tracking.1 = nullptr ->
  table (g_stats (handle_alloc malloc object_id size p)) = table (g_stats p) /\
  heap (handle_alloc malloc object_id size p) = tracking.2.
Proof.
  intros region tracking Hr Ht. subst region tracking. unfold handle_alloc.
  destruct (malloc size (heap p)) as [ptr h]. cbn [fst snd] in *.
  apply Z.eqb_neq in Hr. rewrite Hr.
  unfold insert_allocation. cbn [heap g_stats stderr].
  destruct (malloc sizeof_Allocation h) as [alloc h']. cbn [fst snd] in *. subst alloc.
  split; reflexivity.
Qed.

End CHolds.

Section CTeardown.

Import CReplay.

Context {Heap : Type}.
Variable malloc : Z -> Heap -> Z * Heap.
Variable free : Z -> Heap -> Heap.

Lemma eqb_null_false q : q <> nullptr -> (nullptr =? q) = false.
Proof. intros Hq. apply Z.eqb_neq. congruence. Qed.

Lemma handle_alloc_accounted object_id size (p : Process (Heap * list HeapCall)) :
  accounted p -> accounted (handle_alloc (logged_malloc malloc) object_id size p).
Proof.
  intros (Hb & Hv & Hn & Hq).
  set (region := logged_malloc malloc size (heap p)).
  set (tracking := logged_malloc malloc sizeof_Allocation region.2).
  destruct (Z.eq_dec region.1 nullptr) as [Hnull|Hok].
  - rewrite (handle_alloc_failed (logged_malloc malloc) _ _ _ Hnull).
    assert (Hlog : region.2.2 = (heap p).2 ++ [Malloc size nullptr]).
    { rewrite <- Hnull. apply logged_malloc_log. }
    unfold accounted. cbn [g_stats table heap]. fold region. rewrite Hlog.
    split; [exact Hb|]. split; [exact Hv|]. split.
    + rewrite times_freed_snoc. cbn [frees_address]. lia.
    + intros q Hne. destruct (Hq q Hne) as [Hle Heq].
      rewrite times_freed_snoc, times_allocated_snoc. cbn [frees_address returns_address].
      rewrite (eqb_null_false q Hne). split; [lia|].
      intros Hc. rewrite Z.add_0_r, Z.add_0_r. apply Heq.
      unfold tracking_complete in *. cbn [stderr] in Hc.
      intros Hin. apply Hc, in_or_app. left. exact Hin.
  - assert (Hlog : tracking.2.2
                   = ((heap p).2 ++ [Malloc size region.1])
                       ++ [Malloc sizeof_Allocation tracking.1]).
    { unfold tracking at 1. rewrite logged_malloc_log. fold tracking.
      unfold region at 1. rewrite logged_malloc_log. reflexivity. }
    destruct (Z.eq_dec tracking.1 nullptr) as [Hn2|Hok2].
    + destruct (handle_alloc_untracked_state (logged_malloc malloc) object_id size p Hok Hn2)
        as [Et Eh].
      pose proof (handle_alloc_untracked (logged_malloc malloc) object_id size p Hok Hn2)
        as Ee.
      unfold accounted. rewrite Et, Eh. fold region. fold tracking. rewrite Hlog, Hn2.
      split; [exact Hb|]. split; [exact Hv|]. split.
      * rewrite !times_freed_snoc. cbn [frees_address]. lia.
      * intros q Hne. destruct (Hq q Hne) as [Hle _].
        rewrite !times_freed_snoc, !times_allocated_snoc.
        cbn [frees_address returns_address]. rewrite (eqb_null_false q Hne). split.
        -- destruct (region.1 =? q); lia.
        -- intros Hc. exfalso. apply Hc. rewrite Ee. apply in_or_app. right. left. reflexivity.
    + rewrite (handle_alloc_tracked (logged_malloc malloc) _ _ _ Hok Hok2).
      unfold accounted. cbn [g_stats table heap stderr]. fold region. fold tracking.
      rewrite Hlog. split; [|split; [|split]].
      * apply table_in_bounds_set_bucket; [exact Hb|apply hash_range|].
        constructor; [reflexivity|]. apply table_in_bounds_bucket, Hb.
      * apply nodes_valid_set_bucket; [exact Hv|].
        constructor; [split; assumption|]. apply nodes_valid_bucket, Hv.
      * rewrite !times_freed_snoc. cbn [frees_address]. lia.
      * intros q Hne. destruct (Hq q Hne) as [Hle Heq].
        rewrite !times_freed_snoc, !times_allocated_snoc, table_holds_set_bucket,
          chain_holds_cons.
        cbn [frees_address returns_address ptr node]. split.
        -- lia.
        -- intros Hc. specialize (Heq Hc). lia.
Qed.

Lemma handle_free_accounted object_id (p : Process (Heap * list HeapCall)) :
  accounted p -> accounted (handle_free (logged_free free) object_id p).
Proof.
  intros (Hb & Hv & Hn & Hq).
  destruct (find_allocation (g_stats p) object_id) as [curr|] eqn:Hfind.
  - destruct (handle_free_found (logged_free free) object_id curr p Hfind)
      as (before & after & Hbk & _ & _ & ->).
    pose proof (nodes_valid_bucket _ (hash object_id) Hv) as Hvalid.
    pose proof (table_in_bounds_bucket _ (hash object_id) Hb) as Hin.
    rewrite Hbk in Hvalid, Hin.
    apply Forall_app in Hvalid. destruct Hvalid as [V1 V2].
    apply Forall_app in Hin. destruct Hin as [B1 B2].
    inversion V2 as [|? ? [Vp Vn] V3]; subst. inversion B2 as [|? ? _ B3]; subst.
    unfold accounted. cbn [g_stats table heap stderr logged_free fst snd].
    split; [|split; [|split]].
    + apply table_in_bounds_set_bucket; [exact Hb|apply hash_range|].
      apply Forall_app. split; assumption.
    + apply nodes_valid_set_bucket; [exact Hv|]. apply Forall_app. split; assumption.
    + rewrite !times_freed_snoc. cbn [frees_address].
      apply Z.eqb_neq in Vp, Vn. rewrite Vp, Vn. lia.
    + intros q Hne. destruct (Hq q Hne) as [Hle Heq].
      rewrite !times_freed_snoc, !times_allocated_snoc, table_holds_set_bucket, Hbk,
        !chain_holds_app, chain_holds_cons.
      cbn [frees_address returns_address]. split.
      * lia.
      * intros Hc. specialize (Heq Hc). lia.
  - rewrite (handle_free_missing (logged_free free) _ _ Hfind).
    unfold accounted. cbn [g_stats table heap stderr].
    split; [exact Hb|]. split; [exact Hv|]. split; [exact Hn|exact Hq].
Qed.

Lemma process_file_accounted lines (h : Heap) :
  accounted (process_file (logged_malloc malloc) (logged_free free) lines
               (mkProcess init_stats (h, []) [])).
Proof.
  apply (process_file_invariant (logged_malloc malloc) (logged_free free) accounted).
  - intros. apply handle_alloc_accounted. assumption.
  - intros. apply handle_free_accounted. assumption.
  - unfold accounted. cbn [g_stats table heap init_stats snd].
    split; [intros idx chain Hl; rewrite lookup_empty in Hl; discriminate|].
    split; [intros idx chain Hl; rewrite lookup_empty in Hl; discriminate|].
    split; [reflexivity|]. intros q _. unfold table_holds. rewrite sum_of_empty.
    split; [reflexivity|]. intros _. reflexivity.
Qed.

(** *** The cleanup loop *)

Lemma cleanup_chain_cons curr chain (h : Heap * list HeapCall) :
  cleanup_chain (logged_free free) (curr :: chain) h
  = cleanup_chain (logged_free free) chain
      (logged_free free (node curr)
         (if ptr curr =? nullptr then h else logged_free free (ptr curr) h)).
Proof. reflexivity. Qed.

Lemma cleanup_chain_log q chain : forall h : Heap * list HeapCall,
  times_allocated q (cleanup_chain (logged_free free) chain h).2 = times_allocated q h.2 /\
  (q <> nullptr ->
   times_freed q (cleanup_chain (logged_free free) chain h).2
   = times_freed q h.2 + chain_holds q chain) /\
  (Forall (fun curr => ptr curr <> nullptr /\ node curr <> nullptr) chain ->
   times_freed nullptr (cleanup_chain (logged_free free) chain h).2 = times_freed nullptr h.2).
Proof.
  induction chain as [|curr chain IH]; intros h.
  - split; [reflexivity|]. split; [intros _; unfold chain_holds; simpl; lia|reflexivity].
  - rewrite cleanup_chain_cons.
    match goal with |- context [cleanup_chain _ chain ?x] => set (h1 := x) end.
    destruct (IH h1) as (IA & IF & IN).
    assert (Hlog : h1.2 = if ptr curr =? nullptr then h.2 ++ [Free (node curr)]
                          else (h.2 ++ [Free (ptr curr)]) ++ [Free (node curr)]).
    { subst h1. destruct (ptr curr =? nullptr); reflexivity. }
    split; [|split].
    + rewrite IA, Hlog. destruct (ptr curr =? nullptr);
        rewrite !times_allocated_snoc; cbn [returns_address]; lia.
    + intros Hne. rewrite (IF Hne), Hlog, chain_holds_cons.
      destruct (ptr curr =? nullptr) eqn:E.
      * apply Z.eqb_eq in E. rewrite E, (eqb_null_false q Hne).
        rewrite times_freed_snoc. cbn [frees_address]. lia.
      * rewrite !times_freed_snoc. cbn [frees_address]. lia.
    + intros Hall. inversion Hall as [|? ? [Vp Vn] Hrest]; subst.
      rewrite (IN Hrest), Hlog. apply Z.eqb_neq in Vp, Vn. rewrite Vp.
      rewrite !times_freed_snoc. cbn [frees_address]. rewrite Vp, Vn. lia.
Qed.

Lemma bucket_delete_ne (t : gmap Z (list Allocation)) i j :
  i <> j -> bucket (delete i t) j = bucket t j.
Proof. intros Hne. unfold bucket. rewrite lookup_delete_ne by congruence. reflexivity. Qed.

Lemma cleanup_buckets_log q (idxs : list Z) : forall (t t0 : gmap Z (list Allocation))
    (h : Heap * list HeapCall),
  NoDup idxs ->
  (forall k chain, t !! k = Some chain -> k ∈ idxs) ->
  (forall i, i ∈ idxs -> bucket t0 i = bucket t i) ->
  let h' := foldl (fun h i => cleanup_chain (logged_free free) (bucket t0 i) h) h idxs in
  times_allocated q h'.2 = times_allocated q h.2 /\
  (q <> nullptr -> times_freed q h'.2 = times_freed q h.2 + table_holds q t) /\
  (nodes_valid t -> times_freed nullptr h'.2 = times_freed nullptr h.2).
Proof.
  induction idxs as [|i idxs IH]; intros t t0 h Hnd Hkeys Hsame.
  - assert (Ht : t = ∅).
    { apply map_empty. intros k. destruct (t !! k) as [chain|] eqn:E; [|reflexivity].
      apply Hkeys in E. inversion E. }
    subst t. cbn [foldl]. unfold table_holds. rewrite sum_of_empty.
    split; [reflexivity|]. split; [intros _; lia|reflexivity].
  - cbn [foldl]. inversion Hnd as [|? ? Hnotin Hnd']; subst.
    set (h1 := cleanup_chain (logged_free free) (bucket t0 i) h).
    destruct (cleanup_chain_log q (bucket t0 i) h) as (CA & CF & CN). fold h1 in CA, CF, CN.
    assert (Hkeys' : forall k chain, delete i t !! k = Some chain -> k ∈ idxs).
    { intros k chain Hl. apply lookup_delete_Some in Hl. destruct Hl as [Hne Hl].
      apply Hkeys in Hl. apply elem_of_cons in Hl. destruct Hl as [->|Hl]; [congruence|exact Hl]. }
    assert (Hsame' : forall j, j ∈ idxs -> bucket t0 j = bucket (delete i t) j).
    { intros j Hj. rewrite bucket_delete_ne.
      - apply Hsame. apply elem_of_cons. right. exact Hj.
      - intros ->. contradiction. }
    destruct (IH (delete i t) t0 h1 Hnd' Hkeys' Hsame') as (IA & IF & IN).
    assert (Hi : bucket t0 i = bucket t i) by (apply Hsame; apply elem_of_cons; left; reflexivity).
    split; [|split].
    + rewrite IA, CA. reflexivity.
    + intros Hne. rewrite (IF Hne), (CF Hne), Hi. unfold table_holds.
      rewrite sum_of_remove. unfold bucket. destruct (t !! i); simpl; lia.
    + intros Hv. rewrite IN.
      * apply CN. rewrite Hi. apply nodes_valid_bucket, Hv.
      * intros k chain Hl. apply lookup_delete_Some in Hl. apply (Hv k), Hl.
Qed.

Lemma cleanup_log q (p : Process (Heap * list HeapCall)) :
  table_in_bounds (table (g_stats p)) ->
  times_allocated q (cleanup (logged_free free) p).2 = times_allocated q (heap p).2 /\
  (q <> nullptr ->
   times_freed q (cleanup (logged_free free) p).2
   = times_freed q (heap p).2 + table_holds q (table (g_stats p))) /\
  (nodes_valid (table (g_stats p)) ->
   times_freed nullptr (cleanup (logged_free free) p).2 = times_freed nullptr (heap p).2).
Proof.
  intros Hb. unfold cleanup.
  apply (cleanup_buckets_log q (seqZ 0 HASH_SIZE) (table (g_stats p)) (table (g_stats p))).
  - apply NoDup_seqZ.
  - intros k chain Hl. apply elem_of_seqZ. destruct (Hb k chain Hl) as [Hk _]. lia.
  - reflexivity.
Qed.

Lemma table_holds_nonneg q (t : gmap Z (list Allocation)) : 0 <= table_holds q t.
Proof.
  unfold table_holds. apply sum_of_nonneg. intros k chain _.
  unfold chain_holds. induction chain as [|a chain IH]; simpl; [lia|].
  destruct (ptr a =? q); destruct (node a =? q); lia.
Qed.

(** Observing the calls on the C library allocator during a run of [main]
    (the file, then the cleanup), whatever the rows and the allocator:
    [free] is never called with the null pointer, and no address is passed
    to [free] more often than [malloc] returned it. *)
Theorem creplay_frees_what_it_allocated (lines : list string) (h : Heap) (q : Z) :
  let log := (main (logged_malloc malloc) (logged_free free) lines (h, [])).2 in
  times_freed nullptr log = 0 /\ times_freed q log <= times_allocated q log.
Proof.
  intros log. subst log. unfold main.
  set (p := process_file _ _ lines _).
  destruct (process_file_accounted lines h) as (Hb & Hv & Hn & Hq). fold p in Hb, Hv, Hn, Hq.
  destruct (cleanup_log nullptr p Hb) as (_ & _ & N0).
  split; [rewrite (N0 Hv); exact Hn|].
  destruct (Z.eq_dec q nullptr) as [->|Hne].
  - rewrite (N0 Hv), Hn. unfold times_allocated. lia.
  - destruct (cleanup_log q p Hb) as (A1 & F1 & _).
    rewrite A1, (F1 Hne). apply Hq, Hne.
Qed.

(** Provided the tracking structure could always be allocated (the run
    never wrote "Failed to allocate tracking structure"), a run of [main]
    passes every non-null address that [malloc] returned, regions and
    tracking nodes alike, to [free] exactly as often as [malloc] returned
    it, also when rows reuse an object id or objects are never freed. *)
Theorem creplay_releases_every_region (lines : list string) (h : Heap) (q : Z) :
  tracking_complete (process_file (logged_malloc malloc) (logged_free free) lines
                       (mkProcess init_stats (h, []) [])) ->
  q <> nullptr ->
  let log := (main (logged_malloc malloc) (logged_free free) lines (h, [])).2 in
  times_freed q log = times_allocated q log.
Proof.
  intros Hc Hne log. subst log. unfold main.
  set (p := process_file _ _ lines _) in *.
  destruct (process_file_accounted lines h) as (Hb & Hv & Hn & Hq). fold p in Hb, Hv, Hn, Hq.
  destruct (cleanup_log q p Hb) as (A1 & F1 & _).
  rewrite A1, (F1 Hne). apply (Hq q Hne), Hc.
Qed.

End CTeardown.

Section CTeardownExamples.

Import CReplay.

(** Two allocations under the same id and one free: the older region is
    never freed by a row, and the cleanup gives it back. *)
Lemma creplay_releases_every_region_witness :
  let rows := ["timestamp,event_type,object_id,size"; "1,alloc,1,16"; "2,alloc,1,32";
               "3,free,1,0"]%string in
  let p := process_file (logged_malloc Concrete.malloc) (logged_free Concrete.free) rows
             (mkProcess init_stats ([4096; 5000; 8192; 9000], []) []) in
  let log := (main (logged_malloc Concrete.malloc) (logged_free Concrete.free) rows
                ([4096; 5000; 8192; 9000], [])).2 in
  tracking_complete p /\
  times_allocated 4096 (heap p).2 = 1 /\ times_freed 4096 (heap p).2 = 0 /\
  times_freed 4096 log = times_allocated 4096 log.
Proof.
  intros rows p log.
  assert (Hc : tracking_complete p) by (vm_compute; intros []).
  split; [exact Hc|]. split; [vm_compute; reflexivity|]. split; [vm_compute; reflexivity|].
  apply (creplay_releases_every_region Concrete.malloc Concrete.free rows
           [4096; 5000; 8192; 9000] 4096).
  - exact Hc.
  - discriminate.
Defined.

End CTeardownExamples.

(** ** Every allocation line is answered *)

Section ManagerAnswers.

Import AllocatorBackend Enhanced.

Context {B : Type} `{Backend B} `{Clock}.

Lemma allocation_errors_snoc console o :
  allocation_errors (console ++ [o])
  = allocation_errors console + (if is_allocation_error o then 1 else 0).
Proof.
  unfold allocation_errors. rewrite List.filter_app, length_app. simpl.
  destruct (is_allocation_error o); simpl; lia.
Qed.

Lemma allocation_errors_nonneg console : 0 <= allocation_errors console.
Proof. unfold allocation_errors. lia. Qed.

Lemma answered_step (b : bool) allocs errors errors' s s' :
  answered allocs errors s ->
  (if b
   then (errors' = errors + 1 /\ totalAllocations s' = totalAllocations s) \/
        (errors' = errors /\ totalAllocations s' = wrap64 (totalAllocations s + 1))
   else errors' = errors /\ totalAllocations s' = totalAllocations s) ->
  answered (allocs + (if b then 1 else 0)) errors' s'.
Proof.
  intros [Hr Ht] Hstep. unfold answered. destruct b.
  - destruct Hstep as [[-> ->]|[-> ->]].
    + split; [lia|]. rewrite Ht. f_equal. lia.
    + split; [lia|]. rewrite Ht, wrap64_add_l. f_equal. lia.
  - destruct Hstep as [-> ->]. split; [lia|]. rewrite Ht. f_equal. lia.
Qed.

Lemma explicit_allocate_answers size objectId isArray (m : @ExplicitMemoryManager B) :
  let m' := (explicit_allocate size objectId isArray m).2 in
  (allocation_errors (console m') = allocation_errors (console m) + 1 /\
   totalAllocations (stats m') = totalAllocations (stats m)) \/
  (allocation_errors (console m') = allocation_errors (console m) /\
   totalAllocations (stats m') = wrap64 (totalAllocations (stats m) + 1)).
Proof.
  intros m'. subst m'. unfold explicit_allocate.
  destruct (allocate size (allocator m)) as [ptr a].
  destruct (ptr =? nullptr); cbn [snd console stats].
  - left. rewrite allocation_errors_snoc. split; reflexivity.
  - right. split; reflexivity.
Qed.

Lemma explicit_line_answers (line : TraceLine) (t : @TraceReplayer (@ExplicitMemoryManager B)) :
  let m := memoryManager t in
  let m' := memoryManager (processTraceLine line t) in
  if is_alloc_line line
  then (allocation_errors (console m') = allocation_errors (console m) + 1 /\
        totalAllocations (stats m') = totalAllocations (stats m)) \/
       (allocation_errors (console m') = allocation_errors (console m) /\
        totalAllocations (stats m') = wrap64 (totalAllocations (stats m) + 1))
  else allocation_errors (console m') = allocation_errors (console m) /\
       totalAllocations (stats m') = totalAllocations (stats m).
Proof.
  intros m m'. subst m m'. rewrite process_line_manager.
  destruct line; cbn [is_alloc_line sim_allocate sim_deallocate sim_updateField
                      sim_methodEntry sim_methodExit explicit_simulator];
    try (split; reflexivity).
  - apply explicit_allocate_answers.
  - destruct (liveObjects t !! objectId); [|split; reflexivity].
    unfold explicit_deallocate.
    destruct (allocations (memoryManager t) !! objectId); split; reflexivity.
Qed.

Lemma performGC_answers (g : @GCSimulator B) :
  allocation_errors (gc_console (performGC g)) = allocation_errors (gc_console g) /\
  totalAllocations (gc_stats (performGC g)) = totalAllocations (gc_stats g).
Proof.
  split.
  - unfold performGC.
    pose proof (sweep_frame (elements (deadObjects g)) (g, 0, 0)) as Hf.
    destruct (foldl sweep_one (g, 0, 0) (elements (deadObjects g))) as [[g' fb] fo].
    cbn [fst] in Hf. destruct Hf as (_ & _ & _ & _ & H5 & _).
    cbn [gc_console]. rewrite allocation_errors_snoc, H5. cbn [is_allocation_error]. lia.
  - apply (closed_performGC (fun s => totalAllocations s = totalAllocations (gc_stats g)));
      [intros size s Hs; exact Hs|intros us s Hs; exact Hs|reflexivity].
Qed.

Lemma gc_track_answers ptr size objectId (g : @GCSimulator B) :
  allocation_errors (gc_console (gc_track ptr size objectId g).2)
  = allocation_errors (gc_console g) /\
  totalAllocations (gc_stats (gc_track ptr size objectId g).2)
  = wrap64 (totalAllocations (gc_stats g) + 1).
Proof.
  unfold gc_track. destruct (gc_due _); cbn [snd].
  - destruct (performGC_answers (gc_record ptr size objectId g)) as [-> ->].
    split; reflexivity.
  - split; reflexivity.
Qed.

Lemma gc_allocate_answers size objectId isArray (g : @GCSimulator B) :
  let g' := (gc_allocate size objectId isArray g).2 in
  (allocation_errors (gc_console g') = allocation_errors (gc_console g) + 1 /\
   totalAllocations (gc_stats g') = totalAllocations (gc_stats g)) \/
  (allocation_errors (gc_console g') = allocation_errors (gc_console g) /\
   totalAllocations (gc_stats g') = wrap64 (totalAllocations (gc_stats g) + 1)).
Proof.
  intros g'. subst g'. rewrite gc_allocate_unfold. cbv zeta.
  destruct (_ =? nullptr).
  - destruct (performGC_answers (gc_with_allocator (allocate size (gc_allocator g)).2 g))
      as [E1 E2].
    cbn [gc_with_allocator gc_console gc_stats] in E1, E2.
    destruct (_ =? nullptr); cbn [snd].
    + left. cbn [gc_print gc_with_allocator gc_console gc_stats].
      rewrite allocation_errors_snoc, E1, E2. split; reflexivity.
    + right. destruct (gc_track_answers
                         (allocate size (gc_allocator (performGC (gc_with_allocator
                            (allocate size (gc_allocator g)).2 g)))).1 size objectId
                         (gc_with_allocator
                            (allocate size (gc_allocator (performGC (gc_with_allocator
                               (allocate size (gc_allocator g)).2 g)))).2
                            (performGC (gc_with_allocator
                               (allocate size (gc_allocator g)).2 g)))) as [-> ->].
      cbn [gc_with_allocator gc_console gc_stats]. rewrite E1, E2. split; reflexivity.
  - right. destruct (gc_track_answers (allocate size (gc_allocator g)).1 size objectId
                       (gc_with_allocator (allocate size (gc_allocator g)).2 g)) as [-> ->].
    split; reflexivity.
Qed.

Lemma gc_line_answers (line : TraceLine) (t : @TraceReplayer (@GCSimulator B)) :
  let g := memoryManager t in
  let g' := memoryManager (processTraceLine line t) in
  if is_alloc_line line
  then (allocation_errors (gc_console g') = allocation_errors (gc_console g) + 1 /\
        totalAllocations (gc_stats g') = totalAllocations (gc_stats g)) \/
       (allocation_errors (gc_console g') = allocation_errors (gc_console g) /\
        totalAllocations (gc_stats g') = wrap64 (totalAllocations (gc_stats g) + 1))
  else allocation_errors (gc_console g') = allocation_errors (gc_console g) /\
       totalAllocations (gc_stats g') = totalAllocations (gc_stats g).
Proof.
  intros g g'. subst g g'. rewrite process_line_manager.
  destruct line; cbn [is_alloc_line sim_allocate sim_deallocate sim_updateField
                      sim_methodEntry sim_methodExit gc_simulator];
    try (split; reflexivity).
  - apply gc_allocate_answers.
  - destruct (liveObjects t !! objectId); split; reflexivity.
Qed.

Lemma finalGC_answers (g : @GCSimulator B) :
  allocation_errors (gc_console (finalGC g)) = allocation_errors (gc_console g) /\
  totalAllocations (gc_stats (finalGC g)) = totalAllocations (gc_stats g).
Proof.
  unfold finalGC. cbv zeta.
  match goal with |- context [performGC ?x] =>
    destruct (performGC_answers x) as [E1 E2]; rewrite E1, E2 end.
  cbn [gc_print gc_console gc_stats]. rewrite allocation_errors_snoc.
  cbn [is_allocation_error]. split; [lia|reflexivity].
Qed.

(** Every 'N' or 'A' line is answered exactly once, in explicit and in GC
    mode: either the allocation is counted in [totalAllocations] or the
    manager writes that it failed.  So there are at most as many failure
    messages as allocation lines, and "Total Allocations" is the number of
    allocation lines minus the number of failure messages (64-bit
    arithmetic), also after the final collection. *)
Theorem enhanced_allocations_answered (lines : list TraceLine) (b : B)
    (threshold allocThreshold : Z) (verbose : bool) :
  let me := memoryManager (replayTrace lines (new_replayer (new_explicit b) verbose)) in
  let mg := memoryManager
              (replayTrace lines (new_replayer (new_gc b threshold allocThreshold) verbose)) in
  let allocs := Z.of_nat (length (List.filter is_alloc_line lines)) in
  answered allocs (allocation_errors (console me)) (stats me) /\
  answered allocs (allocation_errors (gc_console mg)) (gc_stats mg) /\
  answered allocs (allocation_errors (gc_console (finalGC mg))) (gc_stats (finalGC mg)).
Proof.
  cbv zeta.
  assert (Hfinal : forall n (g : @GCSimulator B),
            answered n (allocation_errors (gc_console g)) (gc_stats g) ->
            answered n (allocation_errors (gc_console (finalGC g))) (gc_stats (finalGC g))).
  { intros n g [Hr Ht]. destruct (finalGC_answers g) as [E1 E2].
    unfold answered. rewrite E1, E2. split; assumption. }
  cut (answered (Z.of_nat (length (List.filter is_alloc_line lines)))
         (allocation_errors
            (console (memoryManager (replayTrace lines (new_replayer (new_explicit b) verbose)))))
         (stats (memoryManager (replayTrace lines (new_replayer (new_explicit b) verbose)))) /\
       answered (Z.of_nat (length (List.filter is_alloc_line lines)))
         (allocation_errors
            (gc_console (memoryManager
               (replayTrace lines (new_replayer (new_gc b threshold allocThreshold) verbose)))))
         (gc_stats (memoryManager
            (replayTrace lines (new_replayer (new_gc b threshold allocThreshold) verbose))))).
  { intros [K1 K2]. split; [exact K1|]. split; [exact K2|apply Hfinal, K2]. }
  clear Hfinal.
  induction lines as [|line lines IH] using rev_ind.
  - split; (split; [unfold allocation_errors; simpl; lia|reflexivity]).
  - destruct IH as [IE IG].
    rewrite !replayTrace_snoc, !filter_snoc_length.
    set (te := replayTrace lines (new_replayer (new_explicit b) verbose)) in *.
    set (tg := replayTrace lines (new_replayer (new_gc b threshold allocThreshold) verbose)) in *.
    split.
    + apply (answered_step (is_alloc_line line) _ _ _ _ _ IE), explicit_line_answers.
    + apply (answered_step (is_alloc_line line) _ _ _ _ _ IG), gc_line_answers.
Qed.

End ManagerAnswers.
